(* ===== verification/_CoqProject ===== *)
-Q . S2P
Prelude.v
Errors.v
Core.v
Snapshot.v
SnapshotFacts.v
Strconv.v
Policy.v
Wire.v
Codec.v
Text.v
Json.v
JsonFacts.v
Base64.v
Holder.v
HolderFacts.v
Source.v
Kv.v
Limits.v
LimitsFacts.v
Breaker.v
Float64.v
Format.v
Sha256.v
HttpText.v
Router.v
RouterFacts.v
Loops.v
Placeholder.v
Restorer.v
Regex.v
Detect.v
Transform.v
Guardrails.v
Construct.v
Scanners.v
Shadow.v
Telemetry.v
Secrets.v
Pipeline.v
PipelineFacts.v
Gateway.v
Keys.v
Adapters.v
AdaptersFacts.v
Sidecars.v
Modules.v
Example.v
Nercheck.v
Contracts.v
ContractsFacts.v
Sandbox.v
Admission.v
Config.v
Redis.v
Sinks.v
Payloads.v
HttpApi.v
HttpApiFacts.v
Streams.v
Snapshotgen.v
AdmissionRunner.v
Startup.v
