(* ===== verification/Prelude.v ===== *)
(** * Model Gateway data plane: a verification development

    The data plane is a Go program that stands between callers and model providers.  A worker
    holds an immutable configuration snapshot and serves each request from the one it leased:
    authenticate the key, evaluate policy, check budgets and rate limits, run guardrails, select
    and order deployments, prepare the payload for each destination (personal data is redacted or
    replaced by placeholders), call providers with failover, restore the placeholders, record what
    happened, mirror a sample to shadow deployments.  Snapshots reach it over a wire format with
    digests; guardrails can be components the gateway did not write, which run in the worker as
    WebAssembly or beside it, and are admitted by a runner that executes a contract suite against
    them in a sandbox.  This library is a shallow embedding of that program with the theorems that
    make it correct.  Paths below are under src/dataplane/internal.

    ** Files and what they model

    Shared ground:
    - [Prelude]: 64-bit integers with their wrap-around, time, the error monad [let!], loops that
      may return ([foldM]), sums, the tactics and hints shared by all files.
    - [Strconv], [Text], [Format], [Json], [JsonFacts], [Base64], [Float64], [Regex]: what the code
      uses of the standard library, executable: decimal numbers, UTF-8, formatted text and
      durations, JSON scanning, printing and decoding, base64, binary64, a backtracking matcher
      with leftmost-first priorities.  [Sha256]: SHA-256 and HMAC, and the two keyed hashes the
      program computes with them (core/identity.go, pii/transform.go).
    - [Errors] (core/errors.go): coded errors, wrapping, [errors.As], retryability.
    - [Core] (core/identity.go, catalog.go, budget.go, trust.go, request.go, ports.go, events.go):
      the data model, API key parsing, pricing, budgets.

    Configuration:
    - [Config] (config/config.go): the worker's settings.
    - [Snapshot], [SnapshotFacts] (core/snapshot.go): building and validating layers, composing
      them, every lookup.
    - [Policy] (policy/policy.go, decode.go): rules, decoding, the per-tenant cache.
    - [Wire], [Codec] (wire/convert.go, codec.go): layers to and from messages, sealing, digests.
    - [Holder], [HolderFacts] (snapshot/holder.go, subscriber.go): the reference-counted current
      and previous generation, as a step relation over atomic loads, compare-and-swaps and
      decrements; the subscriber that refreshes it.
    - [Source] (snapshot/source.go, httpsource.go, subscriber.go): both sources and the polling
      loop as a state machine.

    The request path:
    - [Kv] (core/ports.go, adapters/memkv): the key-value port as the class [KVStore] with laws
      [KVLaws], and the in-memory store as an instance.  [Redis] (adapters/rediskv): the store over
      a Redis server, a class with the laws Redis documents.
    - [Limits], [LimitsFacts] (limits/bucket.go, limiter.go): leases of permits, in-flight slots,
      admission; a fleet of workers over one store and concurrent slot holders as step relations.
    - [Breaker], [Router], [RouterFacts] (router/): the circuit breaker, health scores, selection,
      execution, probing.  [Loops] (router/prober.go, snapshot/subscriber.go): the two background
      loops, [Start], [Stop] and the goroutines between them as one step relation.
    - [Placeholder], [Restorer], [Detect], [Transform], [Payloads] (pii/): the placeholder pattern,
      restoring a whole response and a stream of chunks, the six detectors and their checksums,
      overlap resolution, transforming a payload, the vault, and detection on JSON text.
    - [Guardrails] (guardrails/): the chain and its off-path tasks.  [Construct]
      (gateway/pipeline.go, guardrails/chain.go): the constructors and their options.  [Scanners]
      (adapters/secretscan, injectionheuristics): the built-in ones.  [Sidecars]
      (adapters/guardrailsidecar, wasmguardrail, nersidecar): the protocol components speak.
      [Modules] (wasm/, adapters/wasmguardrail/registry.go): WebAssembly modules, their store, a
      call, and the registry under overlapping updates.  [Example] (src/examples/wasm-guardrail):
      the example component, as a module the engine of [Modules] runs.
    - [Shadow] (shadow/shadow.go), [Telemetry] (telemetry/emitter.go), [Sinks]
      (adapters/redisstream, telemetry/prometheus.go, logsink.go), [Secrets] (secrets/).
    - [Pipeline], [PipelineFacts], [Gateway] (gateway/): the request path over the classes
      [RateLimiter] and [GuardrailChain] the source has as interfaces, the effect of one request on
      the world, and the promises of the whole, with the limiter of [Limits] discharging the laws
      [SlotLaws] the request path relies on.  [Keys]: authentication over the real keyed hash.
    - [HttpText], [HttpApi], [HttpApiFacts] (httpapi/): the HTTP transport.
    - [Adapters], [AdaptersFacts], [Streams] (adapters/openaicompat, anthropic, echo): the
      providers, and their streams under the transport.

    Admission of components:
    - [Contracts], [ContractsFacts] (contracts/): the recorder and the three suites, as a monad of
      computations that may record a failure, exit early, panic, hang or end the process.
    - [Sandbox] (sandbox/sandbox.go): the container a component is examined in.
    - [Admission] (admission/): the runner, its verdict, and the control-plane client.

    The commands (src/dataplane/cmd):
    - [Startup] (cmd/gateway, tracing/tracing.go): the wiring of a worker, as the trace of what it
      opens, serves and closes.
    - [AdmissionRunner] (cmd/admissionrunner): the run, its report and its exit code.
    - [Snapshotgen] (cmd/snapshotgen): the demonstration snapshot.
    - [Nercheck] (cmd/nercheck): the check that a detector counts bytes.

    State is passed explicitly; a fallible function returns a sum with the error on the left; a
    panic is [None], or an [ending] where it may be recovered or end the process.  Maps are [gmap]s, slices lists, Go strings [string] where they are names and
    lists of bytes where they are payloads.  Concurrency is a step relation whose steps are the
    atomic operations of the source; a mutex makes what it protects one step.

    ** What the theorems show

    - The whole gateway ([Gateway], [HttpApiFacts]): every provider call was cleared by every check
      and carries the payload its destination requires; every request is recorded exactly once; no
      request keeps a concurrency slot; a shadow call stands apart from the request it mirrors; the
      transport runs the pipeline once per completion on a leased snapshot it gives back, answers
      every completion, relays a stream restored, shows callers no causes and grants only listed
      origins.  A presented key is admitted only if its secret is one that was issued, or else
      the two secrets spell out a collision of SHA-256 ([Keys]).
    - Configuration ([Config], [SnapshotFacts], [Policy], [Wire], [Codec], [Source], [HolderFacts]):
      settings load exactly when they can be run on; exactly the valid layers are accepted and
      indexed completely; keys resolve inside their tenant with all their budgets; policy takes the
      first matching rule and the cache is transparent as long as a digest names one policy; layers
      survive the wire and a worker serves only what verified; a leased snapshot stays, a retired
      one is never in use, acquiring succeeds, failed refreshes keep the old one.
    - Limits ([LimitsFacts], [Kv], [Redis]): workers leasing from one counter never admit more than
      the limit in a window while the store answers; slots stay within the maximum; the two stores
      answer alike.
    - Routing and providers ([RouterFacts], [Breaker], [AdaptersFacts], [Streams]): selection
      returns exactly the eligible deployments in score order but for the weighted draw, or the
      reason there is none; execution goes through the first candidates in order, calls exactly those
      its breakers let through and ends for one of the reasons it may end for; a breaker refuses
      only after the threshold; once [Stop] has returned neither the prober nor the subscriber acts
      again, and a [Stop] can always return ([Loops]); adapters send the payload on with only what they own changed,
      classify every failure, and relay exactly the payloads of a body, ended cleanly only by the
      terminator in it.
    - Personal data ([Detect], [Transform], [Restorer]): detection is exact, disjoint and checked;
      redacted output does not depend on the values; tokenizing and restoring is the identity;
      restoring a stream equals restoring the whole, for any split into chunks.
    - Guardrails and components ([Guardrails], [Scanners], [Sidecars], [Modules]): the chain
      implements its specification; the secret scanner refuses exactly the payloads that contain a
      credential shape; behind a fail-closed binding a payload goes on exactly when the component
      says so; only bytes a binding's digest vouches for run, and a call of them is contained; the example
      component refuses exactly the payloads its four prefixes occur in, through the engine, the
      protocol and the chain, wherever its runtime puts its buffers ([Example]).
    - Admission ([ContractsFacts], [Sandbox], [Admission]): the verdicts of the store suite and of
      the guardrail suite are exact, and a store that keeps the laws passes; an accepted component
      runs isolated, a verdict vouches only for what was examined, and what runs is what passed.
    - Side channels ([Shadow], [Telemetry], [Sinks], [Secrets]): mirror and emitter are bounded,
      account for everything and drain; a published batch is whole; credentials are the store's
      own, for the reference asked, and fresh.
    - The commands ([Startup], [AdmissionRunner], [Snapshotgen]): whichever step fails, a worker
      closes what it opened, last first, and it closes nothing before it has drained; no published
      component takes the name of a built-in; the runner's exit code says what happened, but for a
      module without a memory; a worker
      accepts the demonstration snapshot, its printed key and every printed model; a detector that
      passes [Nercheck] counts bytes.

    Some lemmas and theorems record behaviour the source's comments do not describe, or that it
    does not intend: [WithTenantLayer_strands_tenant], [lost_probe_locks_out],
    [refusal_releases_unheld_slot], [objective_overrides_health],
    [probe_does_not_close_open_breaker], [forged_placeholder_is_restored], [overlap_leaves_tail],
    [failed_stream_keeps_slot], [shadow_sees_the_original], [tenant_policy_change_ignored],
    [Send_after_Wait_panics], [emitted_after_Close_is_stranded], [invalidation_can_be_lost],
    [tenant_edits_under_same_global_ignored], [sealing_without_version_is_refused],
    [failed_streams_lock_the_key_out], [placeholder_split_across_events],
    [negative_cached_count_is_a_credit], [credential_after_a_line_break_passes],
    [address_at_line_start_breaks_the_payload], [failed_upgrade_keeps_the_old_module],
    [blanker_passes_on_a_shared_fixture], [panic_under_a_deadline_ends_the_run],
    [module_without_memory_panics_the_host], [memoryless_module_ends_the_run],
    [long_kind_defeats_the_stream], [signed_text_parts_them],
    [nan_passes_as_a_ratio], [short_window_never_counts], [unsolicited_304_crashes_startup],
    [unread_command_lines_look_like_verdicts] and others beside them.

    ** Parameters

    Code that is not in the repository is an argument of what uses it: protobuf encoding, the WebAssembly engine (the
    class [Engine], whose instances may be without a memory), the Redis server (the class [Server] with [ServerLaws]), HTTP clients and what
    they get back, providers, the recogniser sidecar, the Go runtime inside a module
    (the class [Heap] with [HeapLaws]), the credential store, the container runtime
    and the host's files and directories, random draws, and the clock: each reading is a separate
    reading [clk n], with no relation assumed between readings.  So are the parts of the standard
    library that come down to tables or to correct rounding: [math.Exp2], reading and printing a
    floating-point number, which runes are printable, lower-casing outside ASCII, parsing of
    addresses.  The request path and the wire format also take HMAC-SHA256 ([ComputeKeyLookup],
    [hmac12]) and SHA-256 as arguments, so that what they promise does not rest on a hash; [Sha256]
    has the functions themselves, executable and checked on the published vectors, and [Keys] and
    [Snapshotgen] use them.  Where a property needs one of them to behave, the hypothesis is named in it and a
    witness instantiates it.

    ** Recursion

    Loops over slices are structural.  [FormatInt] produces at most 20 digits, enough for 64
    bits; a repetition in [Regex] is bounded by the bytes that remain, since each round of the
    patterns used consumes one; [ParseDuration] reads a term per byte at most; scanning for
    placeholders, JSON and matches is structural on the text.  [relay] has one round of fuel per
    chunk a stream has left, and running out is a value of its own that the theorems exclude;
    [read_stream] has the ten thousand chunks the suite itself is bounded by.  [awaitSocket] and
    the polling loop go over what is observed, and are shown to return when it contains an end.

    ** Not modelled

    What an exporter does with a trace, the content of log lines beyond their message, the values
    of flags (the records they fill are the arguments), the development aid cmd/devredis, which runs
    a third-party server and has no logic of its own, when the tickers of background loops fire (a
    step may be taken whenever it is enabled), and the rendering of a suite's report with its
    durations.  The code generated from the .proto files is behind the classes that state what
    encoding promises.  Messages are records of the fields the program knows, without unknown
    fields; [Verdict] is the type of its three values; reference counts of snapshots and the
    subscriber's counters are unbounded integers; a panic inside a provider's client is not a step of
    [Pipeline] (a panic of the handler is one of [HttpApi]).  What is left of the source beside these is interfaces, options that only set
    a logger, and accessors. *)
From Stdlib Require Import ZArith Lia.
From stdpp Require Import base gmap strings list sorting numbers.

(** ** Machine integers *)

(** Go's [int64] arithmetic wraps modulo 2^64 into [-2^63, 2^63). *)
Definition int64_min : Z := -9223372036854775808.
Definition int64_max : Z := 9223372036854775807.
Definition wrap64 (z : Z) : Z :=
  ((z + 9223372036854775808) mod 18446744073709551616 - 9223372036854775808)%Z.

Definition in_int64 (z : Z) : Prop := (int64_min <= z <= int64_max)%Z.

(** Go's [uint32] fields hold values of this range. *)
Definition in_uint32 (z : Z) : Prop := (0 <= z < 4294967296)%Z.

(** ** Time

    A [time.Time] is the number of nanoseconds since Go's zero time, so the zero
    value is [0]; a [time.Duration] is an [int64] count of nanoseconds. *)
Abbreviation time := Z (only parsing).
Abbreviation duration := Z (only parsing).

Definition Nanosecond : duration := 1%Z.
Definition Millisecond : duration := 1000000%Z.
Definition Second : duration := 1000000000%Z.
Definition Minute : duration := (60 * Second)%Z.
Definition Hour : duration := (60 * Minute)%Z.

Definition IsZero (t : time) : bool := Z.eqb t 0.
Definition After (t u : time) : bool := Z.ltb u t.
Definition Before (t u : time) : bool := Z.ltb t u.

(** [Time.Sub] saturates instead of overflowing. *)
Definition Sub (t u : time) : duration :=
  Z.max int64_min (Z.min int64_max (t - u)).

(** [Time.Truncate] rounds down to a multiple of [d] since the zero time. *)
Definition Truncate (t : time) (d : duration) : time :=
  if (d <=? 0)%Z then t else (t - t mod d)%Z.

(** [Time.Unix]: whole seconds since 1970-01-01, which lies this far after the zero time. *)
Definition unix_epoch_seconds : Z := 62135596800.
Definition Unix (t : time) : Z := (t / Second - unix_epoch_seconds)%Z.

(** ** Results

    A fallible Go function returning [(T, error)] is a sum: [inl] the error, [inr] the value. *)
Declare Scope gw_scope.
Delimit Scope gw_scope with gw.
Notation "'let!' x := e1 'in' e2" :=
  (match e1 with inl err => inl err | inr x => e2 end)
  (at level 10, x pattern, e1 at level 200, e2 at level 200) : gw_scope.
Open Scope gw_scope.

(** A Go [for range] loop whose body may return an error out of the function. *)
Fixpoint foldM {E A B : Type} (f : B -> A -> E + B) (b : B) (l : list A) : E + B :=
  match l with
  | [] => inr b
  | x :: l' => let! b' := f b x in foldM f b' l'
  end.

(** ** Tactics *)

Ltac invert H := inversion H; subst; clear H.

(** Take every [match]/[if] of the hypotheses apart and close the impossible branches. *)
Ltac break_match_hyp :=
  repeat match goal with
  | H : context [match ?x with _ => _ end] |- _ => destruct x eqn:?; simplify_eq/=
  end.
Ltac break_match_goal :=
  repeat match goal with
  | |- context [match ?x with _ => _ end] => destruct x eqn:?; simplify_eq/=
  end.

(** Boolean integer tests as propositions. *)
Ltac zify_bools :=
  repeat match goal with
  | H : (_ && _)%bool = true |- _ => apply andb_true_iff in H; destruct H
  | H : (_ || _)%bool = false |- _ => apply orb_false_iff in H; destruct H
  | H : negb _ = true |- _ => apply negb_true_iff in H
  | H : negb _ = false |- _ => apply negb_false_iff in H
  | H : Z.ltb _ _ = true |- _ => apply Z.ltb_lt in H
  | H : Z.ltb _ _ = false |- _ => apply Z.ltb_ge in H
  | H : Z.leb _ _ = true |- _ => apply Z.leb_le in H
  | H : Z.leb _ _ = false |- _ => apply Z.leb_gt in H
  | H : Z.gtb _ _ = _ |- _ => rewrite Z.gtb_ltb in H
  | H : Z.geb _ _ = _ |- _ => rewrite Z.geb_leb in H
  | H : Z.eqb _ _ = true |- _ => apply Z.eqb_eq in H
  | H : Z.eqb _ _ = false |- _ => apply Z.eqb_neq in H
  | H : String.eqb _ _ = true |- _ => apply String.eqb_eq in H
  | H : String.eqb _ _ = false |- _ => apply String.eqb_neq in H
  | H : bool_decide _ = true |- _ => apply bool_decide_eq_true in H
  | H : bool_decide _ = false |- _ => apply bool_decide_eq_false in H
  end.

(** ** Shared lemmas *)

Lemma wrap64_id z : in_int64 z -> wrap64 z = z.
Proof.
  unfold in_int64, wrap64, int64_min, int64_max. intros H.
  rewrite Z.mod_small by lia. lia.
Qed.

Lemma wrap64_range z : in_int64 (wrap64 z).
Proof.
  unfold in_int64, wrap64, int64_min, int64_max.
  pose proof (Z.mod_pos_bound (z + 9223372036854775808) 18446744073709551616). lia.
Qed.

Section FoldM.
Context {E A B : Type}.
Implicit Types (f : B -> A -> E + B) (l : list A).

Lemma foldM_app f b l1 l2 :
  foldM f b (l1 ++ l2) = let! b' := foldM f b l1 in foldM f b' l2.
Proof.
  revert b. induction l1 as [|x l1 IH]; intros b; simpl; [done|].
  destruct (f b x); [done|]. apply IH.
Qed.

(** Loop invariant: [P done acc] relates the elements already processed to the accumulator. *)
Lemma foldM_ind (P : list A -> B -> Prop) f b0 l b :
  P [] b0 ->
  (forall pre x b1 b2, pre ++ [x] `prefix_of` l -> P pre b1 -> f b1 x = inr b2 -> P (pre ++ [x]) b2) ->
  foldM f b0 l = inr b -> P l b.
Proof.
  intros H0 Hstep.
  enough (forall pre b1, P pre b1 -> forall suf, l = pre ++ suf -> foldM f b1 suf = inr b -> P l b)
    as H by (intros; by eapply (H [] b0 H0 l)).
  intros pre b1 HP suf. revert pre b1 HP.
  induction suf as [|x suf IH]; intros pre b1 HP -> Hf; simpl in Hf.
  - simplify_eq. by rewrite app_nil_r.
  - destruct (f b1 x) as [|b2] eqn:Hx; [done|].
    eapply (IH (pre ++ [x]) b2); [|by rewrite <- app_assoc|done].
    eapply Hstep; [|done|done]. rewrite <- app_nil_r at 1. exists suf. by rewrite app_nil_r, <- app_assoc.
Qed.

(** The loop fails exactly when some step fails from a reachable accumulator. *)
Lemma foldM_error f b0 l e :
  foldM f b0 l = inl e ->
  exists pre x suf b1, l = pre ++ x :: suf /\ foldM f b0 pre = inr b1 /\ f b1 x = inl e.
Proof.
  revert b0. induction l as [|x l IH]; intros b0 H; simpl in H; [done|].
  destruct (f b0 x) as [e'|b1] eqn:Hx.
  - simplify_eq. by exists [], x, l, b0.
  - destruct (IH _ H) as (pre & y & suf & b2 & -> & Hp & Hy).
    exists (x :: pre), y, suf, b2. simpl. by rewrite Hx.
Qed.

(** A loop whose body validates an element, refuses a repeated key, and updates: it succeeds
    exactly when every element is valid and the keys are fresh and distinct. *)
Lemma foldM_distinct {K : Type} (ok : A -> Prop) (key : A -> K) (has : B -> K -> Prop)
    (upd : B -> A -> B) f :
  (forall b x b', f b x = inr b' <-> ok x /\ ~ has b (key x) /\ b' = upd b x) ->
  (forall b x k, has (upd b x) k <-> k = key x \/ has b k) ->
  forall l b b', foldM f b l = inr b' <->
    Forall ok l /\ NoDup (key <$> l) /\ Forall (fun x => ~ has b (key x)) l /\ b' = foldl upd b l.
Proof.
  intros Hf Hhas. induction l as [|x l IH]; intros b b'; simpl.
  - split; [intros ?; simplify_eq; repeat constructor|naive_solver].
  - rewrite !list.Forall_cons, list.NoDup_cons, list_elem_of_fmap.
    destruct (f b x) as [e|b1] eqn:Hx.
    + split; [done|]. intros ((Hok & _) & _ & (Hh & _) & _).
      pose proof (proj2 (Hf b x (upd b x))). rewrite Hx in *. naive_solver.
    + apply Hf in Hx as (Hok & Hh & ->). rewrite IH, !list.Forall_forall. setoid_rewrite Hhas.
      split.
      * intros (H1 & H2 & H3 & ->). repeat split; try done.
        -- intros (y & Hy & Hin). apply (H3 y Hin). by left.
        -- intros y Hin Hb. apply (H3 y Hin). by right.
      * intros ((_ & H1) & (H2 & H3) & (_ & H4) & ->). repeat split; try done.
        intros y Hin [Hy|Hb]; [|by apply (H4 y Hin)]. apply H2. by exists y.
Qed.

(** A loop whose body validates an element and updates. *)
Lemma foldM_validate (ok : A -> Prop) (upd : B -> A -> B) f :
  (forall b x b', f b x = inr b' <-> ok x /\ b' = upd b x) ->
  forall l b b', foldM f b l = inr b' <-> Forall ok l /\ b' = foldl upd b l.
Proof.
  intros Hf. induction l as [|x l IH]; intros b b'; simpl.
  - split; [intros ?; simplify_eq; split; [constructor|done]|naive_solver].
  - rewrite list.Forall_cons. destruct (f b x) as [e|b1] eqn:Hx.
    + split; [done|]. intros ((Hok & _) & _).
      pose proof (proj2 (Hf b x (upd b x))). rewrite Hx in *. naive_solver.
    + apply Hf in Hx as (Hok & ->). rewrite IH. naive_solver.
Qed.

(** Every error a loop returns comes from its body. *)
Lemma foldM_error_code (P : E -> Prop) f :
  (forall b x e, f b x = inl e -> P e) -> forall l b e, foldM f b l = inl e -> P e.
Proof.
  intros Hf l b e H. apply foldM_error in H as (? & x & ? & b1 & _ & _ & Hx). by eapply Hf.
Qed.
End FoldM.

(** A loop that only checks. *)
Lemma foldM_check {E A} (ok : A -> Prop) (f : unit -> A -> E + unit) :
  (forall x, f tt x = inr tt <-> ok x) ->
  forall l, foldM f tt l = inr tt <-> Forall ok l.
Proof.
  intros Hf l. rewrite (foldM_validate ok (fun _ _ => tt)).
  - destruct (foldl _ tt l). tauto.
  - intros [] x []. rewrite Hf. tauto.
Qed.

(** Appending each element to the bucket of its key indexes the list by key, in order. *)
Lemma foldl_bucket {K A} `{Countable K} (key : A -> K) (P : A -> Prop) `{!forall x, Decision (P x)}
    (l : list A) (m : gmap K (list A)) k :
  default [] (foldl (fun m x => if decide (P x) then <[key x := default [] (m !! key x) ++ [x]]> m else m)
                m l !! k)
  = default [] (m !! k) ++ filter (fun x => P x /\ key x = k) l.
Proof.
  revert m. induction l as [|x l IH]; intros m; cbn [foldl]; [by rewrite app_nil_r|].
  rewrite IH, filter_cons. destruct (decide (P x)) as [Hp|Hp].
  - destruct (decide (key x = k)) as [<-|Hk].
    + rewrite lookup_insert_eq, decide_True by done. simpl. by rewrite <- app_assoc.
    + rewrite lookup_insert_ne, decide_False by naive_solver. done.
  - rewrite decide_False by naive_solver. done.
Qed.

Lemma foldl_insert_lookup {K A} `{Countable K} (key : A -> K) (l : list A) (m : gmap K A) k x :
  foldl (fun m x => <[key x := x]> m) m l !! k = Some x ->
  (x ∈ l /\ key x = k) \/ m !! k = Some x.
Proof.
  revert m. induction l as [|y l IH]; intros m Hl; cbn [foldl] in Hl; [by right|].
  apply IH in Hl as [[Hin Hk]|Hl]; [left; split; [by right|done]|].
  apply lookup_insert_Some in Hl as [[? ->]|[? Hl]]; [left; split; [by left|done]|by right].
Qed.

Lemma foldl_insert_distinct {K A} `{Countable K} (key : A -> K) (l : list A) (m : gmap K A) x :
  NoDup (key <$> l) -> x ∈ l -> foldl (fun m x => <[key x := x]> m) m l !! key x = Some x.
Proof.
  revert m. induction l as [|y l IH]; intros m; cbn [foldl fmap list_fmap]; [set_solver|].
  intros [Hn Hd]%list.NoDup_cons [->|Hin]%elem_of_cons; [|by apply IH].
  clear IH. destruct (foldl _ _ l !! key y) as [z|] eqn:E.
  - apply foldl_insert_lookup in E as [[Hin Hk]|E].
    + exfalso. apply Hn. apply list_elem_of_fmap. by exists z.
    + by rewrite lookup_insert_eq in E.
  - exfalso. revert E. generalize (lookup_insert_eq m (key y) y).
    generalize (<[key y:=y]> m). clear Hn Hd. induction l as [|z l IH]; intros m' Hm; cbn [foldl].
    + by rewrite Hm.
    + destruct (decide (key z = key y)) as [Hz|Hz].
      * rewrite Hz. clear IH Hm. intros Hf.
        enough (forall l (m : gmap K A) k, is_Some (m !! k) ->
                  is_Some (foldl (fun m x => <[key x := x]> m) m l !! k)) as Hsome.
        { destruct (Hsome l (<[key y := z]> m') (key y)) as [? Hs]; [rewrite lookup_insert_eq; eauto|].
          by rewrite Hs in Hf. }
        clear. induction l as [|x l IH]; intros m k Hk; cbn [foldl]; [done|].
        apply IH. rewrite lookup_insert. case_decide; eauto.
      * apply IH. by rewrite lookup_insert_ne.
Qed.

(** Sums over a list and how an indexed update changes them. *)
Definition sumZ {A} (f : A -> Z) (l : list A) : Z := foldr (fun x acc => (f x + acc)%Z) 0%Z l.

Lemma sumZ_app {A} (f : A -> Z) l1 l2 : sumZ f (l1 ++ l2) = (sumZ f l1 + sumZ f l2)%Z.
Proof. induction l1 as [|x l1 IH]; simpl; lia. Qed.

Lemma sumZ_insert {A} (f : A -> Z) l i x y :
  l !! i = Some x -> sumZ f (<[i := y]> l) = (sumZ f l - f x + f y)%Z.
Proof.
  revert i. induction l as [|z l IH]; intros [|i] H; simplify_eq/=; [lia|].
  rewrite (IH _ H). lia.
Qed.

Lemma sumZ_le {A} (f g : A -> Z) l :
  Forall (fun x => (f x <= g x)%Z) l -> (sumZ f l <= sumZ g l)%Z.
Proof. induction 1; simpl; lia. Qed.

Lemma sumZ_nonneg {A} (f : A -> Z) l : Forall (fun x => (0 <= f x)%Z) l -> (0 <= sumZ f l)%Z.
Proof. induction 1; simpl; lia. Qed.

Lemma sumZ_elem {A} (f : A -> Z) l i x :
  Forall (fun x => (0 <= f x)%Z) l -> l !! i = Some x -> (f x <= sumZ f l)%Z.
Proof.
  intros H. revert i. induction H as [|y l Hy Hl IH]; intros [|i] E; simplify_eq/=.
  - pose proof (sumZ_nonneg f l Hl). lia.
  - pose proof (IH _ E). lia.
Qed.

Lemma Sub_exact t u : in_int64 (t - u) -> Sub t u = (t - u)%Z.
Proof. unfold in_int64, Sub. lia. Qed.

Lemma Truncate_bounds t d :
  (0 < d)%Z -> (Truncate t d <= t < Truncate t d + d)%Z.
Proof.
  intros Hd. unfold Truncate. destruct (d <=? 0)%Z eqn:E; zify_bools; [lia|].
  pose proof (Z.mod_pos_bound t d). lia.
Qed.

Lemma Truncate_idemp_window t u d :
  (0 < d)%Z -> (Truncate t d <= u < Truncate t d + d)%Z -> Truncate u d = Truncate t d.
Proof.
  intros Hd. unfold Truncate. destruct (d <=? 0)%Z eqn:E; zify_bools; [lia|].
  intros H. pose proof (Z.div_mod t d). pose proof (Z.div_mod u d).
  pose proof (Z.mod_pos_bound t d). pose proof (Z.mod_pos_bound u d).
  assert (u / d = t / d)%Z; [|nia].
  symmetry. apply Z.div_unique with (u - d * (t / d))%Z; [left; lia|lia].
Qed.

Create HintDb gw.
#[export] Hint Resolve wrap64_id wrap64_range : gw.
