(* ===== verification/Errors.v ===== *)
(** * The gateway's error type (core/errors.go)

    Codes are the stable strings of the public contract.  An [error] value is either the
    gateway's own [*core.Error] or an error of some other package; both may wrap a cause.
    A message is kept as its format string with the formatted arguments; [Format] renders it. *)
From S2P Require Import Prelude.
From Stdlib Require Import ZArith Lia.
From stdpp Require Import base gmap strings list.

(** ** Codes *)

Definition Code := string.
Definition CodeUnauthenticated : Code := "unauthenticated".
Definition CodeForbidden : Code := "forbidden".
Definition CodeInvalidRequest : Code := "invalid_request".
Definition CodeModelNotFound : Code := "model_not_found".
Definition CodeNoCandidates : Code := "no_candidates".
Definition CodeTrustTierDenied : Code := "trust_tier_denied".
Definition CodeRateLimited : Code := "rate_limited".
Definition CodeBudgetExhausted : Code := "budget_exhausted".
Definition CodeEndpointUnsupported : Code := "endpoint_unsupported".
Definition CodeGuardrailDenied : Code := "guardrail_denied".
Definition CodeUpstreamError : Code := "upstream_error".
Definition CodeUpstreamTimeout : Code := "upstream_timeout".
Definition CodeUnavailable : Code := "unavailable".
Definition CodeInternal : Code := "internal".

(** ** Errors *)

(** The argument of a formatting verb. *)
Inductive fmt_arg :=
| AStr (s : string)
| AInt (z : Z)
| ADur (d : duration).

Record message := Msg { msg_format : string; msg_args : list fmt_arg }.

Definition no_message : message := Msg "" [].

(** [GwError] is a [*core.Error]; [Foreign] is an error value of any other type, with what
    its [Unwrap] returns. *)
#[local] Set Warnings "-register-all".
Inductive error :=
| GwError (code : Code) (msg : message) (retryable : bool) (cause : option error)
| Foreign (text : string) (wrapped : option error).

(** [Unwrap]. *)
Definition Unwrap (e : error) : option error :=
  match e with
  | GwError _ _ _ cause => cause
  | Foreign _ wrapped => wrapped
  end.

(** [errors.As(err, &e)] for [e *Error]: the first [*Error] along the wrap chain. *)
Fixpoint errors_As (e : error) : option (Code * message * bool) :=
  match e with
  | GwError code msg retryable _ => Some (code, msg, retryable)
  | Foreign _ (Some w) => errors_As w
  | Foreign _ None => None
  end.

(** [Error.Is], the method: match on the code alone. *)
Definition Error_Is (code : Code) (target : error) : bool :=
  match errors_As target with
  | None => false
  | Some (tcode, _, _) => bool_decide (code = tcode)
  end.

(** [errors.Is(err, target)] for a gateway target: some [*Error] of the chain matches it. *)
Fixpoint errors_Is (e target : error) : bool :=
  match e with
  | GwError code _ _ cause =>
      Error_Is code target
      || match cause with Some c => errors_Is c target | None => false end
  | Foreign _ (Some w) => errors_Is w target
  | Foreign _ None => false
  end.

(** [errors.Is(err, target)] for a plain error value of another package, named by its text. *)
Fixpoint wraps (target : string) (e : error) : bool :=
  match e with
  | GwError _ _ _ cause => match cause with Some c => wraps target c | None => false end
  | Foreign t (Some w) => wraps target w
  | Foreign t None => bool_decide (t = target)
  end.

(** [AsRetryable] on a [*Error]; other errors do not have the method. *)
Definition AsRetryable (e : error) : error :=
  match e with
  | GwError code msg _ cause => GwError code msg true cause
  | Foreign _ _ => e
  end.

Definition New (code : Code) (text : string) : error := GwError code (Msg text []) false None.

Definition Newf (code : Code) (format : string) (args : list fmt_arg) : error :=
  GwError code (Msg format args) false None.

(** [Wrap], [WrapRetryable] and [Wrapf] return nil for a nil cause. *)
Definition Wrap (code : Code) (cause : option error) (text : string) : option error :=
  match cause with
  | None => None
  | Some _ => Some (GwError code (Msg text []) false cause)
  end.

Definition WrapRetryable (code : Code) (cause : option error) (text : string) : option error :=
  match cause with
  | None => None
  | Some _ => Some (GwError code (Msg text []) true cause)
  end.

Definition Wrapf (code : Code) (cause : option error) (format : string) (args : list fmt_arg)
    : option error :=
  match cause with
  | None => None
  | Some _ => Some (GwError code (Msg format args) false cause)
  end.

Definition CodeOf (err : option error) : Code :=
  match err with
  | None => ""
  | Some e => match errors_As e with
              | Some (code, _, _) => code
              | None => CodeInternal
              end
  end.

Definition IsRetryable (err : option error) : bool :=
  match err with
  | None => false
  | Some e => match errors_As e with
              | Some (_, _, retryable) => retryable
              | None => false
              end
  end.

(** ** Lemmas *)

(** Wrapping decides the code and the retryability afresh: neither is inherited. *)
Lemma Wrap_spec code cause text e :
  Wrap code cause text = Some e ->
  CodeOf (Some e) = code /\ IsRetryable (Some e) = false /\ Unwrap e = cause.
Proof. destruct cause; naive_solver. Qed.

Lemma CodeOf_New code text : CodeOf (Some (New code text)) = code.
Proof. done. Qed.

Lemma CodeOf_Newf code f a : CodeOf (Some (Newf code f a)) = code.
Proof. done. Qed.

Lemma IsRetryable_New code text : IsRetryable (Some (New code text)) = false.
Proof. done. Qed.

(** A retryable error is always one of the gateway's own along the chain. *)
Lemma IsRetryable_As e : IsRetryable (Some e) = true -> is_Some (errors_As e).
Proof. simpl. destruct (errors_As e); naive_solver. Qed.

(** [errors.Is] against a code-only sentinel finds at least what [CodeOf] reports. *)
Lemma errors_Is_CodeOf e code :
  is_Some (errors_As e) -> CodeOf (Some e) = code ->
  errors_Is e (GwError code no_message false None) = true.
Proof.
  revert e. fix IH 1. intros [c m r cause|t [w|]]; simpl.
  - intros _ ->. unfold Error_Is. simpl. by rewrite bool_decide_eq_true_2.
  - apply IH.
  - by intros [? ?].
Qed.
