(* ===== verification/Core.v ===== *)
(** * The domain vocabulary (core/trust.go, catalog.go, budget.go, identity.go, request.go,
      ports.go, events.go)

    Plain data as records with the source's fields, and the pure operations the request path
    computes with them: trust tiers, prices, budgets, key parsing, allowlists, limits. *)
From S2P Require Import Prelude Errors.
From Stdlib Require Import ZArith Lia Ascii.
From stdpp Require Import base gmap strings list.
Open Scope Z_scope.
Open Scope gw_scope.

(** A [[]byte] or the bytes of a Go string handled byte by byte. *)
Abbreviation bytes := (list ascii) (only parsing).

(** ** Identifiers *)
Definition TenantID := string.
Definition KeyID := string.
Definition KeyPrefix := string.
Definition DeploymentID := string.
Definition BudgetID := string.
Definition Role := string.
Definition Capability := string.
Definition Endpoint := string.
Definition PortName := string.
Definition DataClass := string.
Definition MicroUSD := Z.

Definition EndpointChatCompletions : Endpoint := "chat_completions".
Definition EndpointMessages : Endpoint := "messages".
Definition EndpointEmbeddings : Endpoint := "embeddings".

Definition PortProvider : PortName := "provider".
Definition PortGuardrail : PortName := "guardrail".
Definition PortStore : PortName := "store".
Definition PortTelemetry : PortName := "telemetry".

Definition DataClassPublic : DataClass := "public".
Definition DataClassInternal : DataClass := "internal".
Definition DataClassConfidential : DataClass := "confidential".
Definition DataClassRestricted : DataClass := "restricted".

(** ** Trust tiers (core/trust.go) *)
Definition TrustTier := Z.
Definition TrustUnset : TrustTier := 0.
Definition TrustExternal : TrustTier := 1.
Definition TrustPrivateCloud : TrustTier := 2.
Definition TrustInternal : TrustTier := 3.

Definition TrustTier_String (t : TrustTier) : string :=
  if t =? TrustUnset then "unset"
  else if t =? TrustExternal then "external"
  else if t =? TrustPrivateCloud then "private_cloud"
  else if t =? TrustInternal then "internal"
  else "unknown".

Definition Valid (t : TrustTier) : bool := (TrustExternal <=? t) && (t <=? TrustInternal).
Definition AtLeast (t min : TrustTier) : bool := min <=? t.

(** ** Catalog (core/catalog.go) *)
Record RoutingKey := mkRoutingKey { BaseModel : string; AdapterID : string }.

Definition RoutingKey_String (k : RoutingKey) : string :=
  if bool_decide (AdapterID k = "") then BaseModel k else BaseModel k +:+ "+" +:+ AdapterID k.

#[export] Instance RoutingKey_eq_dec : EqDecision RoutingKey.
Proof. solve_decision. Defined.
#[export] Instance RoutingKey_countable : Countable RoutingKey :=
  inj_countable' (fun k => (BaseModel k, AdapterID k)) (fun p => mkRoutingKey p.1 p.2)
    ltac:(by intros []).

Definition IsAdapter (k : RoutingKey) : bool := negb (bool_decide (AdapterID k = "")).

(** What a provider reported it consumed (core/ports.go); the classes are disjoint. *)
Record TokenUsage := mkUsage { Input : Z; CachedInput : Z; CacheWrite : Z; Output : Z }.
Definition NoUsage : TokenUsage := mkUsage 0 0 0 0.

Definition Total (u : TokenUsage) : Z :=
  wrap64 (wrap64 (wrap64 (Input u + CachedInput u) + CacheWrite u) + Output u).
Definition TotalInput (u : TokenUsage) : Z :=
  wrap64 (wrap64 (Input u + CachedInput u) + CacheWrite u).

Record Cost := mkCost {
  InputPer1K : MicroUSD; OutputPer1K : MicroUSD;
  CachedInputPer1K : MicroUSD; CacheWritePer1K : MicroUSD }.
Definition NoCost : Cost := mkCost 0 0 0 0.

(** [Cost.For]: every product and sum wraps; the division truncates toward zero. *)
Definition For (c : Cost) (usage : TokenUsage) : MicroUSD :=
  let cached := if CachedInputPer1K c =? 0 then InputPer1K c else CachedInputPer1K c in
  let write := if CacheWritePer1K c =? 0 then InputPer1K c else CacheWritePer1K c in
  let total :=
    wrap64 (wrap64 (wrap64 (wrap64 (Input usage * InputPer1K c)
                            + wrap64 (CachedInput usage * cached))
                    + wrap64 (CacheWrite usage * write))
            + wrap64 (Output usage * OutputPer1K c)) in
  Z.quot total 1000.

Record Deployment := mkDeployment {
  dep_ID : DeploymentID;
  dep_Key : RoutingKey;
  dep_Provider : string;
  dep_Endpoint : string;
  dep_Region : string;
  dep_TrustTier : TrustTier;
  dep_CredentialRef : string;
  dep_Weight : Z;
  dep_ShadowPercent : Z;
  dep_Cost : Cost;
  dep_Capabilities : list Capability }.

Definition NoDeployment : Deployment :=
  mkDeployment "" (mkRoutingKey "" "") "" "" "" TrustUnset "" 0 0 NoCost [].

Definition Supports (d : Deployment) (required : list Capability) : bool :=
  forallb (fun want => bool_decide (want ∈ dep_Capabilities d)) required.
Definition Serving (d : Deployment) : bool := 0 <? dep_Weight d.
Definition Shadowing (d : Deployment) : bool := (0 <? dep_ShadowPercent d) && IsAdapter (dep_Key d).

Record ModelAlias := mkAlias { alias_Name : string; alias_Targets : list RoutingKey }.

(** ** Budgets (core/budget.go) *)
Definition BudgetScope := Z.
Definition BudgetScopeUnset : BudgetScope := 0.
Definition BudgetScopeKey : BudgetScope := 1.
Definition BudgetScopeApp : BudgetScope := 2.
Definition BudgetScopeUser : BudgetScope := 3.
Definition BudgetScopeTeam : BudgetScope := 4.
Definition BudgetScopeOrg : BudgetScope := 5.
Definition BudgetScopeModel : BudgetScope := 6.
Definition BudgetScopeTraining : BudgetScope := 7.

Definition basisPointsPerUnit : Z := 10000.

Record BudgetRef := mkBudgetRef { ref_ID : BudgetID; ref_Scope : BudgetScope }.

Record BudgetState := mkBudget {
  bud_ID : BudgetID;
  bud_Scope : BudgetScope;
  LimitMicroUSD : MicroUSD;
  SpentMicroUSD : MicroUSD;
  Hard : bool;
  HeadroomBasisPoints : Z }.

Definition Available (b : BudgetState) : MicroUSD :=
  let reserved := Z.quot (wrap64 (LimitMicroUSD b * HeadroomBasisPoints b)) basisPointsPerUnit in
  let remaining := wrap64 (wrap64 (LimitMicroUSD b - reserved) - SpentMicroUSD b) in
  if remaining <? 0 then 0 else remaining.

Definition Denies (b : BudgetState) : bool := Hard b && (Available b =? 0).

(** ** Identity (core/identity.go) *)

(** A [KeyLookup] is a 32-byte array. *)
Definition KeyLookup := list ascii.

Record ModelAllowlist := mkAllowlist { AllowAll : bool; Names : list string }.

Definition Permits (a : ModelAllowlist) (name : string) : bool :=
  if AllowAll a then true else existsb (fun n => bool_decide (n = name)) (Names a).

Record RateLimit := mkRateLimit {
  RequestsPerMinute : Z; TokensPerMinute : Z; MaxConcurrent : Z }.
Definition NoLimits : RateLimit := mkRateLimit 0 0 0.

Definition Unlimited (r : RateLimit) : bool :=
  (RequestsPerMinute r =? 0) && (TokensPerMinute r =? 0) && (MaxConcurrent r =? 0).

Record Principal := mkPrincipal {
  p_KeyID : KeyID;
  p_Tenant : TenantID;
  p_Org : string;
  p_Team : string;
  p_User : string;
  p_App : string;
  p_Roles : list Role;
  p_Models : ModelAllowlist;
  p_Budgets : list BudgetRef;
  p_DefaultClass : DataClass;
  p_MinTrustTier : TrustTier;
  p_Limits : RateLimit;
  p_Deprecated : bool;
  p_NotAfter : time }.

(** The zero [Principal]. *)
Definition NoPrincipal : Principal :=
  mkPrincipal "" "" "" "" "" "" [] (mkAllowlist false []) [] "" TrustUnset NoLimits false 0.

(** [Principal.Validate]. *)
Definition Validate (p : Principal) (now : time) : option error :=
  if negb (IsZero (p_NotAfter p)) && After now (p_NotAfter p)
  then Some (New CodeUnauthenticated "api key has expired")
  else None.

(** [strings.Cut(s, sep)] for a one-byte separator. *)
Fixpoint cut (sep : ascii) (s : string) : option (string * string) :=
  match s with
  | EmptyString => None
  | String c s' =>
      if bool_decide (c = sep) then Some (EmptyString, s')
      else match cut sep s' with
           | Some (before, after) => Some (String c before, after)
           | None => None
           end
  end.

(** [strings.CutPrefix]: also what [HasPrefix] plus slicing computes. *)
Fixpoint cut_prefix (pre s : string) : option string :=
  match pre, s with
  | EmptyString, _ => Some s
  | String c pre', String d s' => if bool_decide (c = d) then cut_prefix pre' s' else None
  | String _ _, EmptyString => None
  end.

Definition ParseAPIKey (presented : string) : error + (KeyPrefix * string) :=
  match cut_prefix "gw_" presented with
  | None => inl (New CodeUnauthenticated "api key has an unrecognised scheme")
  | Some rest =>
      match cut "_" rest with
      | None => inl (New CodeUnauthenticated "api key is malformed")
      | Some (prefix, secret) =>
          if bool_decide (prefix = "") || bool_decide (secret = "")
          then inl (New CodeUnauthenticated "api key is malformed")
          else inr (prefix, secret)
      end
  end.

(** ** Network addresses ([net/netip]) *)
Inductive Addr :=
| AddrInvalid
| Addr4 (v : Z)
| Addr6 (v : Z) (zone : string).

Record Prefix := mkPrefix { prefix_addr : Addr; prefix_bits : Z }.

Definition Addr_IsValid (a : Addr) : bool :=
  match a with AddrInvalid => false | _ => true end.

(** [Prefix.Contains]: same family, no zone, equal leading bits. *)
Definition Prefix_Contains (p : Prefix) (a : Addr) : bool :=
  match prefix_addr p, a with
  | Addr4 v, Addr4 w =>
      (0 <=? prefix_bits p) && (prefix_bits p <=? 32)
      && (Z.shiftr (Z.lxor v w) (32 - prefix_bits p) =? 0)
  | Addr6 v _, Addr6 w zone =>
      (0 <=? prefix_bits p) && (prefix_bits p <=? 128) && bool_decide (zone = "")
      && (Z.shiftr (Z.lxor v w) (128 - prefix_bits p) =? 0)
  | _, _ => false
  end.

(** ** Requests (core/request.go) *)
Record RequestMeta := mkMeta {
  RequestID : string;
  Model : string;
  meta_Endpoint : Endpoint;
  meta_Stream : bool;
  PayloadBytes : Z;
  SourceIP : Addr;
  IdempotencyKey : string;
  ReceivedAt : time;
  Deadline : time }.

(** ** Guardrails (core/ports.go) *)
Inductive Phase := PhaseRequest | PhaseResponse.
Inductive Verdict := VerdictAllow | VerdictDeny | VerdictMutate.
Inductive FailureMode := FailOpen | FailClosed.

#[export] Instance Phase_eq_dec : EqDecision Phase.
Proof. solve_decision. Defined.
#[export] Instance Verdict_eq_dec : EqDecision Verdict.
Proof. solve_decision. Defined.
#[export] Instance FailureMode_eq_dec : EqDecision FailureMode.
Proof. solve_decision. Defined.

Record GuardrailInput := mkGuardIn {
  in_Phase : Phase; in_Meta : RequestMeta; in_Class : DataClass; in_Tier : TrustTier;
  in_Payload : bytes }.

(** [Payload] is nil unless the guardrail set one. *)
Record GuardrailResult := mkGuardOut {
  res_Verdict : Verdict; res_Reason : string; res_Payload : option bytes }.

Record GuardrailBudget := mkGuardBudget {
  bud_Timeout : duration; bud_Mode : FailureMode; bud_Blocking : bool; bud_Phases : list Phase }.

Record GuardrailBinding := mkBinding {
  bind_Component : string; bind_Version : string; bind_ConfigRef : string;
  bind_Execution : string; bind_Module : string; bind_Budget : GuardrailBudget }.

Definition Inspects (b : GuardrailBinding) (phase : Phase) : bool :=
  match bud_Phases (bind_Budget b) with
  | [] => bool_decide (phase = PhaseRequest)
  | phases => bool_decide (phase ∈ phases)
  end.

(** ** Provider port (core/ports.go) *)
Record Credential := mkCredential { cred_Ref : string; cred_Secret : bytes }.
Definition NoCredential : Credential := mkCredential "" [].

Record ProviderCall := mkCall {
  call_Deployment : Deployment; call_Meta : RequestMeta; call_Body : bytes;
  call_Credential : Credential }.

Record ProviderResponse := mkResponse {
  StatusCode : Z; resp_Body : bytes; resp_Usage : TokenUsage }.

Record Chunk := mkChunk { chunk_Body : bytes; chunk_Usage : TokenUsage; chunk_Final : bool }.

(** ** Events (core/events.go) *)
Record StageTiming := mkStage { stage_Name : string; stage_Duration : duration; stage_Outcome : Code }.

Record UsageEvent := mkUsageEvent {
  ev_RequestID : string;
  ev_Timestamp : time;
  ev_Tenant : TenantID;
  ev_KeyID : KeyID;
  ev_Tier : string;
  ev_Deployment : DeploymentID;
  ev_Route : RoutingKey;
  ev_Provider : string;
  ev_Stream : bool;
  ev_Shadow : bool;
  ev_Stages : list StageTiming;
  ev_InputTokens : Z;
  ev_OutputTokens : Z;
  ev_CachedInputTokens : Z;
  ev_CacheWriteTokens : Z;
  ev_CostMicroUSD : MicroUSD;
  ev_PriceMicroUSD : MicroUSD;
  ev_LatencyMs : Z;
  ev_TimeToFirstByte : duration;
  ev_Outcome : Code;
  ev_SnapshotVersion : Z;
  ev_Budgets : list BudgetID }.

Record AuditEvent := mkAuditEvent {
  au_EventID : string;
  au_RequestID : string;
  au_Timestamp : time;
  au_Tenant : TenantID;
  au_Actor : string;
  au_Action : string;
  au_Resource : string;
  au_Outcome : Code;
  au_Reason : string;
  au_SourceIP : Addr;
  au_SnapshotVersion : Z }.

Inductive Event :=
| EvUsage (u : UsageEvent)
| EvAudit (a : AuditEvent).

(** ** Specifications *)

(** What a call costs in thousandths of a micro-dollar, over unbounded integers: each token
    class at its rate, an unconfigured cached or cache-write rate falling back to the input
    rate. *)
Definition exact_cost (c : Cost) (u : TokenUsage) : Z :=
  let rate r := if r =? 0 then InputPer1K c else r in
  Input u * InputPer1K c + CachedInput u * rate (CachedInputPer1K c)
  + CacheWrite u * rate (CacheWritePer1K c) + Output u * OutputPer1K c.

(** Counts and rates are never negative. *)
Definition cost_wf (c : Cost) : Prop :=
  0 <= InputPer1K c /\ 0 <= OutputPer1K c /\ 0 <= CachedInputPer1K c /\ 0 <= CacheWritePer1K c.
Definition usage_wf (u : TokenUsage) : Prop :=
  0 <= Input u /\ 0 <= CachedInput u /\ 0 <= CacheWrite u /\ 0 <= Output u.

(** A budget whose reserve computation cannot overflow: at most about 922 million dollars. *)
Definition budget_wf (b : BudgetState) : Prop :=
  0 <= LimitMicroUSD b <= 922337203685477 /\ 0 <= HeadroomBasisPoints b <= basisPointsPerUnit
  /\ 0 <= SpentMicroUSD b <= int64_max.

Fixpoint contains_char (c : ascii) (s : string) : Prop :=
  match s with
  | EmptyString => False
  | String d s' => c = d \/ contains_char c s'
  end.

(** ** Lemmas *)

#[local] Arguments String.append !_ _ / : simpl nomatch.

Lemma AtLeast_spec t m : AtLeast t m = true <-> m <= t.
Proof. apply Z.leb_le. Qed.

Lemma AtLeast_trans t m m' : AtLeast t m = true -> AtLeast m m' = true -> AtLeast t m' = true.
Proof. rewrite !AtLeast_spec. lia. Qed.

Lemma Permits_spec a name :
  Permits a name = true <-> AllowAll a = true \/ name ∈ Names a.
Proof.
  unfold Permits. destruct (AllowAll a); [naive_solver|].
  rewrite existsb_exists. setoid_rewrite bool_decide_eq_true.
  split.
  - intros (n & Hin & <-). right. by apply list_elem_of_In.
  - intros [?|Hin]; [done|]. exists name. split; [by apply list_elem_of_In|done].
Qed.

Lemma Supports_spec d required :
  Supports d required = true <-> forall want, want ∈ required -> want ∈ dep_Capabilities d.
Proof.
  unfold Supports. rewrite forallb_forall. setoid_rewrite bool_decide_eq_true.
  setoid_rewrite <- list_elem_of_In. done.
Qed.

Lemma cut_Some sep s before after :
  cut sep s = Some (before, after) <->
  s = (before +:+ String sep after) /\ ~ contains_char sep before.
Proof.
  revert before. induction s as [|c s IH]; intros before; simpl.
  - split; [done|]. intros [H _]. by destruct before.
  - case_bool_decide as Hc.
    + subst c. split.
      * intros H. simplify_eq/=. naive_solver.
      * intros [H Hn]. destruct before as [|d before]; simplify_eq/=; [done|].
        exfalso. apply Hn. by left.
    + destruct before as [|d before].
      { split; [by destruct (cut sep s) as [[]|]|]. intros [H _]. by simplify_eq/=. }
      transitivity (c = d /\ cut sep s = Some (before, after)).
      { destruct (cut sep s) as [[]|]; naive_solver. }
      rewrite IH. simpl. naive_solver.
Qed.

Lemma cut_prefix_Some pre s rest : cut_prefix pre s = Some rest <-> s = (pre +:+ rest).
Proof.
  revert s. induction pre as [|c pre IH]; intros s; simpl; [naive_solver|].
  destruct s as [|d s]; simpl; [naive_solver|].
  case_bool_decide; [subst; rewrite IH|]; naive_solver.
Qed.

Lemma exact_cost_nonneg c u : cost_wf c -> usage_wf u -> 0 <= exact_cost c u.
Proof.
  unfold cost_wf, usage_wf, exact_cost. intros Hc Hu.
  destruct (CachedInputPer1K c =? 0), (CacheWritePer1K c =? 0); nia.
Qed.

Lemma wrap64_sum4 a b c d :
  0 <= a -> 0 <= b -> 0 <= c -> 0 <= d -> a + b + c + d <= int64_max ->
  wrap64 (wrap64 (wrap64 (wrap64 a + wrap64 b) + wrap64 c) + wrap64 d) = a + b + c + d.
Proof.
  unfold int64_max. intros.
  rewrite (wrap64_id a), (wrap64_id b), (wrap64_id c), (wrap64_id d),
    (wrap64_id (a + b)), (wrap64_id (a + b + c)), wrap64_id;
    unfold in_int64, int64_min, int64_max; lia.
Qed.

(** Within [int64], the machine computation of the total is exact. *)
Lemma For_exact c u :
  cost_wf c -> usage_wf u -> exact_cost c u <= int64_max ->
  For c u = Z.quot (exact_cost c u) 1000.
Proof.
  unfold cost_wf, usage_wf, exact_cost, For. intros Hc Hu Hmax.
  destruct (CachedInputPer1K c =? 0), (CacheWritePer1K c =? 0);
    rewrite wrap64_sum4; try done; apply Z.mul_nonneg_nonneg; lia.
Qed.

Lemma Available_exact b :
  budget_wf b ->
  Available b = Z.max 0 (LimitMicroUSD b
                         - LimitMicroUSD b * HeadroomBasisPoints b / basisPointsPerUnit
                         - SpentMicroUSD b).
Proof.
  unfold budget_wf, Available, basisPointsPerUnit, int64_max. intros (Hl & Hb & Hs).
  assert (0 <= LimitMicroUSD b * HeadroomBasisPoints b <= LimitMicroUSD b * 10000) by nia.
  rewrite (wrap64_id (LimitMicroUSD b * _)) by (unfold in_int64, int64_min, int64_max; nia).
  rewrite Z.quot_div_nonneg by lia.
  set (r := LimitMicroUSD b * HeadroomBasisPoints b / 10000).
  assert (0 <= r <= LimitMicroUSD b).
  { subst r. split; [apply Z.div_pos; lia|]. apply Z.div_le_upper_bound; lia. }
  rewrite !wrap64_id by (unfold in_int64, int64_min, int64_max; try rewrite wrap64_id; unfold in_int64, int64_min, int64_max; lia).
  destruct (_ <? 0) eqn:E; zify_bools; lia.
Qed.

(** ** Properties *)

(** Key parsing is the exact inverse of the key format: a presented key parses to a prefix
    and a secret if and only if it is [gw_<prefix>_<secret>] with both segments non-empty and no
    underscore in the prefix (the secret may contain them). *)
Theorem ParseAPIKey_spec k prefix secret :
  ParseAPIKey k = inr (prefix, secret) <->
  k = ("gw_" +:+ prefix +:+ "_" +:+ secret)
  /\ prefix <> "" /\ secret <> "" /\ ~ contains_char "_" prefix.
Proof.
  unfold ParseAPIKey. split.
  - destruct (cut_prefix "gw_" k) as [rest|] eqn:E1; [|done].
    apply cut_prefix_Some in E1 as ->.
    destruct (cut "_" rest) as [[p s]|] eqn:E2; [|done].
    apply cut_Some in E2 as [-> Hn].
    destruct (_ || _)%bool eqn:E3; [done|]. intros ?. simplify_eq. zify_bools. done.
  - intros (-> & Hp & Hs & Hn).
    rewrite (proj2 (cut_prefix_Some "gw_" _ _) eq_refl).
    rewrite (proj2 (cut_Some "_" _ prefix secret)) by done.
    by rewrite !bool_decide_eq_false_2.
Qed.

(** Billing never over-charges and loses less than one micro-dollar per request: for
    non-negative rates and counts whose exact total fits in an int64, the charge [q] satisfies
    [1000 * q <= exact < 1000 * q + 1000]. *)
Theorem For_truncates c u :
  cost_wf c -> usage_wf u -> exact_cost c u <= int64_max ->
  1000 * For c u <= exact_cost c u < 1000 * For c u + 1000.
Proof.
  intros Hc Hu Hm. rewrite For_exact by done.
  pose proof (exact_cost_nonneg c u Hc Hu).
  rewrite Z.quot_div_nonneg by lia.
  pose proof (Z.div_mod (exact_cost c u) 1000). pose proof (Z.mod_pos_bound (exact_cost c u) 1000). lia.
Qed.

Definition sample_cost : Cost := mkCost 3000 15000 0 3750.
Definition sample_usage : TokenUsage := mkUsage 1200 801 77 333.

Lemma For_truncates_witness :
  1000 * For sample_cost sample_usage <= exact_cost sample_cost sample_usage
  < 1000 * For sample_cost sample_usage + 1000.
Proof. apply (For_truncates sample_cost sample_usage); vm_compute; intuition discriminate. Defined.

(** A hard budget denies exactly when its spend has reached the limit less the reserved
    headroom (the headroom rounded down), and a soft budget never denies. *)
Theorem Denies_spec b :
  budget_wf b ->
  Denies b = true <->
  Hard b = true /\
  LimitMicroUSD b - LimitMicroUSD b * HeadroomBasisPoints b / basisPointsPerUnit <= SpentMicroUSD b.
Proof.
  intros Hw. unfold Denies. rewrite andb_true_iff, Z.eqb_eq, Available_exact by done.
  apply and_iff_compat_l. unfold basisPointsPerUnit. lia.
Qed.

Lemma Denies_spec_witness :
  Denies (mkBudget "b" BudgetScopeKey 1000000 950000 true 500) = true <->
  true = true /\ 1000000 - 1000000 * 500 / basisPointsPerUnit <= 950000.
Proof.
  apply (Denies_spec (mkBudget "b" BudgetScopeKey 1000000 950000 true 500)).
  vm_compute; intuition discriminate.
Defined.
