(* ===== verification/Snapshot.v ===== *)
(** * Snapshots (core/snapshot.go)

    The immutable configuration a worker serves from: a global layer (catalog, routes, aliases,
    prefixes), one layer per tenant (principals, keys, budgets, overrides), and their
    composition.  Constructors validate once and build the read indexes; lookups are map probes.
    Go maps are finite maps; where the source ranges over a map the order is unspecified, and
    here it is the order of [map_to_list]. *)
From S2P Require Import Prelude Errors Core.
From Stdlib Require Import ZArith Lia Ascii.
From stdpp Require Import base gmap strings list.
Open Scope Z_scope.
Open Scope gw_scope.

Record LayerVersion := mkVersion { Number : Z; Digest : string }.

Record PluginBinding := mkPlugin {
  plug_Port : PortName; plug_Component : string; plug_Version : string; plug_ConfigRef : string }.

(** ** Specs *)
Record GlobalSpec := mkGlobalSpec {
  gs_Version : LayerVersion;
  gs_BuiltAt : time;
  gs_Deployments : list Deployment;
  gs_Aliases : list ModelAlias;
  gs_TenantPrefixes : gmap KeyPrefix TenantID;
  gs_DefaultPlugins : list PluginBinding;
  gs_PolicyBundleRef : string;
  gs_DefaultGuardrails : list GuardrailBinding;
  gs_DefaultPolicy : bytes }.

Record TenantSpec := mkTenantSpec {
  ts_Tenant : TenantID;
  ts_Version : LayerVersion;
  ts_BuiltAt : time;
  ts_Tier : string;
  ts_Principals : list Principal;
  ts_Keys : gmap KeyLookup KeyID;
  ts_AliasOverrides : list ModelAlias;
  ts_Budgets : list BudgetState;
  ts_Plugins : list PluginBinding;
  ts_Guardrails : list GuardrailBinding;
  ts_Policy : bytes;
  ts_MinTrustTier : TrustTier }.

(** ** Layers *)
Record GlobalLayer := mkGlobalLayer {
  g_version : LayerVersion;
  g_builtAt : time;
  g_deployments : gmap DeploymentID Deployment;
  g_shadows : gmap string (list Deployment);
  g_byRoute : gmap RoutingKey (list Deployment);
  g_aliases : gmap string ModelAlias;
  g_tenantByPrefix : gmap KeyPrefix TenantID;
  g_plugins : gmap PortName PluginBinding;
  g_guardrails : list GuardrailBinding;
  g_policy : bytes;
  g_policyBundleRef : string }.

Record TenantLayer := mkTenantLayer {
  t_tenant : TenantID;
  t_version : LayerVersion;
  t_builtAt : time;
  t_tier : string;
  t_principals : gmap KeyID Principal;
  t_keys : gmap KeyLookup KeyID;
  t_aliases : gmap string ModelAlias;
  t_budgets : gmap BudgetID BudgetState;
  t_plugins : gmap PortName PluginBinding;
  t_guardrails : list GuardrailBinding;
  t_policy : bytes;
  t_minTrustTier : TrustTier }.

(** The three indexes [NewGlobalLayer] fills in its deployment loop. *)
Record CatalogIndex := mkIndex {
  ix_deployments : gmap DeploymentID Deployment;
  ix_byRoute : gmap RoutingKey (list Deployment);
  ix_shadows : gmap string (list Deployment) }.

(** A missing key of a Go map of slices reads as the nil slice. *)
Definition slice_at {K A} `{Countable K} (m : gmap K (list A)) (k : K) : list A :=
  default [] (m !! k).

(** The checks of one deployment, in the order of the loop body. *)
Definition checkDeployment (ix : CatalogIndex) (d : Deployment) : error + unit :=
  if bool_decide (dep_ID d = "") then
    inl (New CodeInvalidRequest "deployment has an empty id")
  else if bool_decide (is_Some (ix_deployments ix !! dep_ID d)) then
    inl (Newf CodeInvalidRequest "duplicate deployment id %q" [AStr (dep_ID d)])
  else if bool_decide (BaseModel (dep_Key d) = "") then
    inl (Newf CodeInvalidRequest "deployment %q has no base model" [AStr (dep_ID d)])
  else if negb (Valid (dep_TrustTier d)) then
    inl (Newf CodeInvalidRequest "deployment %q has an unset trust tier" [AStr (dep_ID d)])
  else if 100 <? dep_Weight d then
    inl (Newf CodeInvalidRequest "deployment %q weight %d exceeds 100"
           [AStr (dep_ID d); AInt (dep_Weight d)])
  else if 100 <? dep_ShadowPercent d then
    inl (Newf CodeInvalidRequest "deployment %q shadows %d%% of traffic, which is more than there is"
           [AStr (dep_ID d); AInt (dep_ShadowPercent d)])
  else if (0 <? dep_ShadowPercent d) && negb (IsAdapter (dep_Key d)) then
    inl (Newf CodeInvalidRequest "deployment %q is not an adapter and cannot shadow" [AStr (dep_ID d)])
  else inr tt.

Definition indexDeployment (ix : CatalogIndex) (d : Deployment) : CatalogIndex :=
  mkIndex
    (<[dep_ID d := d]> (ix_deployments ix))
    (<[dep_Key d := slice_at (ix_byRoute ix) (dep_Key d) ++ [d]]> (ix_byRoute ix))
    (if Shadowing d
     then <[BaseModel (dep_Key d) := slice_at (ix_shadows ix) (BaseModel (dep_Key d)) ++ [d]]>
            (ix_shadows ix)
     else ix_shadows ix).

(** One iteration of the deployment loop. *)
Definition addDeployment (ix : CatalogIndex) (d : Deployment) : error + CatalogIndex :=
  let! _ := checkDeployment ix d in inr (indexDeployment ix d).

Definition checkTarget (name : string) (routes : gmap RoutingKey (list Deployment))
    (_ : unit) (t : RoutingKey) : error + unit :=
  match slice_at routes t with
  | [] => inl (Newf CodeInvalidRequest "alias %q targets %q, which has no deployment"
                 [AStr name; AStr (RoutingKey_String t)])
  | _ => inr tt
  end.

Definition validateAlias (a : ModelAlias) (routes : gmap RoutingKey (list Deployment)) : error + unit :=
  if bool_decide (alias_Name a = "") then inl (New CodeInvalidRequest "alias has an empty name")
  else match alias_Targets a with
  | [] => inl (Newf CodeInvalidRequest "alias %q has no targets" [AStr (alias_Name a)])
  | targets => foldM (checkTarget (alias_Name a) routes) tt targets
  end.

Definition addAlias (routes : gmap RoutingKey (list Deployment))
    (m : gmap string ModelAlias) (a : ModelAlias) : error + gmap string ModelAlias :=
  let! _ := validateAlias a routes in inr (<[alias_Name a := a]> m).

Definition addPlugin (format : string) (args : list fmt_arg)
    (m : gmap PortName PluginBinding) (p : PluginBinding) : error + gmap PortName PluginBinding :=
  match m !! plug_Port p with
  | Some _ => inl (Newf CodeInvalidRequest format (args ++ [AStr (plug_Port p)]))
  | None => inr (<[plug_Port p := p]> m)
  end.

Definition NewGlobalLayer (spec : GlobalSpec) : error + GlobalLayer :=
  if Number (gs_Version spec) =? 0 then
    inl (New CodeInvalidRequest "global layer version must be non-zero")
  else
    let! ix := foldM addDeployment (mkIndex ∅ ∅ ∅) (gs_Deployments spec) in
    let! aliases := foldM (addAlias (ix_byRoute ix)) ∅ (gs_Aliases spec) in
    let! plugins := foldM (addPlugin "two default plugins bound to port %q" []) ∅
                      (gs_DefaultPlugins spec) in
    inr (mkGlobalLayer (gs_Version spec) (gs_BuiltAt spec) (ix_deployments ix) (ix_shadows ix)
           (ix_byRoute ix) aliases (gs_TenantPrefixes spec) plugins (gs_DefaultGuardrails spec)
           (gs_DefaultPolicy spec) (gs_PolicyBundleRef spec)).

Definition addBudget (tenant : TenantID) (m : gmap BudgetID BudgetState) (b : BudgetState)
    : error + gmap BudgetID BudgetState :=
  if bool_decide (bud_ID b = "") then
    inl (Newf CodeInvalidRequest "tenant %q has a budget with no id" [AStr tenant])
  else if basisPointsPerUnit <? HeadroomBasisPoints b then
    inl (Newf CodeInvalidRequest "budget %q headroom exceeds 100%%" [AStr (bud_ID b)])
  else inr (<[bud_ID b := b]> m).

Definition checkBudgetRef (key : KeyID) (budgets : gmap BudgetID BudgetState)
    (_ : unit) (ref : BudgetRef) : error + unit :=
  match budgets !! ref_ID ref with
  | Some _ => inr tt
  | None => inl (Newf CodeInvalidRequest "principal %q references unknown budget %q"
                   [AStr key; AStr (ref_ID ref)])
  end.

Definition addPrincipal (tenant : TenantID) (budgets : gmap BudgetID BudgetState)
    (m : gmap KeyID Principal) (p : Principal) : error + gmap KeyID Principal :=
  if bool_decide (p_KeyID p = "") then
    inl (Newf CodeInvalidRequest "tenant %q has a principal with no key id" [AStr tenant])
  else if negb (bool_decide (p_Tenant p = tenant)) then
    inl (Newf CodeInvalidRequest "principal %q belongs to tenant %q, not %q"
           [AStr (p_KeyID p); AStr (p_Tenant p); AStr tenant])
  else
    let! _ := foldM (checkBudgetRef (p_KeyID p) budgets) tt (p_Budgets p) in
    inr (<[p_KeyID p := p]> m).

Definition checkKey (tenant : TenantID) (principals : gmap KeyID Principal)
    (_ : unit) (kv : KeyLookup * KeyID) : error + unit :=
  match principals !! kv.2 with
  | Some _ => inr tt
  | None => inl (Newf CodeInvalidRequest "tenant %q maps a key to unknown principal %q"
                   [AStr tenant; AStr kv.2])
  end.

Definition addOverride (tenant : TenantID) (m : gmap string ModelAlias) (a : ModelAlias)
    : error + gmap string ModelAlias :=
  if bool_decide (alias_Name a = "") || bool_decide (alias_Targets a = []) then
    inl (Newf CodeInvalidRequest "tenant %q has a malformed alias override" [AStr tenant])
  else inr (<[alias_Name a := a]> m).

Definition NewTenantLayer (spec : TenantSpec) : error + TenantLayer :=
  if bool_decide (ts_Tenant spec = "") then
    inl (New CodeInvalidRequest "tenant layer has no tenant id")
  else if Number (ts_Version spec) =? 0 then
    inl (Newf CodeInvalidRequest "tenant %q layer version must be non-zero" [AStr (ts_Tenant spec)])
  else
    let! budgets := foldM (addBudget (ts_Tenant spec)) ∅ (ts_Budgets spec) in
    let! principals := foldM (addPrincipal (ts_Tenant spec) budgets) ∅ (ts_Principals spec) in
    let! _ := foldM (checkKey (ts_Tenant spec) principals) tt (map_to_list (ts_Keys spec)) in
    let! aliases := foldM (addOverride (ts_Tenant spec)) ∅ (ts_AliasOverrides spec) in
    let! plugins := foldM (addPlugin "tenant %q binds two plugins to port %q" [AStr (ts_Tenant spec)])
                      ∅ (ts_Plugins spec) in
    inr (mkTenantLayer (ts_Tenant spec) (ts_Version spec) (ts_BuiltAt spec) (ts_Tier spec)
           principals (ts_Keys spec) aliases budgets plugins (ts_Guardrails spec) (ts_Policy spec)
           (ts_MinTrustTier spec)).

(** ** The composed snapshot *)
Record Snapshot := mkSnapshot { s_global : GlobalLayer; s_tenants : gmap TenantID TenantLayer }.

(** One tenant layer of [Compose]; [None] is a nil pointer. *)
Definition joinTenant (m : gmap TenantID TenantLayer) (t : option TenantLayer)
    : error + gmap TenantID TenantLayer :=
  match t with
  | None => inl (New CodeInvalidRequest "snapshot contains a nil tenant layer")
  | Some t =>
      match m !! t_tenant t with
      | Some _ => inl (Newf CodeInvalidRequest "two layers for tenant %q" [AStr (t_tenant t)])
      | None => inr (<[t_tenant t := t]> m)
      end
  end.

(** The set of tenants some prefix routes to. *)
Definition routed (g : GlobalLayer) : gset TenantID :=
  list_to_set (map_to_list (g_tenantByPrefix g)).*2.

Definition checkRouted (g : GlobalLayer) (_ : unit) (tenant : TenantID) : error + unit :=
  if bool_decide (tenant ∈ routed g) then inr tt
  else inl (Newf CodeInvalidRequest "tenant %q has a layer but no key prefix routes to it" [AStr tenant]).

Definition Compose (global : option GlobalLayer) (tenants : list (option TenantLayer)) : error + Snapshot :=
  match global with
  | None => inl (New CodeInvalidRequest "snapshot needs a global layer")
  | Some g =>
      let! byTenant := foldM joinTenant ∅ tenants in
      let! _ := foldM (checkRouted g) tt (map_to_list byTenant).*1 in
      inr (mkSnapshot g byTenant)
  end.

Definition WithTenantLayer (s : Snapshot) (layer : option TenantLayer) : error + Snapshot :=
  match layer with
  | None => inl (New CodeInvalidRequest "nil tenant layer")
  | Some l => inr (mkSnapshot (s_global s) (<[t_tenant l := l]> (s_tenants s)))
  end.

Definition WithGlobalLayer (s : Snapshot) (global : option GlobalLayer) : error + Snapshot :=
  Compose global (Some <$> (map_to_list (s_tenants s)).*2).

Definition GlobalVersion (s : Snapshot) : LayerVersion := g_version (s_global s).
Definition TenantVersion (s : Snapshot) (tenant : TenantID) : option LayerVersion :=
  t_version <$> s_tenants s !! tenant.
Definition TenantIDs (s : Snapshot) : list TenantID := (map_to_list (s_tenants s)).*1.
Definition DeploymentIDs (s : Snapshot) : list DeploymentID := (map_to_list (g_deployments (s_global s))).*1.
Definition PolicyBundleRef (s : Snapshot) : string := g_policyBundleRef (s_global s).
Definition TenantForPrefix (s : Snapshot) (prefix : KeyPrefix) : option TenantID :=
  g_tenantByPrefix (s_global s) !! prefix.

(** [Snapshot.Principal]. *)
Definition lookupPrincipal (s : Snapshot) (tenant : TenantID) (lookup : KeyLookup) : option Principal :=
  layer ← s_tenants s !! tenant;
  keyID ← t_keys layer !! lookup;
  t_principals layer !! keyID.

Definition Tier (s : Snapshot) (tenant : TenantID) : string :=
  match s_tenants s !! tenant with Some layer => t_tier layer | None => "unknown" end.

Definition MinTrustTier (s : Snapshot) (tenant : TenantID) : TrustTier :=
  match s_tenants s !! tenant with Some layer => t_minTrustTier layer | None => TrustInternal end.

Definition ResolveAlias (s : Snapshot) (tenant : TenantID) (name : string) : list RoutingKey :=
  match s_tenants s !! tenant ≫= (fun layer => t_aliases layer !! name) with
  | Some a => alias_Targets a
  | None => match g_aliases (s_global s) !! name with
            | Some a => alias_Targets a
            | None => [mkRoutingKey name ""]
            end
  end.

Definition Deployments (s : Snapshot) (key : RoutingKey) : list Deployment :=
  slice_at (g_byRoute (s_global s)) key.
Definition Shadows (s : Snapshot) (baseModel : string) : list Deployment :=
  slice_at (g_shadows (s_global s)) baseModel.
(** [Snapshot.Deployment]. *)
Definition lookupDeployment (s : Snapshot) (id : DeploymentID) : option Deployment :=
  g_deployments (s_global s) !! id.

(** [Snapshot.PluginBinding]. *)
Definition lookupPlugin (s : Snapshot) (tenant : TenantID) (port : PortName) : option PluginBinding :=
  match s_tenants s !! tenant ≫= (fun layer => t_plugins layer !! port) with
  | Some b => Some b
  | None => g_plugins (s_global s) !! port
  end.

Definition Guardrails (s : Snapshot) (tenant : TenantID) (phase : Phase) : list GuardrailBinding :=
  let bindings :=
    match s_tenants s !! tenant with
    | Some layer => match t_guardrails layer with [] => g_guardrails (s_global s) | l => l end
    | None => g_guardrails (s_global s)
    end in
  List.filter (fun b => Inspects b phase) bindings.

Definition AllGuardrails (s : Snapshot) : list GuardrailBinding :=
  g_guardrails (s_global s) ++ concat (t_guardrails <$> (map_to_list (s_tenants s)).*2).

(** [Snapshot.Policy]. *)
Definition PolicyBytes (s : Snapshot) (tenant : TenantID) : bytes :=
  match s_tenants s !! tenant with
  | Some layer => match t_policy layer with [] => g_policy (s_global s) | p => p end
  | None => g_policy (s_global s)
  end.

(** [Snapshot.Budget]. *)
Definition lookupBudget (s : Snapshot) (tenant : TenantID) (id : BudgetID) : option BudgetState :=
  s_tenants s !! tenant ≫= (fun layer => t_budgets layer !! id).

(** The scan of [DeniedBudget] over a budget chain. *)
Fixpoint firstDenied (s : Snapshot) (tenant : TenantID) (chain : list BudgetRef) : option BudgetState :=
  match chain with
  | [] => None
  | ref :: rest =>
      match lookupBudget s tenant (ref_ID ref) with
      | None => firstDenied s tenant rest
      | Some b => if Denies b then Some b else firstDenied s tenant rest
      end
  end.

Definition DeniedBudget (s : Snapshot) (p : Principal) : option BudgetState :=
  firstDenied s (p_Tenant p) (p_Budgets p).
