(* ===== verification/SnapshotFacts.v ===== *)
(** * What building and composing snapshots guarantees

    Exact acceptance conditions of the two layer constructors, correctness of the catalog
    indexes, and the snapshot invariant ([snapshot_wf]) with the facts the request path takes
    from it: tenant isolation and complete budget chains. *)
From S2P Require Import Prelude Errors Core Snapshot.
From Stdlib Require Import ZArith Lia Ascii.
From stdpp Require Import base gmap strings list.
Open Scope Z_scope.
Open Scope gw_scope.

(** ** Specifications *)

Definition deployment_ok (d : Deployment) : Prop :=
  dep_ID d <> "" /\ BaseModel (dep_Key d) <> "" /\ Valid (dep_TrustTier d) = true
  /\ dep_Weight d <= 100 /\ dep_ShadowPercent d <= 100
  /\ (0 < dep_ShadowPercent d -> IsAdapter (dep_Key d) = true).

Definition alias_ok (ds : list Deployment) (a : ModelAlias) : Prop :=
  alias_Name a <> "" /\ alias_Targets a <> []
  /\ forall t, t ∈ alias_Targets a -> exists d, d ∈ ds /\ dep_Key d = t.

Definition global_spec_ok (spec : GlobalSpec) : Prop :=
  Number (gs_Version spec) <> 0
  /\ Forall deployment_ok (gs_Deployments spec)
  /\ NoDup (dep_ID <$> gs_Deployments spec)
  /\ Forall (alias_ok (gs_Deployments spec)) (gs_Aliases spec)
  /\ NoDup (plug_Port <$> gs_DefaultPlugins spec).

Definition budget_ok (b : BudgetState) : Prop :=
  bud_ID b <> "" /\ HeadroomBasisPoints b <= basisPointsPerUnit.

Definition principal_ok (spec : TenantSpec) (p : Principal) : Prop :=
  p_KeyID p <> "" /\ p_Tenant p = ts_Tenant spec
  /\ forall ref, ref ∈ p_Budgets p -> exists b, b ∈ ts_Budgets spec /\ bud_ID b = ref_ID ref.

Definition tenant_spec_ok (spec : TenantSpec) : Prop :=
  ts_Tenant spec <> ""
  /\ Number (ts_Version spec) <> 0
  /\ Forall budget_ok (ts_Budgets spec)
  /\ Forall (principal_ok spec) (ts_Principals spec)
  /\ (forall lookup k, ts_Keys spec !! lookup = Some k ->
        exists p, p ∈ ts_Principals spec /\ p_KeyID p = k)
  /\ Forall (fun a => alias_Name a <> "" /\ alias_Targets a <> []) (ts_AliasOverrides spec)
  /\ NoDup (plug_Port <$> ts_Plugins spec).

(** A tenant layer is coherent: principals belong to it, are filed under their key id, and
    reference budgets that exist; keys lead to principals. *)
Definition tenant_wf (t : TenantLayer) : Prop :=
  (forall k p, t_principals t !! k = Some p ->
     p_KeyID p = k /\ p_Tenant p = t_tenant t
     /\ forall ref, ref ∈ p_Budgets p -> is_Some (t_budgets t !! ref_ID ref))
  /\ (forall lookup k, t_keys t !! lookup = Some k -> is_Some (t_principals t !! k)).

(** A global layer is coherent: every routed deployment is valid, filed under its own key and
    registered by id; every shadow is a shadowing adapter of that base model; every alias leads
    to deployments. *)
Definition global_wf (g : GlobalLayer) : Prop :=
  (forall key d, d ∈ slice_at (g_byRoute g) key ->
     dep_Key d = key /\ deployment_ok d /\ g_deployments g !! dep_ID d = Some d)
  /\ (forall base d, d ∈ slice_at (g_shadows g) base ->
        BaseModel (dep_Key d) = base /\ Shadowing d = true /\ g_deployments g !! dep_ID d = Some d)
  /\ (forall name a t, g_aliases g !! name = Some a -> t ∈ alias_Targets a ->
        slice_at (g_byRoute g) t <> []).

Definition snapshot_wf (s : Snapshot) : Prop :=
  global_wf (s_global s)
  /\ forall id t, s_tenants s !! id = Some t -> t_tenant t = id /\ tenant_wf t.

(** Every tenant with a layer can be reached by some key prefix. *)
Definition all_routed (s : Snapshot) : Prop :=
  forall id, is_Some (s_tenants s !! id) -> exists prefix, TenantForPrefix s prefix = Some id.

(** ** Lemmas: the loops of the constructors *)

Lemma checkDeployment_ok ix d :
  checkDeployment ix d = inr tt <->
  deployment_ok d /\ ~ is_Some (ix_deployments ix !! dep_ID d).
Proof.
  unfold checkDeployment, deployment_ok.
  repeat (case_bool_decide; [by intuition|]).
  destruct (Valid (dep_TrustTier d)); [simpl|by intuition].
  destruct (100 <? dep_Weight d) eqn:E1; zify_bools; [intuition (discriminate || lia)|].
  destruct (100 <? dep_ShadowPercent d) eqn:E2; zify_bools; [intuition (discriminate || lia)|].
  destruct (0 <? dep_ShadowPercent d) eqn:E3; destruct (IsAdapter (dep_Key d)); simpl; zify_bools;
    intuition (discriminate || lia).
Qed.

Lemma addDeployment_ok ix d ix' :
  addDeployment ix d = inr ix' <->
  deployment_ok d /\ ~ is_Some (ix_deployments ix !! dep_ID d) /\ ix' = indexDeployment ix d.
Proof.
  unfold addDeployment. destruct (checkDeployment ix d) as [e|[]] eqn:E.
  - split; [done|]. intros (H1 & H2 & _).
    by rewrite (proj2 (checkDeployment_ok ix d)) in E.
  - apply checkDeployment_ok in E. naive_solver.
Qed.

Lemma indexDeployment_has ix d k :
  is_Some (ix_deployments (indexDeployment ix d) !! k) <->
  k = dep_ID d \/ is_Some (ix_deployments ix !! k).
Proof.
  simpl. rewrite lookup_insert. case_decide; naive_solver.
Qed.

Definition indexAll (l : list Deployment) : CatalogIndex := foldl indexDeployment (mkIndex ∅ ∅ ∅) l.

Lemma index_loop l ix :
  foldM addDeployment (mkIndex ∅ ∅ ∅) l = inr ix <->
  Forall deployment_ok l /\ NoDup (dep_ID <$> l) /\ ix = indexAll l.
Proof.
  rewrite (foldM_distinct deployment_ok dep_ID (fun ix k => is_Some (ix_deployments ix !! k))
             indexDeployment addDeployment addDeployment_ok indexDeployment_has).
  rewrite !list.Forall_forall. unfold indexAll. simpl. setoid_rewrite lookup_empty.
  split; [naive_solver|]. intros (H1 & H2 & ->). split_and!; try done.
Qed.

Lemma indexAll_parts l ix :
  foldl indexDeployment ix l =
  mkIndex
    (foldl (fun m d => <[dep_ID d := d]> m) (ix_deployments ix) l)
    (foldl (fun m d => if decide True then <[dep_Key d := slice_at m (dep_Key d) ++ [d]]> m else m)
       (ix_byRoute ix) l)
    (foldl (fun m d => if decide (Shadowing d = true)
                       then <[BaseModel (dep_Key d) := slice_at m (BaseModel (dep_Key d)) ++ [d]]> m
                       else m) (ix_shadows ix) l).
Proof.
  revert ix. induction l as [|d l IH]; intros ix; cbn [foldl]; [by destruct ix|].
  rewrite IH. unfold indexDeployment. cbn [ix_deployments ix_byRoute ix_shadows]. f_equal.
  f_equal. by destruct (Shadowing d).
Qed.

Lemma indexAll_byRoute l key :
  slice_at (ix_byRoute (indexAll l)) key = filter (fun d => dep_Key d = key) l.
Proof.
  unfold indexAll. rewrite indexAll_parts. cbn [ix_byRoute]. unfold slice_at at 1.
  etransitivity; [apply (foldl_bucket dep_Key (fun _ => True))|].
  rewrite lookup_empty. simpl. apply list_filter_iff. naive_solver.
Qed.

Lemma indexAll_shadows l base :
  slice_at (ix_shadows (indexAll l)) base
  = filter (fun d => Shadowing d = true /\ BaseModel (dep_Key d) = base) l.
Proof.
  unfold indexAll. rewrite indexAll_parts. cbn [ix_shadows]. unfold slice_at at 1.
  etransitivity; [apply (foldl_bucket (fun d => BaseModel (dep_Key d)) (fun d => Shadowing d = true))|].
  by rewrite lookup_empty.
Qed.

Lemma indexAll_deployments l d :
  NoDup (dep_ID <$> l) -> d ∈ l -> ix_deployments (indexAll l) !! dep_ID d = Some d.
Proof.
  intros Hn Hd. unfold indexAll. rewrite indexAll_parts. by apply foldl_insert_distinct.
Qed.

Lemma checkTarget_loop name routes ts :
  foldM (checkTarget name routes) tt ts = inr tt <-> Forall (fun t => slice_at routes t <> []) ts.
Proof.
  apply foldM_check. intros t. unfold checkTarget. destruct (slice_at routes t); naive_solver.
Qed.

Lemma validateAlias_ok a l :
  validateAlias a (ix_byRoute (indexAll l)) = inr tt <-> alias_ok l a.
Proof.
  unfold validateAlias, alias_ok. case_bool_decide; [naive_solver|].
  transitivity (alias_Targets a <> [] /\
    Forall (fun t => slice_at (ix_byRoute (indexAll l)) t <> []) (alias_Targets a)).
  { destruct (alias_Targets a); [naive_solver|]. rewrite checkTarget_loop.
    split; [done|by intros [_ ?]]. }
  rewrite list.Forall_forall. setoid_rewrite indexAll_byRoute.
  enough (forall t, filter (fun d => dep_Key d = t) l <> [] <-> exists d, d ∈ l /\ dep_Key d = t)
    as Hf by (setoid_rewrite Hf; naive_solver).
  intros t. split.
  - intros Hn. destruct (filter _ l) as [|d ds] eqn:E; [done|].
    assert (d ∈ filter (fun d => dep_Key d = t) l) as Hin by (rewrite E; by left).
    apply list_elem_of_filter in Hin. naive_solver.
  - intros (d & Hin & Hk) E.
    assert (d ∈ filter (fun d => dep_Key d = t) l) as Hf by (by apply list_elem_of_filter).
    rewrite E in Hf. set_solver.
Qed.

Lemma alias_loop l aliases m :
  foldM (addAlias (ix_byRoute (indexAll l))) ∅ aliases = inr m <->
  Forall (alias_ok l) aliases /\ m = foldl (fun m a => <[alias_Name a := a]> m) ∅ aliases.
Proof.
  apply foldM_validate. intros b a b'. unfold addAlias.
  destruct (validateAlias _ _) as [|[]] eqn:E.
  - split; [done|]. intros [Hok _]. apply validateAlias_ok in Hok. congruence.
  - apply validateAlias_ok in E. naive_solver.
Qed.

Lemma plugin_loop format args ps m :
  foldM (addPlugin format args) ∅ ps = inr m <->
  NoDup (plug_Port <$> ps) /\ m = foldl (fun m p => <[plug_Port p := p]> m) ∅ ps.
Proof.
  rewrite (foldM_distinct (fun _ => True) plug_Port (fun m k => is_Some (m !! k))
             (fun m p => <[plug_Port p := p]> m)).
  - rewrite !list.Forall_forall. setoid_rewrite lookup_empty. split; [naive_solver|].
    intros [? ->]. split_and!; try done.
  - intros b p b'. unfold addPlugin.
    destruct (b !! plug_Port p) eqn:E; split; naive_solver.
  - intros b p k. rewrite lookup_insert. case_decide; naive_solver.
Qed.

Lemma addBudget_loop tenant bs m :
  foldM (addBudget tenant) ∅ bs = inr m <->
  Forall budget_ok bs /\ m = foldl (fun m b => <[bud_ID b := b]> m) ∅ bs.
Proof.
  apply foldM_validate. intros b x b'. unfold addBudget, budget_ok.
  case_bool_decide; [naive_solver|].
  destruct (_ <? _) eqn:E; zify_bools; naive_solver lia.
Qed.

Lemma foldl_insert_some {K A} `{Countable K} (key : A -> K) (l : list A) k :
  is_Some (foldl (fun m x => <[key x := x]> m) (∅ : gmap K A) l !! k) <->
  exists x, x ∈ l /\ key x = k.
Proof.
  induction l as [|x l IH] using rev_ind.
  - simpl. rewrite lookup_empty. split; [by intros [? ?]|set_solver].
  - rewrite foldl_app. simpl. setoid_rewrite elem_of_app. rewrite lookup_insert.
    case_decide; [|rewrite IH]; set_solver.
Qed.

Lemma checkBudgetRef_loop key bs refs :
  foldM (checkBudgetRef key (foldl (fun m b => <[bud_ID b := b]> m) ∅ bs)) tt refs = inr tt <->
  forall ref, ref ∈ refs -> exists b, b ∈ bs /\ bud_ID b = ref_ID ref.
Proof.
  rewrite <- list.Forall_forall. apply foldM_check. intros ref.
  rewrite <- foldl_insert_some. unfold checkBudgetRef.
  destruct (foldl _ _ bs !! ref_ID ref); [naive_solver|]. split; [done|by intros [? ?]].
Qed.

Lemma addPrincipal_loop spec ps m :
  foldM (addPrincipal (ts_Tenant spec) (foldl (fun m b => <[bud_ID b := b]> m) ∅ (ts_Budgets spec)))
    ∅ ps = inr m <->
  Forall (principal_ok spec) ps /\ m = foldl (fun m p => <[p_KeyID p := p]> m) ∅ ps.
Proof.
  apply foldM_validate. intros b p b'. unfold addPrincipal, principal_ok.
  case_bool_decide; [by intuition|].
  destruct (bool_decide_reflect (p_Tenant p = ts_Tenant spec)); [simpl|by intuition].
  destruct (foldM (checkBudgetRef _ _) tt (p_Budgets p)) as [|[]] eqn:E.
  - split; [done|]. intros ((_ & _ & Hr) & _). apply (checkBudgetRef_loop (p_KeyID p)) in Hr. congruence.
  - pose proof (proj1 (checkBudgetRef_loop _ _ _) E). naive_solver.
Qed.

Lemma checkKey_loop (tenant : TenantID) (ps : list Principal) (keys : gmap KeyLookup KeyID) :
  foldM (checkKey tenant (foldl (fun m p => <[p_KeyID p := p]> m) ∅ ps)) tt (map_to_list keys) = inr tt <->
  forall lookup k, keys !! lookup = Some k -> exists p, p ∈ ps /\ p_KeyID p = k.
Proof.
  rewrite (foldM_check (fun kv : KeyLookup * KeyID => exists p, p ∈ ps /\ p_KeyID p = kv.2)).
  - rewrite list.Forall_forall. setoid_rewrite (elem_of_map_to_list' keys). split.
    + intros H lookup k Hk. by apply (H (lookup, k)).
    + intros H [lookup k] Hk. by apply (H lookup k).
  - intros [lookup k]. rewrite <- foldl_insert_some. unfold checkKey. simpl.
    destruct (foldl _ _ ps !! k); [naive_solver|]. split; [done|by intros [? ?]].
Qed.

Lemma override_loop tenant l m :
  foldM (addOverride tenant) ∅ l = inr m <->
  Forall (fun a => alias_Name a <> "" /\ alias_Targets a <> []) l
  /\ m = foldl (fun m a => <[alias_Name a := a]> m) ∅ l.
Proof.
  apply foldM_validate. intros b a b'. unfold addOverride.
  destruct (bool_decide_reflect (alias_Name a = "")), (bool_decide_reflect (alias_Targets a = []));
    naive_solver.
Qed.

(** A built global layer, field by field, and the condition under which one is built. *)
Lemma NewGlobalLayer_inv spec g :
  NewGlobalLayer spec = inr g <->
  global_spec_ok spec /\
  g = mkGlobalLayer (gs_Version spec) (gs_BuiltAt spec)
        (ix_deployments (indexAll (gs_Deployments spec)))
        (ix_shadows (indexAll (gs_Deployments spec)))
        (ix_byRoute (indexAll (gs_Deployments spec)))
        (foldl (fun m a => <[alias_Name a := a]> m) ∅ (gs_Aliases spec))
        (gs_TenantPrefixes spec)
        (foldl (fun m p => <[plug_Port p := p]> m) ∅ (gs_DefaultPlugins spec))
        (gs_DefaultGuardrails spec) (gs_DefaultPolicy spec) (gs_PolicyBundleRef spec).
Proof.
  unfold NewGlobalLayer, global_spec_ok.
  destruct (_ =? 0) eqn:E0; zify_bools; [by intuition|].
  destruct (foldM addDeployment _ _) as [|ix] eqn:E1.
  { split; [done|]. intros ((_ & H1 & H2 & _) & _).
    assert (foldM addDeployment (mkIndex ∅ ∅ ∅) (gs_Deployments spec) = inr (indexAll (gs_Deployments spec)))
      by (by apply index_loop). congruence. }
  apply index_loop in E1 as (H1 & H2 & ->).
  destruct (foldM (addAlias _) _ _) as [|al] eqn:E2.
  { split; [done|]. intros ((_ & _ & _ & H3 & _) & _).
    pose proof (proj2 (alias_loop _ (gs_Aliases spec) _) (conj H3 eq_refl)). congruence. }
  apply alias_loop in E2 as (H3 & ->).
  destruct (foldM (addPlugin _ _) _ _) as [|pl] eqn:E3.
  { split; [done|]. intros ((_ & _ & _ & _ & H4) & _).
    pose proof (proj2 (plugin_loop "two default plugins bound to port %q" [] _ _) (conj H4 eq_refl)).
    congruence. }
  apply plugin_loop in E3 as (H4 & ->). naive_solver.
Qed.

Lemma NewTenantLayer_inv spec t :
  NewTenantLayer spec = inr t <->
  tenant_spec_ok spec /\
  t = mkTenantLayer (ts_Tenant spec) (ts_Version spec) (ts_BuiltAt spec) (ts_Tier spec)
        (foldl (fun m p => <[p_KeyID p := p]> m) ∅ (ts_Principals spec)) (ts_Keys spec)
        (foldl (fun m a => <[alias_Name a := a]> m) ∅ (ts_AliasOverrides spec))
        (foldl (fun m b => <[bud_ID b := b]> m) ∅ (ts_Budgets spec))
        (foldl (fun m p => <[plug_Port p := p]> m) ∅ (ts_Plugins spec))
        (ts_Guardrails spec) (ts_Policy spec) (ts_MinTrustTier spec).
Proof.
  unfold NewTenantLayer, tenant_spec_ok.
  case_bool_decide; [by intuition|]. destruct (_ =? 0) eqn:E0; zify_bools; [by intuition|].
  destruct (foldM (addBudget _) _ _) as [|bs] eqn:E1.
  { split; [done|]. intros ((_ & _ & H1 & _) & _).
    pose proof (proj2 (addBudget_loop (ts_Tenant spec) _ _) (conj H1 eq_refl)). congruence. }
  apply addBudget_loop in E1 as (H1 & ->).
  destruct (foldM (addPrincipal _ _) _ _) as [|ps] eqn:E2.
  { split; [done|]. intros ((_ & _ & _ & H2 & _) & _).
    pose proof (proj2 (addPrincipal_loop spec _ _) (conj H2 eq_refl)). congruence. }
  apply addPrincipal_loop in E2 as (H2 & ->).
  destruct (foldM (checkKey _ _) _ _) as [|[]] eqn:E3.
  { split; [done|]. intros ((_ & _ & _ & _ & H3 & _) & _).
    pose proof (proj2 (checkKey_loop (ts_Tenant spec) _ _) H3). congruence. }
  pose proof (proj1 (checkKey_loop _ _ _) E3) as H3.
  destruct (foldM (addOverride _) _ _) as [|al] eqn:E4.
  { split; [done|]. intros ((_ & _ & _ & _ & _ & H4 & _) & _).
    pose proof (proj2 (override_loop (ts_Tenant spec) _ _) (conj H4 eq_refl)). congruence. }
  apply override_loop in E4 as (H4 & ->).
  destruct (foldM (addPlugin _ _) _ _) as [|pl] eqn:E5.
  { split; [done|]. intros ((_ & _ & _ & _ & _ & _ & H5) & _).
    pose proof (proj2 (plugin_loop "tenant %q binds two plugins to port %q" [AStr (ts_Tenant spec)]
                         _ _) (conj H5 eq_refl)). congruence. }
  apply plugin_loop in E5 as (H5 & ->). split; [intros ?; simplify_eq; done|by intros [_ ->]].
Qed.

Lemma NewGlobalLayer_wf spec g : NewGlobalLayer spec = inr g -> global_wf g.
Proof.
  intros [(Hv & Hd & Hn & Ha & Hp) ->]%NewGlobalLayer_inv. unfold global_wf. simpl. split_and!.
  - intros key d. rewrite indexAll_byRoute, list_elem_of_filter. intros [Hk Hin].
    rewrite list.Forall_forall in Hd. split_and!; [done|by apply Hd|by apply indexAll_deployments].
  - intros base d. rewrite indexAll_shadows, list_elem_of_filter. intros [[Hs Hb] Hin].
    split_and!; [done|done|by apply indexAll_deployments].
  - intros name a t Hl Ht. apply foldl_insert_lookup in Hl as [[Hin _]|Hl];
      [|by rewrite lookup_empty in Hl].
    rewrite list.Forall_forall in Ha. destruct (Ha a Hin) as (_ & _ & Hts).
    destruct (Hts t Ht) as (d & Hdin & Hk). rewrite indexAll_byRoute. intros E.
    assert (d ∈ filter (fun d => dep_Key d = t) (gs_Deployments spec)) as Hf
      by (by apply list_elem_of_filter). rewrite E in Hf. set_solver.
Qed.

Lemma NewTenantLayer_wf spec t : NewTenantLayer spec = inr t -> t_tenant t = ts_Tenant spec /\ tenant_wf t.
Proof.
  intros [(_ & _ & _ & Hp & Hk & _ & _) ->]%NewTenantLayer_inv. unfold tenant_wf. simpl.
  rewrite list.Forall_forall in Hp. split_and!; [done| |].
  - intros k p Hl. apply foldl_insert_lookup in Hl as [[Hin <-]|Hl]; [|by rewrite lookup_empty in Hl].
    destruct (Hp p Hin) as (_ & Ht & Hr). split_and!; [done|done|].
    intros ref Href. apply foldl_insert_some. by apply Hr.
  - intros lookup k Hl. apply foldl_insert_some. by eapply Hk.
Qed.

(** ** Composition *)

Lemma join_loop ts m :
  foldM joinTenant ∅ ts = inr m ->
  forall id t, m !! id = Some t <-> Some t ∈ ts /\ t_tenant t = id.
Proof.
  apply (foldM_ind (fun pre m => forall id t, m !! id = Some t <-> Some t ∈ pre /\ t_tenant t = id)).
  - intros id t. rewrite lookup_empty. split; [done|set_solver].
  - intros pre x m1 m2 _ IH Hj id t. unfold joinTenant in Hj.
    destruct x as [x|]; [|done]. destruct (m1 !! t_tenant x) eqn:E; [done|]. simplify_eq.
    rewrite elem_of_app, list_elem_of_singleton, lookup_insert_Some, IH.
    split; [naive_solver|]. intros [[Hin|Heq] <-]; [|naive_solver].
    destruct (decide (t_tenant x = t_tenant t)) as [Hx|Hx]; [|naive_solver].
    assert (m1 !! t_tenant t = Some t) by (by apply IH). congruence.
Qed.

Lemma checkRouted_loop g (l : list TenantID) :
  foldM (checkRouted g) tt l = inr tt <->
  Forall (fun id => exists prefix, g_tenantByPrefix g !! prefix = Some id) l.
Proof.
  apply foldM_check. intros id. unfold checkRouted.
  enough (id ∈ routed g <-> exists prefix, g_tenantByPrefix g !! prefix = Some id) as H
    by (rewrite <- H; case_bool_decide; naive_solver).
  unfold routed. rewrite elem_of_list_to_set, list_elem_of_fmap. split.
  - intros ([prefix id'] & -> & Hin). exists prefix. by apply elem_of_map_to_list.
  - intros [prefix Hp]. exists (prefix, id). split; [done|]. by apply elem_of_map_to_list.
Qed.

Lemma Compose_inv global ts s :
  Compose global ts = inr s ->
  global = Some (s_global s) /\ all_routed s
  /\ forall id t, s_tenants s !! id = Some t <-> Some t ∈ ts /\ t_tenant t = id.
Proof.
  unfold Compose. destruct global as [g|]; [|done].
  destruct (foldM joinTenant ∅ ts) as [|m] eqn:Ej; [done|].
  destruct (foldM (checkRouted g) _ _) as [|[]] eqn:Er; [done|]. intros ?; simplify_eq/=.
  split_and!; [done| |by apply join_loop].
  apply checkRouted_loop in Er. rewrite list.Forall_forall in Er.
  intros id [t Ht]. apply Er. apply list_elem_of_fmap. exists (id, t).
  split; [done|]. by apply elem_of_map_to_list.
Qed.

(** The snapshots a program can hold: composed from built layers, then edited layer by layer. *)
Inductive built : Snapshot -> Prop :=
| built_compose gspec g tspecs ts s :
    NewGlobalLayer gspec = inr g ->
    Forall2 (fun spec t => NewTenantLayer spec = inr t) tspecs ts ->
    Compose (Some g) (Some <$> ts) = inr s -> built s
| built_tenant s spec t s' :
    built s -> NewTenantLayer spec = inr t -> WithTenantLayer s (Some t) = inr s' -> built s'
| built_global s spec g s' :
    built s -> NewGlobalLayer spec = inr g -> WithGlobalLayer s (Some g) = inr s' -> built s'.

Lemma built_wf s : built s -> snapshot_wf s.
Proof.
  induction 1 as [gspec g tspecs ts s Hg Hts Hc|s spec t s' _ [IHg IHt] Ht Hw|s spec g s' _ [IHg IHt] Hg Hw].
  - apply Compose_inv in Hc as (Hs & _ & Hl). simplify_eq. split; [by eapply NewGlobalLayer_wf|].
    intros id t [Hin <-]%Hl. split; [done|]. apply list_elem_of_fmap in Hin as (t' & ? & Hin).
    simplify_eq. apply list_elem_of_lookup in Hin as [i Hi].
    destruct (Forall2_lookup_r _ _ _ _ _ Hts Hi) as (spec & _ & Hspec).
    by apply NewTenantLayer_wf in Hspec as [_ ?].
  - unfold WithTenantLayer in Hw. simplify_eq. split; [done|]. intros id t'. simpl.
    rewrite lookup_insert_Some.
    intros [[<- <-]|[_ Hl]]; [|by apply IHt]. split; [done|]. by apply NewTenantLayer_wf in Ht as [_ ?].
  - unfold WithGlobalLayer in Hw. apply Compose_inv in Hw as (Hs & _ & Hl). simplify_eq.
    split; [by eapply NewGlobalLayer_wf|].
    intros id t [Hin <-]%Hl. split; [done|]. apply list_elem_of_fmap in Hin as (t' & ? & Hin).
    simplify_eq. apply list_elem_of_fmap in Hin as ([id' t''] & ? & Hin). simplify_eq/=.
    apply elem_of_map_to_list in Hin. by apply IHt in Hin as [_ ?].
Qed.

Lemma lookupPrincipal_wf s tenant lookup p :
  snapshot_wf s -> lookupPrincipal s tenant lookup = Some p ->
  p_Tenant p = tenant /\ forall ref, ref ∈ p_Budgets p -> is_Some (lookupBudget s tenant (ref_ID ref)).
Proof.
  intros [_ Ht] Hl. unfold lookupPrincipal in Hl.
  destruct (s_tenants s !! tenant) as [layer|] eqn:El; [|done]. simpl in Hl.
  destruct (t_keys layer !! lookup) as [k|] eqn:Ek; [|done]. simpl in Hl.
  destruct (Ht _ _ El) as (<- & Hp & _). destruct (Hp _ _ Hl) as (_ & -> & Hr).
  split; [done|]. intros ref Href. unfold lookupBudget. rewrite El. simpl. by apply Hr.
Qed.

Lemma firstDenied_None s tenant chain :
  (forall ref, ref ∈ chain -> is_Some (lookupBudget s tenant (ref_ID ref))) ->
  firstDenied s tenant chain = None <->
  forall ref, ref ∈ chain -> exists b, lookupBudget s tenant (ref_ID ref) = Some b /\ Denies b = false.
Proof.
  induction chain as [|ref chain IH]; intros Hall; simpl; [set_solver|].
  destruct (Hall ref) as [b Hb]; [by left|]. rewrite Hb.
  setoid_rewrite elem_of_cons. destruct (Denies b) eqn:Ed.
  - split; [done|]. intros H. destruct (H ref) as (b' & ? & ?); [by left|]. congruence.
  - rewrite IH by (intros; apply Hall; by right).
    split; [|naive_solver]. intros H ref' [->|Hin]; naive_solver.
Qed.

Lemma firstDenied_Some s tenant chain b :
  firstDenied s tenant chain = Some b ->
  Denies b = true /\ exists ref, ref ∈ chain /\ lookupBudget s tenant (ref_ID ref) = Some b.
Proof.
  induction chain as [|ref chain IH]; simpl; [done|].
  destruct (lookupBudget s tenant (ref_ID ref)) as [b'|] eqn:Hb.
  - destruct (Denies b') eqn:Hd; [intros; simplify_eq; split; [done|]; exists ref; split; [by left|done]|].
    intros H. destruct (IH H) as (? & ref' & ? & ?). split; [done|]. exists ref'. split; [by right|done].
  - intros H. destruct (IH H) as (? & ref' & ? & ?). split; [done|]. exists ref'. split; [by right|done].
Qed.

(** ** Properties *)

(** [NewGlobalLayer] accepts a spec exactly when it is valid (non-zero version, every
    deployment valid and its id unique, every alias named and leading only to deployed routes,
    one plugin per port), and the catalog it builds is a correct index: routes and shadows are
    the spec's deployments filtered by key, in catalog order, and ids find their deployment. *)
Theorem NewGlobalLayer_correct spec :
  ((exists g, NewGlobalLayer spec = inr g) <-> global_spec_ok spec) /\
  (forall g, NewGlobalLayer spec = inr g ->
     (forall key, slice_at (g_byRoute g) key = filter (fun d => dep_Key d = key) (gs_Deployments spec))
     /\ (forall base, slice_at (g_shadows g) base =
           filter (fun d => Shadowing d = true /\ BaseModel (dep_Key d) = base) (gs_Deployments spec))
     /\ (forall d, d ∈ gs_Deployments spec -> g_deployments g !! dep_ID d = Some d)).
Proof.
  split.
  - split; [intros [g [? _]%NewGlobalLayer_inv]; done|].
    intros H. eexists. by apply NewGlobalLayer_inv.
  - intros g [(_ & _ & Hn & _) ->]%NewGlobalLayer_inv. simpl. split_and!.
    + apply indexAll_byRoute.
    + apply indexAll_shadows.
    + intros d Hd. by apply indexAll_deployments.
Qed.

(** [NewTenantLayer] accepts a spec exactly when it is valid; in particular it refuses a
    principal of another tenant, a dangling budget reference and a key without a principal. *)
Theorem NewTenantLayer_accepts spec :
  (exists t, NewTenantLayer spec = inr t) <-> tenant_spec_ok spec.
Proof.
  split; [intros [t [? _]%NewTenantLayer_inv]; done|].
  intros H. eexists. by apply NewTenantLayer_inv.
Qed.

(** C32. In every snapshot built from validated layers and edited layer by layer, a key resolves
    only to a principal of the tenant it was looked up in, and the admission scan of that
    principal's budget chain is complete: it finds no denial exactly when every referenced
    budget exists and does not deny. *)
Theorem principal_isolated_and_budgets_complete s tenant lookup p :
  built s -> lookupPrincipal s tenant lookup = Some p ->
  p_Tenant p = tenant /\
  (DeniedBudget s p = None <->
   forall ref, ref ∈ p_Budgets p ->
     exists b, lookupBudget s tenant (ref_ID ref) = Some b /\ Denies b = false).
Proof.
  intros Hb Hl. destruct (lookupPrincipal_wf s tenant lookup p (built_wf s Hb) Hl) as [<- Hr].
  split; [done|]. by apply firstDenied_None.
Qed.

(** A small fleet used by the witnesses: one deployment, one tenant, one key, one budget. *)
Definition demo_dep : Deployment :=
  mkDeployment "d1" (mkRoutingKey "m" "") "echo" "" "" TrustExternal "" 100 0 NoCost [].
Definition demo_gspec : GlobalSpec :=
  mkGlobalSpec (mkVersion 1 "g1") 0 [demo_dep] [mkAlias "fast" [mkRoutingKey "m" ""]]
    {[ "demo" := "acme" ]} [] "" [] [].
Definition demo_budget : BudgetState := mkBudget "b1" BudgetScopeKey 1000000 0 true 500.
Definition demo_principal : Principal :=
  mkPrincipal "k1" "acme" "" "" "" "" [] (mkAllowlist true []) [mkBudgetRef "b1" BudgetScopeKey]
    "" TrustUnset NoLimits false 0.
Definition demo_lookup : KeyLookup := ["k"%char].
Definition demo_tspec (tenant : TenantID) : TenantSpec :=
  mkTenantSpec tenant (mkVersion 1 "t1") 0 "free"
    (if bool_decide (tenant = "acme") then [demo_principal] else [])
    (if bool_decide (tenant = "acme") then {[ demo_lookup := "k1" ]} else ∅)
    [] [demo_budget] [] [] [] TrustExternal.

Definition demo_global : GlobalLayer :=
  match NewGlobalLayer demo_gspec with inr g => g | inl _ => mkGlobalLayer (mkVersion 0 "") 0 ∅ ∅ ∅ ∅ ∅ ∅ [] [] "" end.
Definition demo_tenant (tenant : TenantID) : TenantLayer :=
  match NewTenantLayer (demo_tspec tenant) with inr t => t | inl _ => mkTenantLayer "" (mkVersion 0 "") 0 "" ∅ ∅ ∅ ∅ ∅ [] [] 0 end.
Definition demo_snapshot : Snapshot := mkSnapshot demo_global {[ "acme" := demo_tenant "acme" ]}.

Lemma demo_built : built demo_snapshot.
Proof.
  apply (built_compose demo_gspec demo_global [demo_tspec "acme"] [demo_tenant "acme"]).
  - vm_compute. reflexivity.
  - repeat constructor.
  - vm_compute. reflexivity.
Qed.

Lemma principal_isolated_and_budgets_complete_witness :
  p_Tenant demo_principal = "acme" /\
  (DeniedBudget demo_snapshot demo_principal = None <->
   forall ref, ref ∈ p_Budgets demo_principal ->
     exists b, lookupBudget demo_snapshot "acme" (ref_ID ref) = Some b /\ Denies b = false).
Proof.
  apply (principal_isolated_and_budgets_complete demo_snapshot "acme" demo_lookup demo_principal).
  - exact demo_built.
  - vm_compute. reflexivity.
Defined.

(** A composed snapshot, and one whose global layer was replaced, routes some key prefix to
    every tenant that has a layer. *)
Theorem composed_all_routed s :
  (forall global ts, Compose global ts = inr s -> all_routed s) /\
  (forall s0 global, WithGlobalLayer s0 global = inr s ->
     all_routed s /\ forall id t, s_tenants s0 !! id = Some t -> t_tenant t = id -> s_tenants s !! id = Some t).
Proof.
  split.
  - intros global ts H. by apply Compose_inv in H as (_ & ? & _).
  - intros s0 global H. unfold WithGlobalLayer in H. apply Compose_inv in H as (_ & ? & Hl).
    split; [done|].
    intros id t Ht <-. apply Hl. split; [|done]. apply list_elem_of_fmap. exists t. split; [done|].
    apply list_elem_of_fmap. exists (t_tenant t, t). split; [done|]. by apply elem_of_map_to_list.
Qed.

(** [WithTenantLayer] does not keep that: adding a validated layer for a tenant no prefix
    routes to succeeds, and the resulting snapshot, still built from validated layers, holds a
    tenant whose keys can never be resolved. *)
Theorem WithTenantLayer_strands_tenant :
  exists s t s', built s /\ all_routed s /\ NewTenantLayer (demo_tspec "ghost") = inr t
    /\ WithTenantLayer s (Some t) = inr s' /\ built s'
    /\ is_Some (s_tenants s' !! "ghost")
    /\ forall prefix, TenantForPrefix s' prefix <> Some "ghost".
Proof.
  exists demo_snapshot, (demo_tenant "ghost").
  eexists. split_and!; [exact demo_built| |vm_compute; reflexivity|reflexivity| |by eexists|].
  - eapply (Compose_inv (Some demo_global) [Some (demo_tenant "acme")]). vm_compute. reflexivity.
  - eapply (built_tenant demo_snapshot (demo_tspec "ghost")); [exact demo_built| |reflexivity].
    vm_compute. reflexivity.
  - intros prefix. unfold TenantForPrefix. simpl.
    change (g_tenantByPrefix demo_global) with ({[ "demo" := "acme" ]} : gmap KeyPrefix TenantID).
    intros H. apply lookup_singleton_Some in H as [_ ?]. done.
Qed.

(** ** Acceptance of [Compose] and the codes of refusals *)

Lemma Compose_accepts g ts :
  (exists s, Compose (Some g) (Some <$> ts) = inr s) <->
  NoDup (t_tenant <$> ts)
  /\ Forall (fun t => exists prefix, g_tenantByPrefix g !! prefix = Some (t_tenant t)) ts.
Proof.
  assert (Hj : forall l b b', foldM joinTenant b (Some <$> l) = inr b' <->
    Forall (fun _ => True) l /\ NoDup (t_tenant <$> l)
    /\ Forall (fun x => ~ is_Some (b !! t_tenant x)) l
    /\ b' = foldl (fun m t => <[t_tenant t := t]> m) b l).
  { intros l b b'. rewrite <- (foldM_distinct (fun _ => True) t_tenant (fun b k => is_Some (b !! k))
      (fun m t => <[t_tenant t := t]> m) (fun b t => joinTenant b (Some t))).
    - revert b. induction l as [|t l IH]; intros b; [done|]. rewrite fmap_cons. simpl.
      destruct (b !! t_tenant t); [done|]. apply IH.
    - intros m t m'. simpl. destruct (m !! t_tenant t); naive_solver.
    - intros m t k. rewrite lookup_insert_is_Some'. naive_solver. }
  unfold Compose. destruct (foldM joinTenant ∅ _) as [e|m] eqn:E.
  - split; [naive_solver|]. intros [Hn _].
    assert (foldM joinTenant ∅ (Some <$> ts) = inr (foldl (fun m t => <[t_tenant t := t]> m) ∅ ts)) as E'.
    { apply Hj. split_and!; [by apply list.Forall_forall|done| |done].
      apply list.Forall_forall. intros t _ [? H]. by rewrite lookup_empty in H. }
    congruence.
  - pose proof (proj1 (Hj ts ∅ m) E) as (_ & Hn & _ & _).
    assert (Hr : Forall (fun id => exists prefix, g_tenantByPrefix g !! prefix = Some id)
                   (map_to_list m).*1 <->
                 Forall (fun t => exists prefix, g_tenantByPrefix g !! prefix = Some (t_tenant t)) ts).
    { rewrite !list.Forall_forall. pose proof (join_loop _ _ E) as Hl. split.
      - intros H t Ht. apply H, list_elem_of_fmap. exists (t_tenant t, t). split; [done|].
        apply elem_of_map_to_list, Hl. split; [|done]. apply list_elem_of_fmap. by exists t.
      - intros H id Hid. apply list_elem_of_fmap in Hid as ([id' t] & -> & Hin).
        apply elem_of_map_to_list, Hl in Hin as [Hin <-].
        apply list_elem_of_fmap in Hin as (t' & ? & Hin). simplify_eq. by apply H. }
    rewrite <- Hr, <- checkRouted_loop. destruct (foldM (checkRouted g) _ _) as [|[]]; naive_solver.
Qed.

(** Every refusal of a layer or of a composition is an invalid request. *)
Definition invalid_request (e : error) : Prop := CodeOf (Some e) = CodeInvalidRequest.

Ltac refusals :=
  repeat match goal with
  | H : inl _ = inl _ |- _ => injection H as <-
  | H : inr _ = inl _ |- _ => discriminate H
  | H : inl _ = inr _ |- _ => discriminate H
  | H : (match ?x with _ => _ end) = inl _ |- _ => destruct x eqn:?
  end; try reflexivity.

Lemma addDeployment_refusal ix d e : addDeployment ix d = inl e -> invalid_request e.
Proof. unfold addDeployment, checkDeployment. intros H. refusals. all: repeat (case_match; simplify_eq; try done). Qed.

Lemma addAlias_refusal routes m a e : addAlias routes m a = inl e -> invalid_request e.
Proof.
  unfold addAlias, validateAlias. intros H. destruct (bool_decide _); [by simplify_eq|].
  destruct (alias_Targets a) as [|t ts]; [by simplify_eq|].
  destruct (foldM (checkTarget _ _) tt _) as [e'|] eqn:E; [|done]. simplify_eq.
  revert E. apply foldM_error_code. unfold checkTarget. intros. refusals.
Qed.

Lemma addPlugin_refusal format args m p e : addPlugin format args m p = inl e -> invalid_request e.
Proof. unfold addPlugin. intros H. refusals. Qed.

Lemma NewGlobalLayer_refusal spec e : NewGlobalLayer spec = inl e -> invalid_request e.
Proof.
  unfold NewGlobalLayer. intros H. destruct (_ =? 0); [by simplify_eq|].
  destruct (foldM addDeployment _ _) as [e'|] eqn:E1.
  { simplify_eq. revert E1. apply foldM_error_code. intros ???. apply addDeployment_refusal. }
  destruct (foldM (addAlias _) _ _) as [e'|] eqn:E2.
  { simplify_eq. revert E2. apply foldM_error_code. intros ???. apply addAlias_refusal. }
  destruct (foldM (addPlugin _ _) _ _) as [e'|] eqn:E3; [|done].
  simplify_eq. revert E3. apply foldM_error_code. intros ???. apply addPlugin_refusal.
Qed.

Lemma NewTenantLayer_refusal spec e : NewTenantLayer spec = inl e -> invalid_request e.
Proof.
  unfold NewTenantLayer. intros H. destruct (bool_decide _); [by simplify_eq|].
  destruct (_ =? 0); [by simplify_eq|].
  destruct (foldM (addBudget _) _ _) as [e'|] eqn:E1.
  { simplify_eq. revert E1. apply foldM_error_code. unfold addBudget. intros. refusals. }
  destruct (foldM (addPrincipal _ _) _ _) as [e'|] eqn:E2.
  { simplify_eq. revert E2. apply foldM_error_code. unfold addPrincipal. intros ? p ? Hp.
    destruct (bool_decide _); [by simplify_eq|]. destruct (negb _); [by simplify_eq|].
    destruct (foldM _ tt _) as [e''|] eqn:E; [|done]. simplify_eq. revert E. apply foldM_error_code.
    unfold checkBudgetRef. intros. refusals. }
  destruct (foldM (checkKey _ _) _ _) as [e'|] eqn:E3.
  { simplify_eq. revert E3. apply foldM_error_code. unfold checkKey. intros. refusals. }
  destruct (foldM (addOverride _) _ _) as [e'|] eqn:E4.
  { simplify_eq. revert E4. apply foldM_error_code. unfold addOverride. intros. refusals. }
  destruct (foldM (addPlugin _ _) _ _) as [e'|] eqn:E5; [|done].
  simplify_eq. revert E5. apply foldM_error_code. intros ???. apply addPlugin_refusal.
Qed.

Lemma Compose_refusal global ts e : Compose global ts = inl e -> invalid_request e.
Proof.
  unfold Compose. intros H. destruct global as [g|]; [|by simplify_eq].
  destruct (foldM joinTenant _ _) as [e'|] eqn:E1.
  { simplify_eq. revert E1. apply foldM_error_code. unfold joinTenant. intros. refusals. }
  destruct (foldM (checkRouted _) _ _) as [e'|] eqn:E2; [|done].
  simplify_eq. revert E2. apply foldM_error_code. unfold checkRouted. intros. refusals.
Qed.
