(* ===== verification/Strconv.v ===== *)
(** * Decimal text (strconv)

    [strconv.FormatInt(v, 10)] and [strconv.ParseInt(s, 10, 64)], on which the key-value store's
    counters, the limiter's window keys and the placeholder numbers of the PII transform rely.
    [ParseInt] reports a syntax error or a range error, and inverts [FormatInt] on all int64. *)
From S2P Require Import Prelude.
From Stdlib Require Import ZArith Lia Ascii.
From stdpp Require Import base strings list.
Open Scope Z_scope.
Open Scope gw_scope.

Inductive NumError := ErrSyntax | ErrRange.

Definition max_uint64 : Z := 18446744073709551615.

Definition is_digit (c : ascii) : bool :=
  (48 <=? Z.of_nat (nat_of_ascii c)) && (Z.of_nat (nat_of_ascii c) <=? 57).
Definition digit_val (c : ascii) : Z := Z.of_nat (nat_of_ascii c) - 48.
Definition digit_char (d : Z) : ascii := ascii_of_nat (Z.to_nat (d + 48)).

(** The digit loop of [strconv.ParseUint]. *)
Fixpoint ParseUint_loop (n : Z) (s : list ascii) : NumError + Z :=
  match s with
  | [] => inr n
  | c :: s' =>
      if is_digit c then
        let n1 := n * 10 + digit_val c in
        if max_uint64 <? n1 then inl ErrRange else ParseUint_loop n1 s'
      else inl ErrSyntax
  end.

Definition ParseUint (s : list ascii) : NumError + Z :=
  match s with [] => inl ErrSyntax | _ => ParseUint_loop 0 s end.

Definition ParseInt (s : list ascii) : NumError + Z :=
  match s with
  | [] => inl ErrSyntax
  | c :: s' =>
      let neg := bool_decide (c = "-"%char) in
      let! un := ParseUint (if bool_decide (c = "+"%char) || neg then s' else s) in
      if negb neg && (9223372036854775808 <=? un) then inl ErrRange
      else if neg && (9223372036854775808 <? un) then inl ErrRange
      else inr (if neg then - un else un)
  end.

(** Digits are produced from the least significant end; twenty suffice for 64 bits. *)
Fixpoint format_digits (fuel : nat) (n : Z) (acc : list ascii) : list ascii :=
  match fuel with
  | O => acc
  | S fuel' =>
      let acc' := digit_char (n mod 10) :: acc in
      if n / 10 =? 0 then acc' else format_digits fuel' (n / 10) acc'
  end.

Definition FormatInt (z : Z) : list ascii :=
  if z <? 0 then "-"%char :: format_digits 20 (- z) [] else format_digits 20 z [].

(** ** Lemmas *)

Lemma digit_nat d : 0 <= d < 10 -> nat_of_ascii (digit_char d) = Z.to_nat (d + 48).
Proof. intros Hd. unfold digit_char. apply nat_ascii_embedding. lia. Qed.

Lemma is_digit_char d : 0 <= d < 10 -> is_digit (digit_char d) = true.
Proof. intros Hd. unfold is_digit. rewrite digit_nat by done.
  apply andb_true_iff; split; apply Z.leb_le; lia.
Qed.

Lemma digit_val_char d : 0 <= d < 10 -> digit_val (digit_char d) = d.
Proof. intros Hd. unfold digit_val. rewrite digit_nat by done. lia. Qed.

Lemma parse_digit n d s :
  0 <= d < 10 -> n * 10 + d <= max_uint64 ->
  ParseUint_loop n (digit_char d :: s) = ParseUint_loop (n * 10 + d) s.
Proof.
  intros Hd Hn. cbn [ParseUint_loop]. rewrite is_digit_char, digit_val_char by done.
  by rewrite (proj2 (Z.ltb_ge _ _)) by lia.
Qed.

Lemma parse_format_digits fuel m acc :
  0 <= m < 10 ^ Z.of_nat fuel -> (0 < fuel)%nat -> m <= max_uint64 ->
  ParseUint_loop 0 (format_digits fuel m acc) = ParseUint_loop m acc.
Proof.
  revert m acc. induction fuel as [|fuel IH]; intros m acc Hm Hf Hmax; [lia|].
  cbn [format_digits].
  pose proof (Z.div_mod m 10). pose proof (Z.mod_pos_bound m 10).
  destruct (m / 10 =? 0) eqn:E; zify_bools.
  - rewrite parse_digit by lia. f_equal. lia.
  - assert (Hp : 10 ^ Z.of_nat (S fuel) = 10 * 10 ^ Z.of_nat fuel).
    { rewrite Nat2Z.inj_succ, Z.pow_succ_r by lia. done. }
    assert (m / 10 < 10 ^ Z.of_nat fuel) by (apply Z.div_lt_upper_bound; lia).
    rewrite IH, parse_digit; [f_equal; lia|lia|lia| |destruct fuel; [simpl in *; lia|lia]|lia].
    split; [apply Z.div_pos; lia|done].
Qed.

Lemma format_digits_is_digit fuel m acc :
  Forall (fun c => is_digit c = true) acc ->
  Forall (fun c => is_digit c = true) (format_digits fuel m acc).
Proof.
  revert m acc. induction fuel as [|fuel IH]; intros m acc Ha; cbn [format_digits]; [done|].
  pose proof (Z.mod_pos_bound m 10).
  assert (Forall (fun c => is_digit c = true) (digit_char (m mod 10) :: acc)).
  { constructor; [apply is_digit_char; lia|done]. }
  destruct (m / 10 =? 0); auto.
Qed.

Lemma format_digits_cons fuel m acc :
  (0 < fuel)%nat -> exists d s, format_digits fuel m acc = digit_char d :: s /\ 0 <= d < 10.
Proof.
  revert m acc. induction fuel as [|fuel IH]; intros m acc Hf; [lia|].
  cbn [format_digits]. pose proof (Z.mod_pos_bound m 10).
  destruct (m / 10 =? 0); [eexists _, _; split; [done|lia]|].
  destruct fuel as [|fuel]; [eexists _, _; split; [done|lia]|]. apply IH. lia.
Qed.

Lemma is_digit_not_sign c : is_digit c = true -> c <> "-"%char /\ c <> "+"%char.
Proof. intros H. split; intros ->; vm_compute in H; done. Qed.

Lemma ParseUint_format m :
  0 <= m <= 9223372036854775808 -> ParseUint (format_digits 20 m []) = inr m.
Proof.
  intros Hm. assert (H : ParseUint_loop 0 (format_digits 20 m []) = inr m).
  { rewrite parse_format_digits; [done|change (Z.of_nat 20) with 20; lia|lia|unfold max_uint64; lia]. }
  destruct (format_digits_cons 20 m []) as (d & s & Hs & _); [lia|]. by rewrite Hs in *.
Qed.

(** [ParseInt] inverts [FormatInt] on every [int64]. *)
Lemma ParseInt_FormatInt z : in_int64 z -> ParseInt (FormatInt z) = inr z.
Proof.
  unfold in_int64, int64_min, int64_max. intros Hz. unfold FormatInt.
  destruct (z <? 0) eqn:E; zify_bools.
  - unfold ParseInt. rewrite (bool_decide_true ("-"%char = "-"%char)) by done.
    rewrite orb_true_r, ParseUint_format by lia. cbn [negb andb].
    destruct (9223372036854775808 <? - z) eqn:E2; zify_bools; [lia|]. f_equal. lia.
  - destruct (format_digits_cons 20 z []) as (d & s & Hs & Hd); [lia|].
    pose proof (ParseUint_format z) as Hu. rewrite Hs in *. unfold ParseInt.
    destruct (is_digit_not_sign (digit_char d)) as [H1 H2]; [by apply is_digit_char|].
    rewrite !bool_decide_false by done. cbn [orb].
    rewrite Hu by lia. cbn [negb andb].
    destruct (9223372036854775808 <=? z) eqn:E2; zify_bools; [lia|done].
Qed.

Lemma FormatInt_inj z1 z2 :
  in_int64 z1 -> in_int64 z2 -> FormatInt z1 = FormatInt z2 -> z1 = z2.
Proof.
  intros H1%ParseInt_FormatInt H2%ParseInt_FormatInt Heq. rewrite Heq in H1. congruence.
Qed.

#[export] Hint Resolve ParseInt_FormatInt : gw.
