(* ===== verification/Policy.v ===== *)
(** * Policy (policy/policy.go, policy/decode.go)

    The compiled decision table a snapshot carries: rule matching, first-match evaluation,
    decoding from the wire message, and the cache of decoded bundles.  Protobuf unmarshalling
    and CIDR parsing are arguments of the decoder. *)
From S2P Require Import Prelude Errors Core.
From Stdlib Require Import ZArith Lia Ascii.
From stdpp Require Import base gmap strings list.
Open Scope Z_scope.
Open Scope gw_scope.

Inductive Effect := EffectUnset | EffectAllow | EffectDeny.
#[export] Instance Effect_eq_dec : EqDecision Effect.
Proof. solve_decision. Defined.

Record Rule := mkRule {
  rule_ID : string;
  rule_Effect : Effect;
  rule_Models : list string;
  rule_Endpoints : list Endpoint;
  rule_Roles : list Role;
  rule_Regions : list string;
  rule_SourceNets : list Prefix;
  rule_MaxPayloadBytes : Z;
  rule_DataClass : DataClass;
  rule_MinTrustTier : TrustTier;
  rule_DeepInspection : bool;
  rule_Reason : string }.

Record Bundle := mkBundle {
  bundle_ID : string; bundle_Version : Z; Rules : list Rule; DefaultEffect : Effect }.
Definition NoBundle : Bundle := mkBundle "" 0 [] EffectUnset.

Definition Empty (b : Bundle) : bool := match Rules b with [] => true | _ => false end.

(** [policy.Input]. *)
Record PolicyInput := mkInput {
  inp_Model : string; inp_Endpoint : Endpoint; inp_Roles : list Role; inp_Region : string;
  inp_Source : Addr; inp_Payload : Z }.

(** [policy.Decision]. *)
Record PolicyDecision := mkDecision {
  Allowed : bool; RuleID : string; Reason : string; dec_DataClass : DataClass;
  dec_MinTrustTier : TrustTier; DeepInspection : bool }.

Definition hasAnyRole (required held : list Role) : bool :=
  existsb (fun role => bool_decide (role ∈ required)) held.

Definition inAnyNet (nets : list Prefix) (addr : Addr) : bool :=
  Addr_IsValid addr && existsb (fun net => Prefix_Contains net addr) nets.

(** A present list condition: an empty list restricts nothing. *)
Definition present {A} (l : list A) : bool := match l with [] => false | _ => true end.

Definition matches (rule : Rule) (inp : PolicyInput) : bool :=
  if present (rule_Models rule) && negb (bool_decide (inp_Model inp ∈ rule_Models rule)) then false
  else if present (rule_Endpoints rule) && negb (bool_decide (inp_Endpoint inp ∈ rule_Endpoints rule)) then false
  else if present (rule_Regions rule) && negb (bool_decide (inp_Region inp ∈ rule_Regions rule)) then false
  else if (0 <? rule_MaxPayloadBytes rule) && (rule_MaxPayloadBytes rule <? inp_Payload inp) then false
  else if present (rule_Roles rule) && negb (hasAnyRole (rule_Roles rule) (inp_Roles inp)) then false
  else if present (rule_SourceNets rule) && negb (inAnyNet (rule_SourceNets rule) (inp_Source inp)) then false
  else true.

(** What a matching rule decides. *)
Definition decide_by (rule : Rule) : PolicyDecision :=
  if bool_decide (rule_Effect rule = EffectDeny)
  then mkDecision false (rule_ID rule) (rule_Reason rule) "" TrustUnset false
  else mkDecision true (rule_ID rule) "" (rule_DataClass rule) (rule_MinTrustTier rule)
         (rule_DeepInspection rule).

Fixpoint scan (rules : list Rule) (inp : PolicyInput) : option PolicyDecision :=
  match rules with
  | [] => None
  | rule :: rest => if matches rule inp then Some (decide_by rule) else scan rest inp
  end.

Definition Evaluate (bundle : Bundle) (inp : PolicyInput) : PolicyDecision :=
  match scan (Rules bundle) inp with
  | Some d => d
  | None => mkDecision (negb (bool_decide (DefaultEffect bundle = EffectDeny))) "" "" "" TrustUnset false
  end.

(** ** Decoding *)

(** The generated wire messages, read through their getters. *)
Inductive PbEffect := POLICY_EFFECT_ALLOW | POLICY_EFFECT_DENY | POLICY_EFFECT_OTHER.
Inductive PbTier := TRUST_TIER_EXTERNAL | TRUST_TIER_PRIVATE_CLOUD | TRUST_TIER_INTERNAL | TRUST_TIER_OTHER.

Record PbRule := mkPbRule {
  pb_Id : string; pb_Effect : PbEffect; pb_Models : list string; pb_Endpoints : list string;
  pb_Roles : list string; pb_Regions : list string; pb_SourceCidrs : list string;
  pb_MaxPayloadBytes : Z; pb_DataClass : string; pb_MinTrustTier : PbTier;
  pb_DeepInspection : bool; pb_Reason : string }.

Record PbBundle := mkPbBundle {
  pbb_Id : string; pbb_Version : Z; pbb_Rules : list PbRule; pbb_DefaultEffect : PbEffect }.

Definition decodeEffect (e : PbEffect) : Effect :=
  match e with
  | POLICY_EFFECT_ALLOW => EffectAllow
  | POLICY_EFFECT_DENY => EffectDeny
  | POLICY_EFFECT_OTHER => EffectUnset
  end.

Definition decodeTier (t : PbTier) : TrustTier :=
  match t with
  | TRUST_TIER_EXTERNAL => TrustExternal
  | TRUST_TIER_PRIVATE_CLOUD => TrustPrivateCloud
  | TRUST_TIER_INTERNAL => TrustInternal
  | TRUST_TIER_OTHER => TrustUnset
  end.

(** The cache of decoded bundles, for one snapshot digest at a time. *)
Record Cache := mkCache { cache_digest : string; cache_bundles : gmap TenantID Bundle }.
Definition NewCache : Cache := mkCache "" ∅.

(** The locked read at the start of [Cache.For]. *)
Definition For_read (c : Cache) (tenant : TenantID) (digest : string) : option Bundle :=
  if bool_decide (cache_digest c = digest) then cache_bundles c !! tenant else None.

(** The locked write at its end. *)
Definition For_write (c : Cache) (tenant : TenantID) (digest : string) (bundle : Bundle) : Cache :=
  let c' := if negb (bool_decide (cache_digest c = digest)) then mkCache digest ∅ else c in
  mkCache (cache_digest c') (<[tenant := bundle]> (cache_bundles c')).

Section Decoding.
(** [proto.Unmarshal] into a [PolicyBundle] and [netip.ParsePrefix]. *)
Variable unmarshal : bytes -> error + PbBundle.
Variable ParsePrefix : string -> error + Prefix.

Definition decodeCidr (id : string) (nets : list Prefix) (cidr : string) : error + list Prefix :=
  match ParsePrefix cidr with
  | inl err => inl (GwError CodeInvalidRequest
                      (Msg "policy rule %q has an unparseable network %q" [AStr id; AStr cidr])
                      false (Some err))
  | inr prefix => inr (nets ++ [prefix])
  end.

Definition decodeRule (r : PbRule) : error + Rule :=
  if bool_decide (decodeEffect (pb_Effect r) = EffectUnset) then
    inl (Newf CodeInvalidRequest "policy rule %q has no effect" [AStr (pb_Id r)])
  else
    let! nets := foldM (decodeCidr (pb_Id r)) [] (pb_SourceCidrs r) in
    inr (mkRule (pb_Id r) (decodeEffect (pb_Effect r)) (pb_Models r) (pb_Endpoints r) (pb_Roles r)
           (pb_Regions r) nets (pb_MaxPayloadBytes r) (pb_DataClass r)
           (decodeTier (pb_MinTrustTier r)) (pb_DeepInspection r) (pb_Reason r)).

Definition decodeRules (rules : list Rule) (r : PbRule) : error + list Rule :=
  let! rule := decodeRule r in inr (rules ++ [rule]).

Definition Decode (raw : bytes) : error + Bundle :=
  match raw with
  | [] => inr NoBundle
  | _ =>
      match unmarshal raw with
      | inl err => inl (GwError CodeInvalidRequest (Msg "parsing the policy bundle" []) false (Some err))
      | inr msg =>
          let! rules := foldM decodeRules [] (pbb_Rules msg) in
          inr (mkBundle (pbb_Id msg) (pbb_Version msg) rules (decodeEffect (pbb_DefaultEffect msg)))
      end
  end.

(** [Cache.For], run without interference: the cache afterwards and what it returns. *)
Definition Cache_For (c : Cache) (tenant : TenantID) (digest : string) (raw : bytes)
    : Cache * (error + Bundle) :=
  match For_read c tenant digest with
  | Some bundle => (c, inr bundle)
  | None =>
      match Decode raw with
      | inl err => (c, inl err)
      | inr bundle => (For_write c tenant digest bundle, inr bundle)
      end
  end.

(** ** Cache states any interleaving of calls can reach

    [calls] are the arguments of the calls made so far.  The read and the write of one call may
    be separated by other calls' steps, so a write is a step of its own. *)
Inductive cache_reachable (calls : TenantID -> string -> bytes -> Prop) : Cache -> Prop :=
| cache_init : cache_reachable calls NewCache
| cache_write c tenant digest raw bundle :
    cache_reachable calls c -> calls tenant digest raw -> Decode raw = inr bundle ->
    cache_reachable calls (For_write c tenant digest bundle).

(** ** Lemmas *)

Lemma cache_hit_decoded calls c tenant digest bundle :
  cache_reachable calls c -> For_read c tenant digest = Some bundle ->
  exists raw, calls tenant digest raw /\ Decode raw = inr bundle.
Proof.
  intros Hr. revert tenant digest bundle.
  induction Hr as [|c t d raw b Hc IH Hcall Hdec]; intros tenant digest bundle.
  - unfold For_read. simpl. case_bool_decide; [|done]. by rewrite lookup_empty.
  - unfold For_read, For_write. intros H.
    destruct (decide (t = tenant)) as [->|Hne].
    + case_bool_decide as Hd; [|done]. simpl in H. rewrite lookup_insert_eq in H. simplify_eq.
      exists raw. split; [|done]. destruct (bool_decide_reflect (cache_digest c = d)); naive_solver.
    + apply IH. unfold For_read.
      destruct (bool_decide_reflect (cache_digest c = d)) as [Hd|Hd]; simpl in H;
        (case_bool_decide as Hdig; [|done]); rewrite lookup_insert_ne in H by done.
      * done.
      * by rewrite lookup_empty in H.
Qed.

Lemma decodeRules_loop rs acc rules :
  foldM decodeRules acc rs = inr rules ->
  exists new, rules = acc ++ new /\ Forall2 (fun r rule => decodeRule r = inr rule) rs new.
Proof.
  revert acc. induction rs as [|r rs IH]; intros acc H; simpl in H.
  - simplify_eq. exists []. by rewrite app_nil_r.
  - unfold decodeRules at 1 in H. destruct (decodeRule r) as [|rule] eqn:E; [done|].
    apply IH in H as (new & -> & Hf). exists (rule :: new). rewrite <- app_assoc. split; [done|by constructor].
Qed.

Lemma decodeCidr_loop id cidrs acc nets :
  foldM (decodeCidr id) acc cidrs = inr nets ->
  exists new, nets = acc ++ new /\ Forall2 (fun c p => ParsePrefix c = inr p) cidrs new.
Proof.
  revert acc. induction cidrs as [|c cidrs IH]; intros acc H; simpl in H.
  - simplify_eq. exists []. by rewrite app_nil_r.
  - unfold decodeCidr at 1 in H. destruct (ParsePrefix c) as [|p] eqn:E; [done|].
    apply IH in H as (new & -> & Hf). exists (p :: new). rewrite <- app_assoc. split; [done|by constructor].
Qed.

(** ** Properties *)

(** A decoded bundle carries every rule of the message, in order, each with a real effect
    and every one of its networks parsed: a bundle with an effectless rule or an unparseable
    network does not decode at all. *)
Theorem Decode_complete raw msg bundle :
  raw <> [] -> unmarshal raw = inr msg -> Decode raw = inr bundle ->
  Forall2 (fun r rule => rule_ID rule = pb_Id r /\ rule_Effect rule = decodeEffect (pb_Effect r)
             /\ rule_Effect rule <> EffectUnset
             /\ Forall2 (fun c p => ParsePrefix c = inr p) (pb_SourceCidrs r) (rule_SourceNets rule))
    (pbb_Rules msg) (Rules bundle).
Proof.
  intros Hraw Hmsg H. unfold Decode in H. destruct raw; [done|]. rewrite Hmsg in H.
  destruct (foldM decodeRules [] (pbb_Rules msg)) as [|rules] eqn:E; [done|]. simplify_eq. simpl.
  apply decodeRules_loop in E as (new & -> & Hf). simpl.
  eapply Forall2_impl; [exact Hf|]. intros r rule Hr. unfold decodeRule in Hr.
  case_bool_decide; [done|]. destruct (foldM (decodeCidr _) _ _) as [|nets] eqn:En; [done|].
  simplify_eq. simpl. apply decodeCidr_loop in En as (new' & -> & Hn). done.
Qed.

(** C31. Whatever the interleaving of concurrent calls, the policy cache is transparent for
    callers whose bytes are determined by the tenant and the digest they pass: a hit returns
    exactly what decoding those bytes returns. *)
Theorem Cache_transparent (calls : TenantID -> string -> bytes -> Prop) c tenant digest raw :
  (forall t d raw1 raw2, calls t d raw1 -> calls t d raw2 -> raw1 = raw2) ->
  cache_reachable calls c -> calls tenant digest raw ->
  (Cache_For c tenant digest raw).2 = Decode raw.
Proof.
  intros Hdet Hreach Hcall. unfold Cache_For.
  destruct (For_read c tenant digest) as [bundle|] eqn:E; simpl.
  - destruct (cache_hit_decoded calls c tenant digest bundle Hreach E) as (raw' & Hcall' & Hd).
    by rewrite (Hdet _ _ _ _ Hcall Hcall').
  - by destruct (Decode raw).
Qed.
End Decoding.

(** ** Evaluation *)

Lemma present_spec {A} (l : list A) (b : bool) :
  present l && negb b = false <-> (l = [] \/ b = true).
Proof. destruct l, b; simpl; naive_solver. Qed.

Lemma hasAnyRole_spec required held :
  hasAnyRole required held = true <-> exists role, role ∈ held /\ role ∈ required.
Proof.
  unfold hasAnyRole. rewrite existsb_exists. setoid_rewrite bool_decide_eq_true.
  by setoid_rewrite <- list_elem_of_In.
Qed.

(** A rule is the conjunction of its present conditions. *)
Definition rule_holds (rule : Rule) (inp : PolicyInput) : Prop :=
  (rule_Models rule = [] \/ inp_Model inp ∈ rule_Models rule)
  /\ (rule_Endpoints rule = [] \/ inp_Endpoint inp ∈ rule_Endpoints rule)
  /\ (rule_Regions rule = [] \/ inp_Region inp ∈ rule_Regions rule)
  /\ (0 < rule_MaxPayloadBytes rule -> inp_Payload inp <= rule_MaxPayloadBytes rule)
  /\ (rule_Roles rule = [] \/ exists role, role ∈ inp_Roles inp /\ role ∈ rule_Roles rule)
  /\ (rule_SourceNets rule = [] \/
      exists net, net ∈ rule_SourceNets rule /\ Prefix_Contains net (inp_Source inp) = true).

Lemma inAnyNet_spec nets addr :
  inAnyNet nets addr = true <-> exists net, net ∈ nets /\ Prefix_Contains net addr = true.
Proof.
  unfold inAnyNet. rewrite andb_true_iff, existsb_exists.
  setoid_rewrite <- list_elem_of_In. split; [naive_solver|].
  intros (net & Hin & Hc). split; [|by exists net].
  destruct addr; [|done|done]. unfold Prefix_Contains in Hc. by destruct (prefix_addr net).
Qed.

Lemma if_false_true (b x : bool) : (if b then false else x) = true <-> b = false /\ x = true.
Proof. destruct b; naive_solver. Qed.

Lemma matches_spec rule inp : matches rule inp = true <-> rule_holds rule inp.
Proof.
  unfold matches, rule_holds.
  rewrite !if_false_true, !present_spec, !bool_decide_eq_true, hasAnyRole_spec, inAnyNet_spec.
  rewrite andb_false_iff, !Z.ltb_ge. intuition lia.
Qed.

(** Evaluation is first-match: if some rule matches, the decision is that of the first
    matching rule alone, a deny refusing with its id and reason and an allow stamping its class,
    floor and inspection; if none matches the default decides and stamps nothing. *)
Theorem Evaluate_first_match bundle inp :
  (exists pre rule post, Rules bundle = pre ++ rule :: post
     /\ Forall (fun r => ~ rule_holds r inp) pre /\ rule_holds rule inp
     /\ Evaluate bundle inp = decide_by rule) \/
  (Forall (fun r => ~ rule_holds r inp) (Rules bundle)
   /\ Evaluate bundle inp =
      mkDecision (negb (bool_decide (DefaultEffect bundle = EffectDeny))) "" "" "" TrustUnset false).
Proof.
  unfold Evaluate. induction (Rules bundle) as [|r rs IH]; simpl; [by right|].
  destruct (matches r inp) eqn:E.
  - left. exists [], r, rs. split_and!; [done|constructor|by apply matches_spec|done].
  - assert (~ rule_holds r inp) by (rewrite <- matches_spec; congruence).
    destruct IH as [(pre & rule & post & -> & Hpre & Hr & He)|[Hall He]].
    + left. exists (r :: pre), rule, post. split_and!; [done|by constructor|done|done].
    + right. split; [by constructor|done].
Qed.

(** A rule restricted to networks never matches a caller whose address is unknown. *)
Lemma unknown_source_matches_no_net rule inp :
  rule_SourceNets rule <> [] -> inp_Source inp = AddrInvalid -> matches rule inp = false.
Proof.
  intros Hn Hs. destruct (matches rule inp) eqn:E; [|done].
  apply matches_spec in E as (_ & _ & _ & _ & _ & [?|(net & _ & Hc)]); [done|].
  rewrite Hs in Hc. unfold Prefix_Contains in Hc. by destruct (prefix_addr net).
Qed.

(** ** Witnesses *)

(** A stand-in decoder: one network-restricted deny rule when the first byte is ['d'], an
    allow-everything bundle otherwise. *)
Definition demo_deny_rule : PbRule :=
  mkPbRule "r1" POLICY_EFFECT_DENY [] [] [] [] ["10.0.0.0/8"] 0 "" TRUST_TIER_OTHER false "blocked".
Definition demo_unmarshal (raw : bytes) : error + PbBundle :=
  match raw with
  | "d"%char :: _ => inr (mkPbBundle "deny" 1 [demo_deny_rule] POLICY_EFFECT_ALLOW)
  | _ => inr (mkPbBundle "allow" 1 [] POLICY_EFFECT_ALLOW)
  end.
Definition demo_ParsePrefix (s : string) : error + Prefix :=
  if bool_decide (s = "10.0.0.0/8") then inr (mkPrefix (Addr4 167772160) 8)
  else inl (Foreign "no such network" None).

Lemma Decode_complete_witness :
  exists bundle, Decode demo_unmarshal demo_ParsePrefix ["d"%char] = inr bundle /\
  Forall2 (fun r rule => rule_ID rule = pb_Id r /\ rule_Effect rule = decodeEffect (pb_Effect r)
             /\ rule_Effect rule <> EffectUnset
             /\ Forall2 (fun c p => demo_ParsePrefix c = inr p) (pb_SourceCidrs r) (rule_SourceNets rule))
    [demo_deny_rule] (Rules bundle).
Proof.
  eexists. split; [vm_compute; reflexivity|].
  eapply (Decode_complete demo_unmarshal demo_ParsePrefix ["d"%char]
            (mkPbBundle "deny" 1 [demo_deny_rule] POLICY_EFFECT_ALLOW)); [done|reflexivity|].
  vm_compute. reflexivity.
Defined.

Lemma Cache_transparent_witness :
  (Cache_For demo_unmarshal demo_ParsePrefix
     (For_write NewCache "acme" "g1" (mkBundle "allow" 1 [] EffectAllow)) "acme" "g1" ["a"%char]).2
  = Decode demo_unmarshal demo_ParsePrefix ["a"%char].
Proof.
  apply (Cache_transparent demo_unmarshal demo_ParsePrefix
           (fun t d raw => t = "acme" /\ d = "g1" /\ raw = ["a"%char])).
  - intros t d raw1 raw2 (_ & _ & ->) (_ & _ & ->). reflexivity.
  - eapply (cache_write demo_unmarshal demo_ParsePrefix _ NewCache "acme" "g1" ["a"%char]);
      [constructor|done|vm_compute; reflexivity].
  - done.
Defined.
