(* ===== verification/Wire.v ===== *)
(** * The snapshot wire format (wire/convert.go, wire/codec.go)

    The generated protobuf messages as records ([Module pb]), their conversion to and from the
    specs of [Snapshot], and the digests that content-address a layer.  A singular message field
    is an [option] (a pointer that may be nil, read through its getter); a repeated one is a list.
    Enums are open: any integer may arrive.  Protobuf itself, deterministic marshalling included,
    is the class [ProtoMessage]; SHA-256 is an argument. *)
From S2P Require Import Prelude Errors Core Snapshot SnapshotFacts Policy.
From Stdlib Require Import ZArith Lia Ascii.
From stdpp Require Import base gmap strings list.
Open Scope Z_scope.
Open Scope gw_scope.

(** ** Messages *)
Module pb.
Record LayerVersion := mkLayerVersion { v_Number : Z; v_Digest : string }.
Record RoutingKey := mkRoutingKey { k_BaseModel : string; k_AdapterId : string }.
Record Cost := mkCost {
  c_InputPer_1KMicroUsd : Z; c_OutputPer_1KMicroUsd : Z;
  c_CachedInputPer_1KMicroUsd : Z; c_CacheWritePer_1KMicroUsd : Z }.
Record Deployment := mkDeployment {
  d_Id : string; d_Key : option RoutingKey; d_Provider : string; d_Endpoint : string;
  d_Region : string; d_TrustTier : Z; d_CredentialRef : string; d_Weight : Z;
  d_ShadowPercent : Z; d_Cost : option Cost; d_Capabilities : list string }.
Record ModelAlias := mkModelAlias { a_Name : string; a_Targets : list RoutingKey }.
Record PluginBinding := mkPluginBinding {
  p_Port : Z; p_Component : string; p_Version : string; p_ConfigRef : string }.
Record GuardrailBinding := mkGuardrailBinding {
  g_Component : string; g_Version : string; g_ConfigRef : string; g_TimeoutMs : Z;
  g_FailureMode : Z; g_Blocking : bool; g_Phases : list string; g_Execution : string;
  g_Module : string }.
Record BudgetState := mkBudgetState {
  b_Id : string; b_Scope : Z; b_LimitMicroUsd : Z; b_SpentMicroUsd : Z; b_Hard : bool;
  b_HeadroomBasisPoints : Z }.
Record BudgetRef := mkBudgetRef { br_Id : string; br_Scope : Z }.
Record RateLimit := mkRateLimit {
  r_RequestsPerMinute : Z; r_TokensPerMinute : Z; r_MaxConcurrent : Z }.
Record Principal := mkPrincipal {
  pr_KeyId : string; pr_Tenant : string; pr_Org : string; pr_Team : string; pr_User : string;
  pr_App : string; pr_Roles : list string; pr_ModelsAllowAll : bool; pr_Models : list string;
  pr_Budgets : list BudgetRef; pr_DefaultDataClass : string; pr_MinTrustTier : Z;
  pr_MaxConcurrent : Z; pr_Deprecated : bool; pr_NotAfterUnixMs : Z; pr_Limits : option RateLimit }.
Record KeyEntry := mkKeyEntry { ke_Lookup : bytes; ke_KeyId : string }.
Record GlobalLayer := mkGlobalLayer {
  gl_Version : option LayerVersion; gl_BuiltAtUnixMs : Z; gl_Deployments : list Deployment;
  gl_Aliases : list ModelAlias; gl_TenantPrefixes : gmap string string;
  gl_DefaultPlugins : list PluginBinding; gl_PolicyBundleRef : string;
  gl_DefaultGuardrails : list GuardrailBinding; gl_DefaultPolicy : option PbBundle }.
Record TenantLayer := mkTenantLayer {
  tl_Tenant : string; tl_Version : option LayerVersion; tl_BuiltAtUnixMs : Z; tl_Tier : string;
  tl_Principals : list Principal; tl_Keys : list KeyEntry; tl_AliasOverrides : list ModelAlias;
  tl_Budgets : list BudgetState; tl_Plugins : list PluginBinding; tl_MinTrustTier : Z;
  tl_Guardrails : list GuardrailBinding; tl_Policy : option PbBundle }.
Record Snapshot := mkSnapshot { s_GlobalLayer : option GlobalLayer; s_Tenants : list TenantLayer }.

(** What the getters of a nil message return. *)
Definition nilVersion : LayerVersion := mkLayerVersion 0 "".
Definition nilRoutingKey : RoutingKey := mkRoutingKey "" "".
Definition nilCost : Cost := mkCost 0 0 0 0.
End pb.

(** Enum values of the schema; 0 is UNSPECIFIED in each. *)
Definition UNSPECIFIED : Z := 0.
Definition FAILURE_MODE_OPEN : Z := 1.
Definition FAILURE_MODE_CLOSED : Z := 2.

(** The messages a protobuf library reads and writes.  Marshalling may fail (a string that is not
    UTF-8); deterministic marshalling makes it a function. *)
Class ProtoMessage (M : Type) := {
  proto_Marshal : M -> error + bytes;
  proto_Unmarshal : bytes -> error + M }.

(** Protobuf's own promise: parsing what was serialized gives the message back. *)
Class ProtoLaws (M : Type) `{ProtoMessage M} : Prop :=
  proto_roundtrip (m : M) (b : bytes) : proto_Marshal m = inr b -> proto_Unmarshal b = inr m.

(** ** Enums

    The tables are Go maps: a missing key reads as the zero value, and encoding ranges over the
    table for the entry that holds the value. *)
Definition table_decode {D} (zero : D) (table : gmap Z D) (w : Z) : D := default zero (table !! w).
Definition table_encode {D} `{EqDecision D} (table : gmap Z D) (d : D) : Z :=
  match List.find (fun kv => bool_decide (kv.2 = d)) (map_to_list table) with
  | Some kv => kv.1
  | None => UNSPECIFIED
  end.

Definition trustTiers : gmap Z TrustTier :=
  list_to_map [(1, TrustExternal); (2, TrustPrivateCloud); (3, TrustInternal)].
Definition decodeTrustTier (t : Z) : TrustTier := table_decode TrustUnset trustTiers t.
Definition encodeTrustTier (t : TrustTier) : Z := table_encode trustTiers t.

Definition budgetScopes : gmap Z BudgetScope :=
  list_to_map [(1, BudgetScopeKey); (2, BudgetScopeApp); (3, BudgetScopeUser); (4, BudgetScopeTeam);
               (5, BudgetScopeOrg); (6, BudgetScopeModel); (7, BudgetScopeTraining)].
Definition decodeBudgetScope (s : Z) : BudgetScope := table_decode BudgetScopeUnset budgetScopes s.
Definition encodeBudgetScope (s : BudgetScope) : Z := table_encode budgetScopes s.

Definition ports : gmap Z PortName :=
  list_to_map [(1, PortProvider); (2, PortGuardrail); (3, PortStore); (4, PortTelemetry)].
Definition decodePort (p : Z) : PortName := table_decode "" ports p.
Definition encodePort (p : PortName) : Z := table_encode ports p.

Definition failureModes : gmap Z FailureMode :=
  list_to_map [(FAILURE_MODE_OPEN, FailOpen); (FAILURE_MODE_CLOSED, FailClosed)].

(** ** Time *)

(** [time.UnixMilli] and [Time.UnixMilli]. *)
Definition UnixMilli (ms : Z) : time := unix_epoch_seconds * Second + ms * Millisecond.
Definition Time_UnixMilli (t : time) : Z :=
  wrap64 (wrap64 (Unix t * 1000) + t mod Second / 1000000).

Definition fromUnixMillis (ms : Z) : time := if ms =? 0 then 0 else UnixMilli ms.
Definition toUnixMillis (t : time) : Z := if IsZero t then 0 else Time_UnixMilli t.

(** [Duration.Milliseconds] truncates toward zero. *)
Definition Milliseconds (d : duration) : Z := Z.quot d 1000000.
Definition MaxUint32 : Z := 4294967295.

Definition clampMillis (d : duration) : Z :=
  let ms := Milliseconds d in
  if ms <=? 0 then 0 else if MaxUint32 <? ms then MaxUint32 else ms.

(** ** Leaf conversions *)
Definition decodeVersion (v : option pb.LayerVersion) : LayerVersion :=
  let v := default pb.nilVersion v in mkVersion (pb.v_Number v) (pb.v_Digest v).
Definition encodeVersion (v : LayerVersion) : option pb.LayerVersion :=
  Some (pb.mkLayerVersion (Number v) (Digest v)).

Definition decodeRoutingKey (k : option pb.RoutingKey) : RoutingKey :=
  let k := default pb.nilRoutingKey k in mkRoutingKey (pb.k_BaseModel k) (pb.k_AdapterId k).
Definition encodeRoutingKey (k : RoutingKey) : pb.RoutingKey :=
  pb.mkRoutingKey (BaseModel k) (AdapterID k).

Definition decodeDeployment (d : pb.Deployment) : Deployment :=
  let cost := default pb.nilCost (pb.d_Cost d) in
  mkDeployment (pb.d_Id d) (decodeRoutingKey (pb.d_Key d)) (pb.d_Provider d) (pb.d_Endpoint d)
    (pb.d_Region d) (decodeTrustTier (pb.d_TrustTier d)) (pb.d_CredentialRef d) (pb.d_Weight d)
    (pb.d_ShadowPercent d)
    (mkCost (pb.c_InputPer_1KMicroUsd cost) (pb.c_OutputPer_1KMicroUsd cost)
       (pb.c_CachedInputPer_1KMicroUsd cost) (pb.c_CacheWritePer_1KMicroUsd cost))
    (pb.d_Capabilities d).
Definition encodeDeployment (d : Deployment) : pb.Deployment :=
  pb.mkDeployment (dep_ID d) (Some (encodeRoutingKey (dep_Key d))) (dep_Provider d) (dep_Endpoint d)
    (dep_Region d) (encodeTrustTier (dep_TrustTier d)) (dep_CredentialRef d) (dep_Weight d)
    (dep_ShadowPercent d)
    (Some (pb.mkCost (InputPer1K (dep_Cost d)) (OutputPer1K (dep_Cost d))
             (CachedInputPer1K (dep_Cost d)) (CacheWritePer1K (dep_Cost d))))
    (dep_Capabilities d).

Definition decodeAlias (a : pb.ModelAlias) : ModelAlias :=
  mkAlias (pb.a_Name a) ((fun t => decodeRoutingKey (Some t)) <$> pb.a_Targets a).
Definition encodeAlias (a : ModelAlias) : pb.ModelAlias :=
  pb.mkModelAlias (alias_Name a) (encodeRoutingKey <$> alias_Targets a).

Definition decodePlugin (p : pb.PluginBinding) : PluginBinding :=
  mkPlugin (decodePort (pb.p_Port p)) (pb.p_Component p) (pb.p_Version p) (pb.p_ConfigRef p).
Definition encodePlugin (p : PluginBinding) : pb.PluginBinding :=
  pb.mkPluginBinding (encodePort (plug_Port p)) (plug_Component p) (plug_Version p) (plug_ConfigRef p).

Definition decodePhase (name : string) : Phase :=
  if bool_decide (name = "response") then PhaseResponse else PhaseRequest.
Definition encodePhase (phase : Phase) : string :=
  if bool_decide (phase = PhaseResponse) then "response" else "request".

Definition decodeGuardrail (g : pb.GuardrailBinding) : GuardrailBinding :=
  let mode := default FailClosed (failureModes !! pb.g_FailureMode g) in
  mkBinding (pb.g_Component g) (pb.g_Version g) (pb.g_ConfigRef g) (pb.g_Execution g) (pb.g_Module g)
    (mkGuardBudget (wrap64 (pb.g_TimeoutMs g * Millisecond)) mode (pb.g_Blocking g)
       (decodePhase <$> pb.g_Phases g)).
Definition encodeGuardrail (g : GuardrailBinding) : pb.GuardrailBinding :=
  let budget := bind_Budget g in
  let mode := if bool_decide (bud_Mode budget = FailOpen) then FAILURE_MODE_OPEN
              else FAILURE_MODE_CLOSED in
  pb.mkGuardrailBinding (bind_Component g) (bind_Version g) (bind_ConfigRef g)
    (clampMillis (bud_Timeout budget)) mode (bud_Blocking budget) (encodePhase <$> bud_Phases budget)
    (bind_Execution g) (bind_Module g).

Definition decodeBudget (b : pb.BudgetState) : BudgetState :=
  mkBudget (pb.b_Id b) (decodeBudgetScope (pb.b_Scope b)) (pb.b_LimitMicroUsd b)
    (pb.b_SpentMicroUsd b) (pb.b_Hard b) (pb.b_HeadroomBasisPoints b).
Definition encodeBudget (b : BudgetState) : pb.BudgetState :=
  pb.mkBudgetState (bud_ID b) (encodeBudgetScope (bud_Scope b)) (LimitMicroUSD b) (SpentMicroUSD b)
    (Hard b) (HeadroomBasisPoints b).

(** The superseded [max_concurrent] stands when [limits] carries none. *)
Definition decodeLimits (p : pb.Principal) : RateLimit :=
  match pb.pr_Limits p with
  | None => mkRateLimit 0 0 (pb.pr_MaxConcurrent p)
  | Some l =>
      mkRateLimit (pb.r_RequestsPerMinute l) (pb.r_TokensPerMinute l)
        (if 0 <? pb.r_MaxConcurrent l then pb.r_MaxConcurrent l else pb.pr_MaxConcurrent p)
  end.

Definition decodeBudgetRef (b : pb.BudgetRef) : BudgetRef :=
  mkBudgetRef (pb.br_Id b) (decodeBudgetScope (pb.br_Scope b)).
Definition encodeBudgetRef (b : BudgetRef) : pb.BudgetRef :=
  pb.mkBudgetRef (ref_ID b) (encodeBudgetScope (ref_Scope b)).

Definition decodePrincipal (p : pb.Principal) : Principal :=
  mkPrincipal (pb.pr_KeyId p) (pb.pr_Tenant p) (pb.pr_Org p) (pb.pr_Team p) (pb.pr_User p)
    (pb.pr_App p) (pb.pr_Roles p) (mkAllowlist (pb.pr_ModelsAllowAll p) (pb.pr_Models p))
    (decodeBudgetRef <$> pb.pr_Budgets p) (pb.pr_DefaultDataClass p)
    (decodeTrustTier (pb.pr_MinTrustTier p)) (decodeLimits p) (pb.pr_Deprecated p)
    (fromUnixMillis (pb.pr_NotAfterUnixMs p)).
Definition encodePrincipal (p : Principal) : pb.Principal :=
  let l := p_Limits p in
  pb.mkPrincipal (p_KeyID p) (p_Tenant p) (p_Org p) (p_Team p) (p_User p) (p_App p) (p_Roles p)
    (AllowAll (p_Models p)) (Names (p_Models p)) (encodeBudgetRef <$> p_Budgets p) (p_DefaultClass p)
    (encodeTrustTier (p_MinTrustTier p)) (MaxConcurrent l) (p_Deprecated p)
    (toUnixMillis (p_NotAfter p))
    (Some (pb.mkRateLimit (RequestsPerMinute l) (TokensPerMinute l) (MaxConcurrent l))).

(** One iteration of the key loop of [DecodeTenant]: [KeyLookup] is a 32-byte array, and an entry
    of another length is skipped. *)
Definition KeyLookup_size : nat := 32.
Definition decodeKey (m : gmap KeyLookup KeyID) (k : pb.KeyEntry) : gmap KeyLookup KeyID :=
  if negb (Nat.eqb (length (pb.ke_Lookup k)) KeyLookup_size) then m
  else <[pb.ke_Lookup k := pb.ke_KeyId k]> m.
Definition encodeKey (kv : KeyLookup * KeyID) : pb.KeyEntry := pb.mkKeyEntry kv.1 kv.2.

(** ** Layers *)
Section Layers.
Context `{ProtoMessage PbBundle}.

Definition marshalPolicy (bundle : option PbBundle) : bytes :=
  match bundle with
  | None => []
  | Some b =>
      if negb (present (pbb_Rules b)) && bool_decide (pbb_Id b = "") then []
      else match proto_Marshal b with inl _ => [] | inr raw => raw end
  end.

Definition unmarshalPolicy (raw : bytes) : option PbBundle :=
  match raw with
  | [] => None
  | _ => match proto_Unmarshal raw with inl _ => None | inr b => Some b end
  end.

(** Copying a Go map entry by entry. *)
Definition copyMap (m : gmap string string) : gmap string string :=
  foldl (fun m kv => <[kv.1 := kv.2]> m) ∅ (map_to_list m).

Definition DecodeGlobal (msg : pb.GlobalLayer) : GlobalSpec :=
  mkGlobalSpec (decodeVersion (pb.gl_Version msg)) (fromUnixMillis (pb.gl_BuiltAtUnixMs msg))
    (decodeDeployment <$> pb.gl_Deployments msg) (decodeAlias <$> pb.gl_Aliases msg)
    (copyMap (pb.gl_TenantPrefixes msg)) (decodePlugin <$> pb.gl_DefaultPlugins msg)
    (pb.gl_PolicyBundleRef msg) (decodeGuardrail <$> pb.gl_DefaultGuardrails msg)
    (marshalPolicy (pb.gl_DefaultPolicy msg)).

Definition EncodeGlobal (spec : GlobalSpec) : pb.GlobalLayer :=
  pb.mkGlobalLayer (encodeVersion (gs_Version spec)) (toUnixMillis (gs_BuiltAt spec))
    (encodeDeployment <$> gs_Deployments spec) (encodeAlias <$> gs_Aliases spec)
    (copyMap (gs_TenantPrefixes spec)) (encodePlugin <$> gs_DefaultPlugins spec)
    (gs_PolicyBundleRef spec) (encodeGuardrail <$> gs_DefaultGuardrails spec)
    (unmarshalPolicy (gs_DefaultPolicy spec)).

Definition DecodeTenant (msg : pb.TenantLayer) : TenantSpec :=
  mkTenantSpec (pb.tl_Tenant msg) (decodeVersion (pb.tl_Version msg))
    (fromUnixMillis (pb.tl_BuiltAtUnixMs msg)) (pb.tl_Tier msg)
    (decodePrincipal <$> pb.tl_Principals msg) (foldl decodeKey ∅ (pb.tl_Keys msg))
    (decodeAlias <$> pb.tl_AliasOverrides msg) (decodeBudget <$> pb.tl_Budgets msg)
    (decodePlugin <$> pb.tl_Plugins msg) (decodeGuardrail <$> pb.tl_Guardrails msg)
    (marshalPolicy (pb.tl_Policy msg)) (decodeTrustTier (pb.tl_MinTrustTier msg)).

Definition EncodeTenant (spec : TenantSpec) : pb.TenantLayer :=
  pb.mkTenantLayer (ts_Tenant spec) (encodeVersion (ts_Version spec))
    (toUnixMillis (ts_BuiltAt spec)) (ts_Tier spec) (encodePrincipal <$> ts_Principals spec)
    (encodeKey <$> map_to_list (ts_Keys spec)) (encodeAlias <$> ts_AliasOverrides spec)
    (encodeBudget <$> ts_Budgets spec) (encodePlugin <$> ts_Plugins spec)
    (encodeTrustTier (ts_MinTrustTier spec)) (encodeGuardrail <$> ts_Guardrails spec)
    (unmarshalPolicy (ts_Policy spec)).

(** One iteration of the tenant loop of [DecodeSnapshot]. *)
Definition decodeTenantLayer (layers : list TenantLayer) (t : pb.TenantLayer)
    : error + list TenantLayer :=
  let! layer := NewTenantLayer (DecodeTenant t) in inr (layers ++ [layer]).

Definition DecodeSnapshot (msg : option pb.Snapshot) : error + Snapshot :=
  match msg ≫= pb.s_GlobalLayer with
  | None => inl (New CodeInvalidRequest "snapshot has no global layer")
  | Some g =>
      let! global := NewGlobalLayer (DecodeGlobal g) in
      let! tenants := foldM decodeTenantLayer [] (from_option pb.s_Tenants [] msg) in
      Compose (Some global) (Some <$> tenants)
  end.
End Layers.

(** ** Codecs

    A pair of conversions with its two laws: encoding and decoding a value gives it back exactly
    when the wire can carry it, and whatever arrives decodes to a value the wire can carry. *)
Record codec (D W : Type) := mkCodec {
  enc : D -> W;
  dec : W -> D;
  carried : D -> Prop;
  arrives : W -> Prop;
  dec_enc d : dec (enc d) = d <-> carried d;
  carried_dec w : arrives w -> carried (dec w) }.
Arguments enc {D W} c _ : rename.
Arguments dec {D W} c _ : rename.
Arguments carried {D W} c _ : rename.
Arguments arrives {D W} c _ : rename.
Arguments dec_enc {D W} c d : rename.
Arguments carried_dec {D W} c w _ : rename.

(** A converted list comes back exactly when each element does. *)
Lemma list_dec_enc {D W} (c : codec D W) (l : list D) :
  dec c <$> (enc c <$> l) = l <-> Forall (carried c) l.
Proof.
  induction l as [|d l IH]; [split; [constructor|done]|].
  rewrite list.Forall_cons, <- (dec_enc c), <- IH, !fmap_cons. naive_solver congruence.
Qed.
Lemma list_carried_dec {D W} (c : codec D W) (l : list W) :
  Forall (arrives c) l -> Forall (carried c) (dec c <$> l).
Proof. induction 1; rewrite ?fmap_cons; constructor; auto using carried_dec. Qed.

(** A repeated field converts element by element. *)
Definition list_codec {D W} (c : codec D W) : codec (list D) (list W) :=
  mkCodec _ _ (fmap (enc c)) (fmap (dec c)) (Forall (carried c)) (Forall (arrives c))
    (list_dec_enc c) (list_carried_dec c).

(** The two sides of a record equation whose other fields are copied. *)
Ltac by_fields :=
  split; [intros [=]; by split_and? | intros; destruct_and?; repeat (reflexivity || assumption || f_equal)].

(** *** Enums *)
Definition in_table {D} (zero : D) (table : gmap Z D) (d : D) : Prop :=
  d = zero \/ exists w, table !! w = Some d.

Definition table_codec {D} `{EqDecision D} (zero : D) (table : gmap Z D)
    (Hunspec : table !! UNSPECIFIED = None) : codec D Z.
Proof.
  refine (mkCodec _ _ (table_encode table) (table_decode zero table) (in_table zero table)
            (fun _ => True) _ _).
  - intros d. unfold table_encode, table_decode.
    destruct (List.find _ _) as [[k v]|] eqn:Hf.
    + apply List.find_some in Hf as [Hin Hv]. zify_bools. simpl in Hv; subst v.
      apply list_elem_of_In, elem_of_map_to_list in Hin. simpl. rewrite Hin.
      split; [intros _; right; by exists k|done].
    + rewrite Hunspec. simpl. split; [by left|]. intros [->|[w Hw]]; [done|].
      apply elem_of_map_to_list, list_elem_of_In in Hw.
      pose proof (List.find_none _ _ Hf _ Hw) as Hn. simpl in Hn. zify_bools. by destruct Hn.
  - intros w _. unfold table_decode. destruct (table !! w) eqn:Hw; [right; by exists w|by left].
Defined.

Definition tier_codec : codec TrustTier Z := table_codec TrustUnset trustTiers eq_refl.
Definition scope_codec : codec BudgetScope Z := table_codec BudgetScopeUnset budgetScopes eq_refl.
Definition port_codec : codec PortName Z := table_codec "" ports eq_refl.

(** *** Times and durations *)
Definition time_carried (t : time) : Prop :=
  t = 0 \/ exists ms, in_int64 ms /\ ms <> 0 /\ t = UnixMilli ms.

Lemma Time_UnixMilli_of ms : in_int64 ms -> Time_UnixMilli (UnixMilli ms) = ms.
Proof.
  intros Hms. unfold Time_UnixMilli, Unix, UnixMilli.
  set (t := unix_epoch_seconds * Second + ms * Millisecond).
  assert (Ht : t / Second - unix_epoch_seconds = ms / 1000).
  { unfold t. rewrite Z.add_comm, Z.div_add by done. replace (ms * Millisecond / Second) with (ms / 1000); [lia|].
    change Second with (1000 * Millisecond). by rewrite Z.div_mul_cancel_r. }
  assert (Hr : t mod Second / 1000000 = ms mod 1000).
  { unfold t. rewrite Z.add_comm, Z.mod_add by done.
    change Second with (1000 * Millisecond). rewrite Z.mul_mod_distr_r by done.
    unfold Millisecond. by rewrite Z.div_mul. }
  rewrite Ht, Hr. pose proof (Z.div_mod ms 1000 ltac:(done)). pose proof (Z.mod_pos_bound ms 1000 ltac:(done)).
  destruct (Z.le_gt_cases int64_min (ms / 1000 * 1000)) as [Hlo|Hlo].
  - rewrite (wrap64_id (ms / 1000 * 1000)) by (unfold in_int64 in *; lia).
    rewrite wrap64_id; [lia|unfold in_int64 in *; lia].
  - unfold wrap64, in_int64, int64_min, int64_max in *.
    replace (ms / 1000 * 1000 + 9223372036854775808)
      with (ms / 1000 * 1000 + 27670116110564327424 + -1 * 18446744073709551616) by lia.
    rewrite Z.mod_add, (Z.mod_small (_ + 27670116110564327424)) by lia.
    replace (ms / 1000 * 1000 + 27670116110564327424 - 9223372036854775808 + ms mod 1000 + 9223372036854775808)
      with (ms + 9223372036854775808 + 1 * 18446744073709551616) by lia.
    rewrite Z.mod_add, Z.mod_small by lia. lia.
Qed.

Lemma Time_UnixMilli_range t : in_int64 (Time_UnixMilli t).
Proof. apply wrap64_range. Qed.

Definition time_codec : codec time Z.
Proof.
  refine (mkCodec _ _ toUnixMillis fromUnixMillis time_carried in_int64 _ _).
  - intros t. unfold toUnixMillis, fromUnixMillis, IsZero.
    destruct (t =? 0) eqn:Ht; zify_bools; [subst; split; [by left|done]|].
    destruct (Time_UnixMilli t =? 0) eqn:Hms; zify_bools.
    + split; [intros <-; by left|]. intros [->|(ms & Hin & Hnz & ->)]; [done|].
      by rewrite Time_UnixMilli_of in Hms.
    + split; [intros Heq; right; exists (Time_UnixMilli t); split_and!; auto using Time_UnixMilli_range|].
      intros [->|(ms & Hin & Hnz & ->)]; [done|]. by rewrite Time_UnixMilli_of.
  - intros ms Hin. unfold fromUnixMillis. destruct (ms =? 0) eqn:Hms; zify_bools; [by left|].
    right. by exists ms.
Defined.

Lemma clampMillis_range d : in_uint32 (clampMillis d).
Proof.
  unfold clampMillis, in_uint32, MaxUint32.
  destruct (_ <=? 0) eqn:?; [lia|]. destruct (4294967295 <? _) eqn:?; zify_bools; lia.
Qed.

Definition timeout_carried (d : duration) : Prop := exists ms, in_uint32 ms /\ d = ms * Millisecond.

Definition timeout_codec : codec duration Z.
Proof.
  assert (Hw : forall ms, in_uint32 ms -> wrap64 (ms * Millisecond) = ms * Millisecond).
  { intros ms ?. apply wrap64_id. unfold in_uint32, in_int64, int64_min, int64_max, Millisecond in *. lia. }
  refine (mkCodec _ _ clampMillis (fun ms => wrap64 (ms * Millisecond)) timeout_carried in_uint32 _ _).
  - intros d. rewrite Hw by apply clampMillis_range. split.
    + intros <-. exists (clampMillis d). split; [apply clampMillis_range|done].
    + intros (ms & Hms & ->). f_equal. unfold clampMillis, Milliseconds, Millisecond, MaxUint32.
      rewrite Z.quot_mul by done. unfold in_uint32 in Hms.
      destruct (ms <=? 0) eqn:?, (4294967295 <? ms) eqn:?; zify_bools; lia.
  - intros ms Hms. exists ms. by rewrite Hw.
Defined.

(** The laws of the leaf codecs, in the terms the messages use. *)
Lemma tier_dec_enc t : decodeTrustTier (encodeTrustTier t) = t <-> carried tier_codec t.
Proof. exact (dec_enc tier_codec t). Qed.
Lemma scope_dec_enc s : decodeBudgetScope (encodeBudgetScope s) = s <-> carried scope_codec s.
Proof. exact (dec_enc scope_codec s). Qed.
Lemma port_dec_enc p : decodePort (encodePort p) = p <-> carried port_codec p.
Proof. exact (dec_enc port_codec p). Qed.
Lemma time_dec_enc t : fromUnixMillis (toUnixMillis t) = t <-> carried time_codec t.
Proof. exact (dec_enc time_codec t). Qed.
Lemma timeout_dec_enc d : wrap64 (clampMillis d * Millisecond) = d <-> carried timeout_codec d.
Proof. exact (dec_enc timeout_codec d). Qed.

#[local] Arguments decodeTrustTier : simpl never.
#[local] Arguments encodeTrustTier : simpl never.
#[local] Arguments decodeBudgetScope : simpl never.
#[local] Arguments encodeBudgetScope : simpl never.
#[local] Arguments decodePort : simpl never.
#[local] Arguments encodePort : simpl never.
#[local] Arguments fromUnixMillis : simpl never.
#[local] Arguments toUnixMillis : simpl never.
#[local] Arguments clampMillis : simpl never.
#[local] Arguments wrap64 : simpl never.

(** *** Messages *)
Definition key_codec : codec RoutingKey pb.RoutingKey.
Proof.
  refine (mkCodec _ _ encodeRoutingKey (fun k => decodeRoutingKey (Some k)) (fun _ => True)
            (fun _ => True) _ _); [intros []; done|done].
Defined.

Definition deployment_codec : codec Deployment pb.Deployment.
Proof.
  refine (mkCodec _ _ encodeDeployment decodeDeployment
            (fun d => carried tier_codec (dep_TrustTier d)) (fun _ => True) _ _).
  - intros [? [] ? ? ? tier ? ? ? [] ?]. rewrite <- tier_dec_enc.
    unfold encodeDeployment, decodeDeployment. cbn. by_fields.
  - intros d _. by apply (carried_dec tier_codec).
Defined.

Definition alias_codec : codec ModelAlias pb.ModelAlias.
Proof.
  refine (mkCodec _ _ encodeAlias decodeAlias (fun _ => True) (fun _ => True) _ _); [|done].
  intros [name targets]. unfold encodeAlias, decodeAlias. cbn -[fmap]. split; [done|intros _].
  f_equal. apply (list_dec_enc key_codec). by apply list.Forall_forall.
Defined.

Definition plugin_codec : codec PluginBinding pb.PluginBinding.
Proof.
  refine (mkCodec _ _ encodePlugin decodePlugin (fun p => carried port_codec (plug_Port p))
            (fun _ => True) _ _).
  - intros [port ? ? ?]. rewrite <- port_dec_enc.
    unfold encodePlugin, decodePlugin. cbn. by_fields.
  - intros p _. by apply (carried_dec port_codec).
Defined.

Lemma phases_roundtrip (l : list Phase) : decodePhase <$> (encodePhase <$> l) = l.
Proof. induction l as [|[] l IH]; rewrite ?fmap_cons, ?IH; done. Qed.

Definition guardrail_codec : codec GuardrailBinding pb.GuardrailBinding.
Proof.
  refine (mkCodec _ _ encodeGuardrail decodeGuardrail
            (fun g => carried timeout_codec (bud_Timeout (bind_Budget g)))
            (fun g => arrives timeout_codec (pb.g_TimeoutMs g)) _ _).
  - intros [? ? ? ? ? [timeout mode ? phases]]. rewrite <- timeout_dec_enc.
    unfold encodeGuardrail, decodeGuardrail. cbn -[fmap failureModes].
    rewrite phases_roundtrip.
    replace (default FailClosed _) with mode by (destruct mode; reflexivity). by_fields.
  - intros g Hg. exact (carried_dec timeout_codec _ Hg).
Defined.

Definition budget_codec : codec BudgetState pb.BudgetState.
Proof.
  refine (mkCodec _ _ encodeBudget decodeBudget (fun b => carried scope_codec (bud_Scope b))
            (fun _ => True) _ _).
  - intros [? scope ? ? ? ?]. rewrite <- scope_dec_enc.
    unfold encodeBudget, decodeBudget. cbn. by_fields.
  - intros b _. by apply (carried_dec scope_codec).
Defined.

Definition budgetref_codec : codec BudgetRef pb.BudgetRef.
Proof.
  refine (mkCodec _ _ encodeBudgetRef decodeBudgetRef (fun b => carried scope_codec (ref_Scope b))
            (fun _ => True) _ _).
  - intros [? scope]. rewrite <- scope_dec_enc.
    unfold encodeBudgetRef, decodeBudgetRef. cbn. by_fields.
  - intros b _. by apply (carried_dec scope_codec).
Defined.

Lemma limits_roundtrip p : decodeLimits (encodePrincipal p) = p_Limits p.
Proof.
  destruct p as [? ? ? ? ? ? ? ? ? ? ? [rpm tpm mc] ? ?]. unfold decodeLimits. cbn.
  by destruct (0 <? mc).
Qed.

Definition principal_carried (p : Principal) : Prop :=
  Forall (carried budgetref_codec) (p_Budgets p) /\ carried tier_codec (p_MinTrustTier p)
  /\ carried time_codec (p_NotAfter p).

Definition principal_codec : codec Principal pb.Principal.
Proof.
  refine (mkCodec _ _ encodePrincipal decodePrincipal principal_carried
            (fun p => arrives time_codec (pb.pr_NotAfterUnixMs p)) _ _).
  - intros p. unfold principal_carried. rewrite <- (list_dec_enc budgetref_codec).
    rewrite <- tier_dec_enc, <- time_dec_enc.
    unfold decodePrincipal. rewrite limits_roundtrip.
    destruct p as [? ? ? ? ? ? ? [] ? ? ? ? ? ?]. cbn -[fmap]. by_fields.
  - intros p Hp. split_and!; [|by apply (carried_dec tier_codec)|exact (carried_dec time_codec _ Hp)].
    apply list_carried_dec. by apply list.Forall_forall.
Defined.

(** *** Maps *)

(** Inserting the entries of a list with distinct keys builds the map of the list. *)
Lemma foldl_insert_list {K A} `{Countable K} (l : list (K * A)) (acc : gmap K A) :
  NoDup l.*1 -> (forall k, k ∈ l.*1 -> acc !! k = None) ->
  foldl (fun m kv => <[kv.1 := kv.2]> m) acc l = list_to_map l ∪ acc.
Proof.
  revert acc. induction l as [|[k v] l IH]; intros acc Hl Hacc; [by simpl; rewrite (left_id_L ∅ (∪))|].
  rewrite fmap_cons in Hl, Hacc. apply list.NoDup_cons in Hl as [Hk Hl]. simpl.
  rewrite IH; [|done|].
  - by rewrite <- insert_union_r, insert_union_l by by apply not_elem_of_list_to_map_1.
  - intros k' Hk'. rewrite lookup_insert_ne by (intros <-; done). apply Hacc. by right.
Qed.

Lemma foldl_insert_map {K A} `{Countable K} (m : gmap K A) :
  foldl (fun m kv => <[kv.1 := kv.2]> m) ∅ (map_to_list m) = m.
Proof.
  rewrite foldl_insert_list; [|apply NoDup_fst_map_to_list|by intros; rewrite lookup_empty].
  by rewrite (right_id_L ∅ (∪)), list_to_map_to_list.
Qed.

Lemma copyMap_id m : copyMap m = m.
Proof. apply foldl_insert_map. Qed.

(** Every key the decoder keeps has the size of a lookup. *)
Definition keys_carried (m : gmap KeyLookup KeyID) : Prop :=
  map_Forall (fun k _ => length k = KeyLookup_size) m.

Lemma decodeKey_carried l m : keys_carried m -> keys_carried (foldl decodeKey m l).
Proof.
  revert m. induction l as [|k l IH]; intros m Hm; simpl; [done|]. apply IH.
  unfold decodeKey. destruct (Nat.eqb _ _) eqn:Hk; simpl; [|done].
  apply map_Forall_insert_2; [by apply Nat.eqb_eq|done].
Qed.

Lemma keys_roundtrip m :
  foldl decodeKey ∅ (encodeKey <$> map_to_list m) = m <-> keys_carried m.
Proof.
  split; [intros <-; by apply decodeKey_carried, map_Forall_empty|]. intros Hm.
  assert (Hl : Forall (fun kv : KeyLookup * KeyID => length kv.1 = KeyLookup_size) (map_to_list m)).
  { apply list.Forall_forall. intros [k v] Hin. by eapply Hm, elem_of_map_to_list. }
  rewrite <- (foldl_insert_map m) at 2. revert Hl.
  generalize (map_to_list m) (∅ : gmap KeyLookup KeyID). clear m Hm. intros l acc Hl.
  revert acc. induction Hl as [|[k v] l Hk _ IH]; intros acc; simpl; [done|].
  rewrite IH. f_equal. unfold decodeKey. cbn in *. by rewrite Hk.
Qed.

(** ** What the wire carries *)
Section LayerCodecs.
Context `{ProtoMessage PbBundle}.

(** A bundle that says nothing: no rules and no id. *)
Definition vacuous (b : PbBundle) : Prop := pbb_Rules b = [] /\ pbb_Id b = "".
#[local] Instance vacuous_dec b : Decision (vacuous b).
Proof. unfold vacuous. destruct (pbb_Rules b); [|right; naive_solver]. apply and_dec; apply _. Defined.

(** Absent, or the encoding of a bundle that says something. *)
Definition policy_carried (raw : bytes) : Prop :=
  raw = [] \/ exists b, proto_Unmarshal raw = inr b /\ proto_Marshal b = inr raw /\ ~ vacuous b.

Lemma marshalPolicy_some b :
  marshalPolicy (Some b) =
  if decide (vacuous b) then [] else match proto_Marshal b with inl _ => [] | inr raw => raw end.
Proof.
  unfold marshalPolicy. destruct (decide (vacuous b)) as [[Hr Hi]|Hv]; [by rewrite Hr, Hi|].
  unfold vacuous in Hv. destruct (pbb_Rules b); [|done].
  rewrite bool_decide_false by naive_solver. done.
Qed.

Lemma policy_roundtrip raw : marshalPolicy (unmarshalPolicy raw) = raw <-> policy_carried raw.
Proof.
  unfold policy_carried, unmarshalPolicy. destruct raw as [|c raw]; [split; [by left|done]|].
  destruct (proto_Unmarshal (c :: raw)) as [e|b].
  { split; [done|]. by intros [?|(b & ? & _)]. }
  rewrite marshalPolicy_some. destruct (decide (vacuous b)) as [Hv|Hv].
  { split; [done|]. intros [?|(b' & ? & _ & Hv')]; simplify_eq; done. }
  destruct (proto_Marshal b) as [e|raw'] eqn:Hm.
  - split; [done|]. intros [?|(b' & ? & Hm' & _)]; congruence.
  - split; [intros ->; right; by exists b|]. intros [?|(b' & ? & Hm' & _)]; congruence.
Qed.

Definition global_carried (spec : GlobalSpec) : Prop :=
  carried time_codec (gs_BuiltAt spec) /\ Forall (carried deployment_codec) (gs_Deployments spec)
  /\ Forall (carried plugin_codec) (gs_DefaultPlugins spec)
  /\ Forall (carried guardrail_codec) (gs_DefaultGuardrails spec)
  /\ policy_carried (gs_DefaultPolicy spec).

Definition tenant_carried (spec : TenantSpec) : Prop :=
  carried time_codec (ts_BuiltAt spec) /\ Forall principal_carried (ts_Principals spec)
  /\ keys_carried (ts_Keys spec) /\ Forall (carried budget_codec) (ts_Budgets spec)
  /\ Forall (carried plugin_codec) (ts_Plugins spec)
  /\ Forall (carried guardrail_codec) (ts_Guardrails spec)
  /\ policy_carried (ts_Policy spec) /\ carried tier_codec (ts_MinTrustTier spec).

(** Fields hold values of their wire type. *)
Definition global_arrives (m : pb.GlobalLayer) : Prop :=
  in_int64 (pb.gl_BuiltAtUnixMs m)
  /\ Forall (fun g => in_uint32 (pb.g_TimeoutMs g)) (pb.gl_DefaultGuardrails m).
Definition tenant_arrives (m : pb.TenantLayer) : Prop :=
  in_int64 (pb.tl_BuiltAtUnixMs m)
  /\ Forall (fun p => in_int64 (pb.pr_NotAfterUnixMs p)) (pb.tl_Principals m)
  /\ Forall (fun g => in_uint32 (pb.g_TimeoutMs g)) (pb.tl_Guardrails m).

Lemma aliases_roundtrip (l : list ModelAlias) : decodeAlias <$> (encodeAlias <$> l) = l.
Proof. apply (list_dec_enc alias_codec). by apply list.Forall_forall. Qed.
Lemma version_roundtrip v : decodeVersion (encodeVersion v) = v.
Proof. by destruct v. Qed.

Lemma global_dec_enc spec : DecodeGlobal (EncodeGlobal spec) = spec <-> global_carried spec.
Proof.
  unfold global_carried. rewrite <- time_dec_enc, <- (list_dec_enc deployment_codec).
  rewrite <- (list_dec_enc plugin_codec), <- (list_dec_enc guardrail_codec), <- policy_roundtrip.
  unfold DecodeGlobal, EncodeGlobal. destruct spec. cbn -[fmap].
  rewrite version_roundtrip, aliases_roundtrip, !copyMap_id. by_fields.
Qed.

Lemma tenant_dec_enc spec : DecodeTenant (EncodeTenant spec) = spec <-> tenant_carried spec.
Proof.
  unfold tenant_carried. rewrite <- time_dec_enc, <- (list_dec_enc principal_codec).
  rewrite <- (list_dec_enc plugin_codec), <- (list_dec_enc guardrail_codec), <- policy_roundtrip.
  rewrite <- (list_dec_enc budget_codec), <- keys_roundtrip, <- tier_dec_enc.
  unfold DecodeTenant, EncodeTenant. destruct spec. cbn -[fmap].
  rewrite version_roundtrip, aliases_roundtrip. by_fields.
Qed.

Context `{!ProtoLaws PbBundle}.

Lemma marshalPolicy_carried b : policy_carried (marshalPolicy b).
Proof.
  destruct b as [b|]; [|by left]. rewrite marshalPolicy_some.
  destruct (decide (vacuous b)); [by left|]. destruct (proto_Marshal b) eqn:Hm; [by left|].
  right. exists b. split_and!; try done. by apply proto_roundtrip.
Qed.

Lemma global_carried_dec m : global_arrives m -> global_carried (DecodeGlobal m).
Proof.
  intros [Ht Hg]. split_and!.
  - exact (carried_dec time_codec _ Ht).
  - apply list_carried_dec. by apply list.Forall_forall.
  - apply list_carried_dec. by apply list.Forall_forall.
  - by apply list_carried_dec.
  - apply marshalPolicy_carried.
Qed.

Lemma tenant_carried_dec m : tenant_arrives m -> tenant_carried (DecodeTenant m).
Proof.
  intros (Ht & Hp & Hg). split_and!.
  - exact (carried_dec time_codec _ Ht).
  - by apply (list_carried_dec principal_codec).
  - by apply decodeKey_carried, map_Forall_empty.
  - apply list_carried_dec. by apply list.Forall_forall.
  - apply list_carried_dec. by apply list.Forall_forall.
  - by apply list_carried_dec.
  - apply marshalPolicy_carried.
  - by apply (carried_dec tier_codec).
Qed.
End LayerCodecs.

(** ** Decoding a snapshot *)
Section DecodeFacts.
Context `{ProtoMessage PbBundle}.

Lemma tenants_loop ms acc layers :
  foldM decodeTenantLayer acc ms = inr layers <->
  exists new, layers = acc ++ new /\ Forall2 (fun m t => NewTenantLayer (DecodeTenant m) = inr t) ms new.
Proof.
  revert acc. induction ms as [|m ms IH]; intros acc; cbn [foldM].
  - split; [intros [= <-]; exists []; by rewrite app_nil_r|].
    intros (new & -> & Hn). apply Forall2_nil_inv_l in Hn as ->. by rewrite app_nil_r.
  - unfold decodeTenantLayer at 1. destruct (NewTenantLayer (DecodeTenant m)) as [e|t] eqn:E.
    + split; [done|]. intros (new & _ & Hn). apply Forall2_cons_inv_l in Hn as (t & ? & ? & _). congruence.
    + rewrite IH. split; intros (new & -> & Hn).
      * exists (t :: new). rewrite <- app_assoc. split; [done|by constructor].
      * apply Forall2_cons_inv_l in Hn as (t' & new' & Ht & Hn & ->). exists new'.
        rewrite <- app_assoc. by assert (t' = t) as -> by congruence.
Qed.

(** What makes a wire snapshot acceptable. *)
Definition snapshot_acceptable (msg : pb.Snapshot) : Prop :=
  exists g, pb.s_GlobalLayer msg = Some g /\ global_spec_ok (DecodeGlobal g)
    /\ Forall (fun m => tenant_spec_ok (DecodeTenant m)) (pb.s_Tenants msg)
    /\ NoDup (pb.tl_Tenant <$> pb.s_Tenants msg)
    /\ Forall (fun m => exists prefix, pb.gl_TenantPrefixes g !! prefix = Some (pb.tl_Tenant m))
         (pb.s_Tenants msg).

Lemma decoded_tenant_id m t : NewTenantLayer (DecodeTenant m) = inr t -> t_tenant t = pb.tl_Tenant m.
Proof. intros [_ ->]%NewTenantLayer_inv. done. Qed.

Lemma decoded_ids ms ts :
  Forall2 (fun m t => NewTenantLayer (DecodeTenant m) = inr t) ms ts ->
  t_tenant <$> ts = pb.tl_Tenant <$> ms.
Proof. induction 1 as [|m t ms ts Ht _ IH]; [done|]. rewrite !fmap_cons, IH. f_equal. by apply decoded_tenant_id. Qed.

Lemma decoded_layers ms :
  Forall (fun m => tenant_spec_ok (DecodeTenant m)) ms <->
  exists ts, Forall2 (fun m t => NewTenantLayer (DecodeTenant m) = inr t) ms ts.
Proof.
  split.
  - induction 1 as [|m ms Hm _ [ts IH]]; [by exists []|].
    destruct (proj2 (NewTenantLayer_inv (DecodeTenant m) _) (conj Hm eq_refl)). eexists (_ :: ts).
    constructor; [by apply NewTenantLayer_inv|done].
  - intros [ts Hts]. induction Hts as [|m t ms ts Ht _ IH]; constructor; [|done].
    by apply NewTenantLayer_inv in Ht as [? _].
Qed.

Lemma routed_tenants g ms ts :
  t_tenant <$> ts = pb.tl_Tenant <$> ms ->
  Forall (fun t => exists prefix : string, g !! prefix = Some (t_tenant t)) ts <->
  Forall (fun m => exists prefix : string, (g : gmap string string) !! prefix = Some (pb.tl_Tenant m)) ms.
Proof.
  intros Heq. transitivity (Forall (fun id => exists prefix, g !! prefix = Some id) (t_tenant <$> ts)).
  - by rewrite Forall_fmap.
  - rewrite Heq. by rewrite Forall_fmap.
Qed.

Lemma DecodeSnapshot_inv msg s :
  DecodeSnapshot (Some msg) = inr s <->
  exists g global ts, pb.s_GlobalLayer msg = Some g /\ NewGlobalLayer (DecodeGlobal g) = inr global
    /\ Forall2 (fun m t => NewTenantLayer (DecodeTenant m) = inr t) (pb.s_Tenants msg) ts
    /\ Compose (Some global) (Some <$> ts) = inr s.
Proof.
  unfold DecodeSnapshot. simpl. destruct (pb.s_GlobalLayer msg) as [g|]; [|naive_solver].
  destruct (NewGlobalLayer (DecodeGlobal g)) as [e|global] eqn:Eg; [naive_solver congruence|].
  destruct (foldM decodeTenantLayer [] (pb.s_Tenants msg)) as [e|ts] eqn:Et.
  - split; [done|]. intros (g' & global' & ts & _ & _ & Hf & _).
    assert (foldM decodeTenantLayer [] (pb.s_Tenants msg) = inr ts) by (apply tenants_loop; by exists ts).
    congruence.
  - apply tenants_loop in Et as (ts' & Hts & Hf). simpl in Hts. subst ts'. split.
    + intros Hc. by exists g, global, ts.
    + intros (g' & global' & ts' & Hg & Hglobal & Hf' & Hc). simplify_eq.
      assert (global' = global) as -> by congruence.
      enough (ts' = ts) as <- by done. clear Hc. revert ts Hf.
      induction Hf' as [|m t ms ts0 Ht _ IH]; intros ts Hf; [by apply Forall2_nil_inv_l in Hf|].
      apply Forall2_cons_inv_l in Hf as (t' & ts1 & Ht' & Hf & ->). f_equal; [congruence|by apply IH].
Qed.

Lemma decoded_global_wf msg s : DecodeSnapshot (Some msg) = inr s -> global_wf (s_global s).
Proof.
  intros (g & global & ts & _ & Hg & _ & Hc)%DecodeSnapshot_inv.
  apply Compose_inv in Hc as (Hs & _). simplify_eq. by eapply NewGlobalLayer_wf.
Qed.

Lemma DecodeSnapshot_acceptance msg :
  (exists s, DecodeSnapshot (Some msg) = inr s) <-> snapshot_acceptable msg.
Proof.
  unfold snapshot_acceptable. split.
  - intros [s (g & global & ts & Hm & Hg & Hf & Hc)%DecodeSnapshot_inv]. exists g.
    pose proof (decoded_ids _ _ Hf) as Hids.
    apply NewGlobalLayer_inv in Hg as [Hok ->].
    destruct (proj1 (Compose_accepts _ ts) (ex_intro _ s Hc)) as [Hn Hr]. simpl in Hr.
    rewrite copyMap_id in Hr. rewrite Hids in Hn.
    split_and!; [done|done|apply decoded_layers; by exists ts|done|by apply (routed_tenants _ _ ts)].
  - intros (g & Hm & Hok & [ts Hf]%decoded_layers & Hn & Hr).
    pose proof (decoded_ids _ _ Hf) as Hids.
    pose proof (proj2 (NewGlobalLayer_inv (DecodeGlobal g) _) (conj Hok eq_refl)) as Hg.
    destruct (proj2 (Compose_accepts (match NewGlobalLayer (DecodeGlobal g) with
                                      | inr l => l | inl _ => demo_global end) ts)) as [s Hs].
    + split; [by rewrite Hids|]. rewrite Hg. simpl. rewrite copyMap_id. by eapply routed_tenants.
    + exists s. rewrite Hg in Hs. apply DecodeSnapshot_inv. by eexists g, _, ts.
Qed.

Lemma DecodeSnapshot_refusal msg e : DecodeSnapshot msg = inl e -> invalid_request e.
Proof.
  unfold DecodeSnapshot. intros He. destruct (msg ≫= _) as [g|]; [|by simplify_eq].
  destruct (NewGlobalLayer _) eqn:Eg; [simplify_eq; by eapply NewGlobalLayer_refusal|].
  destruct (foldM decodeTenantLayer _ _) as [e'|] eqn:Et; [|by eapply Compose_refusal].
  simplify_eq. revert Et. apply foldM_error_code. unfold decodeTenantLayer. intros b m e' Hm.
  destruct (NewTenantLayer _) eqn:En; [|done]. simplify_eq. by eapply NewTenantLayer_refusal.
Qed.

(** ** Properties *)

(** C34. Encoding a spec and decoding it again gives back the same spec exactly when the wire can
    carry it: build stamps and expiries are unset or a non-zero number of milliseconds, guardrail
    timeouts are milliseconds that fit 32 bits, tiers, scopes and ports are those of the schema,
    key lookups have 32 bytes, and a policy is the encoding of a bundle with rules or an id.  All
    other fields, both fallback limits included, survive unconditionally. *)
Theorem specs_survive_the_wire :
  (forall spec, DecodeGlobal (EncodeGlobal spec) = spec <-> global_carried spec) /\
  (forall spec, DecodeTenant (EncodeTenant spec) = spec <-> tenant_carried spec).
Proof. split; [apply global_dec_enc|apply tenant_dec_enc]. Qed.

(** C38. Whatever arrives, the decoder produces values of the types the domain expects: of any
    message whose integers fit their fields, however its enums, lengths and bundles look, the
    decoded specs hold only schema tiers, scopes and ports, 32-byte lookups, whole-millisecond
    times and timeouts and canonical policies, so that encoding and decoding them again changes
    nothing. *)
Theorem decoded_specs_are_canonical `{!ProtoLaws PbBundle} g t :
  global_arrives g -> tenant_arrives t ->
  global_carried (DecodeGlobal g) /\ tenant_carried (DecodeTenant t)
  /\ DecodeGlobal (EncodeGlobal (DecodeGlobal g)) = DecodeGlobal g
  /\ DecodeTenant (EncodeTenant (DecodeTenant t)) = DecodeTenant t.
Proof.
  intros Hg Ht. apply global_carried_dec in Hg. apply tenant_carried_dec in Ht.
  split_and!; [done|done|by apply global_dec_enc|by apply tenant_dec_enc].
Qed.

(** [DecodeSnapshot] accepts a message exactly when it has a global layer, every layer it
    decodes to is valid, no tenant has two layers and a prefix routes to each tenant.  What it
    returns is built from validated layers, holds one layer for each tenant message, routes to
    every tenant and authenticates only 32-byte lookups; everything it refuses is an invalid
    request. *)
Theorem DecodeSnapshot_correct msg :
  ((exists s, DecodeSnapshot (Some msg) = inr s) <-> snapshot_acceptable msg) /\
  (forall s, DecodeSnapshot (Some msg) = inr s ->
     built s /\ all_routed s
     /\ (forall id, is_Some (s_tenants s !! id) <-> id ∈ pb.tl_Tenant <$> pb.s_Tenants msg)
     /\ (forall id t, s_tenants s !! id = Some t -> keys_carried (t_keys t))) /\
  (forall e, DecodeSnapshot (Some msg) = inl e -> invalid_request e).
Proof.
  split_and!.
  - apply DecodeSnapshot_acceptance.
  - intros s (g & global & ts & _ & Hg & Hf & Hc)%DecodeSnapshot_inv.
    pose proof (Compose_inv _ _ _ Hc) as (_ & Hr & Hl). split_and!; [|done| |].
    + eapply (built_compose _ _ (DecodeTenant <$> pb.s_Tenants msg)); [done| |done].
      by apply Forall2_fmap_l.
    + intros id. rewrite <- (decoded_ids _ _ Hf), list_elem_of_fmap. split.
      * intros [t [Hin <-]%Hl]. exists t. split; [done|]. by apply list_elem_of_fmap in Hin as (? & [= ->] & ?).
      * intros (t & -> & Hin). exists t. apply Hl. split; [|done]. apply list_elem_of_fmap. by exists t.
    + intros id t [Hin _]%Hl. apply list_elem_of_fmap in Hin as (? & [= <-] & Hin).
      apply list_elem_of_lookup in Hin as [i Hi].
      destruct (Forall2_lookup_r _ _ _ _ _ Hf Hi) as (m & _ & [_ ->]%NewTenantLayer_inv). simpl.
      by apply decodeKey_carried, map_Forall_empty.
  - apply DecodeSnapshot_refusal.
Qed.
End DecodeFacts.

(** ** Behaviour the comments do not describe *)

Definition set_keys (m : pb.TenantLayer) (keys : list pb.KeyEntry) : pb.TenantLayer :=
  pb.mkTenantLayer (pb.tl_Tenant m) (pb.tl_Version m) (pb.tl_BuiltAtUnixMs m) (pb.tl_Tier m)
    (pb.tl_Principals m) keys (pb.tl_AliasOverrides m) (pb.tl_Budgets m) (pb.tl_Plugins m)
    (pb.tl_MinTrustTier m) (pb.tl_Guardrails m) (pb.tl_Policy m).

(** A key entry of the wrong length leaves no trace in the decoded spec: nothing downstream can
    reject the layer for it, whatever principal it names. *)
Theorem wrong_length_key_leaves_no_trace `{ProtoMessage PbBundle} m before k after :
  length (pb.ke_Lookup k) <> KeyLookup_size ->
  DecodeTenant (set_keys m (before ++ k :: after)) = DecodeTenant (set_keys m (before ++ after)).
Proof.
  intros Hk. unfold DecodeTenant, set_keys. cbn -[fmap]. f_equal. rewrite !foldl_app. simpl.
  f_equal. unfold decodeKey. by rewrite (proj2 (Nat.eqb_neq _ _) Hk).
Qed.

(** A bundle that denies by default but has neither rules nor an id is dropped on arrival: what
    the worker evaluates in its place allows. *)
Theorem anonymous_deny_bundle_is_dropped `{ProtoMessage PbBundle} v ParsePrefix inp :
  let b := mkPbBundle "" v [] POLICY_EFFECT_DENY in
  Allowed (Evaluate (mkBundle "" v [] (decodeEffect (pbb_DefaultEffect b))) inp) = false /\
  exists bundle, Decode proto_Unmarshal ParsePrefix (marshalPolicy (Some b)) = inr bundle
    /\ Allowed (Evaluate bundle inp) = true.
Proof. intros b. split; [done|]. by exists NoBundle. Qed.

(** A protobuf that carries bundles of an id alone, for the witnesses. *)
#[local] Instance id_proto : ProtoMessage PbBundle := {|
  proto_Marshal b :=
    match pbb_Version b, pbb_Rules b, pbb_DefaultEffect b with
    | 0, [], POLICY_EFFECT_OTHER => inr ("I"%char :: String.list_ascii_of_string (pbb_Id b))
    | _, _, _ => inl (Foreign "unsupported" None)
    end;
  proto_Unmarshal raw :=
    match raw with
    | [] => inl (Foreign "empty" None)
    | _ :: id => inr (mkPbBundle (String.string_of_list_ascii id) 0 [] POLICY_EFFECT_OTHER)
    end |}.

#[local] Instance id_proto_laws : ProtoLaws PbBundle.
Proof.
  intros [id v rules eff] b Hm. cbn in *. repeat (case_match; simplify_eq).
  by rewrite String.string_of_list_ascii_of_string.
Qed.

(** Messages of the demonstration fleet; the tenant's lookup is stretched to 32 bytes. *)
Definition wire_lookup : KeyLookup := repeat "k"%char 32.
Definition wire_global : pb.GlobalLayer := EncodeGlobal demo_gspec.
Definition wire_tenant (floor : Z) (keys : list pb.KeyEntry) : pb.TenantLayer :=
  let t := EncodeTenant (demo_tspec "acme") in
  pb.mkTenantLayer (pb.tl_Tenant t) (pb.tl_Version t) (pb.tl_BuiltAtUnixMs t) (pb.tl_Tier t)
    (pb.tl_Principals t) keys (pb.tl_AliasOverrides t) (pb.tl_Budgets t) (pb.tl_Plugins t) floor
    (pb.tl_Guardrails t) (Some (mkPbBundle "p" 0 [] POLICY_EFFECT_OTHER)).
Definition wire_snapshot (floor : Z) : pb.Snapshot :=
  pb.mkSnapshot (Some wire_global) [wire_tenant floor [pb.mkKeyEntry wire_lookup "k1"]].

Definition wire_decoded : Snapshot :=
  match DecodeSnapshot (Some (wire_snapshot 0)) with inr s => s | inl _ => demo_snapshot end.
Lemma wire_decoded_eq : DecodeSnapshot (Some (wire_snapshot 0)) = inr wire_decoded.
Proof. vm_compute. reflexivity. Qed.

Lemma decoded_specs_are_canonical_witness :
  global_carried (DecodeGlobal wire_global)
  /\ tenant_carried (DecodeTenant (wire_tenant 9 [pb.mkKeyEntry [] "short"]))
  /\ DecodeGlobal (EncodeGlobal (DecodeGlobal wire_global)) = DecodeGlobal wire_global
  /\ DecodeTenant (EncodeTenant (DecodeTenant (wire_tenant 9 [pb.mkKeyEntry [] "short"])))
     = DecodeTenant (wire_tenant 9 [pb.mkKeyEntry [] "short"]).
Proof.
  apply decoded_specs_are_canonical.
  - split; [vm_compute; split; discriminate|constructor].
  - split_and!; [vm_compute; split; discriminate| |constructor].
    constructor; [vm_compute; split; discriminate|constructor].
Defined.

(** A trust tier the worker does not know is refused on a deployment, as the comment on
    [decodeTrustTier] says, but on a tenant it is accepted and removes the floor: the snapshot
    that results requires no tier at all of that tenant's traffic. *)
Theorem unknown_tier_removes_the_floor w :
  trustTiers !! w = None ->
  (forall g d ts s, d ∈ pb.gl_Deployments g -> pb.d_TrustTier d = w ->
     DecodeSnapshot (Some (pb.mkSnapshot (Some g) ts)) <> inr s) /\
  (exists s, DecodeSnapshot (Some (wire_snapshot w)) = inr s
     /\ MinTrustTier s "acme" = TrustUnset
     /\ forall key d, d ∈ Deployments s key -> AtLeast (dep_TrustTier d) (MinTrustTier s "acme") = true).
Proof.
  intros Hw. assert (Hd : decodeTrustTier w = TrustUnset).
  { unfold decodeTrustTier, table_decode. by rewrite Hw. }
  split.
  - intros g d ts s Hin Ht Hs. apply DecodeSnapshot_inv in Hs as (g' & global & ts' & Hg & Hok & _).
    simpl in Hg. simplify_eq. apply NewGlobalLayer_inv in Hok as [(_ & Hds & _) _].
    rewrite list.Forall_forall in Hds. destruct (Hds (decodeDeployment d)) as (_ & _ & Hv & _).
    + simpl. apply list_elem_of_fmap. by exists d.
    + cbn in Hv. rewrite Hd in Hv. done.
  - assert (Heq : DecodeSnapshot (Some (wire_snapshot w)) = DecodeSnapshot (Some (wire_snapshot 0))).
    { cbv [DecodeSnapshot wire_snapshot foldM decodeTenantLayer from_option pb.s_Tenants
           pb.s_GlobalLayer mbind option_bind].
      assert (DecodeTenant (wire_tenant w [pb.mkKeyEntry wire_lookup "k1"])
              = DecodeTenant (wire_tenant 0 [pb.mkKeyEntry wire_lookup "k1"])) as ->; [|done].
      unfold DecodeTenant. f_equal. exact Hd. }
    rewrite Heq. exists wire_decoded. split_and!; [apply wire_decoded_eq|vm_compute; reflexivity|].
    intros key d Hin. apply AtLeast_spec. change (MinTrustTier wire_decoded "acme") with TrustUnset.
    destruct (decoded_global_wf _ _ wire_decoded_eq) as [Hr _].
    apply Hr in Hin as (_ & (_ & _ & Hv & _) & _).
    unfold Valid in Hv. zify_bools. unfold TrustUnset, TrustExternal in *. lia.
Qed.

Lemma unknown_tier_removes_the_floor_witness :
  (forall g d ts s, d ∈ pb.gl_Deployments g -> pb.d_TrustTier d = 4 ->
     DecodeSnapshot (Some (pb.mkSnapshot (Some g) ts)) <> inr s) /\
  (exists s, DecodeSnapshot (Some (wire_snapshot 4)) = inr s
     /\ MinTrustTier s "acme" = TrustUnset
     /\ forall key d, d ∈ Deployments s key -> AtLeast (dep_TrustTier d) (MinTrustTier s "acme") = true).
Proof. apply unknown_tier_removes_the_floor. reflexivity. Defined.
