(* ===== verification/Codec.v ===== *)
(** * Layer digests (wire/codec.go)

    Serializing, parsing and content-addressing the messages of [Wire].  A digest covers the layer
    with its own digest field cleared; a producer seals a layer with it, a worker verifies it.
    SHA-256 is an argument: where a property needs it to separate two inputs, the alternative is
    an explicit collision. *)
From S2P Require Import Prelude Errors Core Snapshot SnapshotFacts Policy Wire.
From Stdlib Require Import ZArith Lia Ascii.
From stdpp Require Import base gmap strings list.
Open Scope Z_scope.
Open Scope gw_scope.

Definition DigestPrefix : string := "sha256:".

(** [hex.EncodeToString]. *)
Definition hexDigit (n : N) : ascii :=
  ascii_of_N (if (n <? 10)%N then 48 + n else 87 + n).
Definition hexByte (c : ascii) : list ascii :=
  [hexDigit (N.shiftr (N_of_ascii c) 4); hexDigit (N.land (N_of_ascii c) 15)].
Definition hexEncode (b : bytes) : string := String.string_of_list_ascii (b ≫= hexByte).

(** A layer: a message with a version field. *)
Class Layer (M : Type) := {
  GetVersion : M -> option pb.LayerVersion;
  SetVersion : option pb.LayerVersion -> M -> M }.
Class LayerLaws (M : Type) `{Layer M} : Prop := {
  get_set v m : GetVersion (SetVersion v m) = v;
  set_set v w m : SetVersion v (SetVersion w m) = SetVersion v m;
  set_get m : SetVersion (GetVersion m) m = m }.

#[export] Instance global_layer : Layer pb.GlobalLayer := {|
  GetVersion := pb.gl_Version;
  SetVersion v m := pb.mkGlobalLayer v (pb.gl_BuiltAtUnixMs m) (pb.gl_Deployments m)
    (pb.gl_Aliases m) (pb.gl_TenantPrefixes m) (pb.gl_DefaultPlugins m) (pb.gl_PolicyBundleRef m)
    (pb.gl_DefaultGuardrails m) (pb.gl_DefaultPolicy m) |}.
#[export] Instance tenant_layer : Layer pb.TenantLayer := {|
  GetVersion := pb.tl_Version;
  SetVersion v m := pb.mkTenantLayer (pb.tl_Tenant m) v (pb.tl_BuiltAtUnixMs m) (pb.tl_Tier m)
    (pb.tl_Principals m) (pb.tl_Keys m) (pb.tl_AliasOverrides m) (pb.tl_Budgets m) (pb.tl_Plugins m)
    (pb.tl_MinTrustTier m) (pb.tl_Guardrails m) (pb.tl_Policy m) |}.
#[export] Instance global_layer_laws : LayerLaws pb.GlobalLayer.
Proof. split; try done; by intros []. Qed.
#[export] Instance tenant_layer_laws : LayerLaws pb.TenantLayer.
Proof. split; try done; by intros []. Qed.

Definition clearDigest (v : option pb.LayerVersion) : option pb.LayerVersion :=
  (fun v => pb.mkLayerVersion (pb.v_Number v) "") <$> v.

(** [ensureVersion], [ensureTenantVersion]: the version, made when missing. *)
Definition ensureVersion (v : option pb.LayerVersion) : pb.LayerVersion := default pb.nilVersion v.

Section Codec.
Variable sha256 : bytes -> bytes.

Definition Marshal {M} `{ProtoMessage M} (msg : M) : error + bytes :=
  match proto_Marshal msg with
  | inl err => inl (GwError CodeInternal (Msg "serializing a snapshot message" []) false (Some err))
  | inr b => inr b
  end.

Definition Unmarshal {M} `{ProtoMessage M} (what : string) (b : bytes) : error + M :=
  match proto_Unmarshal b with
  | inl err => inl (GwError CodeInvalidRequest (Msg what []) false (Some err))
  | inr msg => inr msg
  end.

Definition digestOf {M} `{ProtoMessage M} (msg : M) : error + string :=
  let! b := Marshal msg in inr (DigestPrefix +:+ hexEncode (sha256 b)).

Section OneLayer.
Context {M : Type} `{ProtoMessage M} `{Layer M}.

(** [DigestGlobal], [DigestTenant]: of a clone whose digest is cleared. *)
Definition DigestLayer (msg : M) : error + string :=
  digestOf (SetVersion (clearDigest (GetVersion msg)) msg).

(** [SealGlobal], [SealTenant]: the layer afterwards. *)
Definition SealLayer (msg : M) : error + M :=
  let! d := DigestLayer msg in
  inr (SetVersion (Some (pb.mkLayerVersion (pb.v_Number (ensureVersion (GetVersion msg))) d)) msg).

(** [VerifyGlobal], [VerifyTenant]: [None] is a nil error, and a nil layer has no digest. *)
Definition VerifyLayer (format : string) (args : list fmt_arg) (msg : option M) : option error :=
  let want := pb.v_Digest (default pb.nilVersion (msg ≫= GetVersion)) in
  match msg with
  | None => None
  | Some m =>
      if bool_decide (want = "") then None
      else match DigestLayer m with
           | inl err => Some err
           | inr got =>
               if bool_decide (got = want) then None
               else Some (Newf CodeInvalidRequest format (args ++ [AStr got; AStr want]))
           end
  end.
End OneLayer.

Context `{ProtoMessage pb.GlobalLayer} `{ProtoMessage pb.TenantLayer} `{ProtoMessage pb.Snapshot}.

Definition UnmarshalSnapshot (b : bytes) : error + pb.Snapshot := Unmarshal "parsing a snapshot" b.
Definition UnmarshalGlobal (b : bytes) : error + pb.GlobalLayer := Unmarshal "parsing a global layer" b.
Definition UnmarshalTenant (b : bytes) : error + pb.TenantLayer := Unmarshal "parsing a tenant layer" b.

Definition DigestGlobal (msg : pb.GlobalLayer) : error + string := DigestLayer msg.
Definition DigestTenant (msg : pb.TenantLayer) : error + string := DigestLayer msg.
Definition SealGlobal (msg : pb.GlobalLayer) : error + pb.GlobalLayer := SealLayer msg.
Definition SealTenant (msg : pb.TenantLayer) : error + pb.TenantLayer := SealLayer msg.
Definition VerifyGlobal (msg : option pb.GlobalLayer) : option error :=
  VerifyLayer "global layer digest mismatch: computed %s, layer claims %s" [] msg.
Definition VerifyTenant (msg : option pb.TenantLayer) : option error :=
  VerifyLayer "tenant %q layer digest mismatch: computed %s, layer claims %s"
    [AStr (from_option pb.tl_Tenant "" msg)] msg.
End Codec.

(** ** Hexadecimal *)
Definition unhexDigit (c : ascii) : N :=
  let n := N_of_ascii c in if (n <? 58)%N then n - 48 else n - 87.
Definition unhexByte (hi lo : ascii) : ascii := ascii_of_N (16 * unhexDigit hi + unhexDigit lo).

Lemma unhex_hexByte c : [c] = match hexByte c with [hi; lo] => [unhexByte hi lo] | _ => [] end.
Proof. destruct c as [[] [] [] [] [] [] [] []]; reflexivity. Qed.

Lemma hexByte_inj c d : hexByte c = hexByte d -> c = d.
Proof.
  intros H. pose proof (unhex_hexByte c) as Hc. rewrite H, <- unhex_hexByte in Hc. by simplify_eq.
Qed.

Lemma hexEncode_inj b b' : hexEncode b = hexEncode b' -> b = b'.
Proof.
  unfold hexEncode. intros H. apply (f_equal String.list_ascii_of_string) in H.
  rewrite !String.list_ascii_of_string_of_list_ascii in H.
  revert b' H. induction b as [|c b IH]; intros [|d b'] H; [done|done|done|].
  change ((c :: b) ≫= hexByte) with (hexByte c ++ (b ≫= hexByte)) in H.
  change ((d :: b') ≫= hexByte) with (hexByte d ++ (b' ≫= hexByte)) in H.
  apply app_inj_1 in H as [Hc Hb]; [|done]. apply hexByte_inj in Hc. apply IH in Hb. by subst.
Qed.

(** ** Sealing and verifying *)
Section Sealing.
Variable sha256 : bytes -> bytes.
Context {M : Type} `{ProtoLaws M} `{LayerLaws M}.

(** What a digest covers, and the digest a layer is stamped with. *)
Definition content (m : M) : M := SetVersion (clearDigest (GetVersion m)) m.
Definition stamp (m : M) : string := pb.v_Digest (ensureVersion (GetVersion m)).

(** The two layers differ but their serialized contents have the same hash. *)
Definition collide (m m' : M) : Prop :=
  exists b b', proto_Marshal (content m) = inr b /\ proto_Marshal (content m') = inr b'
    /\ b <> b' /\ sha256 b = sha256 b'.

Lemma DigestLayer_inv (m : M) d :
  DigestLayer sha256 m = inr d <->
  exists b, proto_Marshal (content m) = inr b /\ d = DigestPrefix +:+ hexEncode (sha256 b).
Proof.
  unfold DigestLayer, digestOf, Marshal. fold (content m).
  destruct (proto_Marshal (content m)) as [e|b]; [naive_solver|].
  split; [intros [= <-]; by exists b|]. by intros (b' & [= <-] & ->).
Qed.

Lemma DigestLayer_nonempty (m : M) d : DigestLayer sha256 m = inr d -> d <> "".
Proof. intros (b & _ & ->)%DigestLayer_inv. done. Qed.

Lemma digest_separates (m m' : M) d :
  DigestLayer sha256 m = inr d -> DigestLayer sha256 m' = inr d ->
  content m' = content m \/ collide m m'.
Proof.
  intros (b & Hb & ->)%DigestLayer_inv (b' & Hb' & Hd)%DigestLayer_inv.
  cbn in Hd. injection Hd as Hd%hexEncode_inj. destruct (decide (b = b')) as [<-|Hne].
  - left. pose proof (proto_roundtrip _ _ Hb). pose proof (proto_roundtrip _ _ Hb'). congruence.
  - right. by exists b, b'.
Qed.

Lemma content_sealed (m : M) v d :
  GetVersion m = Some v -> content (SetVersion (Some (pb.mkLayerVersion (pb.v_Number v) d)) m) = content m.
Proof. intros Hv. unfold content. by rewrite get_set, set_set, Hv. Qed.

Lemma verify_inv format args (m : M) :
  VerifyLayer sha256 format args (Some m) = None <->
  stamp m = "" \/ DigestLayer sha256 m = inr (stamp m).
Proof.
  unfold VerifyLayer, stamp, ensureVersion. simpl.
  case_bool_decide as Hw; [naive_solver|].
  destruct (DigestLayer sha256 m) as [e|got]; [naive_solver|].
  case_bool_decide; naive_solver.
Qed.

Lemma seal_verifies format args (m sealed : M) :
  GetVersion m <> None -> SealLayer sha256 m = inr sealed ->
  VerifyLayer sha256 format args (Some sealed) = None /\ content sealed = content m.
Proof.
  unfold SealLayer. intros Hv Hs. destruct (GetVersion m) as [v|] eqn:Ev; [|done]. clear Hv.
  destruct (DigestLayer sha256 m) as [e|d] eqn:Ed; [done|]. injection Hs as <-.
  simpl. pose proof (content_sealed m v d Ev) as Hc. split; [|done].
  apply verify_inv. right. unfold stamp. rewrite get_set. simpl.
  apply DigestLayer_inv in Ed as (b & Hb & ->). apply DigestLayer_inv. exists b. by rewrite Hc.
Qed.

Lemma sealed_stamp (m sealed : M) :
  SealLayer sha256 m = inr sealed -> DigestLayer sha256 m = inr (stamp sealed).
Proof.
  unfold SealLayer. destruct (DigestLayer sha256 m) as [e|d]; [done|]. intros [= <-].
  unfold stamp. by rewrite get_set.
Qed.

Lemma verify_detects format args (m sealed m' : M) :
  SealLayer sha256 m = inr sealed -> stamp m' = stamp sealed ->
  VerifyLayer sha256 format args (Some m') = None -> content m' = content m \/ collide m m'.
Proof.
  intros Hs%sealed_stamp Hst Hv. apply verify_inv in Hv as [He|Hd].
  - apply DigestLayer_nonempty in Hs. congruence.
  - rewrite Hst in Hd. by eapply digest_separates.
Qed.

(** Sealing a layer that has no version adds one after the digest was taken, and the digest of
    the layer with an empty version is another one. *)
Lemma versionless_seal_refused format args (m sealed : M) :
  GetVersion m = None -> SealLayer sha256 m = inr sealed ->
  VerifyLayer sha256 format args (Some sealed) <> None \/ collide m sealed.
Proof.
  intros Hv Hs. destruct (VerifyLayer sha256 format args (Some sealed)) eqn:E; [by left|right].
  destruct (verify_detects _ _ _ _ _ Hs eq_refl E) as [Hc|Hc]; [|done]. exfalso.
  apply (f_equal GetVersion) in Hc. unfold content in Hc. rewrite !get_set, Hv in Hc.
  unfold SealLayer in Hs. destruct (DigestLayer sha256 m); [done|]. injection Hs as <-.
  by rewrite get_set in Hc.
Qed.
End Sealing.

(** ** Properties *)

(** A layer that carries a version and was sealed passes verification, with nothing but its
    stamp changed; and a layer that passes verification under that stamp has the very content
    that was sealed, every field of it, unless the two serialized contents are a SHA-256
    collision.  For global and for tenant layers. *)
Theorem verified_layer_is_what_was_sealed sha256 (m sealed m' : pb.GlobalLayer) (t tsealed t' : pb.TenantLayer)
    `{ProtoLaws pb.GlobalLayer} `{ProtoLaws pb.TenantLayer} :
  SealGlobal sha256 m = inr sealed -> SealTenant sha256 t = inr tsealed ->
  (pb.gl_Version m <> None -> VerifyGlobal sha256 (Some sealed) = None /\ content sealed = content m) /\
  (pb.tl_Version t <> None -> VerifyTenant sha256 (Some tsealed) = None /\ content tsealed = content t) /\
  (stamp m' = stamp sealed -> VerifyGlobal sha256 (Some m') = None ->
     content m' = content m \/ collide sha256 m m') /\
  (stamp t' = stamp tsealed -> VerifyTenant sha256 (Some t') = None ->
     content t' = content t \/ collide sha256 t t').
Proof.
  intros Hm Ht. split_and!.
  - intros Hv. exact (seal_verifies sha256 _ _ m sealed Hv Hm).
  - intros Hv. exact (seal_verifies sha256 _ _ t tsealed Hv Ht).
  - intros Hst Hv. exact (verify_detects sha256 _ _ m sealed m' Hm Hst Hv).
  - intros Hst Hv. exact (verify_detects sha256 _ _ t tsealed t' Ht Hst Hv).
Qed.

(** Sealing a layer that has no version at all stamps it with a digest it does not have: the
    digest is taken before the missing version is added, and a present but empty version is
    serialized.  The worker refuses the sealed layer, short of a SHA-256 collision. *)
Theorem sealing_without_version_is_refused sha256 (m sealed : pb.GlobalLayer) `{ProtoLaws pb.GlobalLayer} :
  pb.gl_Version m = None -> SealGlobal sha256 m = inr sealed ->
  VerifyGlobal sha256 (Some sealed) <> None \/ collide sha256 m sealed.
Proof. intros Hv Hs. exact (versionless_seal_refused sha256 _ _ m sealed Hv Hs). Qed.

(** A protobuf that carries layers of a version alone, for the witnesses. *)
Definition bare_global (v : option pb.LayerVersion) : pb.GlobalLayer :=
  pb.mkGlobalLayer v 0 [] [] ∅ [] "" [] None.
Definition bare_tenant (v : option pb.LayerVersion) : pb.TenantLayer :=
  pb.mkTenantLayer "" v 0 "" [] [] [] [] [] 0 [] None.

(** No version, or version [n] without a digest, as one byte. *)
Definition bare_byte (v : option pb.LayerVersion) : option ascii :=
  match v with
  | None => Some "-"%char
  | Some (pb.mkLayerVersion 0 "") => Some "0"%char
  | Some (pb.mkLayerVersion 1 "") => Some "1"%char
  | _ => None
  end.
Definition bare_version (c : ascii) : option pb.LayerVersion :=
  if Ascii.eqb c "-" then None
  else Some (pb.mkLayerVersion (if Ascii.eqb c "0" then 0 else 1) "").

Lemma bare_version_byte v c : bare_byte v = Some c -> bare_version c = v.
Proof. destruct v as [[[|[]|] [|]]|]; cbn; intros; simplify_eq; done. Qed.

#[local] Instance bare_global_proto : ProtoMessage pb.GlobalLayer := {|
  proto_Marshal m :=
    match m, bare_byte (pb.gl_Version m) with
    | pb.mkGlobalLayer _ 0 [] [] p [] "" [] None, Some c =>
        if bool_decide (p = ∅) then inr [c] else inl (Foreign "unsupported" None)
    | _, _ => inl (Foreign "unsupported" None)
    end;
  proto_Unmarshal b :=
    match b with
    | [c] => inr (bare_global (bare_version c))
    | _ => inl (Foreign "malformed" None)
    end |}.
#[local] Instance bare_tenant_proto : ProtoMessage pb.TenantLayer := {|
  proto_Marshal m :=
    match m, bare_byte (pb.tl_Version m) with
    | pb.mkTenantLayer "" _ 0 "" [] [] [] [] [] 0 [] None, Some c => inr [c]
    | _, _ => inl (Foreign "unsupported" None)
    end;
  proto_Unmarshal b :=
    match b with
    | [c] => inr (bare_tenant (bare_version c))
    | _ => inl (Foreign "malformed" None)
    end |}.

#[local] Instance bare_global_laws : ProtoLaws pb.GlobalLayer.
Proof.
  intros [v t ds al p pl ref gr pol] b. cbn [proto_Marshal proto_Unmarshal bare_global_proto pb.gl_Version].
  destruct (bare_byte v) as [c|] eqn:Hv; intros Hm.
  - destruct t, ds, al, pl, ref, gr, pol; try discriminate Hm. case_bool_decide; [|done]. simplify_eq.
    by rewrite (bare_version_byte v c Hv).
  - destruct t, ds, al, pl, ref, gr, pol; discriminate Hm.
Qed.
#[local] Instance bare_tenant_laws : ProtoLaws pb.TenantLayer.
Proof.
  intros [id v t tier ps ks al bs pl fl gr pol] b.
  cbn [proto_Marshal proto_Unmarshal bare_tenant_proto pb.tl_Version].
  destruct (bare_byte v) as [c|] eqn:Hv; intros Hm;
    destruct id; try discriminate Hm; destruct t; try discriminate Hm; destruct tier; try discriminate Hm;
    destruct ps; try discriminate Hm; destruct ks; try discriminate Hm; destruct al; try discriminate Hm;
    destruct bs; try discriminate Hm; destruct pl; try discriminate Hm; destruct fl; try discriminate Hm;
    destruct gr; try discriminate Hm; destruct pol; try discriminate Hm.
  simplify_eq. by rewrite (bare_version_byte v c Hv).
Qed.

Definition bare_v1 (digest : string) : option pb.LayerVersion := Some (pb.mkLayerVersion 1 digest).

Lemma verified_layer_is_what_was_sealed_witness :
  let g := bare_global (bare_v1 "") in let g' := bare_global (bare_v1 "sha256:31") in
  let t := bare_tenant (bare_v1 "") in let t' := bare_tenant (bare_v1 "sha256:31") in
  (pb.gl_Version g <> None -> VerifyGlobal id (Some g') = None /\ content g' = content g) /\
  (pb.tl_Version t <> None -> VerifyTenant id (Some t') = None /\ content t' = content t) /\
  (stamp g' = stamp g' -> VerifyGlobal id (Some g') = None -> content g' = content g \/ collide id g g') /\
  (stamp t' = stamp t' -> VerifyTenant id (Some t') = None -> content t' = content t \/ collide id t t').
Proof. intros g g' t t'. by apply (verified_layer_is_what_was_sealed id g g' g' t t' t'). Defined.

Lemma sealing_without_version_is_refused_witness :
  let sealed := bare_global (Some (pb.mkLayerVersion 0 "sha256:2d")) in
  VerifyGlobal id (Some sealed) <> None \/ collide id (bare_global None) sealed.
Proof. intros sealed. by apply (sealing_without_version_is_refused id (bare_global None) sealed). Defined.
