(* ===== verification/Text.v ===== *)
(** * Text (unicode/utf8, unicode, strings)

    What the transport and the adapters use of Go's text functions: decoding and encoding runes,
    validity, control characters, white space and trimming.  A Go string is a list of bytes; a
    rune is an integer.  Bytes that are not UTF-8 decode to [RuneError] one byte at a time, as
    ranging over a string does. *)
From S2P Require Import Prelude.
From Stdlib Require Import ZArith Lia Ascii.
From stdpp Require Import base strings list.
Open Scope Z_scope.

(** A byte and its value. *)
Definition bz (c : ascii) : Z := Z.of_N (N_of_ascii c).
Definition zb (z : Z) : ascii := ascii_of_N (Z.to_N z).

Definition within (lo z hi : Z) : bool := (lo <=? z) && (z <=? hi).

Definition RuneError : Z := 65533.

Definition is_cont (c : ascii) : bool := within 128 (bz c) 191.

(** [utf8.DecodeRune]: the rune and the bytes it takes; [RuneError] and one byte on invalid input,
    no byte on empty input. *)
Definition DecodeRune (s : list ascii) : Z * nat :=
  match s with
  | [] => (RuneError, 0%nat)
  | c0 :: s1 =>
      let b0 := bz c0 in
      if b0 <? 128 then (b0, 1%nat)
      else if within 194 b0 223 then
        match s1 with
        | c1 :: _ => if is_cont c1 then ((b0 - 192) * 64 + (bz c1 - 128), 2%nat) else (RuneError, 1%nat)
        | _ => (RuneError, 1%nat)
        end
      else if within 224 b0 239 then
        match s1 with
        | c1 :: c2 :: _ =>
            let lo := if b0 =? 224 then 160 else 128 in
            let hi := if b0 =? 237 then 159 else 191 in
            if within lo (bz c1) hi && is_cont c2
            then ((b0 - 224) * 4096 + (bz c1 - 128) * 64 + (bz c2 - 128), 3%nat)
            else (RuneError, 1%nat)
        | _ => (RuneError, 1%nat)
        end
      else if within 240 b0 244 then
        match s1 with
        | c1 :: c2 :: c3 :: _ =>
            let lo := if b0 =? 240 then 144 else 128 in
            let hi := if b0 =? 244 then 143 else 191 in
            if within lo (bz c1) hi && is_cont c2 && is_cont c3
            then ((b0 - 240) * 262144 + (bz c1 - 128) * 4096 + (bz c2 - 128) * 64 + (bz c3 - 128), 4%nat)
            else (RuneError, 1%nat)
        | _ => (RuneError, 1%nat)
        end
      else (RuneError, 1%nat)
  end.

Definition scalar (r : Z) : bool := within 0 r 55295 || within 57344 r 1114111.

(** [utf8.AppendRune] to an empty slice. *)
Definition EncodeRune (r : Z) : list ascii :=
  let r := if scalar r then r else RuneError in
  if r <? 128 then [zb r]
  else if r <? 2048 then [zb (192 + r / 64); zb (128 + r mod 64)]
  else if r <? 65536 then [zb (224 + r / 4096); zb (128 + r / 64 mod 64); zb (128 + r mod 64)]
  else [zb (240 + r / 262144); zb (128 + r / 4096 mod 64); zb (128 + r / 64 mod 64); zb (128 + r mod 64)].

(** The runes [for _, r := range s] visits, each with its bytes.  [skip] bytes belong to the rune
    already read. *)
Fixpoint runes_from (skip : nat) (s : list ascii) : list (Z * list ascii) :=
  match s with
  | [] => []
  | _ :: s' =>
      match skip with
      | S n => runes_from n s'
      | O => let '(r, n) := DecodeRune s in (r, take n s) :: runes_from (Nat.pred n) s'
      end
  end.
Definition runes (s : list ascii) : list (Z * list ascii) := runes_from 0 s.

(** [utf8.ValidString]: no rune of it is an encoding error. *)
Definition ValidString (s : list ascii) : bool :=
  forallb (fun p => negb ((p.1 =? RuneError) && Nat.eqb (length p.2) 1)) (runes s).

Definition RuneStart (c : ascii) : bool := negb (is_cont c).

(** [unicode.IsControl]: the C0 and C1 controls. *)
Definition IsControl (r : Z) : bool := within 0 r 31 || within 127 r 159.

(** [unicode.IsSpace]. *)
Definition IsSpace (r : Z) : bool :=
  within 9 r 13 || (r =? 32) || (r =? 133) || (r =? 160) || (r =? 5760) || within 8192 r 8202
  || (r =? 8232) || (r =? 8233) || (r =? 8239) || (r =? 8287) || (r =? 12288).

(** [strings.TrimLeftFunc(s, unicode.IsSpace)], by the bytes still to skip. *)
Fixpoint trimLeft_from (skip : nat) (s : list ascii) : list ascii :=
  match s with
  | [] => []
  | _ :: s' =>
      match skip with
      | S n => trimLeft_from n s'
      | O => let '(r, n) := DecodeRune s in if IsSpace r then trimLeft_from (Nat.pred n) s' else s
      end
  end.

(** [utf8.DecodeLastRune] on the reversed string: back over at most three continuation bytes to
    the start of a rune that ends exactly here. *)
Definition DecodeLastRune_rev (rs : list ascii) : Z * nat :=
  match rs with
  | [] => (RuneError, 0%nat)
  | c :: _ =>
      if bz c <? 128 then (bz c, 1%nat)
      else
        let try n := let '(r, k) := DecodeRune (rev (take n rs)) in
                     if Nat.eqb k n then (r, n) else (RuneError, 1%nat) in
        let start n := match rs !! Nat.pred n with Some d => RuneStart d | None => false end in
        if start 1%nat then try 1%nat
        else if start 2%nat then try 2%nat
        else if start 3%nat then try 3%nat
        else if start 4%nat then try 4%nat
        else (RuneError, 1%nat)
  end.

Fixpoint trimRight_rev (skip : nat) (rs : list ascii) : list ascii :=
  match rs with
  | [] => []
  | _ :: rs' =>
      match skip with
      | S n => trimRight_rev n rs'
      | O => let '(r, n) := DecodeLastRune_rev rs in if IsSpace r then trimRight_rev (Nat.pred n) rs' else rs
      end
  end.

(** [strings.TrimSpace]. *)
Definition TrimSpace (s : list ascii) : list ascii := rev (trimRight_rev 0 (rev (trimLeft_from 0 s))).

(** [strings.HasPrefix] and [strings.CutPrefix]. *)
Fixpoint CutPrefix (s prefix : list ascii) {struct prefix} : option (list ascii) :=
  match prefix, s with
  | [], _ => Some s
  | p :: prefix', c :: s' => if Ascii.eqb c p then CutPrefix s' prefix' else None
  | _ :: _, [] => None
  end.
Definition HasPrefix (s prefix : list ascii) : bool :=
  match CutPrefix s prefix with Some _ => true | None => false end.

(** ** Lemmas *)

Lemma bz_range c : 0 <= bz c < 256.
Proof. unfold bz. pose proof (N_ascii_bounded c). lia. Qed.

Lemma zb_bz c : zb (bz c) = c.
Proof. unfold zb, bz. rewrite N2Z.id. apply ascii_N_embedding. Qed.

Lemma bz_zb z : 0 <= z < 256 -> bz (zb z) = z.
Proof. intros H. unfold zb, bz. rewrite N_ascii_embedding by lia. apply Z2N.id. lia. Qed.

Lemma bz_inj c d : bz c = bz d -> c = d.
Proof. intros H. by rewrite <- (zb_bz c), <- (zb_bz d), H. Qed.

Lemma within_spec lo z hi : within lo z hi = true <-> lo <= z <= hi.
Proof. unfold within. rewrite andb_true_iff, !Z.leb_le. done. Qed.

Lemma within_false lo z hi : within lo z hi = false <-> ~ (lo <= z <= hi).
Proof. rewrite <- within_spec. by rewrite not_true_iff_false. Qed.

Ltac bytes_lia := unfold is_cont in *; rewrite ?andb_true_iff, ?within_spec in *; lia.

Lemma CutPrefix_Some s prefix rest : CutPrefix s prefix = Some rest <-> s = prefix ++ rest.
Proof.
  revert s. induction prefix as [|p prefix IH]; intros s; simpl;
    [split; [by intros [= ->]|by intros ->]|].
  destruct s as [|c s]; [done|]. destruct (Ascii.eqb_spec c p) as [->|Hne].
  - rewrite IH. split; [by intros ->|by intros [= ->]].
  - split; [done|]. intros [= -> ->]. done.
Qed.

#[local] Ltac Zify.zify_post_hook ::= Z.to_euclidean_division_equations.

(** Decoding is the inverse of encoding on scalar values. *)
Lemma DecodeRune_Encode r rest :
  scalar r = true -> DecodeRune (EncodeRune r ++ rest) = (r, length (EncodeRune r)).
Proof.
  intros Hs. unfold EncodeRune. rewrite Hs.
  unfold scalar in Hs. rewrite orb_true_iff, !within_spec in Hs.
  destruct (r <? 128) eqn:H1; zify_bools; [|destruct (r <? 2048) eqn:H2; zify_bools;
    [|destruct (r <? 65536) eqn:H3; zify_bools]]; cbn [app DecodeRune length];
    rewrite ?bz_zb by lia.
  - rewrite (proj2 (Z.ltb_lt _ _)) by lia. done.
  - rewrite (proj2 (Z.ltb_ge _ _)) by lia. rewrite (proj2 (within_spec _ _ _)) by lia.
    unfold is_cont. rewrite !bz_zb by lia. rewrite (proj2 (within_spec _ _ _)) by lia.
    f_equal. lia.
  - rewrite (proj2 (Z.ltb_ge _ _)) by lia.
    rewrite (proj2 (within_false 194 _ 223)) by lia.
    rewrite (proj2 (within_spec 224 _ 239)) by lia.
    unfold is_cont. rewrite !bz_zb by lia. rewrite (proj2 (within_spec 128 _ 191)) by lia.
    rewrite andb_true_r.
    rewrite (proj2 (within_spec _ _ _)) by
      (destruct (Z.eqb_spec (224 + r / 4096) 224), (Z.eqb_spec (224 + r / 4096) 237); lia).
    f_equal. lia.
  - rewrite (proj2 (Z.ltb_ge _ _)) by lia.
    rewrite (proj2 (within_false 194 _ 223)) by lia.
    rewrite (proj2 (within_false 224 _ 239)) by lia.
    rewrite (proj2 (within_spec 240 _ 244)) by lia.
    unfold is_cont. rewrite !bz_zb by lia. rewrite !(proj2 (within_spec 128 _ 191)) by lia.
    rewrite !andb_true_r.
    rewrite (proj2 (within_spec _ _ _)) by
      (destruct (Z.eqb_spec (240 + r / 262144) 240), (Z.eqb_spec (240 + r / 262144) 244); lia).
    f_equal. lia.
Qed.

(** The bytes of a two, three and four byte rune, put together and encoded again. *)
Lemma encode_two c0 c1 :
  194 <= bz c0 <= 223 -> 128 <= bz c1 <= 191 ->
  EncodeRune ((bz c0 - 192) * 64 + (bz c1 - 128)) = [c0; c1].
Proof.
  intros H0 H1. unfold EncodeRune, scalar. rewrite (proj2 (within_spec 0 _ _)) by lia. simpl orb.
  cbv iota. rewrite (proj2 (Z.ltb_ge _ 128)), (proj2 (Z.ltb_lt _ 2048)) by lia.
  repeat f_equal; apply bz_inj; rewrite bz_zb; lia.
Qed.

Lemma encode_three c0 c1 c2 :
  let r := (bz c0 - 224) * 4096 + (bz c1 - 128) * 64 + (bz c2 - 128) in
  scalar r = true -> 224 <= bz c0 <= 239 -> 128 <= bz c1 <= 191 -> 128 <= bz c2 <= 191 -> 2048 <= r ->
  EncodeRune r = [c0; c1; c2].
Proof.
  intros r Hs H0 H1 H2 Hr. unfold EncodeRune. rewrite Hs.
  rewrite (proj2 (Z.ltb_ge _ 128)), (proj2 (Z.ltb_ge _ 2048)), (proj2 (Z.ltb_lt _ 65536)) by lia.
  repeat f_equal; apply bz_inj; rewrite bz_zb; lia.
Qed.

Lemma encode_four c0 c1 c2 c3 :
  let r := (bz c0 - 240) * 262144 + (bz c1 - 128) * 4096 + (bz c2 - 128) * 64 + (bz c3 - 128) in
  scalar r = true -> 240 <= bz c0 <= 244 -> 128 <= bz c1 <= 191 -> 128 <= bz c2 <= 191 ->
  128 <= bz c3 <= 191 -> 65536 <= r -> EncodeRune r = [c0; c1; c2; c3].
Proof.
  intros r Hs H0 H1 H2 H3 Hr. unfold EncodeRune. rewrite Hs.
  rewrite (proj2 (Z.ltb_ge _ 128)), (proj2 (Z.ltb_ge _ 2048)), (proj2 (Z.ltb_ge _ 65536)) by lia.
  repeat f_equal; apply bz_inj; rewrite bz_zb; lia.
Qed.

(** What decodes as a rune, and not as an error, is the encoding of that rune. *)
Lemma DecodeRune_valid s r n :
  DecodeRune s = (r, n) -> ~ (r = RuneError /\ (n <= 1)%nat) ->
  scalar r = true /\ take n s = EncodeRune r /\ n = length (EncodeRune r) /\ (n <= length s)%nat.
Proof.
  unfold DecodeRune. destruct s as [|c0 s1]; [intros [= <- <-] []; split; [done|lia]|].
  pose proof (bz_range c0) as B0.
  assert (Henc : forall r' bs, r' = r -> length bs = n -> scalar r' = true -> EncodeRune r' = bs ->
    take n (c0 :: s1) = bs -> (n <= length (c0 :: s1))%nat ->
    scalar r = true /\ take n (c0 :: s1) = EncodeRune r /\ n = length (EncodeRune r) /\ (n <= length (c0 :: s1))%nat).
  { intros r' bs -> Hl Hsc He Ht Hn. rewrite He, Ht. done. }
  assert (Hno : forall P, (RuneError, 1%nat) = (r, n) -> ~ (r = RuneError /\ (n <= 1)%nat) -> P).
  { intros P [= <- <-] []. split; [done|lia]. }
  destruct (bz c0 <? 128) eqn:E0; zify_bools.
  { intros [= <- <-] _. apply (Henc (bz c0) [c0]); try done.
    - unfold scalar. rewrite orb_true_iff, !within_spec. lia.
    - unfold EncodeRune, scalar. rewrite (proj2 (within_spec 0 _ _)) by lia. simpl.
      rewrite (proj2 (Z.ltb_lt _ _)) by lia. by rewrite zb_bz.
    - simpl. lia. }
  destruct (within 194 (bz c0) 223) eqn:E1.
  { destruct s1 as [|c1 s2]; [apply Hno|]. destruct (is_cont c1) eqn:C1; [|apply Hno].
    intros [= <- <-] _. unfold is_cont in *. rewrite within_spec in *.
    apply (Henc ((bz c0 - 192) * 64 + (bz c1 - 128)) [c0; c1]); try done; [|
      |simpl; lia].
    - unfold scalar. rewrite orb_true_iff, !within_spec. lia.
    - apply encode_two; lia. }
  destruct (within 224 (bz c0) 239) eqn:E2.
  { destruct s1 as [|c1 [|c2 s3]]; [apply Hno|apply Hno|].
    destruct (within _ (bz c1) _ && is_cont c2) eqn:C1; [|apply Hno].
    intros [= <- <-] _. unfold is_cont in *. rewrite andb_true_iff, !within_spec in *.
    assert (Hsc : scalar ((bz c0 - 224) * 4096 + (bz c1 - 128) * 64 + (bz c2 - 128)) = true).
    { unfold scalar. rewrite orb_true_iff, !within_spec.
      destruct (Z.eqb_spec (bz c0) 224), (Z.eqb_spec (bz c0) 237); lia. }
    eapply (Henc _ [c0; c1; c2]); try done; [|simpl; lia].
    apply encode_three; [done|destruct (Z.eqb_spec (bz c0) 224), (Z.eqb_spec (bz c0) 237); lia..]. }
  destruct (within 240 (bz c0) 244) eqn:E3; [|apply Hno].
  destruct s1 as [|c1 [|c2 [|c3 s4]]]; [apply Hno..|].
  destruct (within _ (bz c1) _ && is_cont c2 && is_cont c3) eqn:C1; [|apply Hno].
  intros [= <- <-] _. unfold is_cont in *. rewrite !andb_true_iff, !within_spec in *.
  assert (Hsc : scalar ((bz c0 - 240) * 262144 + (bz c1 - 128) * 4096 + (bz c2 - 128) * 64 + (bz c3 - 128)) = true).
  { unfold scalar. rewrite orb_true_iff, !within_spec.
    destruct (Z.eqb_spec (bz c0) 240), (Z.eqb_spec (bz c0) 244); lia. }
  eapply (Henc _ [c0; c1; c2; c3]); try done; [|simpl; lia].
  apply encode_four; [done|destruct (Z.eqb_spec (bz c0) 240), (Z.eqb_spec (bz c0) 244); lia..].
Qed.
