(* ===== verification/Json.v ===== *)
(** * JSON (encoding/json)

    What the transport and the adapters use of Go's JSON package.  [parse] is its scanner: a state
    machine that consumes one byte at a time over a stack of open arrays and objects, at most
    [maxNestingDepth] deep.  A parsed value keeps strings and numbers as they were written, which
    is what a [json.RawMessage] is once white space, which re-encoding drops, is left out; [unquote]
    and [ParseInt] give them their meaning.  Decoding into Go values follows [json.Unmarshal]:
    members in order, names matched without regard to case, [null] leaving a value alone, a value
    of the wrong type reported at the end. *)
From S2P Require Import Prelude Strconv Text.
From Stdlib Require Import ZArith Lia Ascii.
From stdpp Require Import base gmap strings list.
Open Scope Z_scope.
Open Scope gw_scope.

#[local] Set Warnings "-register-all".
Inductive json :=
| JNull
| JBool (b : bool)
| JNum (lit : list ascii)
| JStr (raw : list ascii)
| JArr (l : list json)
| JObj (l : list (list ascii * json)).

(** The quotation mark and the backslash. *)
Definition dquote : ascii := Ascii false true false false false true false false.
Definition backslash : ascii := Ascii false false true true true false true false.

(** ** Scanning *)

Definition maxNestingDepth : Z := 10000.

Definition jspace (c : ascii) : bool :=
  (bz c =? 32) || (bz c =? 9) || (bz c =? 13) || (bz c =? 10).
Definition is_hex (c : ascii) : bool :=
  within 48 (bz c) 57 || within 97 (bz c) 102 || within 65 (bz c) 70.
Definition simple_escape (c : ascii) : bool :=
  bool_decide (c ∈ ["b"; "f"; "n"; "r"; "t"; "/"]%char) || Ascii.eqb c backslash || Ascii.eqb c dquote.

(** Where the scanner is inside a number. *)
Inductive numst := NNeg | NZero | NInt | NDot | NFrac | NExp | NExpSign | NExpDigits.

Definition is_e (c : ascii) : bool := Ascii.eqb c "e" || Ascii.eqb c "E".

Definition num_begin (c : ascii) : option numst :=
  if Ascii.eqb c "-" then Some NNeg
  else if Ascii.eqb c "0" then Some NZero
  else if is_digit c then Some NInt
  else None.

Definition num_step (st : numst) (c : ascii) : option numst :=
  match st with
  | NNeg => if Ascii.eqb c "0" then Some NZero else if is_digit c then Some NInt else None
  | NZero => if Ascii.eqb c "." then Some NDot else if is_e c then Some NExp else None
  | NInt => if is_digit c then Some NInt
            else if Ascii.eqb c "." then Some NDot else if is_e c then Some NExp else None
  | NDot => if is_digit c then Some NFrac else None
  | NFrac => if is_digit c then Some NFrac else if is_e c then Some NExp else None
  | NExp => if Ascii.eqb c "+" || Ascii.eqb c "-" then Some NExpSign
            else if is_digit c then Some NExpDigits else None
  | NExpSign | NExpDigits => if is_digit c then Some NExpDigits else None
  end.
Definition num_final (st : numst) : bool :=
  match st with NZero | NInt | NFrac | NExpDigits => true | _ => false end.

(** An open array or object: what it holds so far, newest first, and the key being given a value. *)
Inductive frame :=
| FArr (acc : list json)
| FObj (acc : list (list ascii * json)) (key : list ascii).

Inductive mode :=
| MValue
| MValueOrEnd
| MKeyOrEnd
| MKey
| MStr (is_key : bool) (raw : list ascii)
| MEsc (is_key : bool) (raw : list ascii)
| MHex (is_key : bool) (raw : list ascii) (left : nat)
| MColon
| MNum (st : numst) (lit : list ascii)
| MLit (rest : list ascii) (v : json)
| MAfter
| MDone (v : json).

Definition scan_state : Type := list frame * mode.

(** A value is complete: it joins the array or object around it, or it is the document. *)
Definition finish (v : json) (stack : list frame) : scan_state :=
  match stack with
  | [] => ([], MDone v)
  | FArr acc :: rest => (FArr (v :: acc) :: rest, MAfter)
  | FObj acc key :: rest => (FObj ((key, v) :: acc) [] :: rest, MAfter)
  end.

Definition push (f : frame) (stack : list frame) (m : mode) : option scan_state :=
  if Z.of_nat (length stack) <? maxNestingDepth then Some (f :: stack, m) else None.

Definition begin_value (c : ascii) (stack : list frame) : option scan_state :=
  if Ascii.eqb c "{" then push (FObj [] []) stack MKeyOrEnd
  else if Ascii.eqb c "[" then push (FArr []) stack MValueOrEnd
  else if Ascii.eqb c dquote then Some (stack, MStr false [])
  else if Ascii.eqb c "t" then Some (stack, MLit ["r"; "u"; "e"]%char (JBool true))
  else if Ascii.eqb c "f" then Some (stack, MLit ["a"; "l"; "s"; "e"]%char (JBool false))
  else if Ascii.eqb c "n" then Some (stack, MLit ["u"; "l"; "l"]%char JNull)
  else match num_begin c with Some st => Some (stack, MNum st [c]) | None => None end.

(** The end of the innermost array or object. *)
Definition close_arr (stack : list frame) : option scan_state :=
  match stack with FArr acc :: rest => Some (finish (JArr (rev acc)) rest) | _ => None end.
Definition close_obj (stack : list frame) : option scan_state :=
  match stack with FObj acc _ :: rest => Some (finish (JObj (rev acc)) rest) | _ => None end.

(** After a value. *)
Definition scan_after (stack : list frame) (m : mode) (c : ascii) : option scan_state :=
  match m with
  | MDone v => if jspace c then Some (stack, MDone v) else None
  | _ =>
      if jspace c then Some (stack, MAfter)
      else match stack with
      | FArr _ :: _ => if Ascii.eqb c "," then Some (stack, MValue)
                       else if Ascii.eqb c "]" then close_arr stack else None
      | FObj _ _ :: _ => if Ascii.eqb c "," then Some (stack, MKey)
                         else if Ascii.eqb c "}" then close_obj stack else None
      | [] => None
      end
  end.

Definition set_key (raw : list ascii) (stack : list frame) : option scan_state :=
  match stack with
  | FObj acc _ :: rest => Some (FObj acc raw :: rest, MColon)
  | _ => None
  end.

Definition scan (st : scan_state) (c : ascii) : option scan_state :=
  let '(stack, m) := st in
  match m with
  | MValue => if jspace c then Some st else begin_value c stack
  | MValueOrEnd =>
      if jspace c then Some st else if Ascii.eqb c "]" then close_arr stack else begin_value c stack
  | MKeyOrEnd =>
      if jspace c then Some st else if Ascii.eqb c "}" then close_obj stack
      else if Ascii.eqb c dquote then Some (stack, MStr true []) else None
  | MKey => if jspace c then Some st else if Ascii.eqb c dquote then Some (stack, MStr true []) else None
  | MStr k raw =>
      if Ascii.eqb c dquote then (if k then set_key (rev raw) stack else Some (finish (JStr (rev raw)) stack))
      else if Ascii.eqb c backslash then Some (stack, MEsc k raw)
      else if bz c <? 32 then None
      else Some (stack, MStr k (c :: raw))
  | MEsc k raw =>
      if simple_escape c then Some (stack, MStr k (c :: backslash :: raw))
      else if Ascii.eqb c "u" then Some (stack, MHex k (c :: backslash :: raw) 3) else None
  | MHex k raw n =>
      if is_hex c then Some (stack, match n with O => MStr k (c :: raw) | S n' => MHex k (c :: raw) n' end)
      else None
  | MColon => if jspace c then Some st else if Ascii.eqb c ":" then Some (stack, MValue) else None
  | MNum ns lit =>
      match num_step ns c with
      | Some ns' => Some (stack, MNum ns' (c :: lit))
      | None => if num_final ns
                then let '(stack', m') := finish (JNum (rev lit)) stack in scan_after stack' m' c
                else None
      end
  | MLit rest v =>
      match rest with
      | [] => None
      | d :: rest' =>
          if Ascii.eqb c d
          then Some (match rest' with [] => finish v stack | _ => (stack, MLit rest' v) end)
          else None
      end
  | MAfter | MDone _ => scan_after stack m c
  end.

Fixpoint scan_all (st : scan_state) (s : list ascii) : option scan_state :=
  match s with
  | [] => Some st
  | c :: s' => match scan st c with Some st' => scan_all st' s' | None => None end
  end.

Definition scan_eof (st : scan_state) : option json :=
  match st with
  | ([], MDone v) => Some v
  | ([], MNum ns lit) => if num_final ns then Some (JNum (rev lit)) else None
  | _ => None
  end.

Definition parse (s : list ascii) : option json := scan_all ([], MValue) s ≫= scan_eof.

(** ** Printing, without white space *)

Definition quoted (raw : list ascii) : list ascii := dquote :: raw ++ [dquote].

Definition sep_concat (sep : list ascii) (l : list (list ascii)) : list ascii :=
  match l with
  | [] => []
  | x :: l' => x ++ concat ((fun y => sep ++ y) <$> l')
  end.

Fixpoint print (v : json) : list ascii :=
  match v with
  | JNull => ["n"; "u"; "l"; "l"]%char
  | JBool true => ["t"; "r"; "u"; "e"]%char
  | JBool false => ["f"; "a"; "l"; "s"; "e"]%char
  | JNum lit => lit
  | JStr raw => quoted raw
  | JArr l => "["%char :: sep_concat [","%char] (map print l) ++ ["]"%char]
  | JObj l => "{"%char :: sep_concat [","%char] (map (fun kv => quoted kv.1 ++ ":"%char :: print kv.2) l)
              ++ ["}"%char]
  end.

(** ** The meaning of a string literal *)

Definition hex_val (c : ascii) : Z :=
  if within 48 (bz c) 57 then bz c - 48
  else if within 97 (bz c) 102 then bz c - 87
  else if within 65 (bz c) 70 then bz c - 55
  else 0.

(** [getu4]: the code unit of a [\uXXXX] escape at the start. *)
Definition getu4 (s : list ascii) : option Z :=
  match s with
  | b :: u :: h1 :: h2 :: h3 :: h4 :: _ =>
      if Ascii.eqb b backslash && Ascii.eqb u "u" && is_hex h1 && is_hex h2 && is_hex h3 && is_hex h4
      then Some (hex_val h1 * 4096 + hex_val h2 * 256 + hex_val h3 * 16 + hex_val h4) else None
  | _ => None
  end.

(** [utf16.DecodeRune] of a surrogate pair. *)
Definition surrogate (r : Z) : bool := within 55296 r 57343.
Definition utf16_pair (hi lo : Z) : option Z :=
  if within 55296 hi 56319 && within 56320 lo 57343
  then Some ((hi - 55296) * 1024 + (lo - 56320) + 65536) else None.

(** One escape, at its backslash: what it stands for and the bytes after the backslash it takes. *)
Definition unescape (s : list ascii) : list ascii * nat :=
  match s with
  | _ :: e :: _ =>
      if Ascii.eqb e "b" then ([zb 8], 1%nat)
      else if Ascii.eqb e "f" then ([zb 12], 1%nat)
      else if Ascii.eqb e "n" then ([zb 10], 1%nat)
      else if Ascii.eqb e "r" then ([zb 13], 1%nat)
      else if Ascii.eqb e "t" then ([zb 9], 1%nat)
      else if Ascii.eqb e "u" then
        match getu4 s with
        | None => ([], 1%nat)
        | Some r =>
            if surrogate r
            then match getu4 (drop 6 s) ≫= utf16_pair r with
                 | Some full => (EncodeRune full, 11%nat)
                 | None => (EncodeRune RuneError, 5%nat)
                 end
            else (EncodeRune r, 5%nat)
        end
      else ([e], 1%nat)
  | _ => ([], 0%nat)
  end.

(** [unquote] of a scanned literal: escapes expanded, bytes that are not UTF-8 replaced. *)
Fixpoint unquote_from (skip : nat) (s : list ascii) : list ascii :=
  match s with
  | [] => []
  | c :: s' =>
      match skip with
      | S n => unquote_from n s'
      | O =>
          if Ascii.eqb c backslash
          then let '(out, n) := unescape s in out ++ unquote_from n s'
          else let '(r, n) := DecodeRune s in EncodeRune r ++ unquote_from (Nat.pred n) s'
      end
  end.
Definition unquote (raw : list ascii) : list ascii := unquote_from 0 raw.

(** ** Encoding a string *)

Definition lower_hex (n : Z) : ascii := zb (if n <? 10 then 48 + n else 87 + n).
Definition u_escape (r : Z) : list ascii :=
  [backslash; "u"%char; lower_hex (r / 4096); lower_hex (r / 256 mod 16); lower_hex (r / 16 mod 16);
   lower_hex (r mod 16)].

(** A byte below 0x80 under [appendString] with HTML escaping. *)
Definition quote_ascii (c : ascii) : list ascii :=
  if Ascii.eqb c backslash || Ascii.eqb c dquote then [backslash; c]
  else if bz c =? 8 then [backslash; "b"%char]
  else if bz c =? 12 then [backslash; "f"%char]
  else if bz c =? 10 then [backslash; "n"%char]
  else if bz c =? 13 then [backslash; "r"%char]
  else if bz c =? 9 then [backslash; "t"%char]
  else if (bz c <? 32) || (bz c =? 60) || (bz c =? 62) || (bz c =? 38) then u_escape (bz c)
  else [c].

Fixpoint quote_from (skip : nat) (s : list ascii) : list ascii :=
  match s with
  | [] => []
  | c :: s' =>
      match skip with
      | S n => quote_from n s'
      | O =>
          if bz c <? 128 then quote_ascii c ++ quote_from 0 s'
          else let '(r, n) := DecodeRune s in
               (if (r =? RuneError) && Nat.eqb n 1 then u_escape RuneError
                else if (r =? 8232) || (r =? 8233) then u_escape r
                else take n s) ++ quote_from (Nat.pred n) s'
      end
  end.
(** What [json.Marshal] writes within the quotation marks. *)
Definition quote (s : list ascii) : list ascii := quote_from 0 s.

(** What re-encoding a [json.RawMessage] does to the text of a literal. *)
Fixpoint escape_html (s : list ascii) : list ascii :=
  match s with
  | [] => []
  | c :: s' =>
      if (bz c =? 60) || (bz c =? 62) || (bz c =? 38) then u_escape (bz c) ++ escape_html s'
      else match s' with
           | c1 :: c2 :: s3 =>
               if (bz c =? 226) && (bz c1 =? 128) && ((bz c2 =? 168) || (bz c2 =? 169))
               then u_escape (8064 + bz c2) ++ escape_html s3
               else c :: escape_html s'
           | _ => c :: escape_html s'
           end
  end.
Fixpoint compact (v : json) : json :=
  match v with
  | JStr raw => JStr (escape_html raw)
  | JArr l => JArr (map compact l)
  | JObj l => JObj (map (fun kv => (escape_html kv.1, compact kv.2)) l)
  | _ => v
  end.

(** ** Decoding into Go values

    A decoder updates a Go value in place and says whether a value of the wrong type was met. *)
Definition decoder (A : Type) : Type := json -> A -> A * bool.

Definition dec_string : decoder (list ascii) := fun v cur =>
  match v with JStr raw => (unquote raw, false) | JNull => (cur, false) | _ => (cur, true) end.
Definition dec_bool : decoder bool := fun v cur =>
  match v with JBool b => (b, false) | JNull => (cur, false) | _ => (cur, true) end.
Definition dec_int64 : decoder Z := fun v cur =>
  match v with
  | JNum lit => match ParseInt lit with inr n => (n, false) | inl _ => (cur, true) end
  | JNull => (cur, false)
  | _ => (cur, true)
  end.

(** [foldName], as far as comparison with an ASCII name needs it: letters without their case, and
    the two runes outside ASCII that fold to letters. *)
Definition fold_rune (r : Z) : list ascii :=
  if within 97 r 122 then [zb (r - 32)]
  else if r =? 383 then [zb 83]
  else if r =? 8490 then [zb 75]
  else EncodeRune r.
Definition fold_name (s : list ascii) : list ascii := concat (map (fun p => fold_rune p.1) (runes s)).

(** A struct field: its name and how a member of that name updates the struct. *)
Definition field (A : Type) : Type := list ascii * decoder A.

Definition find_field {A} (fields : list (field A)) (key : list ascii) : option (decoder A) :=
  match List.find (fun f => bool_decide (f.1 = key)) fields with
  | Some f => Some f.2
  | None => snd <$> List.find (fun f => bool_decide (fold_name f.1 = fold_name key)) fields
  end.

Fixpoint dec_members {A} (fields : list (field A)) (members : list (list ascii * json)) (st : A * bool)
    : A * bool :=
  match members with
  | [] => st
  | (k, v) :: rest =>
      dec_members fields rest
        match find_field fields (unquote k) with
        | Some dec => let '(a, bad) := dec v st.1 in (a, st.2 || bad)
        | None => st
        end
  end.

Definition dec_struct {A} (fields : list (field A)) : decoder A := fun v cur =>
  match v with
  | JObj members => dec_members fields members (cur, false)
  | JNull => (cur, false)
  | _ => (cur, true)
  end.

(** A pointer field: [null] clears it, anything else is decoded into what it points to. *)
Definition dec_ptr {A} (zero : A) (dec : decoder A) : decoder (option A) := fun v cur =>
  match v with
  | JNull => (None, false)
  | _ => let '(a, bad) := dec v (default zero cur) in (Some a, bad)
  end.

(** A decoder for one component of a struct. *)
Definition at_field {A B} (get : A -> B) (set : B -> A -> A) (dec : decoder B) : decoder A := fun v a =>
  let '(b, bad) := dec v (get a) in (set b a, bad).

(** [json.Unmarshal] into a zero value; [None] is any error. *)
Definition Unmarshal {A} (dec : decoder A) (zero : A) (s : list ascii) : option A :=
  match parse s with
  | None => None
  | Some v => let '(a, bad) := dec v zero in if bad then None else Some a
  end.

(** [json.Unmarshal] into a [map[string]json.RawMessage]; the inner [None] is the nil map that
    [null] leaves. *)
Abbreviation raw_map := (gmap (list ascii) json).
Definition UnmarshalMap (s : list ascii) : option (option raw_map) :=
  match parse s with
  | Some (JObj members) => Some (Some (foldl (fun m kv => <[unquote kv.1 := kv.2]> m) ∅ members))
  | Some JNull => Some None
  | _ => None
  end.

(** Keys are written in byte order. *)
Fixpoint bytes_leb (a b : list ascii) : bool :=
  match a, b with
  | [], _ => true
  | _ :: _, [] => false
  | x :: a', y :: b' => if bz x =? bz y then bytes_leb a' b' else bz x <? bz y
  end.
Fixpoint insert_key (kv : list ascii * json) (l : list (list ascii * json)) : list (list ascii * json) :=
  match l with
  | [] => [kv]
  | x :: l' => if bytes_leb kv.1 x.1 then kv :: l else x :: insert_key kv l'
  end.
Definition sort_keys (l : list (list ascii * json)) : list (list ascii * json) := foldr insert_key [] l.

(** [json.Marshal] of such a map: the value it writes. *)
Definition MarshalMap (m : raw_map) : json :=
  JObj (map (fun kv => (quote kv.1, compact kv.2)) (sort_keys (map_to_list m))).

(** [json.Marshal] of a string. *)
Definition MarshalString (s : list ascii) : json := JStr (quote s).

(** ** Specification: the value a text stands for *)
Fixpoint meaning (v : json) : json :=
  match v with
  | JStr raw => JStr (unquote raw)
  | JArr l => JArr (map meaning l)
  | JObj l => JObj (map (fun kv => (unquote kv.1, meaning kv.2)) l)
  | _ => v
  end.
