(* ===== verification/JsonFacts.v ===== *)
(** * Facts about JSON

    The scanner accepts what the printer writes and reads back the same value, and everything it
    reads can be printed; quoting a string and reading it again gives the string. *)
From S2P Require Import Prelude Strconv Text Json.
From Stdlib Require Import ZArith Lia Ascii.
From stdpp Require Import base gmap strings list.
Open Scope Z_scope.

(** ** Well-formed values *)

Inductive raw_ok : list ascii -> Prop :=
| raw_nil : raw_ok []
| raw_char c r : 32 <= bz c -> c <> dquote -> c <> backslash -> raw_ok r -> raw_ok (c :: r)
| raw_esc e r : simple_escape e = true -> raw_ok r -> raw_ok (backslash :: e :: r)
| raw_u h1 h2 h3 h4 r :
    is_hex h1 = true -> is_hex h2 = true -> is_hex h3 = true -> is_hex h4 = true -> raw_ok r ->
    raw_ok (backslash :: "u"%char :: h1 :: h2 :: h3 :: h4 :: r).

Fixpoint num_run (st : numst) (l : list ascii) : option numst :=
  match l with
  | [] => Some st
  | c :: l' => num_step st c ≫= (fun st' => num_run st' l')
  end.
Definition num_ok (lit : list ascii) : Prop :=
  exists c l st0 st, lit = c :: l /\ num_begin c = Some st0 /\ num_run st0 l = Some st /\ num_final st = true.

Fixpoint jwf (v : json) : Prop :=
  match v with
  | JNum lit => num_ok lit
  | JStr raw => raw_ok raw
  | JArr l => foldr and True (map jwf l)
  | JObj l => foldr and True (map (fun kv => raw_ok kv.1 /\ jwf kv.2) l)
  | _ => True
  end.

Fixpoint jdepth (v : json) : nat :=
  match v with
  | JArr l => S (foldr Nat.max 0%nat (map jdepth l))
  | JObj l => S (foldr Nat.max 0%nat (map (fun kv => jdepth kv.2) l))
  | _ => 0%nat
  end.

Lemma foldr_and {A} (P : A -> Prop) l : foldr and True (map P l) <-> Forall P l.
Proof. induction l; simpl; [by split|]. by rewrite list.Forall_cons, IHl. Qed.

Lemma foldr_max {A} (f : A -> nat) l n : (foldr Nat.max 0 (map f l) <= n)%nat <-> Forall (fun x => (f x <= n)%nat) l.
Proof.
  induction l; simpl; [split; [constructor|lia]|]. rewrite list.Forall_cons, <- IHl. lia.
Qed.

Lemma json_induction (P : json -> Prop) :
  P JNull -> (forall b, P (JBool b)) -> (forall lit, P (JNum lit)) -> (forall raw, P (JStr raw)) ->
  (forall l, Forall P l -> P (JArr l)) -> (forall l, Forall (fun kv => P kv.2) l -> P (JObj l)) ->
  forall v, P v.
Proof.
  intros Hn Hb Hnum Hs Ha Ho. fix IH 1. intros [|b|lit|raw|l|l].
  - exact Hn.
  - apply Hb.
  - apply Hnum.
  - apply Hs.
  - apply Ha. induction l; constructor; [apply IH|done].
  - apply Ho. induction l as [|[k v] l]; constructor; [apply IH|done].
Qed.

(** ** Running the scanner *)

Lemma scan_all_app st a b : scan_all st (a ++ b) = scan_all st a ≫= fun st' => scan_all st' b.
Proof.
  revert st. induction a as [|c a IH]; intros st; simpl; [done|]. destruct (scan st c); [apply IH|done].
Qed.

Lemma num_run_app st a b : num_run st (a ++ b) = num_run st a ≫= fun st' => num_run st' b.
Proof.
  revert st. induction a as [|c a IH]; intros st; simpl; [done|].
  destruct (num_step st c); simpl; [apply IH|done].
Qed.

Lemma scan_num stack st l st' acc :
  num_run st l = Some st' -> scan_all (stack, MNum st acc) l = Some (stack, MNum st' (rev l ++ acc)).
Proof.
  revert st acc. induction l as [|c l IH]; intros st acc H; simpl in *; [by simplify_eq|].
  destruct (num_step st c) as [st1|]; [|done]. rewrite (IH _ _ H). by rewrite <- app_assoc.
Qed.

Lemma eqb_false (c d : ascii) : c <> d -> Ascii.eqb c d = false.
Proof. apply Ascii.eqb_neq. Qed.

Lemma scan_raw stack k raw acc :
  raw_ok raw -> scan_all (stack, MStr k acc) raw = Some (stack, MStr k (rev raw ++ acc)).
Proof.
  intros Hr. revert acc. induction Hr as [|c r Hc Hq Hb _ IH|e r He _ IH|h1 h2 h3 h4 r H1 H2 H3 H4 _ IH];
    intros acc; [done| | |].
  - cbn [scan_all scan]. rewrite (eqb_false _ _ Hq), (eqb_false _ _ Hb), (proj2 (Z.ltb_ge _ _)) by lia.
    rewrite IH. simpl. by rewrite <- app_assoc.
  - cbn [scan_all scan]. replace (Ascii.eqb backslash dquote) with false by done.
    rewrite Ascii.eqb_refl. cbn [scan_all scan]. rewrite He. rewrite IH. simpl. by rewrite <- !app_assoc.
  - cbn [scan_all scan]. replace (Ascii.eqb backslash dquote) with false by done.
    rewrite Ascii.eqb_refl. cbn [scan_all scan]. replace (simple_escape "u") with false by done.
    rewrite Ascii.eqb_refl. cbn [scan_all scan]. rewrite H1. cbn [scan_all scan]. rewrite H2.
    cbn [scan_all scan]. rewrite H3. cbn [scan_all scan]. rewrite H4. rewrite IH. simpl. by rewrite <- !app_assoc.
Qed.

(** Where the scanner stands after the text of a value: the value is complete, or it is a number
    that the next byte will complete. *)
Definition settled (st : scan_state) (v : json) (stack : list frame) : Prop :=
  st = finish v stack \/
  exists ns lit, st = (stack, MNum ns lit) /\ num_final ns = true /\ v = JNum (rev lit).

(** A byte that can follow a value. *)
Definition closing (c : ascii) : Prop := c = ","%char \/ c = "]"%char \/ c = "}"%char.

Lemma num_step_closing ns c : closing c -> num_step ns c = None.
Proof. intros [-> | [-> | ->]]; by destruct ns. Qed.

Lemma scan_finish v stack c : scan (finish v stack) c = let '(s, m) := finish v stack in scan_after s m c.
Proof. by destruct stack as [|[]]. Qed.

Lemma settled_step st v stack c : settled st v stack -> closing c -> scan st c = scan (finish v stack) c.
Proof.
  intros [-> | (ns & lit & -> & Hf & ->)] Hc; [done|].
  rewrite scan_finish. cbn [scan]. by rewrite num_step_closing, Hf.
Qed.

Lemma settled_run st v stack c rest :
  settled st v stack -> closing c -> scan_all st (c :: rest) = scan_all (finish v stack) (c :: rest).
Proof. intros Hs Hc. cbn [scan_all]. by rewrite (settled_step _ _ _ _ Hs Hc). Qed.

Lemma num_begin_head c st :
  num_begin c = Some st ->
  jspace c = false /\ c <> "]"%char /\ forall stack, begin_value c stack = Some (stack, MNum st [c]).
Proof.
  destruct c as [[] [] [] [] [] [] [] []]; intros H; vm_compute in H; try discriminate H;
    injection H as <-; (split_and!; [reflexivity|discriminate|intros stack; reflexivity]).
Qed.

(** A list of items between brackets, each item scanned to the point where a closing byte finds
    it complete. *)
Lemma scan_items {A} (pr : A -> list ascii) (fr : list A -> frame) (m : mode) (close : ascii)
    (whole : list A -> json) (ok : A -> Prop) (stack : list frame) :
  closing close ->
  (forall x acc, ok x -> exists st, scan_all (fr acc :: stack, m) (pr x) = Some st
     /\ forall c rest, closing c -> scan_all st (c :: rest) = scan_all (fr (x :: acc) :: stack, MAfter) (c :: rest)) ->
  (forall acc, scan (fr acc :: stack, MAfter) "," = Some (fr acc :: stack, m)) ->
  (forall acc, scan (fr acc :: stack, MAfter) close = Some (finish (whole (rev acc)) stack)) ->
  forall l x acc, Forall ok (x :: l) ->
    scan_all (fr acc :: stack, m) (sep_concat [","%char] (map pr (x :: l)) ++ [close])
    = Some (finish (whole (rev acc ++ x :: l)) stack).
Proof.
  intros Hclose Hitem Hcomma Hend. induction l as [|y l IH]; intros x acc Hok;
    apply list.Forall_cons in Hok as [Hx Hl]; destruct (Hitem x acc Hx) as (st & Hst & Hnext).
  - simpl. rewrite app_nil_r, scan_all_app, Hst. cbn [mbind option_bind].
    rewrite Hnext by done. cbn [scan_all]. by rewrite Hend.
  - change (sep_concat [","%char] (map pr (x :: y :: l)))
      with (pr x ++ ","%char :: sep_concat [","%char] (map pr (y :: l))).
    rewrite <- app_assoc, scan_all_app, Hst. cbn [mbind option_bind app].
    rewrite Hnext by (by left). cbn [scan_all]. rewrite Hcomma, IH by done.
    simpl. by rewrite <- app_assoc.
Qed.

(** What scanning the text of [v] does, for any stack with room for it. *)
Definition scans (v : json) : Prop :=
  forall stack, Z.of_nat (jdepth v + length stack) <= maxNestingDepth ->
  exists st, scan_all (stack, MValue) (print v) = Some st /\ settled st v stack.

Lemma print_head v : jwf v -> exists c t, print v = c :: t /\ jspace c = false /\ c <> "]"%char.
Proof.
  destruct v as [|[]|lit|raw|l|l]; simpl; intros Hw; try (eexists _, _; split; [reflexivity|done]).
  destruct Hw as (c & l & st0 & st & -> & Hb & _). apply num_begin_head in Hb as (? & ? & _). eauto.
Qed.

Lemma scans_arr l : Forall scans l -> Forall jwf l -> scans (JArr l).
Proof.
  intros Hl Hw stack Hd. simpl in Hd.
  assert (Hdep : Forall (fun v => (jdepth v <= foldr Nat.max 0 (map jdepth l))%nat) l) by by apply foldr_max.
  exists (finish (JArr l) stack). split; [|by left].
  cbn [print scan_all scan]. replace (jspace "[") with false by done.
  unfold begin_value. cbn -[push]. unfold push. rewrite (proj2 (Z.ltb_lt _ _)) by lia.
  destruct l as [|x l]; [done|]. apply list.Forall_cons in Hw as [Hx Hw'].
  pose proof (print_head x Hx) as (c & t & Hc & Hcs & Hcb).
  transitivity (scan_all (FArr [] :: stack, MValue) (sep_concat [","%char] (map print (x :: l)) ++ ["]"%char])).
  { simpl. rewrite Hc. cbn [app scan_all scan]. by rewrite Hcs, (eqb_false _ _ Hcb). }
  apply (scan_items print FArr MValue "]" JArr
           (fun v => scans v /\ (jdepth v <= foldr Nat.max 0 (map jdepth (x :: l)))%nat) stack); try done.
  - by right; left.
  - intros v acc [Hv Hvd]. destruct (Hv (FArr acc :: stack)) as (st & Hst & Hset); [simpl length; lia|].
    exists st. split; [done|]. intros c' rest Hc'. by apply (settled_run st v (FArr acc :: stack)).
  - apply list.Forall_and. done.
Qed.

Lemma scan_key stack acc key raw :
  raw_ok raw ->
  scan_all (FObj acc key :: stack, MKey) (quoted raw ++ [":"%char]) = Some (FObj acc raw :: stack, MValue).
Proof.
  intros Hr. unfold quoted. cbn [app scan_all scan]. replace (jspace dquote) with false by done.
  rewrite Ascii.eqb_refl. rewrite <- app_assoc, scan_all_app, scan_raw by done.
  cbn [mbind option_bind app scan_all scan]. rewrite Ascii.eqb_refl, app_nil_r, rev_involutive. done.
Qed.

Lemma scans_obj l :
  Forall (fun kv => scans kv.2) l -> Forall (fun kv => raw_ok kv.1 /\ jwf kv.2) l -> scans (JObj l).
Proof.
  intros Hl Hw stack Hd. simpl in Hd.
  assert (Hdep : Forall (fun kv : list ascii * json =>
    (jdepth kv.2 <= foldr Nat.max 0 (map (fun kv => jdepth kv.2) l))%nat) l) by by apply foldr_max.
  exists (finish (JObj l) stack). split; [|by left].
  cbn [print scan_all scan]. replace (jspace "{") with false by done.
  unfold begin_value. cbn -[push]. unfold push. rewrite (proj2 (Z.ltb_lt _ _)) by lia.
  destruct l as [|x l]; [done|].
  set (pr := fun kv : list ascii * json => quoted kv.1 ++ ":"%char :: print kv.2).
  transitivity (scan_all (FObj [] [] :: stack, MKey) (sep_concat [","%char] (map pr (x :: l)) ++ ["}"%char])).
  { done. }
  apply (scan_items pr (fun acc => FObj acc []) MKey "}" JObj
           (fun kv => (scans kv.2 /\ raw_ok kv.1)
              /\ (jdepth kv.2 <= foldr Nat.max 0 (map (fun kv => jdepth kv.2) (x :: l)))%nat) stack); try done.
  - by right; right.
  - intros [k v] acc [[Hv Hk] Hvd]. unfold pr. cbn [fst snd] in *.
    destruct (Hv (FObj acc k :: stack)) as (st & Hst & Hset); [simpl length; lia|].
    exists st. split.
    + change (quoted k ++ ":"%char :: print v) with (quoted k ++ [":"%char] ++ print v).
      rewrite app_assoc, scan_all_app, scan_key by done. done.
    + intros c' rest Hc'. by apply (settled_run st v (FObj acc k :: stack)).
  - apply list.Forall_and. split; [|done]. apply list.Forall_and. split; [done|].
    eapply list.Forall_impl; [exact Hw|]. by intros ? [].
Qed.

Lemma scans_all v : jwf v -> scans v.
Proof.
  induction v as [|b|lit|raw|l IH|l IH] using json_induction; intros Hw; simpl in Hw.
  - intros stack _. eexists. split; [reflexivity|by left].
  - intros stack _. destruct b; (eexists; split; [reflexivity|by left]).
  - intros stack _. destruct Hw as (c & l & st0 & st & -> & Hb & Hr & Hf).
    apply num_begin_head in Hb as (Hs & _ & Hbv). cbn [print scan_all scan]. rewrite Hs, Hbv.
    rewrite (scan_num _ _ _ _ _ Hr). eexists. split; [reflexivity|]. right. exists st, (rev l ++ [c]).
    split_and!; try done. by rewrite rev_app_distr, rev_involutive.
  - intros stack _. exists (finish (JStr raw) stack). split; [|by left].
    cbn [print]. unfold quoted. cbn [scan_all scan]. replace (jspace dquote) with false by done.
    unfold begin_value. cbn -[scan_all]. rewrite scan_all_app, scan_raw by done.
    cbn [mbind option_bind scan_all scan]. by rewrite Ascii.eqb_refl, app_nil_r, rev_involutive.
  - apply foldr_and in Hw. apply scans_arr; [|done]. rewrite list.Forall_forall in *. auto.
  - apply foldr_and in Hw. apply scans_obj; [|done]. rewrite list.Forall_forall in *.
    intros kv Hin. apply IH; [done|]. by apply Hw.
Qed.

Lemma parse_print v : jwf v -> Z.of_nat (jdepth v) <= maxNestingDepth -> parse (print v) = Some v.
Proof.
  intros Hw Hd. unfold parse. destruct (scans_all v Hw []) as (st & -> & Hset); [simpl; lia|].
  destruct Hset as [-> | (ns & lit & -> & Hf & ->)]; simpl; [done|]. by rewrite Hf.
Qed.

(** ** What is parsed is well formed *)

Definition room (stack : list frame) : Z := maxNestingDepth - Z.of_nat (length stack).
Definition fits (n : Z) (v : json) : Prop := jwf v /\ Z.of_nat (jdepth v) <= n.

Definition frame_fits (n : Z) (f : frame) : Prop :=
  match f with
  | FArr acc => Forall (fits n) acc
  | FObj acc key => Forall (fun kv => raw_ok kv.1 /\ fits n kv.2) acc /\ raw_ok key
  end.

Fixpoint stack_ok (stack : list frame) : Prop :=
  match stack with
  | [] => True
  | f :: rest => 0 <= room stack /\ frame_fits (room stack) f /\ stack_ok rest
  end.

Definition mode_ok (m : mode) : Prop :=
  match m with
  | MStr _ raw | MEsc _ raw => raw_ok (rev raw)
  | MHex _ raw n => exists raw0 hs, rev raw = raw0 ++ backslash :: "u"%char :: hs /\ raw_ok raw0
      /\ Forall (fun h => is_hex h = true) hs /\ (length hs + S n = 4)%nat
  | MNum ns lit => exists c l st0, rev lit = c :: l /\ num_begin c = Some st0 /\ num_run st0 l = Some ns
  | MLit _ v => fits 0 v
  | MDone v => fits maxNestingDepth v
  | _ => True
  end.
Definition state_ok (st : scan_state) : Prop := stack_ok st.1 /\ mode_ok st.2.

Lemma stack_room stack : stack_ok stack -> 0 <= room stack.
Proof. destruct stack as [|f rest]; [done|]. by intros [? _]. Qed.

Lemma fits_mono n n' v : n <= n' -> fits n v -> fits n' v.
Proof. intros ? [? ?]. split; [done|lia]. Qed.

Lemma raw_ok_app a b : raw_ok a -> raw_ok b -> raw_ok (a ++ b).
Proof. induction 1; intros Hb; simpl; [done|apply raw_char|apply raw_esc|apply raw_u]; auto. Qed.

Lemma finish_ok v stack : fits (room stack) v -> stack_ok stack -> state_ok (finish v stack).
Proof.
  intros Hv Hs. destruct stack as [|[acc|acc key] rest].
  - split; [done|]. simpl. unfold room in Hv. simpl in Hv. by rewrite Z.sub_0_r in Hv.
  - destruct Hs as (H0 & Hf & Hr). split; [|done]. split_and!; [done| |done]. by constructor.
  - destruct Hs as (H0 & [Hf Hk] & Hr). split; [|done]. split_and!; [done| |done].
    split; [by constructor|constructor].
Qed.

Lemma room_cons f rest : room (f :: rest) = room rest - 1.
Proof. unfold room. simpl length. lia. Qed.

Lemma fits_arr n l : Forall (fits (n - 1)) l -> 1 <= n -> fits n (JArr l).
Proof.
  intros Hl Hn. split; simpl.
  - apply foldr_and. eapply list.Forall_impl; [exact Hl|]. by intros ? [].
  - enough (foldr Nat.max 0 (map jdepth l) <= Z.to_nat (n - 1))%nat by lia.
    apply foldr_max. eapply list.Forall_impl; [exact Hl|]. intros v [_ ?]. lia.
Qed.

Lemma fits_obj n l :
  Forall (fun kv => raw_ok kv.1 /\ fits (n - 1) kv.2) l -> 1 <= n -> fits n (JObj l).
Proof.
  intros Hl Hn. split; simpl.
  - apply foldr_and. eapply list.Forall_impl; [exact Hl|]. by intros ? [? []].
  - enough (foldr Nat.max 0 (map (fun kv => jdepth kv.2) l) <= Z.to_nat (n - 1))%nat by lia.
    apply foldr_max. eapply list.Forall_impl; [exact Hl|]. intros v [_ [_ ?]]. lia.
Qed.

Lemma close_arr_ok stack st : stack_ok stack -> close_arr stack = Some st -> state_ok st.
Proof.
  destruct stack as [|[acc|] rest]; simpl; try done. intros (H0 & Hf & Hr) [= <-].
  apply finish_ok; [|done]. simpl in Hf. rewrite room_cons in *. apply fits_arr; [|lia].
  by apply Forall_rev.
Qed.

Lemma close_obj_ok stack st : stack_ok stack -> close_obj stack = Some st -> state_ok st.
Proof.
  destruct stack as [|[|acc key] rest]; simpl; try done. intros (H0 & [Hf _] & Hr) [= <-].
  apply finish_ok; [|done]. rewrite room_cons in *. apply fits_obj; [|lia]. by apply Forall_rev.
Qed.

Lemma push_ok f stack m st :
  (forall n, frame_fits n f) -> mode_ok m -> stack_ok stack -> push f stack m = Some st -> state_ok st.
Proof.
  unfold push. intros Hf Hm Hs. destruct (_ <? _) eqn:E; [|done]. intros [= <-]. zify_bools.
  split; [|done]. split_and!; [unfold room; simpl length; lia|apply Hf|done].
Qed.

Lemma begin_value_ok c stack st : stack_ok stack -> begin_value c stack = Some st -> state_ok st.
Proof.
  intros Hs. unfold begin_value.
  destruct (Ascii.eqb c "{").
  { apply push_ok; [|done|done]. intros n. split; constructor. }
  destruct (Ascii.eqb c "["); [apply push_ok; [constructor|done|done]|].
  destruct (Ascii.eqb c dquote); [intros [= <-]; split; [done|constructor]|].
  destruct (Ascii.eqb c "t"); [intros [= <-]; by split|].
  destruct (Ascii.eqb c "f"); [intros [= <-]; by split|].
  destruct (Ascii.eqb c "n"); [intros [= <-]; by split|].
  destruct (num_begin c) as [ns|] eqn:E; [|done]. intros [= <-]. split; [done|].
  by exists c, [], ns.
Qed.

Lemma scan_after_ok stack m c st :
  state_ok (stack, m) -> (m = MAfter \/ exists v, m = MDone v) -> scan_after stack m c = Some st -> state_ok st.
Proof.
  intros [Hs Hm] Hcase. unfold scan_after. destruct Hcase as [-> | [v ->]].
  - destruct (jspace c); [intros [= <-]; by split|]. destruct stack as [|[acc|acc key] rest]; [done| |].
    + destruct (Ascii.eqb c ","); [intros [= <-]; by split|].
      destruct (Ascii.eqb c "]"); [|done]. by apply close_arr_ok.
    + destruct (Ascii.eqb c ","); [intros [= <-]; by split|].
      destruct (Ascii.eqb c "}"); [|done]. by apply close_obj_ok.
  - destruct (jspace c); [intros [= <-]; by split|done].
Qed.

Lemma set_key_ok raw stack st : raw_ok raw -> stack_ok stack -> set_key raw stack = Some st -> state_ok st.
Proof.
  intros Hr. unfold set_key. destruct stack as [|[|acc key] rest]; try done.
  intros (H0 & [Hf _] & Hs) [= <-]. split; [|done]. split_and!; done.
Qed.

Lemma raw_snoc raw c :
  raw_ok (rev raw) -> 32 <= bz c -> c <> dquote -> c <> backslash -> raw_ok (rev (c :: raw)).
Proof. intros. simpl. apply raw_ok_app; [done|]. apply raw_char; auto using raw_nil. Qed.

Lemma finish_mode v stack : (finish v stack).2 = MAfter \/ exists w, (finish v stack).2 = MDone w.
Proof. destruct stack as [|[]]; [right; by eexists|by left..]. Qed.

Lemma scan_str_ok stack k raw c st :
  stack_ok stack -> raw_ok (rev raw) -> scan (stack, MStr k raw) c = Some st -> state_ok st.
Proof.
  intros Hs Hr. cbn [scan]. destruct (Ascii.eqb_spec c dquote) as [->|Hq].
  - destruct k; [by apply set_key_ok|]. intros [= <-]. apply finish_ok; [|done].
    split; [done|]. by apply stack_room.
  - destruct (Ascii.eqb_spec c backslash) as [->|Hb]; [intros [= <-]; by split|].
    destruct (_ <? 32) eqn:E; [done|]. intros [= <-]. zify_bools. split; [done|]. by apply raw_snoc.
Qed.

Lemma scan_hex_ok stack k raw n c st :
  state_ok (stack, MHex k raw n) -> scan (stack, MHex k raw n) c = Some st -> state_ok st.
Proof.
  intros [Hs (raw0 & hs & Hraw & H0 & Hhs & Hlen)]. cbn [scan].
  destruct (is_hex c) eqn:Hc; [|done]. intros [= <-]. split; [done|].
  destruct n as [|n]; simpl.
  - rewrite Hraw, <- app_assoc. apply raw_ok_app; [done|].
    destruct hs as [|h1 [|h2 [|h3 [|]]]]; simpl in Hlen; try lia.
    rewrite !list.Forall_cons in Hhs. destruct Hhs as (? & ? & ? & _). simpl.
    apply raw_u; auto using raw_nil.
  - exists raw0, (hs ++ [c]). rewrite Hraw, <- app_assoc. split_and!; [done|done| |].
    + apply list.Forall_app. split; [done|]. by repeat constructor.
    + rewrite length_app. simpl. lia.
Qed.

Lemma scan_num_ok stack ns lit c st :
  state_ok (stack, MNum ns lit) -> scan (stack, MNum ns lit) c = Some st -> state_ok st.
Proof.
  intros [Hs (d & l & st0 & Hlit & Hb & Hr)]. cbn [scan].
  destruct (num_step ns c) as [ns'|] eqn:E.
  - intros [= <-]. split; [done|]. exists d, (l ++ [c]), st0. simpl. rewrite Hlit. split_and!; [done|done|].
    rewrite num_run_app, Hr. simpl. by rewrite E.
  - destruct (num_final ns) eqn:Hf; [|done].
    assert (Hv : fits (room stack) (JNum (rev lit))).
    { split; [by exists d, l, st0, ns|by apply stack_room]. }
    pose proof (finish_ok _ _ Hv Hs) as Hok. pose proof (finish_mode (JNum (rev lit)) stack) as Hm.
    destruct (finish (JNum (rev lit)) stack) as [stack' m']. by apply scan_after_ok.
Qed.

Lemma scan_ok st c st' : state_ok st -> scan st c = Some st' -> state_ok st'.
Proof.
  destruct st as [stack m]. intros Hok. pose proof Hok as [Hs Hm]. cbn [fst snd] in *.
  destruct m as [ | | | |k raw|k raw|k raw n| |ns lit|rest v| |v]; try (by apply scan_after_ok; eauto).
  - cbn [scan]. destruct (jspace c); [intros [= <-]; by split|]. by apply begin_value_ok.
  - cbn [scan]. destruct (jspace c); [intros [= <-]; by split|].
    destruct (Ascii.eqb c "]"); [by apply close_arr_ok|by apply begin_value_ok].
  - cbn [scan]. destruct (jspace c); [intros [= <-]; by split|].
    destruct (Ascii.eqb c "}"); [by apply close_obj_ok|].
    destruct (Ascii.eqb c dquote); [|done]. intros [= <-]. split; [done|constructor].
  - cbn [scan]. destruct (jspace c); [intros [= <-]; by split|].
    destruct (Ascii.eqb c dquote); [|done]. intros [= <-]. split; [done|constructor].
  - by apply scan_str_ok.
  - cbn [scan]. destruct (simple_escape c) eqn:He.
    + intros [= <-]. split; [done|]. simpl. rewrite <- app_assoc. apply raw_ok_app; [done|].
      apply raw_esc; [done|constructor].
    + destruct (Ascii.eqb_spec c "u") as [->|]; [|done]. intros [= <-]. split; [done|].
      exists (rev raw), []. simpl. rewrite <- app_assoc. split_and!; [done|done|constructor|done].
  - by apply scan_hex_ok.
  - cbn [scan]. destruct (jspace c); [intros [= <-]; by split|].
    destruct (Ascii.eqb c ":"); [|done]. intros [= <-]. by split.
  - by apply scan_num_ok.
  - cbn [scan]. destruct rest as [|d rest]; [done|]. destruct (Ascii.eqb c d); [|done]. intros [= <-].
    destruct rest; [|by split]. apply finish_ok; [|done].
    eapply fits_mono; [by apply stack_room|done].
Qed.

Lemma scan_all_ok s st st' : state_ok st -> scan_all st s = Some st' -> state_ok st'.
Proof.
  revert st. induction s as [|c s IH]; intros st Hok; simpl; [by intros [= <-]|].
  destruct (scan st c) as [st1|] eqn:E; [|done]. apply IH. by eapply scan_ok.
Qed.

Lemma parse_ok s v : parse s = Some v -> jwf v /\ Z.of_nat (jdepth v) <= maxNestingDepth.
Proof.
  unfold parse. destruct (scan_all ([], MValue) s) as [[stack m]|] eqn:E; [|done]. simpl.
  apply scan_all_ok in E as [Hs Hm]; [|by split]. cbn [fst snd] in *.
  destruct stack as [|f rest]; [|by destruct m].
  destruct m; try done; simpl.
  - destruct (num_final st) eqn:Hf; [|done]. intros [= <-].
    destruct Hm as (c & l & st0 & Hlit & Hb & Hr). split; [|done]. by exists c, l, st0, st.
  - by intros [= <-].
Qed.

(** ** Quoting and unquoting *)

(** What Go makes of a string's bytes rune by rune: those that are not UTF-8 become U+FFFD. *)
Definition to_valid (s : list ascii) : list ascii := concat (map (fun p => EncodeRune p.1) (runes s)).

Lemma runes_skip n s : runes_from n s = runes (drop n s).
Proof. revert n. induction s as [|c s IH]; intros [|n]; try done. apply IH. Qed.
Lemma quote_skip n s : quote_from n s = quote (drop n s).
Proof. revert n. induction s as [|c s IH]; intros [|n]; try done. apply IH. Qed.
Lemma unquote_skip n s : unquote_from n s = unquote (drop n s).
Proof. revert n. induction s as [|c s IH]; intros [|n]; try done. apply IH. Qed.

Lemma unquote_after a t : unquote_from (length a) (a ++ t) = unquote t.
Proof. rewrite unquote_skip. by rewrite drop_app_length. Qed.

(** A byte that starts no escape. *)
Lemma unquote_cons c s :
  c <> backslash ->
  unquote (c :: s) = let '(r, n) := DecodeRune (c :: s) in EncodeRune r ++ unquote (drop (Nat.pred n) s).
Proof.
  intros Hc. unfold unquote at 1. cbn [unquote_from]. rewrite (eqb_false _ _ Hc).
  destruct (DecodeRune (c :: s)) as [r n]. by rewrite unquote_skip.
Qed.

Lemma unquote_quote_ascii c t : bz c < 128 -> unquote (quote_ascii c ++ t) = c :: unquote t.
Proof. destruct c as [[] [] [] [] [] [] [] []]; intros H; try reflexivity; vm_compute in H; discriminate H. Qed.

Lemma quote_ascii_ok c : bz c < 128 -> raw_ok (quote_ascii c).
Proof.
  intros H. destruct c as [[] [] [] [] [] [] [] []]; try (vm_compute in H; discriminate H);
    first [apply raw_char; [discriminate|discriminate|discriminate|constructor]
          |apply raw_esc; [reflexivity|constructor]
          |apply raw_u; [reflexivity..|constructor]].
Qed.

Lemma unquote_u_escape r t : r = RuneError \/ r = 8232 \/ r = 8233 -> unquote (u_escape r ++ t) = EncodeRune r ++ unquote t.
Proof. intros [-> | [-> | ->]]; reflexivity. Qed.
Lemma u_escape_ok r : r = RuneError \/ r = 8232 \/ r = 8233 -> raw_ok (u_escape r).
Proof. intros [-> | [-> | ->]]; apply raw_u; try reflexivity; constructor. Qed.

(** The bytes of a rune outside ASCII are outside ASCII. *)
Lemma EncodeRune_high r : scalar r = true -> 128 <= r -> Forall (fun c => 128 <= bz c) (EncodeRune r).
Proof.
  intros Hs Hr. unfold EncodeRune. rewrite Hs, (proj2 (Z.ltb_ge _ 128)) by lia.
  unfold scalar in Hs. rewrite orb_true_iff, !within_spec in Hs.
  destruct (r <? 2048) eqn:E1, (r <? 65536) eqn:E2; zify_bools;
    repeat constructor; rewrite bz_zb; Z.to_euclidean_division_equations; lia.
Qed.

Lemma high_ok s : Forall (fun c => 128 <= bz c) s -> raw_ok s.
Proof.
  induction 1 as [|c s Hc _ IH]; [constructor|]. apply raw_char; [lia| | |done];
    intros ->; vm_compute in Hc; by apply Hc.
Qed.

(** A rune outside ASCII at the head of a string. *)
Lemma high_rune c s r n :
  128 <= bz c -> DecodeRune (c :: s) = (r, n) -> ~ (r = RuneError /\ n = 1%nat) ->
  scalar r = true /\ 128 <= r /\ take n (c :: s) = EncodeRune r /\ n = length (EncodeRune r).
Proof.
  intros Hc Hd Hne.
  assert (Hn0 : n <> 0%nat).
  { unfold DecodeRune in Hd. repeat case_match; simplify_eq; done. }
  destruct (DecodeRune_valid _ _ _ Hd) as (Hs & Ht & Hn & _); [intros [-> ?]; apply Hne; split; [done|lia]|].
  split_and!; try done. destruct (Z.le_gt_cases 128 r) as [|Hlt]; [done|]. exfalso.
  unfold scalar in Hs. rewrite orb_true_iff, !within_spec in Hs.
  unfold EncodeRune in Ht, Hn. unfold scalar in Ht, Hn.
  rewrite (proj2 (within_spec 0 r 55295)) in Ht, Hn by lia. cbn [orb] in Ht, Hn.
  rewrite (proj2 (Z.ltb_lt r 128)) in Ht, Hn by lia. simpl in Hn. subst n. simpl in Ht.
  injection Ht as Hc0. apply (f_equal bz) in Hc0. rewrite bz_zb in Hc0 by lia. lia.
Qed.

Lemma DecodeRune_high_nonzero c s : 128 <= bz c -> exists n, (DecodeRune (c :: s)).2 = S n.
Proof. intros Hc. unfold DecodeRune. repeat case_match; simpl; eauto. Qed.

(** One rune of [quote], with what it means and that it is the text of a literal. *)
Lemma quote_step c s :
  exists out r n, quote (c :: s) = out ++ quote (drop n s) /\ runes (c :: s) = (r, take (S n) (c :: s)) :: runes (drop n s)
    /\ raw_ok out /\ forall t, unquote (out ++ t) = EncodeRune r ++ unquote t.
Proof.
  unfold quote at 1, runes at 1. cbn [quote_from runes_from].
  destruct (bz c <? 128) eqn:E; zify_bools.
  - assert (Hd : DecodeRune (c :: s) = (bz c, 1%nat)).
    { unfold DecodeRune. by rewrite (proj2 (Z.ltb_lt _ _)). }
    exists (quote_ascii c), (bz c), 0%nat. rewrite Hd. split_and!; [done|done|by apply quote_ascii_ok|].
    intros t. rewrite unquote_quote_ascii by done. unfold EncodeRune, scalar.
    pose proof (bz_range c). rewrite (proj2 (within_spec 0 _ _)) by lia. cbn [orb].
    rewrite (proj2 (Z.ltb_lt _ _)) by lia. by rewrite zb_bz.
  - destruct (DecodeRune_high_nonzero c s E) as [n Hn].
    destruct (DecodeRune (c :: s)) as [r n'] eqn:Hd. simpl in Hn. subst n'. simpl Nat.pred.
    rewrite quote_skip, runes_skip.
    destruct ((r =? RuneError) && Nat.eqb (S n) 1) eqn:Ee.
    { zify_bools. exists (u_escape RuneError), r, n. subst r.
      split_and!; [done|done|by apply u_escape_ok; left|]. intros t. apply unquote_u_escape. by left. }
    destruct ((r =? 8232) || (r =? 8233)) eqn:E2.
    { assert (r = 8232 \/ r = 8233) as Hr by (apply orb_true_iff in E2 as [?|?]; zify_bools; auto).
      exists (u_escape r), r, n.
      split_and!; [done|done|by apply u_escape_ok; right|]. intros t. apply unquote_u_escape. by right. }
    destruct (high_rune c s r (S n) E Hd) as (Hs & Hr & Ht & Hl).
    { intros [-> ?]. apply andb_false_iff in Ee as [Ee|Ee]; [done|]. apply Nat.eqb_neq in Ee. lia. }
    exists (take (S n) (c :: s)), r, n. split_and!; [done|done| |].
    + rewrite Ht. apply high_ok. by apply EncodeRune_high.
    + intros t. assert (Hb : c <> backslash) by (intros ->; vm_compute in E; by apply E).
      cbn [take app]. rewrite unquote_cons by done.
      change (c :: take n s ++ t) with (take (S n) (c :: s) ++ t).
      rewrite Ht, DecodeRune_Encode by done. rewrite <- Hl. simpl Nat.pred. f_equal.
      replace n with (length (take n s)) at 1; [by rewrite drop_app_length|].
      apply (f_equal length) in Ht. rewrite <- Hl in Ht. simpl in Ht. lia.
Qed.

Lemma quote_facts s : raw_ok (quote s) /\ unquote (quote s) = to_valid s.
Proof.
  induction s as [s IH] using (well_founded_induction (well_founded_ltof _ (@length ascii))).
  destruct s as [|c s]; [by split; [constructor|]|].
  destruct (quote_step c s) as (out & r & n & -> & Hr & Hok & Hun).
  destruct (IH (drop n s)) as [IH1 IH2]; [unfold ltof; rewrite length_drop; simpl; lia|].
  split; [by apply raw_ok_app|]. unfold to_valid. rewrite Hun, IH2, Hr. done.
Qed.

Lemma quote_ok s : raw_ok (quote s).
Proof. apply quote_facts. Qed.
Lemma unquote_quote s : unquote (quote s) = to_valid s.
Proof. apply quote_facts. Qed.

Lemma runes_step c s :
  exists r n, DecodeRune (c :: s) = (r, S n) /\ runes (c :: s) = (r, take (S n) (c :: s)) :: runes (drop n s).
Proof.
  destruct (DecodeRune (c :: s)) as [r n] eqn:Hd.
  assert (exists n', n = S n') as [n' ->].
  { unfold DecodeRune in Hd. repeat case_match; simplify_eq; eauto. }
  exists r, n'. split; [done|]. unfold runes at 1. cbn [runes_from]. rewrite Hd. simpl Nat.pred.
  by rewrite runes_skip.
Qed.

(** A valid string is what Go makes of it. *)
Lemma to_valid_id s : ValidString s = true -> to_valid s = s.
Proof.
  induction s as [s IH] using (well_founded_induction (well_founded_ltof _ (@length ascii))).
  destruct s as [|c s]; [done|]. destruct (runes_step c s) as (r & n & Hd & Hr).
  unfold ValidString, to_valid. rewrite Hr. cbn [forallb map concat fst snd].
  rewrite andb_true_iff. intros [Hv Hrest]. apply negb_true_iff, andb_false_iff in Hv.
  fold (to_valid (drop n s)). fold (ValidString (drop n s)) in Hrest.
  rewrite IH; [|unfold ltof; rewrite length_drop; simpl; lia|done].
  destruct (DecodeRune_valid _ _ _ Hd) as (_ & Ht & Hn & Hl).
  - intros [-> Hn]. assert (n = 0%nat) as -> by lia. simpl in Hv. by destruct Hv.
  - rewrite <- Ht. change (c :: (take n s ++ drop n s) = c :: s). by rewrite take_drop.
Qed.

(** Quoting a valid string and reading the literal gives the string back. *)
Lemma quote_roundtrip s : ValidString s = true -> unquote (quote s) = s.
Proof. intros H. rewrite unquote_quote. by apply to_valid_id. Qed.

(** ** Re-encoding a literal *)

Lemma escape_html_cont a s : Forall (fun c => is_cont c = true) a -> escape_html (a ++ s) = a ++ escape_html s.
Proof.
  induction 1 as [|c a Hc _ IH]; [done|]. unfold is_cont in Hc. apply within_spec in Hc.
  change ((c :: a) ++ s) with (c :: (a ++ s)). cbn [escape_html].
  rewrite (proj2 (Z.eqb_neq (bz c) 60)), (proj2 (Z.eqb_neq (bz c) 62)), (proj2 (Z.eqb_neq (bz c) 38)),
    (proj2 (Z.eqb_neq (bz c) 226)) by lia. cbn [orb andb].
  rewrite IH. by destruct (a ++ s) as [|? [|? ?]].
Qed.

Definition no_cont_head (s : list ascii) : Prop := match s with c :: _ => is_cont c = false | [] => True end.

Lemma escape_html_head s : no_cont_head s -> no_cont_head (escape_html s).
Proof.
  destruct s as [|c s]; [done|]. intros Hc. cbn [escape_html].
  destruct (_ || _ || _); [done|]. destruct s as [|c1 [|c2 s]]; [done..|].
  by destruct (_ && _ && _).
Qed.

Lemma cont_prefix s : exists a r, s = a ++ r /\ Forall (fun c => is_cont c = true) a /\ no_cont_head r.
Proof.
  induction s as [|c s (a & r & -> & Ha & Hr)]; [by exists [], []|].
  destruct (is_cont c) eqn:Hc.
  - exists (c :: a), r. split_and!; [done|by constructor|done].
  - by exists [], (c :: a ++ r).
Qed.

(** Decoding looks no further than the continuation bytes that follow. *)
Lemma DecodeRune_local c a r1 r2 :
  Forall (fun c => is_cont c = true) a -> no_cont_head r1 -> no_cont_head r2 ->
  128 <= bz c -> DecodeRune (c :: a ++ r1) = DecodeRune (c :: a ++ r2)
    /\ ((DecodeRune (c :: a ++ r1)).2 <= S (length a))%nat.
Proof.
  assert (Hw : forall d lo hi, is_cont d = false -> 128 <= lo -> hi <= 191 -> within lo (bz d) hi = false).
  { intros d lo hi Hd ? ?. apply within_false. unfold is_cont in Hd. apply within_false in Hd. lia. }
  intros Ha H1 H2 Hc. unfold DecodeRune. rewrite (proj2 (Z.ltb_ge _ _)) by lia.
  destruct a as [|a1 [|a2 [|a3 a]]]; cbn [app length];
    destruct r1 as [|x1 r1], r2 as [|x2 r2]; simpl in H1, H2; rewrite ?H1, ?H2;
    repeat match goal with
    | |- context [within ?lo (bz ?d) ?hi] =>
        match goal with H : is_cont d = false |- _ =>
          rewrite (Hw d lo hi H) by (repeat case_match; lia) end
    end; cbn [andb];
    repeat case_match; simplify_eq/=; split; try done; try lia.
Qed.

Lemma unquote_bs s :
  unquote (backslash :: s) = let '(out, n) := unescape (backslash :: s) in out ++ unquote (drop n s).
Proof.
  unfold unquote at 1. cbn [unquote_from]. rewrite Ascii.eqb_refl.
  destruct (unescape (backslash :: s)) as [out n]. by rewrite unquote_skip.
Qed.

Lemma unquote_simple e :
  simple_escape e = true -> exists out, forall y, unquote (backslash :: e :: y) = out ++ unquote y.
Proof.
  intros He. exists (unescape [backslash; e]).1.
  intros y. unfold simple_escape in He. rewrite !orb_true_iff, bool_decide_eq_true in He.
  rewrite !elem_of_cons in He.
  destruct He as [[[-> | [-> | [-> | [-> | [-> | [-> | He]]]]]] | ->%Ascii.eqb_eq] | ->%Ascii.eqb_eq];
    try reflexivity. by apply elem_of_nil in He.
Qed.

Definition code_unit (h1 h2 h3 h4 : ascii) : Z := hex_val h1 * 4096 + hex_val h2 * 256 + hex_val h3 * 16 + hex_val h4.

Lemma unquote_u h1 h2 h3 h4 x :
  is_hex h1 = true -> is_hex h2 = true -> is_hex h3 = true -> is_hex h4 = true ->
  unquote (backslash :: "u"%char :: h1 :: h2 :: h3 :: h4 :: x) =
  let v := code_unit h1 h2 h3 h4 in
  if surrogate v then
    match getu4 x ≫= utf16_pair v with
    | Some full => EncodeRune full ++ unquote (drop 6 x)
    | None => EncodeRune RuneError ++ unquote x
    end
  else EncodeRune v ++ unquote x.
Proof.
  intros H1 H2 H3 H4. rewrite unquote_bs.
  assert (Hg : getu4 (backslash :: "u"%char :: h1 :: h2 :: h3 :: h4 :: x) = Some (code_unit h1 h2 h3 h4)).
  { unfold getu4. by rewrite !Ascii.eqb_refl, H1, H2, H3, H4. }
  unfold unescape. change (Ascii.eqb "u" "b") with false. change (Ascii.eqb "u" "f") with false.
  change (Ascii.eqb "u" "n") with false. change (Ascii.eqb "u" "r") with false.
  change (Ascii.eqb "u" "t") with false. change (Ascii.eqb "u" "u") with true. cbv beta iota zeta.
  rewrite Hg. change (drop 6 (backslash :: "u"%char :: h1 :: h2 :: h3 :: h4 :: x)) with (drop 0 x).
  rewrite drop_0. destruct (surrogate _); [|done].
  by destruct (getu4 x ≫= utf16_pair (code_unit h1 h2 h3 h4)).
Qed.

Lemma raw_ok_tail c r : raw_ok (c :: r) -> c <> backslash -> raw_ok r.
Proof. intros H Hc. inversion H; subst; done. Qed.

Lemma raw_ok_drop_cont a r n :
  Forall (fun c => is_cont c = true) a -> raw_ok (a ++ r) -> raw_ok (drop n a ++ r).
Proof.
  intros Ha. revert n. induction Ha as [|c a Hc Ha IH]; intros n Hr; [by rewrite drop_nil|].
  destruct n; [done|]. apply IH. eapply raw_ok_tail; [exact Hr|]. intros ->. by vm_compute in Hc.
Qed.

(** What a byte is under [escape_html]. *)
Lemma escape_html_cons c r :
  (bz c = 60 \/ bz c = 62 \/ bz c = 38) /\ escape_html (c :: r) = u_escape (bz c) ++ escape_html r
  \/ (exists c2 s3, r = zb 128 :: c2 :: s3 /\ bz c = 226 /\ (bz c2 = 168 \/ bz c2 = 169)
        /\ escape_html (c :: r) = u_escape (8064 + bz c2) ++ escape_html s3)
  \/ (bz c <> 60 /\ bz c <> 62 /\ bz c <> 38) /\ escape_html (c :: r) = c :: escape_html r.
Proof.
  cbn [escape_html]. destruct (_ || _ || _) eqn:E.
  { left. split; [|done]. rewrite !orb_true_iff, !Z.eqb_eq in E. tauto. }
  right. zify_bools. destruct r as [|c1 [|c2 s3]]; [right; done..|].
  destruct ((bz c =? 226) && (bz c1 =? 128) && _) eqn:E2; [left|right; done].
  rewrite !andb_true_iff, orb_true_iff, !Z.eqb_eq in E2. destruct E2 as [[Hc0 Hc1] Hc2].
  exists c2, s3. assert (c1 = zb 128) as -> by (apply bz_inj; rewrite Hc1; by rewrite bz_zb).
  split_and!; try done.
Qed.

Lemma escape_html_plain c r : within 32 (bz c) 127 = true ->
  (bz c <> 60 /\ bz c <> 62 /\ bz c <> 38) -> escape_html (c :: r) = c :: escape_html r.
Proof.
  intros Hw Hne. apply within_spec in Hw.
  destruct (escape_html_cons c r) as [[? _]|[(c2 & s3 & _ & ? & _)|[_ ?]]]; [lia|lia|done].
Qed.

Lemma hex_plain h : is_hex h = true -> within 32 (bz h) 127 = true /\ (bz h <> 60 /\ bz h <> 62 /\ bz h <> 38).
Proof. unfold is_hex. rewrite !orb_true_iff, !within_spec. lia. Qed.

Lemma simple_plain e : simple_escape e = true -> within 32 (bz e) 127 = true /\ (bz e <> 60 /\ bz e <> 62 /\ bz e <> 38).
Proof.
  intros He. unfold simple_escape in He. rewrite !orb_true_iff, bool_decide_eq_true, !elem_of_cons in He.
  destruct He as [[[-> | [-> | [-> | [-> | [-> | [-> | He]]]]]] | ->%Ascii.eqb_eq] | ->%Ascii.eqb_eq];
    try (split; [reflexivity|by vm_compute]). by apply elem_of_nil in He.
Qed.

Lemma escape_html_esc e r : simple_escape e = true -> escape_html (backslash :: e :: r) = backslash :: e :: escape_html r.
Proof.
  intros [Hw Hn]%simple_plain. rewrite (escape_html_plain backslash) by (done || by vm_compute).
  by rewrite escape_html_plain.
Qed.

Lemma escape_html_u h1 h2 h3 h4 r :
  is_hex h1 = true -> is_hex h2 = true -> is_hex h3 = true -> is_hex h4 = true ->
  escape_html (backslash :: "u"%char :: h1 :: h2 :: h3 :: h4 :: r)
  = backslash :: "u"%char :: h1 :: h2 :: h3 :: h4 :: escape_html r.
Proof.
  intros [? ?]%hex_plain [? ?]%hex_plain [? ?]%hex_plain [? ?]%hex_plain.
  rewrite (escape_html_plain backslash), (escape_html_plain "u") by (done || by vm_compute).
  by rewrite !escape_html_plain.
Qed.

(** An escape of an ordinary character completes no surrogate pair. *)
Lemma no_low_surrogate hi r x v :
  getu4 (u_escape r ++ x) = Some v -> within 56320 v 57343 = false ->
  getu4 (u_escape r ++ x) ≫= utf16_pair hi = None.
Proof. intros -> Hv. cbn [mbind option_bind]. unfold utf16_pair. by rewrite Hv, andb_false_r. Qed.

Lemma pair_escape_html r hi : raw_ok r -> getu4 (escape_html r) ≫= utf16_pair hi = getu4 r ≫= utf16_pair hi.
Proof.
  assert (Hnone : forall c x, c <> backslash -> getu4 (c :: x) = None).
  { intros c x Hc. unfold getu4. repeat case_match; try done. zify_bools.
    repeat match goal with H : (_ && _)%bool = true |- _ => apply andb_true_iff in H as [H ?] end.
    match goal with H : Ascii.eqb _ backslash = true |- _ => apply Ascii.eqb_eq in H end. done. }
  intros Hr. destruct Hr as [|c r Hc Hq Hb Hr|e r He Hr|h1 h2 h3 h4 r H1 H2 H3 H4 Hr]; [done| | |].
  - rewrite (Hnone c r Hb).
    destruct (escape_html_cons c r) as [[Hc' ->]|[(c2 & s3 & -> & Hc0 & Hc2 & ->)|[_ ->]]].
    + destruct Hc' as [E | [E | E]]; rewrite E; by eapply no_low_surrogate.
    + destruct Hc2 as [E | E]; rewrite E; by eapply no_low_surrogate.
    + by rewrite (Hnone c _ Hb).
  - rewrite escape_html_esc by done.
    assert (forall x, getu4 (backslash :: e :: x) = None) as Hg.
    { intros x. unfold getu4. repeat case_match; try done.
      repeat match goal with H : (_ && _)%bool = true |- _ => apply andb_true_iff in H as [H ?] end.
      match goal with H : Ascii.eqb e "u" = true |- _ => apply Ascii.eqb_eq in H; subst end.
      by vm_compute in He. }
    by rewrite !Hg.
  - rewrite escape_html_u by done. unfold getu4. done.
Qed.

Lemma unquote_cons_ascii c x : bz c < 128 -> c <> backslash -> unquote (c :: x) = c :: unquote x.
Proof.
  intros Hc Hb. rewrite unquote_cons by done. unfold DecodeRune. rewrite (proj2 (Z.ltb_lt _ _)) by done.
  simpl Nat.pred. rewrite drop_0. unfold EncodeRune, scalar. pose proof (bz_range c).
  rewrite (proj2 (within_spec 0 _ _)) by lia. cbn [orb]. rewrite (proj2 (Z.ltb_lt _ _)) by lia.
  by rewrite zb_bz.
Qed.

Lemma u_escape_html c : bz c = 60 \/ bz c = 62 \/ bz c = 38 ->
  raw_ok (u_escape (bz c)) /\ forall t, unquote (u_escape (bz c) ++ t) = c :: unquote t.
Proof.
  intros Hc. assert (c = zb (bz c)) as Hz by by rewrite zb_bz.
  destruct Hc as [E | [E | E]]; rewrite E in *; subst c;
    (split; [apply raw_u; try reflexivity; constructor|intros t; reflexivity]).
Qed.

Lemma unquote_high c a r1 r2 :
  Forall (fun c => is_cont c = true) a -> no_cont_head r1 -> no_cont_head r2 -> 128 <= bz c ->
  c <> backslash ->
  exists out n, (n <= length a)%nat /\ unquote (c :: a ++ r1) = out ++ unquote (drop n a ++ r1)
    /\ unquote (c :: a ++ r2) = out ++ unquote (drop n a ++ r2).
Proof.
  intros Ha H1 H2 Hc Hb. rewrite !unquote_cons by done.
  destruct (DecodeRune_local c a r1 r2 Ha H1 H2 Hc) as [Heq Hlen]. rewrite <- Heq.
  destruct (DecodeRune (c :: a ++ r1)) as [r n]. simpl in Hlen.
  exists (EncodeRune r), (Nat.pred n). split; [lia|].
  by rewrite !drop_app_le by lia.
Qed.

(** Re-encoding a literal keeps its meaning. *)
Lemma escape_html_facts raw :
  raw_ok raw -> raw_ok (escape_html raw) /\ unquote (escape_html raw) = unquote raw.
Proof.
  induction raw as [raw IH] using (well_founded_induction (well_founded_ltof _ (@length ascii))).
  unfold ltof in IH. intros Hr. pose proof Hr as Hr0.
  destruct Hr as [|c r Hc Hq Hb Hr|e r He Hr|h1 h2 h3 h4 r H1 H2 H3 H4 Hr].
  - by split; [constructor|].
  - destruct (escape_html_cons c r) as [[Hs ->]|[(c2 & s3 & -> & Hc0 & Hc2 & ->)|[_ ->]]].
    + destruct (u_escape_html c Hs) as [Hok Hun]. destruct (IH r) as [I1 I2]; [simpl; lia|done|].
      split; [by apply raw_ok_app|]. rewrite Hun, I2, unquote_cons_ascii by (done || lia). done.
    + assert (Hs3 : raw_ok s3).
      { eapply raw_ok_tail; [eapply raw_ok_tail; [exact Hr|done]|]. intros ->. vm_compute in Hc2. lia. }
      destruct (IH s3) as [I1 I2]; [simpl; lia|done|].
      assert (c = zb 226) as -> by (apply bz_inj; rewrite Hc0; by rewrite bz_zb).
      assert (c2 = zb (bz c2)) as Hz by by rewrite zb_bz.
      destruct Hc2 as [E | E]; rewrite E in *; subst c2;
        (split; [apply raw_ok_app; [apply raw_u; try reflexivity; constructor|done]|]);
        rewrite unquote_u_escape by auto; rewrite I2; reflexivity.
    + destruct (Z.lt_ge_cases (bz c) 128) as [Hlt|Hge].
      { destruct (IH r) as [I1 I2]; [simpl; lia|done|]. split; [by apply raw_char|].
        by rewrite !unquote_cons_ascii, I2 by done. }
      destruct (cont_prefix r) as (a & r1 & -> & Ha & Hr1).
      rewrite escape_html_cont by done.
      destruct (unquote_high c a (escape_html r1) r1) as (out & n & Hn & -> & ->);
        [done|by apply escape_html_head|done|done|done|].
      destruct (IH (drop n a ++ r1)) as [_ I2].
      { rewrite !length_app, length_drop. simpl. rewrite length_app. lia. }
      { by apply raw_ok_drop_cont. }
      destruct (IH (a ++ r1)) as [I1 _]; [simpl; lia|done|]. rewrite escape_html_cont in I1 by done.
      split; [by apply raw_char|]. f_equal. rewrite <- I2, escape_html_cont; [done|].
      by apply Forall_drop.
  - rewrite escape_html_esc by done. destruct (IH r) as [I1 I2]; [simpl; lia|done|].
    split; [by apply raw_esc|]. destruct (unquote_simple e He) as [out Hout]. by rewrite !Hout, I2.
  - rewrite escape_html_u by done. destruct (IH r) as [I1 I2]; [simpl; lia|done|].
    split; [by apply raw_u|]. rewrite !unquote_u by done. cbv zeta. rewrite pair_escape_html, I2 by done.
    destruct (surrogate _); [|done].
    destruct (getu4 r ≫= utf16_pair _) as [full|] eqn:E; [|done]. f_equal.
    destruct Hr as [|c r Hc Hq Hb Hr|e r He Hr|g1 g2 g3 g4 r G1 G2 G3 G4 Hr].
    + done.
    + exfalso. unfold getu4 in E. simpl in E. repeat case_match; try done.
      repeat match goal with H : (_ && _)%bool = true |- _ => apply andb_true_iff in H as [H ?] end.
      match goal with H : Ascii.eqb _ backslash = true |- _ => apply Ascii.eqb_eq in H end. done.
    + exfalso. unfold getu4 in E. simpl in E. repeat case_match; try done.
      repeat match goal with H : (_ && _)%bool = true |- _ => apply andb_true_iff in H as [H ?] end.
      match goal with H : Ascii.eqb e "u" = true |- _ => apply Ascii.eqb_eq in H; subst end.
      by vm_compute in He.
    + rewrite escape_html_u by done. cbn [drop]. rewrite !drop_0. apply IH; [simpl; lia|done].
Qed.

(** ** Re-encoding a value *)

Lemma compact_facts v : jwf v -> jwf (compact v) /\ meaning (compact v) = meaning v /\ jdepth (compact v) = jdepth v.
Proof.
  induction v as [|b|lit|raw|l IH|l IH] using json_induction; intros Hw; try done; simpl in Hw |- *.
  - apply escape_html_facts in Hw as [? ->]. done.
  - apply foldr_and in Hw. rewrite foldr_and, !map_map.
    assert (H : Forall (fun v => jwf (compact v) /\ meaning (compact v) = meaning v
                                 /\ jdepth (compact v) = jdepth v) l).
    { rewrite list.Forall_forall in *. auto. }
    split_and!.
    + apply Forall_fmap. eapply list.Forall_impl; [exact H|]. naive_solver.
    + f_equal. apply map_ext_in. intros v Hv. rewrite list.Forall_forall in H.
      apply list_elem_of_In, H in Hv. naive_solver.
    + do 2 f_equal. apply map_ext_in. intros v Hv. rewrite list.Forall_forall in H.
      apply list_elem_of_In, H in Hv. naive_solver.
  - apply foldr_and in Hw. rewrite foldr_and, !map_map.
    assert (H : Forall (fun kv => (raw_ok (escape_html kv.1) /\ unquote (escape_html kv.1) = unquote kv.1)
                  /\ jwf (compact kv.2) /\ meaning (compact kv.2) = meaning kv.2
                  /\ jdepth (compact kv.2) = jdepth kv.2) l).
    { rewrite list.Forall_forall in *. intros kv Hin. destruct (Hw kv Hin) as [Hk Hv].
      split; [by apply escape_html_facts|]. by apply IH. }
    split_and!.
    + apply Forall_fmap. eapply list.Forall_impl; [exact H|]. simpl. naive_solver.
    + f_equal. apply map_ext_in. intros kv Hv. rewrite list.Forall_forall in H.
      apply list_elem_of_In, H in Hv as ([_ E1] & _ & E2 & _). simpl. by rewrite E1, E2.
    + do 2 f_equal. apply map_ext_in. intros kv Hv. rewrite list.Forall_forall in H.
      apply list_elem_of_In, H in Hv as (_ & _ & _ & E). simpl. by rewrite E.
Qed.

Lemma insert_key_perm kv l : insert_key kv l ≡ₚ kv :: l.
Proof.
  induction l as [|x l IH]; simpl; [done|]. destruct (bytes_leb kv.1 x.1); [done|].
  rewrite IH. constructor.
Qed.
Lemma sort_keys_perm l : sort_keys l ≡ₚ l.
Proof. induction l as [|kv l IH]; simpl; [done|]. by rewrite insert_key_perm, IH. Qed.
