(* ===== verification/Base64.v ===== *)
(** * Bytes in JSON (encoding/base64, and [[]byte] in encoding/json)

    A byte slice is written as the padded standard base64 of its bytes, and read back from that, or
    from an array of small numbers; [null] is the nil slice.  [ReadValue] is what
    [json.Decoder.Decode] takes from a reader: the first complete value, whatever follows it. *)
From S2P Require Import Prelude Strconv Text Json JsonFacts.
From Stdlib Require Import ZArith Lia Ascii.
From stdpp Require Import base gmap strings list.
Open Scope Z_scope.
Open Scope gw_scope.

(** ** base64.StdEncoding *)

(** The digit of a six-bit value. *)
Definition enc6 (v : Z) : ascii :=
  zb (if v <? 26 then 65 + v else if v <? 52 then 71 + v else if v <? 62 then v - 4
      else if v =? 62 then 43 else 47).
Definition dec6 (c : ascii) : option Z :=
  let z := bz c in
  if within 65 z 90 then Some (z - 65)
  else if within 97 z 122 then Some (z - 71)
  else if within 48 z 57 then Some (z + 4)
  else if z =? 43 then Some 62 else if z =? 47 then Some 63 else None.

Definition pad : ascii := "="%char.

Fixpoint EncodeToString (s : list ascii) : list ascii :=
  match s with
  | [] => []
  | [a] => [enc6 (bz a / 4); enc6 (bz a mod 4 * 16); pad; pad]
  | [a; b] => [enc6 (bz a / 4); enc6 (bz a mod 4 * 16 + bz b / 16); enc6 (bz b mod 16 * 4); pad]
  | a :: b :: c :: s' =>
      enc6 (bz a / 4) :: enc6 (bz a mod 4 * 16 + bz b / 16) :: enc6 (bz b mod 16 * 4 + bz c / 64)
        :: enc6 (bz c mod 64) :: EncodeToString s'
  end.

(** The first bytes of a quantum of four digits. *)
Definition byte1 (w x : Z) : ascii := zb (w * 4 + x / 16).
Definition byte2 (x y : Z) : ascii := zb (x mod 16 * 16 + y / 4).
Definition byte3 (y z : Z) : ascii := zb (y mod 4 * 64 + z).

(** Quanta of four; padding ends the text, and bits beyond the last byte are ignored. *)
Fixpoint decode_quanta (s : list ascii) : option (list ascii) :=
  match s with
  | [] => Some []
  | c1 :: c2 :: c3 :: c4 :: s' =>
      match dec6 c1, dec6 c2, dec6 c3, dec6 c4 with
      | Some w, Some x, Some y, Some z =>
          out ← decode_quanta s'; Some (byte1 w x :: byte2 x y :: byte3 y z :: out)
      | Some w, Some x, Some y, None =>
          if bool_decide (c4 = pad /\ s' = []) then Some [byte1 w x; byte2 x y] else None
      | Some w, Some x, None, None =>
          if bool_decide (c3 = pad /\ c4 = pad /\ s' = []) then Some [byte1 w x] else None
      | _, _, _, _ => None
      end
  | _ => None
  end.

(** Line breaks are skipped wherever they are. *)
Definition DecodeString (s : list ascii) : option (list ascii) :=
  decode_quanta (List.filter (fun c => negb ((bz c =? 10) || (bz c =? 13))) s).

(** ** [[]byte] in JSON *)

(** [None] is nil. *)
Definition MarshalBytes (b : option (list ascii)) : json :=
  match b with None => JNull | Some b => JStr (EncodeToString b) end.

Definition dec_uint8 : decoder ascii := fun v cur =>
  match v with
  | JNum lit => match ParseUint lit with
                | inr n => if n <=? 255 then (zb n, false) else (cur, true)
                | inl _ => (cur, true)
                end
  | JNull => (cur, false)
  | _ => (cur, true)
  end.

(** A slice: elements are decoded over those that are there. *)
Definition dec_elems {A} (zero : A) (dec : decoder A) (l : list json) (cur : list A) : list A * bool :=
  let results := imap (fun i v => dec v (default zero (cur !! i))) l in
  (map fst results, existsb snd results).

Definition dec_slice {A} (zero : A) (dec : decoder A) : decoder (list A) := fun v cur =>
  match v with
  | JNull => ([], false)
  | JArr l => dec_elems zero dec l cur
  | _ => (cur, true)
  end.

Definition dec_bytes : decoder (option (list ascii)) := fun v cur =>
  match v with
  | JNull => (None, false)
  | JStr raw => match DecodeString (unquote raw) with Some b => (Some b, false) | None => (cur, true) end
  | JArr l => let '(b, bad) := dec_elems (zb 0) dec_uint8 l (default [] cur) in (Some b, bad)
  | _ => (cur, true)
  end.

(** ** [json.Decoder.Decode] *)

(** The first value of a reader that ends with an error, or with the end of its bytes. *)
Fixpoint read_value (readErr : bool) (st : scan_state) (s : list ascii) : option json :=
  match st with
  | ([], MDone v) => Some v
  | _ => match s with
         | [] => if readErr then None else scan_eof st
         | c :: s' => match scan st c with Some st' => read_value readErr st' s' | None => None end
         end
  end.

Definition DecodeValue {A} (dec : decoder A) (zero : A) (readErr : bool) (s : list ascii) : option A :=
  match read_value readErr ([], MValue) s with
  | None => None
  | Some v => let '(a, bad) := dec v zero in if bad then None else Some a
  end.

(** [io.LimitReader] over bytes that end with an error or not: past the limit it is never seen. *)
Definition limited (limit : nat) (s : list ascii) (readErr : bool) : list ascii * bool :=
  (take limit s, readErr && (length s <? limit)%nat).

(** ** Facts *)

Lemma below_64 (P : Z -> bool) :
  forallb (fun n => P (Z.of_nat n)) (seq 0 64) = true -> forall v, 0 <= v < 64 -> P v = true.
Proof.
  intros H v Hv. rewrite forallb_forall in H. rewrite <- (Z2Nat.id v) by lia. apply H, in_seq. lia.
Qed.

Lemma dec6_enc6 v : 0 <= v < 64 -> dec6 (enc6 v) = Some v.
Proof.
  intros H. pose proof (below_64 (fun v => bool_decide (dec6 (enc6 v) = Some v)) eq_refl v H) as Hd.
  by rewrite bool_decide_eq_true in Hd.
Qed.

Lemma dec6_pad : dec6 pad = None.
Proof. done. Qed.

(** Every digit is a printable ASCII byte that a JSON string holds as it is. *)
Definition plain (c : ascii) : bool := within 43 (bz c) 122 && negb (bz c =? 92).

Lemma enc6_plain v : 0 <= v < 64 -> plain (enc6 v) = true.
Proof. by apply (below_64 (fun v => plain (enc6 v))). Qed.

Lemma encode_induction (P : list ascii -> Prop) :
  P [] -> (forall a, P [a]) -> (forall a b, P [a; b]) -> (forall a b c s, P s -> P (a :: b :: c :: s)) ->
  forall s, P s.
Proof.
  intros H0 H1 H2 H3. fix IH 1. intros [|a [|b [|c s]]]; [apply H0|apply H1|apply H2|apply H3, IH].
Qed.

Lemma six_bits a b c :
  let x := bz a in let y := bz b in let z := bz c in
  0 <= x / 4 < 64 /\ 0 <= x mod 4 * 16 < 64 /\ 0 <= x mod 4 * 16 + y / 16 < 64 /\ 0 <= y mod 16 * 4 < 64
  /\ 0 <= y mod 16 * 4 + z / 64 < 64 /\ 0 <= z mod 64 < 64.
Proof.
  intros x y z. pose proof (bz_range a). pose proof (bz_range b). pose proof (bz_range c).
  subst x y z. split_and!; Z.to_euclidean_division_equations; lia.
Qed.

Lemma EncodeToString_plain s : Forall (fun c => plain c = true) (EncodeToString s).
Proof.
  induction s as [|a|a b|a b c s IH] using encode_induction; cbn [EncodeToString];
    repeat apply list.Forall_cons_2; try apply Forall_nil_2; try done; apply enc6_plain.
  - apply (six_bits a a a).
  - apply (six_bits a a a).
  - apply (six_bits a b a).
  - apply (six_bits a b a).
  - apply (six_bits a b a).
  - apply (six_bits a b c).
  - apply (six_bits a b c).
  - apply (six_bits a b c).
  - apply (six_bits a b c).
Qed.

Lemma byte1_enc a x : 0 <= x < 16 -> byte1 (bz a / 4) (bz a mod 4 * 16 + x) = a.
Proof.
  intros H. unfold byte1. rewrite <- (zb_bz a) at 3. f_equal. pose proof (bz_range a).
  Z.to_euclidean_division_equations. lia.
Qed.

Lemma byte2_enc x b y : 0 <= y < 4 -> byte2 (x * 16 + bz b / 16) (bz b mod 16 * 4 + y) = b.
Proof.
  intros H. unfold byte2. rewrite <- (zb_bz b) at 3. f_equal. pose proof (bz_range b).
  assert (Hm : (x * 16 + bz b / 16) mod 16 = bz b / 16).
  { rewrite Z.add_comm, Z_mod_plus_full. apply Z.mod_small. Z.to_euclidean_division_equations. lia. }
  rewrite Hm. Z.to_euclidean_division_equations. lia.
Qed.

Lemma byte3_enc x c : byte3 (x * 4 + bz c / 64) (bz c mod 64) = c.
Proof.
  unfold byte3. rewrite <- (zb_bz c) at 3. f_equal. pose proof (bz_range c).
  assert (Hm : (x * 4 + bz c / 64) mod 4 = bz c / 64).
  { rewrite Z.add_comm, Z_mod_plus_full. apply Z.mod_small. Z.to_euclidean_division_equations. lia. }
  rewrite Hm. Z.to_euclidean_division_equations. lia.
Qed.

Lemma div_small_bits a k n : 0 < k -> 256 <= k * n -> 0 <= bz a / k < n.
Proof.
  intros Hk Hn. pose proof (bz_range a). split; [apply Z.div_pos; lia|]. apply Z.div_lt_upper_bound; lia.
Qed.

Lemma decode_encode s : decode_quanta (EncodeToString s) = Some s.
Proof.
  induction s as [|a|a b|a b c s IH] using encode_induction; cbn [EncodeToString decode_quanta]; [done|..].
  - destruct (six_bits a a a) as (? & ? & _). rewrite !dec6_enc6 by done. cbn.
    rewrite <- (Z.add_0_r (bz a mod 4 * 16)). by rewrite byte1_enc by lia.
  - destruct (six_bits a b a) as (? & _ & ? & ? & _). rewrite !dec6_enc6 by done. cbn.
    rewrite byte1_enc by (apply (div_small_bits b); lia).
    rewrite <- (Z.add_0_r (bz b mod 16 * 4)). by rewrite byte2_enc by lia.
  - destruct (six_bits a b c) as (? & _ & ? & _ & ? & ?). rewrite !dec6_enc6 by done. rewrite IH. cbn.
    rewrite byte1_enc by (apply (div_small_bits b); lia).
    rewrite byte2_enc by (apply (div_small_bits c); lia). by rewrite byte3_enc.
Qed.

Lemma plain_spec c : plain c = true -> 43 <= bz c <= 122 /\ bz c <> 92.
Proof. unfold plain. intros [H1%within_spec H2%negb_true_iff]%andb_prop. apply Z.eqb_neq in H2. lia. Qed.

(** What is written is read back, line breaks or not. *)
Lemma DecodeString_Encode s : DecodeString (EncodeToString s) = Some s.
Proof.
  unfold DecodeString. rewrite <- (decode_encode s). f_equal.
  pose proof (EncodeToString_plain s) as H. induction H as [|c l Hc H IH]; [done|]. cbn [List.filter].
  apply plain_spec in Hc. rewrite (proj2 (Z.eqb_neq (bz c) 10)), (proj2 (Z.eqb_neq (bz c) 13)) by lia.
  cbn. by rewrite IH.
Qed.

Lemma plain_unquote s : Forall (fun c => plain c = true) s -> unquote s = s.
Proof.
  intros H. induction H as [|c s Hc H IH]; [done|]. apply plain_spec in Hc.
  rewrite unquote_cons_ascii, IH; [done|lia|]. intros ->. vm_compute in Hc. lia.
Qed.

Lemma plain_raw_ok s : Forall (fun c => plain c = true) s -> raw_ok s.
Proof.
  intros H. induction H as [|c s Hc H IH]; [constructor|]. apply plain_spec in Hc.
  assert (bz dquote = 34) by done. assert (bz backslash = 92) by done. apply raw_char; [lia| | |done]; intros ->; lia.
Qed.

Lemma MarshalBytes_jwf b : jwf (MarshalBytes b).
Proof. destruct b as [b|]; [|done]. apply plain_raw_ok, EncodeToString_plain. Qed.

Lemma dec_bytes_Marshal b cur : dec_bytes (MarshalBytes b) cur = (b, false).
Proof.
  destruct b as [b|]; [|done]. cbn. by rewrite plain_unquote, DecodeString_Encode by apply EncodeToString_plain.
Qed.

(** A document that parses is what a decoder reads of it, whatever else is appended. *)
Lemma read_value_parse st s v rest readErr :
  scan_all st s = Some ([], MDone v) -> read_value readErr st (s ++ rest) = Some v.
Proof.
  revert st. induction s as [|c s IH]; intros st; cbn [scan_all app].
  - intros [= ->]. by destruct rest.
  - destruct (scan st c) as [st'|] eqn:E; [|done]. intros H. cbn [read_value].
    destruct st as [[|f fs] m]; [|rewrite E; by apply IH].
    destruct m; try (rewrite E; by apply IH).
    assert (Hd : st' = ([], MDone v0)).
    { cbn in E. by case_match; simplify_eq. }
    subst st'. clear E IH.
    enough (v0 = v) by by subst. revert H. induction s as [|d s IH]; cbn [scan_all scan scan_after]; [by intros [= ->]|].
    by destruct (jspace d).
Qed.
