(* ===== verification/Holder.v ===== *)
(** * The snapshot holder and its subscriber (snapshot/holder.go, snapshot/subscriber.go)

    A heap of reference-counted generations, the atomic [current] pointer, the rollback slot,
    and the leases requests hold.  Requests acquire without the lock, in the atomic steps the
    source performs (load the pointer, load the count, compare-and-swap); swaps and rollbacks
    are serialised by the mutex and release the displaced generation last.  [step] interleaves
    all of them; the sequential functions [Swap], [Rollback] and [Refresh] are the same code run
    without interference. *)
From S2P Require Import Prelude Errors Core Snapshot.
From Stdlib Require Import ZArith Lia Ascii.
From stdpp Require Import base gmap strings list fin_maps relations.
Open Scope Z_scope.
Open Scope gw_scope.

(** ** State *)

Record generation := mkGen {
  gen_snap : Snapshot;
  gen_refs : Z;
  (** [retireOn] has fired: the retire callback has run. *)
  gen_retired : bool }.

Definition newGeneration (snap : Snapshot) : generation := mkGen snap 1 false.

(** A lease: its generation and whether its [once] has been spent. *)
Record Lease := mkLease { lease_gen : nat; lease_released : bool }.

(** Where a goroutine is inside [Acquire]. *)
Inductive acquirer :=
| AcqLoaded (g : nat)
| AcqRead (g : nat) (n : Z).

Record Holder := mkHolder {
  gens : gmap nat generation;
  current : nat;
  previous : option nat;
  leases : gmap nat Lease;
  acquirers : gmap nat acquirer;
  (** The generation a swap or rollback has displaced and will release before unlocking. *)
  displaced : option nat;
  (** Snapshots handed to [onApply], newest first. *)
  applied : list Snapshot }.

(** ** Version check *)

Definition checkTenantVersion (cur next : Snapshot) (_ : unit) (tenant : TenantID) : error + unit :=
  match TenantVersion cur tenant with
  | None => inr tt
  | Some have =>
      let got := default (mkVersion 0 "") (TenantVersion next tenant) in
      if Number got <? Number have then
        inl (Newf CodeInvalidRequest "tenant %q layer version would move backwards, from %d to %d"
               [AStr tenant; AInt (Number have); AInt (Number got)])
      else inr tt
  end.

Definition checkMonotonic (cur next : Snapshot) : error + unit :=
  let got := Number (GlobalVersion next) in
  let have := Number (GlobalVersion cur) in
  if got <? have then
    inl (Newf CodeInvalidRequest "global layer version would move backwards, from %d to %d"
           [AInt have; AInt got])
  else foldM (checkTenantVersion cur next) tt (TenantIDs next).

(** ** Atomic pieces *)

Definition set_refs (h : Holder) (g : nat) (n : Z) : Holder :=
  mkHolder (alter (fun x => mkGen (gen_snap x) n (gen_retired x)) g (gens h)) (current h) (previous h)
    (leases h) (acquirers h) (displaced h) (applied h).

Definition refs_of (h : Holder) (g : nat) : Z := from_option gen_refs 0 (gens h !! g).

(** [unref]'s decrement. *)
Definition dec_refs (h : Holder) (g : nat) : Holder := set_refs h g (refs_of h g - 1).

(** [unref]'s [retireOn.Do], reached when the decrement left no reference. *)
Definition fire_retire (h : Holder) (g : nat) : Holder :=
  mkHolder (alter (fun x => mkGen (gen_snap x) (gen_refs x) true) g (gens h)) (current h) (previous h)
    (leases h) (acquirers h) (displaced h) (applied h).

(** [unref] run to the end. *)
Definition unref (h : Holder) (g : nat) : Holder :=
  let h1 := dec_refs h g in
  if 0 <? refs_of h1 g then h1 else fire_retire h1 g.

Definition current_snap (h : Holder) : option Snapshot := gen_snap <$> gens h !! current h.

(** The stores of [Swap] under the lock, after the version check and [onApply]. *)
Definition swap_store (h : Holder) (fresh : nat) (next : Snapshot) : Holder :=
  mkHolder (<[fresh := newGeneration next]> (gens h)) fresh (Some (current h)) (leases h)
    (acquirers h) (previous h) (next :: applied h).

(** The stores of [Rollback] under the lock. *)
Definition rollback_store (h : Holder) (prev : nat) : Holder :=
  mkHolder (gens h) prev None (leases h) (acquirers h) (Some (current h)) (applied h).

(** The release of the displaced generation, if any, before unlocking. *)
Definition finish_swap (h : Holder) : Holder :=
  match displaced h with
  | None => h
  | Some g => unref (mkHolder (gens h) (current h) (previous h) (leases h) (acquirers h) None (applied h)) g
  end.

(** ** The operations, run without interference *)

(** [New]. *)
Definition NewHolder (initial : option Snapshot) : error + Holder :=
  match initial with
  | None => inl (New CodeInvalidRequest "a holder needs an initial snapshot")
  | Some s => inr (mkHolder {[0%nat := newGeneration s]} 0 None ∅ ∅ None [])
  end.

Definition Swap (h : Holder) (fresh : nat) (next : option Snapshot) : error + Holder :=
  match next with
  | None => inl (New CodeInvalidRequest "cannot swap in a nil snapshot")
  | Some next =>
      match current_snap h with
      | None => inl (New CodeInternal "unreachable: the current pointer is never nil")
      | Some cur => let! _ := checkMonotonic cur next in inr (finish_swap (swap_store h fresh next))
      end
  end.

Definition Rollback (h : Holder) : error + Holder :=
  match previous h with
  | None => inl (New CodeInvalidRequest "no previous snapshot to roll back to")
  | Some prev => inr (finish_swap (rollback_store h prev))
  end.

(** [Release]: the [once] makes a second call do nothing. *)
Definition Release (h : Holder) (l : nat) : Holder :=
  match leases h !! l with
  | Some (mkLease g false) =>
      unref (mkHolder (gens h) (current h) (previous h) (<[l := mkLease g true]> (leases h))
               (acquirers h) (displaced h) (applied h)) g
  | _ => h
  end.

(** [tryRef]'s check on the loaded count. *)
Definition tryRef_refuses (n : Z) : bool := n <=? 0.

(** A successful compare-and-swap of [tryRef], and the lease [Acquire] returns. *)
Definition grant (h : Holder) (a g l : nat) (n : Z) : Holder :=
  let h1 := set_refs h g (n + 1) in
  mkHolder (gens h1) (current h1) (previous h1) (<[l := mkLease g false]> (leases h1))
    (delete a (acquirers h1)) (displaced h1) (applied h1).

Definition with_acquirer (h : Holder) (a : nat) (s : option acquirer) : Holder :=
  mkHolder (gens h) (current h) (previous h) (leases h)
    (match s with Some s => <[a := s]> (acquirers h) | None => delete a (acquirers h) end)
    (displaced h) (applied h).

(** [Acquire] run without interference: the lease, the snapshot it gives and the holder.  [None]
    would be a generation already retired, on which [Acquire] goes around its loop again. *)
Definition Acquire (h : Holder) : option (nat * Snapshot * Holder) :=
  match gens h !! current h with
  | None => None
  | Some x =>
      if tryRef_refuses (gen_refs x) then None
      else let l := fresh (dom (leases h)) in
           Some (l, gen_snap x, grant h (fresh (dom (acquirers h))) (current h) l (gen_refs x))
  end.

(** ** Gauges *)
Record HolderStats := mkHolderStats {
  st_Version : LayerVersion; st_InFlight : Z; st_PreviousVersion : LayerVersion;
  st_PreviousLoaded : bool; st_PreviousInFlight : Z }.

Definition Holder_Stats (h : Holder) : HolderStats :=
  let version g := from_option (fun x => GlobalVersion (gen_snap x)) (mkVersion 0 "") (gens h !! g) in
  match previous h with
  | None => mkHolderStats (version (current h)) (refs_of h (current h) - 1) (mkVersion 0 "") false 0
  | Some prev =>
      mkHolderStats (version (current h)) (refs_of h (current h) - 1) (version prev) true (refs_of h prev - 1)
  end.

(** ** All interleavings *)

Inductive step : Holder -> Holder -> Prop :=
(** [Acquire] loads the current pointer. *)
| step_load h a :
    acquirers h !! a = None -> step h (with_acquirer h a (Some (AcqLoaded (current h))))
(** [tryRef] loads the count; a retired generation sends [Acquire] back to its loop. *)
| step_read h a g :
    acquirers h !! a = Some (AcqLoaded g) ->
    step h (with_acquirer h a
              (if tryRef_refuses (refs_of h g) then None else Some (AcqRead g (refs_of h g))))
(** [tryRef]'s compare-and-swap succeeds or sends it back to the load of the count. *)
| step_cas h a g n l :
    acquirers h !! a = Some (AcqRead g n) -> refs_of h g = n -> leases h !! l = None ->
    step h (grant h a g l n)
| step_cas_fail h a g n :
    acquirers h !! a = Some (AcqRead g n) -> refs_of h g <> n ->
    step h (with_acquirer h a (Some (AcqLoaded g)))
(** [Release]: the winning call spends the lease and drops its reference. *)
| step_release h l g :
    leases h !! l = Some (mkLease g false) ->
    step h (dec_refs (mkHolder (gens h) (current h) (previous h) (<[l := mkLease g true]> (leases h))
                        (acquirers h) (displaced h) (applied h)) g)
(** The retire callback runs on whichever goroutine dropped the last reference. *)
| step_retire h g x :
    gens h !! g = Some x -> gen_refs x <= 0 -> gen_retired x = false -> step h (fire_retire h g)
(** [Swap] and [Rollback]: the lock is free exactly when nothing is displaced. *)
| step_swap h fresh cur next :
    displaced h = None -> gens h !! fresh = None -> current_snap h = Some cur ->
    checkMonotonic cur next = inr tt -> step h (swap_store h fresh next)
| step_rollback h prev :
    displaced h = None -> previous h = Some prev -> step h (rollback_store h prev)
| step_finish h g :
    displaced h = Some g ->
    step h (dec_refs (mkHolder (gens h) (current h) (previous h) (leases h) (acquirers h) None (applied h)) g).

Definition reachable (h : Holder) : Prop :=
  exists initial h0, NewHolder (Some initial) = inr h0 /\ rtc step h0 h.

(** ** Subscriber *)

Record Fetched := mkFetched { f_Snapshot : option Snapshot; f_Digest : string; f_Unchanged : bool }.

Record Subscriber := mkSubscriber {
  sub_digest : option string; sub_applied : Z; sub_unchanged : Z; sub_failed : Z; sub_rejected : Z;
  sub_lastError : option error }.

(** One poll.  [fetch] is the source's answer for the digest it is asked about. *)
Definition Refresh (s : Subscriber) (h : Holder) (fresh : nat) (fetch : string -> error + Fetched)
    : Subscriber * Holder * option error :=
  let known := default "" (sub_digest s) in
  match fetch known with
  | inl err =>
      (mkSubscriber (sub_digest s) (sub_applied s) (sub_unchanged s) (sub_failed s + 1) (sub_rejected s)
         (Some err), h, Some err)
  | inr fetched =>
      match f_Unchanged fetched, f_Snapshot fetched with
      | true, _ | false, None =>
          (mkSubscriber (sub_digest s) (sub_applied s) (sub_unchanged s + 1) (sub_failed s)
             (sub_rejected s) (sub_lastError s), h, None)
      | false, Some snap =>
          match Swap h fresh (Some snap) with
          | inl err =>
              (mkSubscriber (sub_digest s) (sub_applied s) (sub_unchanged s) (sub_failed s)
                 (sub_rejected s + 1) (Some err), h, Some err)
          | inr h' =>
              (mkSubscriber (Some (f_Digest fetched)) (sub_applied s + 1) (sub_unchanged s)
                 (sub_failed s) (sub_rejected s) None, h', None)
          end
      end
  end.
