(* ===== verification/HolderFacts.v ===== *)
(** * What the holder guarantees under every interleaving

    The reference-counting invariant ([inv]), and from it: a generation is retired only when
    nothing can reach it and never again leased; the current generation is always leasable; a
    refused swap or failed poll changes nothing; versions never move backwards. *)
From S2P Require Import Prelude Errors Core Snapshot SnapshotFacts Holder.
From Stdlib Require Import ZArith Lia Ascii.
From stdpp Require Import base gmap strings list fin_maps relations.
Open Scope Z_scope.
Open Scope gw_scope.

(** ** The invariant *)

Definition one_if (P : Prop) `{Decision P} : Z := if decide P then 1 else 0.

(** References the holder itself keeps on a generation. *)
Definition owners (h : Holder) (g : nat) : Z :=
  one_if (current h = g) + one_if (previous h = Some g) + one_if (displaced h = Some g).

(** Leases on a generation that have not been released. *)
Definition live (ls : gmap nat Lease) (g : nat) : Z :=
  Z.of_nat (size (filter (fun kv : nat * Lease => lease_gen kv.2 = g /\ lease_released kv.2 = false) ls)).

Definition allocated (h : Holder) (g : nat) : Prop := is_Some (gens h !! g).

(** The count is exactly the references that exist; a retired generation has none. *)
Definition count_ok (h : Holder) (g : nat) (x : generation) : Prop :=
  gen_refs x = owners h g + live (leases h) g /\ (gen_retired x = true -> gen_refs x = 0).

Definition acquirer_ok (h : Holder) (s : acquirer) : Prop :=
  match s with
  | AcqLoaded g => allocated h g
  | AcqRead g n => allocated h g /\ 0 < n
  end.

Record inv (h : Holder) : Prop := {
  inv_count : forall g x, gens h !! g = Some x -> count_ok h g x;
  inv_current : allocated h (current h);
  inv_previous : forall g, previous h = Some g -> allocated h g;
  inv_displaced : forall g, displaced h = Some g -> allocated h g;
  inv_leases : forall l x, leases h !! l = Some x -> allocated h (lease_gen x);
  inv_acquirers : forall a s, acquirers h !! a = Some s -> acquirer_ok h s }.

(** ** Counting lemmas *)

Lemma one_if_bound (P : Prop) `{Decision P} : 0 <= one_if P <= 1.
Proof. unfold one_if. destruct (decide P); lia. Qed.

Lemma live_nonneg ls g : 0 <= live ls g.
Proof. unfold live. lia. Qed.

Lemma owners_nonneg h g : 0 <= owners h g.
Proof.
  unfold owners. pose proof (one_if_bound (current h = g)).
  pose proof (one_if_bound (previous h = Some g)). pose proof (one_if_bound (displaced h = Some g)). lia.
Qed.

Lemma live_new ls l g g' :
  ls !! l = None -> live (<[l := mkLease g false]> ls) g' = live ls g' + one_if (g = g').
Proof.
  intros Hl. unfold live, one_if. case_decide as Hg.
  - subst. rewrite map_filter_insert_True by done. rewrite map_size_insert_None; [lia|].
    apply map_lookup_filter_None. by left.
  - rewrite map_filter_insert_not'; [lia|naive_solver|]. intros y. by rewrite Hl.
Qed.

Lemma live_release ls l g g' :
  ls !! l = Some (mkLease g false) ->
  live (<[l := mkLease g true]> ls) g' = live ls g' - one_if (g = g').
Proof.
  intros Hl. unfold live, one_if.
  rewrite map_filter_insert_False by naive_solver. rewrite map_filter_delete. case_decide as Hg.
  - subst. assert (filter (fun kv : nat * Lease => lease_gen kv.2 = g' /\ lease_released kv.2 = false) ls
                     !! l = Some (mkLease g' false)) as Hf by (by apply map_lookup_filter_Some).
    rewrite map_size_delete, Hf. apply mk_is_Some, map_size_ne_0_lookup_2 in Hf. lia.
  - rewrite map_size_delete_None; [lia|]. apply map_lookup_filter_None. right. naive_solver.
Qed.

Lemma live_zero ls g l : live ls g = 0 -> ls !! l <> Some (mkLease g false).
Proof.
  unfold live. intros Hz Hl.
  assert (filter (fun kv : nat * Lease => lease_gen kv.2 = g /\ lease_released kv.2 = false) ls !! l
          = Some (mkLease g false)) as Hf by (by apply map_lookup_filter_Some).
  apply mk_is_Some, map_size_ne_0_lookup_2 in Hf. lia.
Qed.

Lemma set_refs_lookup h g n g' :
  gens (set_refs h g n) !! g' =
  if decide (g = g') then (fun x => mkGen (gen_snap x) n (gen_retired x)) <$> gens h !! g'
  else gens h !! g'.
Proof. simpl. rewrite lookup_alter. by case_decide; subst. Qed.

Lemma set_refs_allocated h g n g' : allocated (set_refs h g n) g' <-> allocated h g'.
Proof.
  unfold allocated. rewrite set_refs_lookup. case_decide; [|done]. by rewrite fmap_is_Some.
Qed.

Lemma acquirer_ok_mono h h' s :
  (forall g, allocated h g -> allocated h' g) -> acquirer_ok h s -> acquirer_ok h' s.
Proof. intros H. destruct s; simpl; [apply H|]. intros [? ?]. split; [by apply H|done]. Qed.

(** ** Preservation *)

Lemma inv_init s h : NewHolder (Some s) = inr h -> inv h.
Proof.
  simpl. intros ?; simplify_eq. constructor; simpl; try done.
  - intros g x [<- <-]%lookup_singleton_Some. unfold count_ok, owners, live, one_if. simpl.
    by rewrite map_filter_empty.
  - exists (newGeneration s). apply lookup_singleton_eq.
Qed.

(** Moving a goroutine inside [Acquire] touches no count. *)
Lemma inv_with_acquirer h a s :
  inv h -> match s with Some s => acquirer_ok h s | None => True end -> inv (with_acquirer h a s).
Proof.
  intros [I1 I2 I3 I4 I5 I6] Hs. constructor; simpl; try done.
  intros a' s'. destruct s as [s|].
  - rewrite lookup_insert_Some. intros [[_ <-]|[_ H]]; [done|]. by apply (I6 a').
  - rewrite lookup_delete_Some. intros [_ H]. by apply (I6 a').
Qed.

(** Changing one count is fine when the references changed by the same amount. *)
Lemma inv_set_refs h g n :
  (forall g' x, g' <> g -> gens h !! g' = Some x -> count_ok h g' x) ->
  (forall x, gens h !! g = Some x -> n = owners h g + live (leases h) g /\ (gen_retired x = true -> n = 0)) ->
  allocated h (current h) ->
  (forall g, previous h = Some g -> allocated h g) ->
  (forall g, displaced h = Some g -> allocated h g) ->
  (forall l x, leases h !! l = Some x -> allocated h (lease_gen x)) ->
  (forall a s, acquirers h !! a = Some s -> acquirer_ok h s) ->
  inv (set_refs h g n).
Proof.
  intros H1 H2 H3 H4 H5 H6 H7.
  constructor; try setoid_rewrite set_refs_allocated; try done.
  - intros g' x. rewrite set_refs_lookup. case_decide as Hg.
    + subst. destruct (gens h !! g') as [y|] eqn:E; [|done]. simpl. intros ?; simplify_eq.
      unfold count_ok. simpl. by apply H2.
    + intros Hx. by apply H1.
  - intros a s Hs. eapply acquirer_ok_mono; [|by apply (H7 a)]. intros g'. by rewrite set_refs_allocated.
Qed.

Lemma refs_of_some h g x : gens h !! g = Some x -> refs_of h g = gen_refs x.
Proof. intros H. unfold refs_of. by rewrite H. Qed.

Lemma inv_cas h a g n l :
  inv h -> acquirers h !! a = Some (AcqRead g n) -> refs_of h g = n -> leases h !! l = None -> inv (grant h a g l n).
Proof.
  intros Hinv. pose proof Hinv as [I1 I2 I3 I4 I5 I6]. intros Ha Hn Hl.
  pose proof (I6 _ _ Ha) as [[x Hx] Hn0]. rewrite (refs_of_some _ _ _ Hx) in Hn.
  destruct (I1 _ _ Hx) as [Hcnt Hret].
  assert (grant h a g l n = set_refs (mkHolder (gens h) (current h) (previous h)
    (<[l := mkLease g false]> (leases h)) (delete a (acquirers h)) (displaced h) (applied h)) g (n + 1))
    as -> by reflexivity.
  apply inv_set_refs; simpl; try done.
  - intros g' y Hne Hy. destruct (I1 _ _ Hy) as [Hc' Hr']. split; [|done]. simpl.
    rewrite live_new by done. unfold one_if. rewrite decide_False by done.
    unfold owners in *. simpl. lia.
  - intros y Hy. simplify_eq. rewrite live_new by done. unfold owners in *. simpl.
    unfold one_if at 4. rewrite decide_True by done. split; [lia|]. intros Hy'. specialize (Hret Hy'). lia.
  - intros l' x'. rewrite lookup_insert_Some. intros [[_ <-]|[_ H]]; [simpl; by exists x|by apply (I5 l')].
  - intros a' s. rewrite lookup_delete_Some. intros [_ H]. by apply (I6 a').
Qed.

Lemma inv_release h l g :
  inv h -> leases h !! l = Some (mkLease g false) -> inv (dec_refs (mkHolder (gens h) (current h) (previous h) (<[l := mkLease g true]> (leases h))
         (acquirers h) (displaced h) (applied h)) g).
Proof.
  intros Hinv. pose proof Hinv as [I1 I2 I3 I4 I5 I6]. intros Hl.
  destruct (I5 _ _ Hl) as [x Hx]. simpl in Hx. destruct (I1 _ _ Hx) as [Hcnt Hret].
  apply inv_set_refs; simpl; try done.
  - intros g' y Hne Hy. destruct (I1 _ _ Hy) as [Hc' Hr']. split; [|done]. simpl.
    rewrite (live_release _ _ g) by done. unfold one_if. rewrite decide_False by done.
    unfold owners in *. simpl. lia.
  - intros y Hy. unfold refs_of. simpl. rewrite Hy. simplify_eq. simpl.
    rewrite (live_release _ _ g) by done.
    unfold owners in *. simpl. unfold one_if at 4. rewrite decide_True by done.
    split; [lia|]. intros Hy'. specialize (Hret Hy').
    exfalso. apply (live_zero (leases h) g l); [|done].
    pose proof (live_nonneg (leases h) g). pose proof (owners_nonneg h g). unfold owners in *. lia.
  - intros l' x'. rewrite lookup_insert_Some. intros [[_ <-]|[_ H]]; [simpl; by exists x|by apply (I5 l')].
Qed.

Lemma inv_retire h g x :
  inv h -> gens h !! g = Some x -> gen_refs x <= 0 -> inv (fire_retire h g).
Proof.
  intros Hinv. pose proof Hinv as [I1 I2 I3 I4 I5 I6]. intros Hx Hr.
  assert (forall g', allocated h g' -> allocated (fire_retire h g) g') as Hal.
  { intros g'. unfold allocated. simpl. rewrite lookup_alter. case_decide; [|done].
    subst. by rewrite fmap_is_Some. }
  constructor; simpl; try (intros; apply Hal; naive_solver).
  - intros g' y. rewrite lookup_alter. case_decide as Hg.
    + subst. rewrite Hx. simpl. intros ?; simplify_eq. destruct (I1 _ _ Hx) as [Hcnt _].
      split; [done|]. simpl. intros _. pose proof (live_nonneg (leases h) g').
      pose proof (owners_nonneg h g'). lia.
    + intros Hy. by apply I1.
  - intros a s Hs. eapply acquirer_ok_mono; [exact Hal|by apply (I6 a)].
Qed.

Lemma inv_swap h fresh next :
  inv h -> displaced h = None -> gens h !! fresh = None -> inv (swap_store h fresh next).
Proof.
  intros Hinv. pose proof Hinv as [I1 I2 I3 I4 I5 I6]. intros Hd Hf.
  assert (forall g', allocated h g' -> g' <> fresh) as Hfresh.
  { intros g' [y Hy] ->. congruence. }
  assert (live (leases h) fresh = 0) as Hlive.
  { unfold live. apply (f_equal Z.of_nat (y := 0%nat)), map_size_empty_iff, map_empty. intros l.
    apply map_lookup_filter_None. right. intros y Hy [Hg _]. by destruct (Hfresh _ (I5 _ _ Hy)). }
  assert (forall g', allocated h g' -> allocated (swap_store h fresh next) g') as Hal.
  { intros g' [y Hy]. exists y. simpl. rewrite lookup_insert_ne; [done|].
    intros ->. congruence. }
  constructor; simpl.
  - intros g' y. rewrite lookup_insert_Some. unfold count_ok, owners, one_if. simpl.
    intros [[<- <-]|[Hne Hy]].
    + simpl. rewrite Hlive, (decide_True (P := fresh = fresh)) by done.
      rewrite decide_False by (intros [= Hc']; by apply (Hfresh _ I2)).
      rewrite decide_False by (intros Hp; by apply (Hfresh _ (I3 _ Hp))). done.
    + destruct (I1 _ _ Hy) as [Hcnt Hret]. split; [|done]. rewrite Hcnt. unfold owners, one_if.
      rewrite Hd, (decide_False (P := fresh = g')) by done.
      rewrite (decide_False (P := None = Some g')) by done.
      destruct (decide (current h = g')), (decide (Some (current h) = Some g')); try congruence; lia.
  - exists (newGeneration next). apply lookup_insert_eq.
  - intros g' [= <-]. by apply Hal.
  - intros g' Hp. apply Hal. by apply I3.
  - intros l y Hy. apply Hal. by apply (I5 l).
  - intros a s Hs. eapply acquirer_ok_mono; [exact Hal|by apply (I6 a)].
Qed.

Lemma inv_rollback h prev :
  inv h -> displaced h = None -> previous h = Some prev -> inv (rollback_store h prev).
Proof.
  intros Hinv. pose proof Hinv as [I1 I2 I3 I4 I5 I6]. intros Hd Hp.
  constructor; simpl; try done.
  - intros g' y Hy. destruct (I1 _ _ Hy) as [Hcnt Hret]. split; [|done]. rewrite Hcnt.
    unfold owners, one_if. simpl. rewrite Hd, Hp.
    rewrite !(decide_False (P := None = Some g')) by done.
    destruct (decide (current h = g')), (decide (Some (current h) = Some g')); try congruence;
    destruct (decide (prev = g')), (decide (Some prev = Some g')); try congruence; lia.
  - by apply I3.
  - intros g' [= <-]. done.
Qed.

Lemma inv_finish h g :
  inv h -> displaced h = Some g -> inv (dec_refs (mkHolder (gens h) (current h) (previous h) (leases h) (acquirers h) None (applied h)) g).
Proof.
  intros Hinv. pose proof Hinv as [I1 I2 I3 I4 I5 I6]. intros Hd.
  destruct (I4 _ Hd) as [x Hx]. destruct (I1 _ _ Hx) as [Hcnt Hret].
  apply inv_set_refs; simpl; try done.
  - intros g' y Hne Hy. destruct (I1 _ _ Hy) as [Hc' Hr']. split; [|done]. rewrite Hc'.
    unfold owners, one_if. simpl. rewrite Hd.
    rewrite (decide_False (P := Some g = Some g')) by congruence. lia.
  - intros y Hy. unfold refs_of. simpl. rewrite Hy. simplify_eq. simpl.
    unfold owners, one_if in *. simpl. rewrite Hd in *.
    rewrite (decide_True (P := Some g = Some g)) in Hcnt by done.
    split; [lia|]. intros Hy'. specialize (Hret Hy').
    pose proof (live_nonneg (leases h) g).
    destruct (decide (current h = g)), (decide (previous h = Some g)); lia.
Qed.

Lemma inv_step h h' : inv h -> step h h' -> inv h'.
Proof.
  intros Hinv Hstep. destruct Hstep as
    [h a Ha|h a g Ha|h a g n l Ha Hn Hl|h a g n Ha Hn|h l g Hl|h g x Hx Hr Hret
    |h fresh cur next Hd Hf Hc Hm|h prev Hd Hp|h g Hd];
    eauto using inv_cas, inv_release, inv_retire, inv_swap, inv_rollback, inv_finish.
  - apply inv_with_acquirer; [done|]. apply (inv_current _ Hinv).
  - apply inv_with_acquirer; [done|]. pose proof (inv_acquirers _ Hinv _ _ Ha) as Hg. simpl in Hg.
    unfold tryRef_refuses. destruct (refs_of h g <=? 0) eqn:E; [done|]. zify_bools. simpl. split; [done|lia].
  - apply inv_with_acquirer; [done|]. by destruct (inv_acquirers _ Hinv _ _ Ha).
Qed.

Lemma inv_reachable h : reachable h -> inv h.
Proof.
  intros (s & h0 & Hi & Hr). revert Hr. apply rtc_ind_r; [by eapply inv_init|].
  intros y z _ Hs Hy. by eapply inv_step.
Qed.

(** ** Stability of generations and leases *)

(** What one step keeps: generations stay allocated with their snapshot and stay retired, and a
    lease stays on its generation and stays released. *)
Definition kept (h h' : Holder) : Prop :=
  (forall g x, gens h !! g = Some x -> exists x', gens h' !! g = Some x' /\ gen_snap x' = gen_snap x
     /\ (gen_retired x = true -> gen_retired x' = true))
  /\ (forall l g r, leases h !! l = Some (mkLease g r) ->
        exists r', leases h' !! l = Some (mkLease g r') /\ (r = true -> r' = true)).

#[export] Instance kept_refl : Reflexive kept.
Proof. intros h. split; eauto. Qed.
#[export] Instance kept_trans : Transitive kept.
Proof.
  intros h1 h2 h3 [A1 B1] [A2 B2]. split.
  - intros g x Hx. destruct (A1 _ _ Hx) as (y & Hy & Hs & Hr).
    destruct (A2 _ _ Hy) as (z & Hz & Hs' & Hr'). exists z. rewrite Hs', Hs. naive_solver.
  - intros l g r Hl. destruct (B1 _ _ _ Hl) as (r' & Hl' & Hr). destruct (B2 _ _ _ Hl') as (r'' & ? & ?).
    naive_solver.
Qed.

Lemma kept_alter h h' g f :
  gens h' = alter f g (gens h) -> leases h' = leases h ->
  (forall x, gen_snap (f x) = gen_snap x /\ (gen_retired x = true -> gen_retired (f x) = true)) ->
  kept h h'.
Proof.
  intros Hg Hl Hf. split.
  - intros g' x Hx. rewrite Hg, lookup_alter. case_decide; [|eauto]. subst. rewrite Hx. simpl.
    eexists. split; [done|]. apply Hf.
  - intros l g' r. rewrite Hl. eauto.
Qed.

Lemma kept_step h h' : step h h' -> kept h h'.
Proof.
  destruct 1 as
    [h a Ha|h a g Ha|h a g n l Ha Hn Hl|h a g n Ha Hn|h l g Hl|h g x Hx Hr Hret
    |h fresh cur next Hd Hf Hc Hm|h prev Hd Hp|h g Hd]; try (split; simpl; by eauto).
  - transitivity (set_refs h g (n + 1)); [eapply kept_alter; [reflexivity|reflexivity|done]|].
    split; [by eauto|]. intros l' g' r' H'. exists r'. split; [|done]. simpl in *.
    rewrite lookup_insert_ne; [done|]. intros ->. congruence.
  - transitivity (mkHolder (gens h) (current h) (previous h) (<[l := mkLease g true]> (leases h))
                    (acquirers h) (displaced h) (applied h));
      [|eapply kept_alter; [reflexivity|reflexivity|done]].
    split; [by eauto|]. intros l' g' r' H'. simpl. rewrite lookup_insert. case_decide; [|by eauto].
    subst. simplify_eq. eauto.
  - eapply kept_alter; [reflexivity|reflexivity|done].
  - split; [|by eauto]. intros g x Hx. exists x. simpl.
    rewrite lookup_insert_ne; [done|]. intros ->. congruence.
  - eapply kept_alter; [reflexivity|reflexivity|done].
Qed.

Lemma kept_steps h h' : rtc step h h' -> kept h h'.
Proof. induction 1 as [|h h1 h2 Hs _ IH]; [done|]. etrans; [by apply kept_step|done]. Qed.

Lemma reachable_steps h h' : reachable h -> rtc step h h' -> reachable h'.
Proof. intros (s & h0 & ? & ?) ?. exists s, h0. split; [done|]. by etrans. Qed.

Lemma retired_unreferenced h g x :
  inv h -> gens h !! g = Some x -> gen_retired x = true ->
  current h <> g /\ previous h <> Some g /\ forall l, leases h !! l <> Some (mkLease g false).
Proof.
  intros Hinv Hx Hr. destruct (inv_count _ Hinv _ _ Hx) as [Hc Hz]. rewrite (Hz Hr) in Hc.
  pose proof (live_nonneg (leases h) g). unfold owners in Hc.
  pose proof (one_if_bound (current h = g)). pose proof (one_if_bound (previous h = Some g)).
  pose proof (one_if_bound (displaced h = Some g)).
  split_and!.
  - intros Hcur. unfold one_if at 1 in Hc. rewrite decide_True in Hc by done. lia.
  - intros Hp. unfold one_if at 2 in Hc. rewrite decide_True in Hc by done. lia.
  - intros l. apply live_zero. lia.
Qed.

(** ** Sequential contracts *)

Lemma checkMonotonic_spec cur next :
  checkMonotonic cur next = inr tt <->
  Number (GlobalVersion cur) <= Number (GlobalVersion next)
  /\ forall tenant v v', TenantVersion cur tenant = Some v -> TenantVersion next tenant = Some v' ->
       Number v <= Number v'.
Proof.
  unfold checkMonotonic. destruct (_ <? _) eqn:E; zify_bools; [split; [done|lia]|].
  rewrite (foldM_check (fun tenant => forall v, TenantVersion cur tenant = Some v ->
             Number v <= Number (default (mkVersion 0 "") (TenantVersion next tenant)))).
  - rewrite list.Forall_forall. unfold TenantIDs. setoid_rewrite list_elem_of_fmap. split.
    + intros H. split; [done|]. intros tenant v v' Hv Hv'.
      pose proof Hv' as (t & Ht & _)%fmap_Some.
      assert (Number v <= Number (default (mkVersion 0 "") (TenantVersion next tenant)))
        as Hle by (apply (H tenant); [|done]; exists (tenant, t); split; [done|by apply elem_of_map_to_list]).
      by rewrite Hv' in Hle.
    + intros [_ H] tenant ([id t] & -> & Hin) v Hv. apply elem_of_map_to_list in Hin. simpl.
      assert (TenantVersion next id = Some (t_version t)) as Ht by (unfold TenantVersion; by rewrite Hin).
      rewrite Ht. simpl. by eapply H.
  - intros tenant. unfold checkTenantVersion.
    destruct (TenantVersion cur tenant) as [v|]; [|naive_solver].
    destruct (_ <? _) eqn:En; zify_bools; split; try naive_solver lia.
    intros H. specialize (H v eq_refl). lia.
Qed.

Lemma unref_keeps h g :
  current (unref h g) = current h /\ previous (unref h g) = previous h
  /\ displaced (unref h g) = displaced h /\ kept h (unref h g).
Proof.
  unfold unref. destruct (0 <? _); split_and!; try done.
  - eapply kept_alter; [reflexivity|reflexivity|done].
  - transitivity (dec_refs h g); eapply kept_alter; try reflexivity; done.
Qed.

Lemma kept_snap h h' g : kept h h' -> allocated h g -> gen_snap <$> gens h' !! g = gen_snap <$> gens h !! g.
Proof. intros [H _] [x Hx]. destruct (H _ _ Hx) as (x' & -> & Hs & _). rewrite Hx. simpl. by rewrite Hs. Qed.

Lemma finish_swap_spec h :
  current (finish_swap h) = current h /\ previous (finish_swap h) = previous h
  /\ displaced (finish_swap h) = None
  /\ forall g, allocated h g -> gen_snap <$> gens (finish_swap h) !! g = gen_snap <$> gens h !! g.
Proof.
  unfold finish_swap. destruct (displaced h) as [g|] eqn:E; [|done].
  destruct (unref_keeps (mkHolder (gens h) (current h) (previous h) (leases h) (acquirers h) None (applied h)) g)
    as (H1 & H2 & H3 & H4). split_and!; try done.
  intros g' Hg. by apply (kept_snap _ _ g' H4).
Qed.

Lemma Swap_installs h fresh cur next h1 :
  current_snap h = Some cur -> Swap h fresh (Some next) = inr h1 ->
  checkMonotonic cur next = inr tt /\ h1 = finish_swap (swap_store h fresh next)
  /\ current_snap h1 = Some next.
Proof.
  intros Hc. unfold Swap. rewrite Hc.
  destruct (checkMonotonic cur next) as [e|[]] eqn:Hm; [done|]. intros [= <-].
  destruct (finish_swap_spec (swap_store h fresh next)) as (F1 & _ & _ & F4).
  split_and!; try done. unfold current_snap.
  rewrite F1, F4 by (eexists; apply lookup_insert_eq). simpl. by rewrite lookup_insert_eq.
Qed.

(** ** Properties *)

(** C10. Whatever the interleaving of acquires, releases, swaps and rollbacks, a generation whose
    retire callback has run is neither current nor the rollback target and carries no unreleased
    lease, then or at any later time. *)
Theorem retired_never_in_use h g x :
  reachable h -> gens h !! g = Some x -> gen_retired x = true ->
  forall h', rtc step h h' ->
    current h' <> g /\ previous h' <> Some g /\ forall l, leases h' !! l <> Some (mkLease g false).
Proof.
  intros Hr Hx Hret h' Hs. destruct (kept_steps _ _ Hs) as [Hk _].
  destruct (Hk _ _ Hx) as (x' & Hx' & _ & Hret').
  eapply retired_unreferenced; [|exact Hx'|by apply Hret'].
  apply inv_reachable. by eapply reachable_steps.
Qed.

(** C11. A request sees one configuration for its whole life: a lease keeps designating the same
    generation with the same snapshot, and until it is released that generation is not retired. *)
Theorem lease_pins_snapshot h l g x :
  reachable h -> leases h !! l = Some (mkLease g false) -> gens h !! g = Some x ->
  forall h', rtc step h h' ->
    exists r x', leases h' !! l = Some (mkLease g r) /\ gens h' !! g = Some x'
      /\ gen_snap x' = gen_snap x /\ (r = false -> gen_retired x' = false).
Proof.
  intros Hr Hl Hx h' Hs. destruct (kept_steps _ _ Hs) as [Hg Hle].
  destruct (Hle _ _ _ Hl) as (r & Hl' & _). destruct (Hg _ _ Hx) as (x' & Hx' & Hsn & _).
  exists r, x'. split_and!; try done. intros ->. destruct (gen_retired x') eqn:E; [|done].
  assert (inv h') as Hi by (apply inv_reachable; by eapply reachable_steps).
  destruct (retired_unreferenced _ _ _ Hi Hx' E) as (_ & _ & Hn). by destruct (Hn l).
Qed.

(** [Acquire] never fails: from any reachable state a goroutine that runs alone obtains, in
    three steps, a lease on the generation that is current. *)
Theorem Acquire_succeeds h a :
  reachable h -> acquirers h !! a = None ->
  exists h' l, nsteps step 3 h h' /\ leases h' !! l = Some (mkLease (current h) false)
    /\ current h' = current h.
Proof.
  intros Hr Ha. pose proof (inv_reachable _ Hr) as Hinv.
  destruct (inv_current _ Hinv) as [x Hx]. destruct (inv_count _ Hinv _ _ Hx) as [Hc _].
  assert (0 < gen_refs x) as Hpos.
  { pose proof (live_nonneg (leases h) (current h)). unfold owners in Hc.
    pose proof (one_if_bound (previous h = Some (current h))).
    pose proof (one_if_bound (displaced h = Some (current h))).
    unfold one_if at 1 in Hc. rewrite decide_True in Hc by done. lia. }
  set (l := fresh (dom (leases h))).
  assert (leases h !! l = None) as Hl by (apply not_elem_of_dom, is_fresh).
  set (h1 := with_acquirer h a (Some (AcqLoaded (current h)))).
  set (h2 := with_acquirer h1 a (Some (AcqRead (current h) (gen_refs x)))).
  exists (grant h2 a (current h) l (gen_refs x)), l. split_and!.
  - eapply nsteps_l; [by apply (step_load h a)|]. eapply (nsteps_l _ _ h1 h2).
    + assert (step h1 (with_acquirer h1 a (if tryRef_refuses (refs_of h1 (current h)) then None
                         else Some (AcqRead (current h) (refs_of h1 (current h)))))) as Hs
        by (apply step_read; apply lookup_insert_eq).
      rewrite (refs_of_some h1 (current h) x) in Hs by done.
      unfold tryRef_refuses in Hs. rewrite (proj2 (Z.leb_gt _ _)) in Hs by done. exact Hs.
    + eapply nsteps_l; [|constructor]. apply step_cas; [apply lookup_insert_eq| |done].
      by rewrite (refs_of_some h2 (current h) x).
  - simpl. apply lookup_insert_eq.
  - done.
Qed.

(** A displaced generation does not leak: as soon as it is neither current, nor the rollback
    target, nor being displaced, and its leases are released, its retire callback is enabled. *)
Theorem drained_generation_retires h g x :
  reachable h -> gens h !! g = Some x -> gen_retired x = false ->
  current h <> g -> previous h <> Some g -> displaced h <> Some g ->
  (forall l, leases h !! l <> Some (mkLease g false)) ->
  step h (fire_retire h g).
Proof.
  intros Hr Hx Hret Hc Hp Hd Hl. eapply step_retire; [done| |done].
  destruct (inv_count _ (inv_reachable _ Hr) _ _ Hx) as [-> _].
  unfold owners, one_if. rewrite !decide_False by done.
  enough (live (leases h) g = 0) by lia.
  unfold live. apply (f_equal Z.of_nat (y := 0%nat)), map_size_empty_iff, map_empty. intros l.
  apply map_lookup_filter_None. right. intros [g' r] Hy [Hg Hrel]. simpl in *. subst.
  by apply (Hl l).
Qed.

(** [Swap] installs the next snapshot exactly when no layer's version moves backwards, and
    then [Rollback] restores the snapshot it displaced, once: a second rollback is refused. *)
Theorem Swap_Rollback_contract h fresh cur next :
  inv h -> displaced h = None -> gens h !! fresh = None -> current_snap h = Some cur ->
  (checkMonotonic cur next = inr tt <-> exists h1, Swap h fresh (Some next) = inr h1) /\
  (forall h1, Swap h fresh (Some next) = inr h1 ->
     current_snap h1 = Some next /\
     exists h2, Rollback h1 = inr h2 /\ current_snap h2 = Some cur /\ exists e, Rollback h2 = inl e).
Proof.
  intros Hinv Hd Hf Hc. split.
  { split; [intros Hm; unfold Swap; rewrite Hc, Hm; eauto|].
    intros [h1 H1]. by destruct (Swap_installs _ _ _ _ _ Hc H1). }
  intros h1 (_ & -> & Hn)%(Swap_installs h fresh cur next h1 Hc). split; [done|].
  destruct (finish_swap_spec (swap_store h fresh next)) as (F1 & F2 & F3 & F4).
  destruct (inv_current _ Hinv) as [y Hy].
  assert (fresh <> current h) as Hne by congruence.
  unfold Rollback at 1. rewrite F2. simpl. eexists. split; [done|].
  destruct (finish_swap_spec (rollback_store (finish_swap (swap_store h fresh next)) (current h)))
    as (G1 & G2 & G3 & G4).
  assert (gen_snap <$> gens (finish_swap (swap_store h fresh next)) !! current h = Some cur) as Hcur.
  { rewrite F4 by (exists y; simpl; by rewrite lookup_insert_ne). simpl. by rewrite lookup_insert_ne. }
  split.
  - unfold current_snap. rewrite G1. simpl. rewrite G4; [done|].
    apply mk_is_Some, fmap_is_Some in Hcur. exact Hcur.
  - unfold Rollback. rewrite G2. simpl. eauto.
Qed.

(** A control-plane outage freezes the configuration and nothing else: when the source fails,
    reports nothing new, or delivers a snapshot whose versions move backwards, the holder is left
    exactly as it was; otherwise the delivered snapshot becomes current.  Each poll bumps exactly
    one counter. *)
Theorem Refresh_degrades_to_frozen s h fresh fetch s' h' err :
  Refresh s h fresh fetch = (s', h', err) ->
  (h' = h \/ exists fetched snap cur, fetch (default "" (sub_digest s)) = inr fetched
               /\ f_Snapshot fetched = Some snap /\ current_snap h = Some cur
               /\ checkMonotonic cur snap = inr tt /\ current_snap h' = Some snap
               /\ sub_digest s' = Some (f_Digest fetched) /\ err = None)
  /\ sub_applied s' + sub_unchanged s' + sub_failed s' + sub_rejected s'
     = sub_applied s + sub_unchanged s + sub_failed s + sub_rejected s + 1.
Proof.
  intros H. unfold Refresh in H.
  destruct (fetch _) as [e|fetched] eqn:Ef; [simplify_eq; simpl; split; [by left|lia]|].
  destruct (f_Unchanged fetched); [simplify_eq; simpl; split; [by left|lia]|].
  destruct (f_Snapshot fetched) as [snap|] eqn:Es; [|simplify_eq; simpl; split; [by left|lia]].
  destruct (Swap h fresh (Some snap)) as [e|h1] eqn:Esw; simplify_eq; simpl; (split; [|lia]).
  - by left.
  - right. destruct (current_snap h) as [cur|] eqn:Ec; [|by unfold Swap in Esw; rewrite Ec in Esw].
    destruct (Swap_installs _ _ _ _ _ Ec Esw) as (Hm & _ & Hn).
    exists fetched, snap, cur. split_and!; done.
Qed.

(** ** Acquire and Release around a request *)

Lemma current_referenced h : inv h -> exists x, gens h !! current h = Some x /\ 0 < gen_refs x.
Proof.
  intros Hinv. destruct (inv_current _ Hinv) as [x Hx]. exists x. split; [done|].
  destruct (inv_count _ Hinv _ _ Hx) as [-> _]. pose proof (live_nonneg (leases h) (current h)).
  unfold owners. pose proof (one_if_bound (previous h = Some (current h))).
  pose proof (one_if_bound (displaced h = Some (current h))).
  unfold one_if at 1. rewrite decide_True by done. lia.
Qed.

(** The function is three of the relation's steps. *)
Lemma Acquire_steps h :
  reachable h -> exists l snap h', Acquire h = Some (l, snap, h') /\ current_snap h = Some snap
    /\ rtc step h h' /\ leases h' !! l = Some (mkLease (current h) false).
Proof.
  intros Hr. destruct (current_referenced h (inv_reachable _ Hr)) as (x & Hx & Hpos).
  unfold Acquire, tryRef_refuses, current_snap. rewrite Hx, (proj2 (Z.leb_gt _ _)) by done.
  eexists _, _, _. split_and!; [reflexivity|done| |apply lookup_insert_eq].
  set (a := fresh (dom (acquirers h))). set (l := fresh (dom (leases h))).
  assert (acquirers h !! a = None) as Ha by apply not_elem_of_dom, is_fresh.
  assert (leases h !! l = None) as Hl by apply not_elem_of_dom, is_fresh.
  set (h1 := with_acquirer h a (Some (AcqLoaded (current h)))).
  set (h2 := with_acquirer h1 a (Some (AcqRead (current h) (gen_refs x)))).
  assert (grant h a (current h) l (gen_refs x) = grant h2 a (current h) l (gen_refs x)) as ->.
  { unfold grant. cbn. rewrite insert_insert_eq. f_equal. rewrite delete_insert_eq. done. }
  eapply rtc_l; [by apply (step_load h a)|]. eapply (rtc_l _ _ h2).
  - pose proof (step_read h1 a (current h) (lookup_insert_eq _ _ _)) as Hs.
    rewrite (refs_of_some h1 (current h) x) in Hs by done.
    unfold tryRef_refuses in Hs. rewrite (proj2 (Z.leb_gt _ _)) in Hs by done. exact Hs.
  - apply rtc_once, step_cas; [apply lookup_insert_eq| |done]. by rewrite (refs_of_some h2 (current h) x).
Qed.

(** Releasing gives back exactly what acquiring took. *)
Lemma Acquire_Release h l snap h1 :
  Acquire h = Some (l, snap, h1) ->
  gens (Release h1 l) = gens h /\ current (Release h1 l) = current h /\ previous (Release h1 l) = previous h
  /\ forall g, live (leases (Release h1 l)) g = live (leases h) g.
Proof.
  unfold Acquire. destruct (gens h !! current h) as [x|] eqn:Hx; [|done].
  unfold tryRef_refuses. destruct (gen_refs x <=? 0) eqn:E; [done|]. zify_bools. intros [= <- <- <-].
  set (l := fresh (dom (leases h))). assert (leases h !! l = None) as Hl by apply not_elem_of_dom, is_fresh.
  unfold Release. cbn [leases grant]. rewrite lookup_insert_eq. unfold unref.
  assert (Hrefs : forall H', gens H' = gens (set_refs h (current h) (gen_refs x + 1)) ->
    gens (dec_refs H' (current h)) = gens h /\ refs_of (dec_refs H' (current h)) (current h) = gen_refs x).
  { intros H' Hg. unfold dec_refs, refs_of, set_refs. cbn [gens]. rewrite Hg. cbn [gens set_refs].
    rewrite !lookup_alter_eq, Hx. cbn. split; [|lia].
    apply map_eq. intros i. destruct (decide (current h = i)) as [<-|Hi].
    - rewrite !lookup_alter_eq, Hx. cbn. destruct x; cbn. do 2 f_equal. lia.
    - by rewrite !lookup_alter_ne. }
  destruct (Hrefs (mkHolder (gens (grant h (fresh (dom (acquirers h))) (current h) l (gen_refs x)))
    (current h) (previous h) (<[l := mkLease (current h) true]> (<[l := mkLease (current h) false]> (leases h)))
    (delete (fresh (dom (acquirers h))) (acquirers h)) (displaced h) (applied h))) as [H1 H2]; [done|].
  cbn in H1, H2 |- *. rewrite H2, (proj2 (Z.ltb_lt _ _)) by lia. split_and!; [done..|].
  intros g. cbn. rewrite (live_release _ _ (current h)) by apply lookup_insert_eq.
  rewrite live_new by done. lia.
Qed.

(** ** The gauges *)

(** No generation has two of the holder's own references. *)
Definition distinct (h : Holder) : Prop :=
  previous h <> Some (current h) /\ displaced h <> Some (current h)
  /\ forall g, previous h = Some g -> displaced h <> Some g.

Lemma distinct_reachable h : reachable h -> distinct h.
Proof.
  intros (initial & h0 & H0 & Hs). assert (reachable h0 /\ distinct h0) as Hd.
  { split; [by exists initial, h0|]. unfold NewHolder in H0. simplify_eq. done. }
  revert Hd. clear H0. induction Hs as [|h1 h2 h3 H12 _ IH]; [tauto|]. intros [Hr Hd]. apply IH.
  assert (reachable h2) as Hr2 by (eapply reachable_steps; [exact Hr|by apply rtc_once]).
  split; [done|]. pose proof (inv_reachable _ Hr) as Hinv. unfold distinct in *.
  destruct H12; cbn; try done; try (by destruct (tryRef_refuses _)).
  - pose proof (inv_current _ Hinv) as [y Hy]. pose proof (inv_previous _ Hinv) as Hp. split_and!.
    + congruence.
    + intros He. destruct (Hp _ He). congruence.
    + intros g [= <-]. naive_solver.
  - split_and!; [done| |done]. naive_solver.
  - split_and!; [tauto|done|done].
Qed.

(** The gauges of the readiness endpoint are exact: what is reported in flight on the current and
    on the displaced generation is the number of leases on it not yet released. *)
Lemma gauges_exact h :
  reachable h ->
  st_InFlight (Holder_Stats h) = live (leases h) (current h)
  /\ forall prev, previous h = Some prev -> st_PreviousInFlight (Holder_Stats h) = live (leases h) prev.
Proof.
  intros Hr. destruct (distinct_reachable _ Hr) as (D1 & D2 & D3). pose proof (inv_reachable _ Hr) as Hinv.
  assert (Hrefs : forall g, allocated h g -> refs_of h g = owners h g + live (leases h) g).
  { intros g [x Hx]. rewrite (refs_of_some _ _ _ Hx). apply (inv_count _ Hinv _ _ Hx). }
  assert (Hc : refs_of h (current h) - 1 = live (leases h) (current h)).
  { rewrite Hrefs by apply (inv_current _ Hinv). unfold owners, one_if.
    rewrite decide_True, !decide_False by done. lia. }
  unfold Holder_Stats. destruct (previous h) as [prev|] eqn:Hp; cbn; (split; [exact Hc|]); [|done].
  intros ? [= <-]. rewrite Hrefs by (by apply (inv_previous _ Hinv)). unfold owners, one_if.
  rewrite Hp, (decide_True (P := Some prev = Some prev)) by done.
  rewrite !decide_False by naive_solver. lia.
Qed.

(** ** Witnesses: one lease taken, two swaps, the first generation drained and retired *)

Definition w_init : Holder := mkHolder {[0%nat := newGeneration demo_snapshot]} 0 None ∅ ∅ None [].
Definition w_loaded : Holder := with_acquirer w_init 0 (Some (AcqLoaded 0)).
Definition w_read : Holder := with_acquirer w_loaded 0 (Some (AcqRead 0 1)).
Definition w_leased : Holder := grant w_read 0 0 0 1.
Definition w_swapped : Holder := swap_store w_leased 1 demo_snapshot.
Definition w_swapped2 : Holder := swap_store w_swapped 2 demo_snapshot.
Definition w_finished : Holder :=
  dec_refs (mkHolder (gens w_swapped2) (current w_swapped2) (previous w_swapped2) (leases w_swapped2)
              (acquirers w_swapped2) None (applied w_swapped2)) 0.
Definition w_released : Holder :=
  dec_refs (mkHolder (gens w_finished) (current w_finished) (previous w_finished)
              (<[0%nat := mkLease 0 true]> (leases w_finished)) (acquirers w_finished)
              (displaced w_finished) (applied w_finished)) 0.
Definition w_retired : Holder := fire_retire w_released 0.

Lemma w_reachable :
  reachable w_init /\ reachable w_leased /\ reachable w_finished /\ reachable w_released /\ reachable w_retired.
Proof.
  assert (reachable w_init) as H0 by (exists demo_snapshot, w_init; split; [reflexivity|constructor]).
  assert (rtc step w_init w_leased) as H1.
  { eapply rtc_l; [by apply (step_load w_init 0)|].
    eapply rtc_l; [by apply (step_read w_loaded 0 0)|].
    eapply rtc_once. by apply (step_cas w_read 0 0 1 0). }
  assert (rtc step w_leased w_finished) as H2.
  { eapply rtc_l; [by apply (step_swap w_leased 1 demo_snapshot demo_snapshot)|].
    eapply rtc_l; [by apply (step_swap w_swapped 2 demo_snapshot demo_snapshot)|].
    eapply rtc_once. by apply (step_finish w_swapped2 0). }
  assert (step w_finished w_released) as H3 by (by apply (step_release w_finished 0 0)).
  assert (step w_released w_retired) as H4
    by (by eapply (step_retire w_released 0); [vm_compute; reflexivity| |]).
  split_and!; [done|..]; eapply reachable_steps; try exact H0; [done|by etrans|..].
  - etrans; [exact H1|]. etrans; [exact H2|]. by apply rtc_once.
  - etrans; [exact H1|]. etrans; [exact H2|]. eapply rtc_l; [exact H3|]. by apply rtc_once.
Qed.

Lemma retired_never_in_use_witness :
  current w_retired <> 0%nat /\ previous w_retired <> Some 0%nat
  /\ forall l, leases w_retired !! l <> Some (mkLease 0 false).
Proof.
  apply (retired_never_in_use w_retired 0 (mkGen demo_snapshot 0 true)).
  - apply w_reachable.
  - vm_compute. reflexivity.
  - reflexivity.
  - constructor.
Defined.

Lemma lease_pins_snapshot_witness :
  exists r x', leases w_leased !! 0%nat = Some (mkLease 0 r) /\ gens w_leased !! 0%nat = Some x'
    /\ gen_snap x' = demo_snapshot /\ (r = false -> gen_retired x' = false).
Proof.
  apply (lease_pins_snapshot w_leased 0 0 (mkGen demo_snapshot 2 false)).
  - apply w_reachable.
  - vm_compute. reflexivity.
  - vm_compute. reflexivity.
  - constructor.
Defined.

Lemma Acquire_succeeds_witness :
  exists h' l, nsteps step 3 w_leased h' /\ leases h' !! l = Some (mkLease (current w_leased) false)
    /\ current h' = current w_leased.
Proof. apply (Acquire_succeeds w_leased 0); [apply w_reachable|reflexivity]. Defined.

Lemma drained_generation_retires_witness : step w_released (fire_retire w_released 0).
Proof.
  apply (drained_generation_retires w_released 0 (mkGen demo_snapshot 0 false)).
  - apply w_reachable.
  - vm_compute. reflexivity.
  - reflexivity.
  - discriminate.
  - discriminate.
  - discriminate.
  - intros l. unfold w_released, w_finished. simpl. destruct (decide (0%nat = l)) as [<-|Hne].
    + rewrite lookup_insert_eq. discriminate.
    + rewrite !lookup_insert_ne by done. rewrite lookup_empty. discriminate.
Defined.

Lemma Swap_Rollback_contract_witness :
  (checkMonotonic demo_snapshot demo_snapshot = inr tt <->
   exists h1, Swap w_leased 1 (Some demo_snapshot) = inr h1) /\
  (forall h1, Swap w_leased 1 (Some demo_snapshot) = inr h1 ->
     current_snap h1 = Some demo_snapshot /\
     exists h2, Rollback h1 = inr h2 /\ current_snap h2 = Some demo_snapshot /\ exists e, Rollback h2 = inl e).
Proof.
  apply (Swap_Rollback_contract w_leased 1 demo_snapshot demo_snapshot).
  - apply inv_reachable, w_reachable.
  - reflexivity.
  - vm_compute. reflexivity.
  - vm_compute. reflexivity.
Defined.

Definition demo_fetch (known : string) : error + Fetched := inl (Foreign "connection refused" None).
Definition demo_subscriber : Subscriber := mkSubscriber (Some "g1") 1 4 0 0 None.

Lemma Refresh_degrades_to_frozen_witness :
  (w_leased = w_leased \/ exists fetched snap cur, demo_fetch "g1" = inr fetched
               /\ f_Snapshot fetched = Some snap /\ current_snap w_leased = Some cur
               /\ checkMonotonic cur snap = inr tt /\ current_snap w_leased = Some snap
               /\ Some "g1" = Some (f_Digest fetched) /\ Some (Foreign "connection refused" None) = None)
  /\ 1 + 4 + 1 + 0 = 1 + 4 + 0 + 0 + 1.
Proof.
  apply (Refresh_degrades_to_frozen demo_subscriber w_leased 1 demo_fetch
           (mkSubscriber (Some "g1") 1 4 1 0 (Some (Foreign "connection refused" None))) w_leased
           (Some (Foreign "connection refused" None))).
  reflexivity.
Defined.
