(* ===== verification/Source.v ===== *)
(** * Where snapshots come from (snapshot/source.go, snapshot/httpsource.go, snapshot/subscriber.go)

    The file source, the control-plane source, and the subscriber's configuration and polling
    loop.  Reading a file, building an HTTP request and sending it are arguments; every byte they
    deliver goes through the digests of [Codec] and the decoder of [Wire]. *)
From S2P Require Import Prelude Errors Core Snapshot SnapshotFacts Policy Wire Codec Holder HolderFacts.
From Stdlib Require Import ZArith Lia Ascii.
From stdpp Require Import base gmap strings list.
Open Scope Z_scope.
Open Scope gw_scope.

(** [strings.TrimSuffix(s, "/")]. *)
Fixpoint trimSlash (s : string) : string :=
  match s with
  | EmptyString => EmptyString
  | String c EmptyString => if bool_decide (c = "/"%char) then EmptyString else s
  | String c s' => String c (trimSlash s')
  end.

Definition maxSnapshotBytes : Z := 67108864.
Definition StatusOK : Z := 200.
Definition StatusNotModified : Z := 304.

(** What the source asks and what it reads of the answer.  A body is the bytes that arrive and
    the error, if any, that ends them. *)
Record SnapshotRequest := mkSnapshotRequest {
  req_URL : string; req_Authorization : option string; req_IfNoneMatch : option string }.
Record SnapshotResponse := mkSnapshotResponse {
  sr_Status : Z; sr_Digest : string; sr_Body : bytes; sr_BodyErr : option error }.

(** [io.ReadAll(io.LimitReader(body, limit))]. *)
Definition readLimited (limit : Z) (body : bytes) (err : option error) : error + bytes :=
  if limit <=? Z.of_nat (length body) then inr (take (Z.to_nat limit) body)
  else match err with Some e => inl e | None => inr body end.

Record HTTPSource := mkHTTPSource { hs_url : string; hs_token : string }.

Definition NewHTTPSource (baseURL token : string) : error + HTTPSource :=
  if bool_decide (baseURL = "") then inl (New CodeInvalidRequest "a control-plane URL is required")
  else inr (mkHTTPSource (trimSlash baseURL +:+ "/v1/snapshots/current") token).

Section Source.
Variable sha256 : bytes -> bytes.
Context `{ProtoMessage PbBundle} `{ProtoMessage pb.GlobalLayer} `{ProtoMessage pb.TenantLayer}
        `{ProtoMessage pb.Snapshot}.

Definition verifyTenant (_ : unit) (t : pb.TenantLayer) : error + unit :=
  match VerifyTenant sha256 (Some t) with Some err => inl err | None => inr tt end.

Definition decodeAndVerify (b : bytes) : error + (Snapshot * string) :=
  let! msg := UnmarshalSnapshot b in
  match VerifyGlobal sha256 (pb.s_GlobalLayer msg) with
  | Some err => inl err
  | None =>
      let! _ := foldM verifyTenant tt (pb.s_Tenants msg) in
      let! snap := DecodeSnapshot (Some msg) in
      inr (snap, pb.v_Digest (default pb.nilVersion (pb.s_GlobalLayer msg ≫= pb.gl_Version)))
  end.

Section File.
(** [os.ReadFile]. *)
Variable ReadFile : string -> error + bytes.

(** [FileSource.Fetch]. *)
Definition File_Fetch (path knownDigest : string) : error + Fetched :=
  match ReadFile path with
  | inl err => inl (GwError CodeUnavailable (Msg "reading the snapshot file" []) false (Some err))
  | inr b =>
      let! (snap, digest) := decodeAndVerify b in
      if negb (bool_decide (digest = "")) && bool_decide (digest = knownDigest)
      then inr (mkFetched None digest true)
      else inr (mkFetched (Some snap) digest false)
  end.

Definition LoadFile (path : string) : error + option Snapshot :=
  let! fetched := File_Fetch path "" in inr (f_Snapshot fetched).
End File.

Section Http.
(** [http.NewRequestWithContext] and [Client.Do]. *)
Variable NewRequest : string -> option error.
Variable Do : SnapshotRequest -> error + SnapshotResponse.

(** [HTTPSource.Fetch]. *)
Definition HTTP_Fetch (s : HTTPSource) (knownDigest : string) : error + Fetched :=
  match NewRequest (hs_url s) with
  | Some err => inl (GwError CodeInternal (Msg "building the snapshot request" []) false (Some err))
  | None =>
      let req := mkSnapshotRequest (hs_url s)
        (if bool_decide (hs_token s = "") then None else Some ("Bearer " +:+ hs_token s))
        (if bool_decide (knownDigest = "") then None else Some knownDigest) in
      match Do req with
      | inl err => inl (GwError CodeUnavailable (Msg "fetching the snapshot" []) false (Some err))
      | inr resp =>
          if sr_Status resp =? StatusNotModified then inr (mkFetched None knownDigest true)
          else if negb (sr_Status resp =? StatusOK) then
            inl (Newf CodeUnavailable "control plane returned %d fetching the snapshot"
                   [AInt (sr_Status resp)])
          else if negb (bool_decide (sr_Digest resp = "")) && bool_decide (sr_Digest resp = knownDigest)
          then inr (mkFetched None knownDigest true)
          else match readLimited (maxSnapshotBytes + 1) (sr_Body resp) (sr_BodyErr resp) with
               | inl err =>
                   inl (GwError CodeUnavailable (Msg "reading the snapshot response" []) false (Some err))
               | inr body =>
                   if maxSnapshotBytes <? Z.of_nat (length body) then
                     inl (Newf CodeUnavailable "snapshot exceeds the %d byte limit" [AInt maxSnapshotBytes])
                   else let! (snap, digest) := decodeAndVerify body in
                        inr (mkFetched (Some snap) digest false)
               end
      end
  end.
End Http.
End Source.

(** ** The subscriber's configuration and loop *)

Definition DefaultInterval : duration := 15 * Second.
Definition DefaultMinBackoff : duration := 1 * Second.
Definition DefaultMaxBackoff : duration := 2 * Minute.

Record SubConfig := mkSubConfig {
  cfg_interval : duration; cfg_minBackoff : duration; cfg_maxBackoff : duration;
  cfg_jitter : duration -> duration }.

Inductive SubscriberOption :=
| WithInterval (d : duration)
| WithBackoff (minBackoff maxBackoff : duration)
| WithJitter (fn : option (duration -> duration)).

Definition apply_option (c : SubConfig) (o : SubscriberOption) : SubConfig :=
  match o with
  | WithInterval d =>
      mkSubConfig (if 0 <? d then d else cfg_interval c) (cfg_minBackoff c) (cfg_maxBackoff c) (cfg_jitter c)
  | WithBackoff lo hi =>
      mkSubConfig (cfg_interval c) (if 0 <? lo then lo else cfg_minBackoff c)
        (if 0 <? hi then hi else cfg_maxBackoff c) (cfg_jitter c)
  | WithJitter fn =>
      mkSubConfig (cfg_interval c) (cfg_minBackoff c) (cfg_maxBackoff c) (default (cfg_jitter c) fn)
  end.

(** [NewSubscriber] with a source and a holder; [jitter] is the default spread. *)
Definition NewSubscriber (jitter : duration -> duration) (opts : list SubscriberOption)
    : SubConfig * Subscriber :=
  (foldl apply_option (mkSubConfig DefaultInterval DefaultMinBackoff DefaultMaxBackoff jitter) opts,
   mkSubscriber None 0 0 0 0 None).

(** Where [run] waits: for the next poll, for a retry, or nowhere any more. *)
Inductive loop_at :=
| AtInterval (backoff : duration)
| AtRetry (backoff : duration)
| AtExit.

(** What ends a wait: the timer, or [Stop] and the context. *)
Inductive wake := WakeTimer | WakeStop.

(** How long [run] waits where it is. *)
Definition wait_for (c : SubConfig) (l : loop_at) : duration :=
  match l with
  | AtInterval _ => cfg_jitter c (cfg_interval c)
  | AtRetry backoff => cfg_jitter c backoff
  | AtExit => 0
  end.

(** One wake-up of [run]: a poll when the interval's timer fired, nothing but the backoff when the
    retry's did. *)
Definition run_step (c : SubConfig) (fetch : string -> error + Fetched) (fresh : nat)
    (st : loop_at * Subscriber * Holder) (w : wake) : loop_at * Subscriber * Holder :=
  let '(l, s, h) := st in
  match l, w with
  | AtExit, _ => st
  | _, WakeStop => (AtExit, s, h)
  | AtInterval backoff, WakeTimer =>
      match Refresh s h fresh fetch with
      | (s', h', Some _) => (AtRetry backoff, s', h')
      | (s', h', None) => (AtInterval (cfg_minBackoff c), s', h')
      end
  | AtRetry backoff, WakeTimer => (AtInterval (Z.min (wrap64 (backoff * 2)) (cfg_maxBackoff c)), s, h)
  end.
Definition run_start (c : SubConfig) (s : Subscriber) (h : Holder) : loop_at * Subscriber * Holder :=
  (AtInterval (cfg_minBackoff c), s, h).

(** ** What the sources deliver *)
Section SourceFacts.
Variable sha256 : bytes -> bytes.
Context `{ProtoMessage PbBundle} `{ProtoMessage pb.GlobalLayer} `{ProtoMessage pb.TenantLayer}
        `{ProtoMessage pb.Snapshot}.

(** [snap] is what these bytes decode to, every stamped layer having the digest it claims;
    [digest] is the stamp of the global layer. *)
Definition verified_from (b : bytes) (snap : Snapshot) (digest : string) : Prop :=
  exists msg g, proto_Unmarshal b = inr msg /\ pb.s_GlobalLayer msg = Some g
    /\ (stamp g = "" \/ DigestGlobal sha256 g = inr (stamp g))
    /\ Forall (fun t => stamp t = "" \/ DigestTenant sha256 t = inr (stamp t)) (pb.s_Tenants msg)
    /\ DecodeSnapshot (Some msg) = inr snap /\ digest = stamp g.

Lemma verifyTenant_loop ts :
  foldM (verifyTenant sha256) tt ts = inr tt <->
  Forall (fun t => stamp t = "" \/ DigestTenant sha256 t = inr (stamp t)) ts.
Proof.
  apply foldM_check. intros t. unfold verifyTenant.
  pose proof (verify_inv sha256 "tenant %q layer digest mismatch: computed %s, layer claims %s"
                [AStr (pb.tl_Tenant t)] t) as Hv.
  unfold VerifyTenant. simpl from_option. rewrite <- Hv.
  destruct (VerifyLayer _ _ _ _); naive_solver.
Qed.

Lemma decodeAndVerify_inv b snap digest :
  decodeAndVerify sha256 b = inr (snap, digest) <-> verified_from b snap digest.
Proof.
  unfold decodeAndVerify, UnmarshalSnapshot, Unmarshal, verified_from.
  destruct (proto_Unmarshal b) as [e|msg]; [naive_solver|].
  destruct (pb.s_GlobalLayer msg) as [g|] eqn:Eg.
  - pose proof (verify_inv sha256 "global layer digest mismatch: computed %s, layer claims %s" [] g) as Hv.
    unfold VerifyGlobal. destruct (VerifyLayer _ _ _ _) as [e|].
    { split; [done|]. intros (msg' & g' & [= <-] & ? & Hs & _). simplify_eq.
      apply Hv in Hs. done. }
    assert (Hg : stamp g = "" \/ DigestGlobal sha256 g = inr (stamp g)) by (by apply Hv).
    pose proof (verifyTenant_loop (pb.s_Tenants msg)) as Ht.
    destruct (foldM (verifyTenant sha256) tt (pb.s_Tenants msg)) as [e|[]].
    { split; [done|]. intros (msg' & g' & [= <-] & _ & _ & Hts & _). apply Ht in Hts. done. }
    destruct (DecodeSnapshot (Some msg)) as [e|s] eqn:Ed; [naive_solver congruence|]. simpl. split.
    + intros [= <- <-]. exists msg, g. split_and!; try done. by apply Ht.
    + intros (msg' & g' & [= <-] & ? & _ & _ & Hs & ->). simplify_eq. by rewrite Ed in Hs; simplify_eq.
  - assert (Ed : exists e, DecodeSnapshot (Some msg) = inl e).
    { unfold DecodeSnapshot. simpl. rewrite Eg. eauto. }
    destruct Ed as [e Ed]. rewrite Ed. destruct (VerifyGlobal _ _); [naive_solver congruence|].
    destruct (foldM _ _ _); naive_solver congruence.
Qed.

Lemma verified_built b snap digest : verified_from b snap digest -> built snap /\ all_routed snap.
Proof.
  intros (msg & g & _ & _ & _ & _ & Hd & _).
  apply DecodeSnapshot_inv in Hd as (g' & global & ts & _ & Hg & Hf & Hc). split.
  - eapply (built_compose _ _ (DecodeTenant <$> pb.s_Tenants msg)); [done| |done]. by apply Forall2_fmap_l.
  - by apply Compose_inv in Hc as (_ & ? & _).
Qed.

(** An answer of a source: nothing new, for the digest asked about, or a verified snapshot. *)
Definition answer_ok (known : string) (f : Fetched) : Prop :=
  (f_Unchanged f = true /\ f_Snapshot f = None /\ f_Digest f = known) \/
  (f_Unchanged f = false /\ exists b snap, f_Snapshot f = Some snap /\ verified_from b snap (f_Digest f)).

Lemma File_Fetch_ok ReadFile path known f :
  File_Fetch sha256 ReadFile path known = inr f -> answer_ok known f.
Proof.
  unfold File_Fetch. destruct (ReadFile path) as [e|b]; [done|].
  destruct (decodeAndVerify sha256 b) as [e|[snap digest]] eqn:E; [done|].
  apply decodeAndVerify_inv in E. destruct (negb _ && _) eqn:Eq; intros [= <-].
  - left. zify_bools. done.
  - right. split; [done|]. by exists b, snap.
Qed.

Lemma HTTP_Fetch_ok NewRequest Do src known f :
  HTTP_Fetch sha256 NewRequest Do src known = inr f -> answer_ok known f.
Proof.
  unfold HTTP_Fetch. destruct (NewRequest _); [done|]. destruct (Do _) as [e|resp]; [done|].
  destruct (_ =? StatusNotModified); [intros [= <-]; by left|].
  destruct (negb (_ =? StatusOK)); [done|].
  destruct (negb _ && _) eqn:Eq; [intros [= <-]; by left|].
  destruct (readLimited _ _ _) as [e|body]; [done|]. destruct (maxSnapshotBytes <? _); [done|].
  destruct (decodeAndVerify sha256 body) as [e|[snap digest]] eqn:E; [done|]. intros [= <-].
  apply decodeAndVerify_inv in E. right. split; [done|]. by exists body, snap.
Qed.

(** The ways a worker obtains a snapshot. *)
Inductive delivered (snap : Snapshot) : Prop :=
| delivered_file ReadFile path known f :
    File_Fetch sha256 ReadFile path known = inr f -> f_Snapshot f = Some snap -> delivered snap
| delivered_http NewRequest Do src known f :
    HTTP_Fetch sha256 NewRequest Do src known = inr f -> f_Snapshot f = Some snap -> delivered snap.

Lemma delivered_verified snap : delivered snap -> exists b digest, verified_from b snap digest.
Proof.
  intros [? ? ? f Hf Hs|? ? ? ? f Hf Hs].
  - apply File_Fetch_ok in Hf as [(_ & ? & _)|(_ & b & snap' & ? & Hv)]; [congruence|].
    simplify_eq. eauto.
  - apply HTTP_Fetch_ok in Hf as [(_ & ? & _)|(_ & b & snap' & ? & Hv)]; [congruence|].
    simplify_eq. eauto.
Qed.

(** A step of the holder in which any snapshot installed comes from a source. *)
Definition sourced_step (h h' : Holder) : Prop :=
  step h h' /\ (applied h' = applied h \/ exists next, applied h' = next :: applied h /\ delivered next).

Definition all_delivered (h : Holder) : Prop := map_Forall (fun _ x => delivered (gen_snap x)) (gens h).

Lemma alter_delivered (f : generation -> generation) g (m : gmap nat generation) :
  (forall x, gen_snap (f x) = gen_snap x) -> map_Forall (fun _ x => delivered (gen_snap x)) m ->
  map_Forall (fun _ x => delivered (gen_snap x)) (alter f g m).
Proof.
  intros Hf Hm g' x. rewrite lookup_alter. case_decide; [|apply Hm]. subst.
  intros (y & Hy & ->)%fmap_Some. rewrite Hf. by eapply Hm.
Qed.

Lemma sourced_step_delivered h h' : sourced_step h h' -> all_delivered h -> all_delivered h'.
Proof.
  unfold all_delivered. intros [Hs Ha] Hd.
  destruct Hs as
    [h a Ha'|h a g Ha'|h a g n l Ha' Hn Hl|h a g n Ha' Hn|h l g Hl|h g x Hx Hr Hret
    |h fresh cur next Hd' Hf Hc Hm|h prev Hd' Hp|h g Hd']; try exact Hd;
    try (by apply alter_delivered).
  destruct Ha as [Ha|(next' & Ha & Hnext)]; simpl in Ha.
  - exfalso. apply (f_equal length) in Ha. simpl in Ha. lia.
  - simplify_eq. simpl. apply map_Forall_insert_2; done.
Qed.

Lemma sourced_steps_delivered h h' : rtc sourced_step h h' -> all_delivered h -> all_delivered h'.
Proof. induction 1; eauto using sourced_step_delivered. Qed.
End SourceFacts.

(** ** Properties *)

Section SourceProperties.
Variable sha256 : bytes -> bytes.
Context `{ProtoMessage PbBundle} `{ProtoMessage pb.GlobalLayer} `{ProtoMessage pb.TenantLayer}
        `{ProtoMessage pb.Snapshot}.

(** C33. From bytes to requests: in a worker whose first snapshot and every later one came from a
    file or from the control plane, whatever those delivered and however requests, swaps and
    rollbacks interleave, the snapshot behind every lease was decoded from bytes in which every
    stamped layer has the digest it claims, is built from validated layers, and routes to all its
    tenants. *)
Theorem worker_serves_only_verified s0 h0 h l g r x :
  delivered sha256 s0 -> NewHolder (Some s0) = inr h0 -> rtc (sourced_step sha256) h0 h ->
  leases h !! l = Some (mkLease g r) -> gens h !! g = Some x ->
  built (gen_snap x) /\ all_routed (gen_snap x)
  /\ exists b digest, verified_from sha256 b (gen_snap x) digest.
Proof.
  intros Hs0 Hh0 Hsteps _ Hx. apply sourced_steps_delivered in Hsteps.
  - apply Hsteps in Hx. destruct (delivered_verified sha256 _ Hx) as (b & digest & Hv).
    destruct (verified_built _ _ _ _ Hv). eauto.
  - injection Hh0 as <-. apply map_Forall_singleton. done.
Qed.

(** The digest a source is asked about covers the global layer alone.  Once a worker has
    applied a stamped file, a later version of the file under the same global layer, whatever its
    tenant layers say, is reported unchanged: the holder keeps serving the old keys, budgets and
    policies, and the poll counts as a healthy one. *)
Theorem tenant_edits_under_same_global_ignored ReadFile path b snap digest s h fresh :
  ReadFile path = inr b -> verified_from sha256 b snap digest -> digest <> "" ->
  sub_digest s = Some digest ->
  Refresh s h fresh (File_Fetch sha256 ReadFile path) =
  (mkSubscriber (Some digest) (sub_applied s) (sub_unchanged s + 1) (sub_failed s) (sub_rejected s)
     (sub_lastError s), h, None).
Proof.
  intros Hr Hv Hd Hs. unfold Refresh, File_Fetch. rewrite Hr, Hs.
  apply decodeAndVerify_inv in Hv. rewrite Hv. simpl.
  rewrite bool_decide_false, bool_decide_true by done. done.
Qed.
End SourceProperties.

Lemma failed_poll c fetch fresh b s h :
  (forall known, exists e, fetch known = inl e) ->
  exists s', run_step c fetch fresh (run_step c fetch fresh (AtInterval b, s, h) WakeTimer) WakeTimer
             = (AtInterval (Z.min (wrap64 (b * 2)) (cfg_maxBackoff c)), s', h)
    /\ sub_failed s' = sub_failed s + 1 /\ sub_digest s' = sub_digest s.
Proof.
  intros Hf. destruct (Hf (default "" (sub_digest s))) as [e He].
  eexists. unfold run_step, Refresh. rewrite He. simpl. split_and!; reflexivity.
Qed.

(** An outage never stops the polling loop, and it backs off as configured: when every fetch
    fails, [k] polls and their retries later the loop is waiting for the next poll, its retry
    delay is the minimum doubled [k] times and capped by the maximum, each failure was counted,
    and neither the holder nor the remembered digest has changed. *)
Theorem outage_backs_off c fetch fresh s h k :
  0 < cfg_minBackoff c <= cfg_maxBackoff c -> cfg_maxBackoff c <= 4611686018427387903 ->
  (forall known, exists e, fetch known = inl e) ->
  exists s', foldl (run_step c fetch fresh) (run_start c s h) (repeat WakeTimer (2 * k))
             = (AtInterval (Z.min (cfg_minBackoff c * 2 ^ Z.of_nat k) (cfg_maxBackoff c)), s', h)
    /\ sub_failed s' = sub_failed s + Z.of_nat k /\ sub_digest s' = sub_digest s.
Proof.
  intros Hlo Hhi Hf. induction k as [|k (s' & IH & Hk & Hd)].
  - exists s. cbn [repeat foldl Nat.mul]. unfold run_start. split_and!; [|lia|done].
    rewrite Z.min_l by lia. by rewrite Z.mul_1_r.
  - replace (2 * S k)%nat with (2 * k + 2)%nat by lia.
    rewrite repeat_app, foldl_app, IH. cbn [repeat foldl].
    destruct (failed_poll c fetch fresh (Z.min (cfg_minBackoff c * 2 ^ Z.of_nat k) (cfg_maxBackoff c)) s' h Hf)
      as (s'' & -> & Hc & Hd'). exists s''. split_and!; [|lia|congruence].
    do 3 f_equal. rewrite Nat2Z.inj_succ, Z.pow_succ_r by lia.
    pose proof (Z.pow_pos_nonneg 2 (Z.of_nat k)).
    rewrite wrap64_id by (unfold in_int64, int64_min, int64_max; nia). lia.
Qed.

(** ** Witnesses: two files under one global layer, the second without the tenant's key *)

#[local] Existing Instance id_proto.

(** Stamped with the digest of the empty content under a hash that is constantly empty. *)
Definition stamped {M} `{Layer M} (m : M) : M := SetVersion (Some (pb.mkLayerVersion 1 DigestPrefix)) m.
Definition src_message (keys : list pb.KeyEntry) : pb.Snapshot :=
  pb.mkSnapshot (Some (stamped wire_global)) [stamped (wire_tenant 0 keys)].
#[local] Instance src_snapshot_proto : ProtoMessage pb.Snapshot := {|
  proto_Marshal _ := inl (Foreign "unsupported" None);
  proto_Unmarshal b := inr (src_message (match b with [] => [pb.mkKeyEntry wire_lookup "k1"] | _ => [] end)) |}.
#[local] Instance src_global_proto : ProtoMessage pb.GlobalLayer := {|
  proto_Marshal _ := inr []; proto_Unmarshal _ := inl (Foreign "unsupported" None) |}.
#[local] Instance src_tenant_proto : ProtoMessage pb.TenantLayer := {|
  proto_Marshal _ := inr []; proto_Unmarshal _ := inl (Foreign "unsupported" None) |}.
Definition no_hash (_ : bytes) : bytes := [].

Definition src_snap (b : bytes) : Snapshot :=
  match decodeAndVerify no_hash b with inr (s, _) => s | inl _ => demo_snapshot end.
Definition src_holder : Holder := mkHolder {[0%nat := newGeneration (src_snap [])]} 0 None ∅ ∅ None [].
Definition src_leased : Holder :=
  grant (with_acquirer (with_acquirer src_holder 0 (Some (AcqLoaded 0))) 0 (Some (AcqRead 0 1))) 0 0 0 1.

Lemma src_delivered : delivered no_hash (src_snap []).
Proof.
  apply (delivered_file no_hash _ (fun _ => inr []) "snapshot.pb" ""
           (mkFetched (Some (src_snap [])) DigestPrefix false)); [|reflexivity].
  vm_compute. reflexivity.
Qed.

Lemma src_steps : rtc (sourced_step no_hash) src_holder src_leased.
Proof.
  set (h1 := with_acquirer src_holder 0 (Some (AcqLoaded 0))).
  set (h2 := with_acquirer h1 0 (Some (AcqRead 0 1))).
  apply (rtc_l _ _ h1); [|apply (rtc_l _ _ h2); [|apply rtc_once]].
  - split; [apply (step_load src_holder 0); reflexivity|by left].
  - split; [|by left].
    exact (step_read h1 0 0 eq_refl).
  - split; [|by left]. by apply step_cas.
Qed.

Lemma worker_serves_only_verified_witness :
  built (src_snap []) /\ all_routed (src_snap [])
  /\ exists b digest, verified_from no_hash b (src_snap []) digest.
Proof.
  apply (worker_serves_only_verified no_hash (src_snap []) src_holder src_leased 0 0 false
           (mkGen (src_snap []) 2 false)).
  - exact src_delivered.
  - reflexivity.
  - exact src_steps.
  - reflexivity.
  - reflexivity.
Defined.

(** The edited file revokes the key, and the worker does not notice. *)
Lemma tenant_edits_under_same_global_ignored_witness :
  (lookupPrincipal (src_snap ["x"%char]) "acme" wire_lookup = None
   /\ is_Some (lookupPrincipal (src_snap []) "acme" wire_lookup)) /\
  Refresh (mkSubscriber (Some DigestPrefix) 1 0 0 0 None) src_holder 1
    (File_Fetch no_hash (fun _ => inr ["x"%char]) "snapshot.pb")
  = (mkSubscriber (Some DigestPrefix) 1 1 0 0 None, src_holder, None).
Proof.
  split; [split; [vm_compute; reflexivity|vm_compute; eauto]|].
  apply (tenant_edits_under_same_global_ignored no_hash (fun _ => inr ["x"%char]) "snapshot.pb"
           ["x"%char] (src_snap ["x"%char]) DigestPrefix (mkSubscriber (Some DigestPrefix) 1 0 0 0 None)).
  - reflexivity.
  - apply decodeAndVerify_inv. vm_compute. reflexivity.
  - discriminate.
  - reflexivity.
Defined.

Lemma outage_backs_off_witness :
  exists s', foldl (run_step (NewSubscriber id []).1 demo_fetch 1)
               (run_start (NewSubscriber id []).1 demo_subscriber src_holder) (repeat WakeTimer 20)
             = (AtInterval (120 * Second), s', src_holder)
    /\ sub_failed s' = 10 /\ sub_digest s' = Some "g1".
Proof.
  apply (outage_backs_off (NewSubscriber id []).1 demo_fetch 1 demo_subscriber src_holder 10).
  - vm_compute. split; congruence.
  - vm_compute. congruence.
  - intros known. by eexists.
Defined.
