(* ===== verification/Kv.v ===== *)
(** * Key-value state (core/ports.go KVStore, adapters/memkv)

    The port is a class of operations with a class of laws; the in-process store implements
    both.  Every operation takes the store's clock reading as its first argument.  The laws
    speak of a view of the store, key to value and expiry, and allow any operation to fail, so
    a network store can be an instance as well. *)
From S2P Require Import Prelude Errors Core Strconv.
From Stdlib Require Import ZArith Lia Ascii.
From stdpp Require Import base gmap strings list.
Open Scope Z_scope.
Open Scope gw_scope.

(** ** The port *)

Class KVStore (S : Type) := {
  kv_Get : time -> string -> S -> (error + option bytes) * S;
  kv_Set : time -> string -> bytes -> duration -> S -> option error * S;
  kv_Incr : time -> string -> Z -> duration -> S -> (error + Z) * S;
  kv_Delete : time -> string -> S -> option error * S }.

(** A stored value and when it expires; an expiry of zero is never. *)
Record entry := mkEntry { value : bytes; expiresAt : time }.

Definition entry_expired (now : time) (e : entry) : bool :=
  negb (IsZero (expiresAt e)) && After now (expiresAt e).

(** What a reader at [now] sees of a slot. *)
Definition live (now : time) (e : option entry) : option entry :=
  match e with
  | Some e => if entry_expired now e then None else Some e
  | None => None
  end.

(** The slot a successful increment leaves, with the total it reports: the first increment of
    a window creates the counter and fixes its expiry, later ones keep it. *)
Definition incr_slot (now : time) (delta : Z) (ttl : duration) (e : option entry) : option (Z * entry) :=
  match live now e with
  | None => let total := wrap64 (0 + delta) in Some (total, mkEntry (FormatInt total) (now + ttl))
  | Some e =>
      match ParseInt (value e) with
      | inl _ => None
      | inr current =>
          let total := wrap64 (current + delta) in
          Some (total, mkEntry (FormatInt total) (expiresAt e))
      end
  end.

(** What a store promises its clients.  A failed increment may or may not have happened. *)
Class KVLaws (S : Type) `{!KVStore S} (view : S -> string -> option entry) := {
  kv_get_ok now k s r s' : kv_Get now k s = (inr r, s') -> r = value <$> live now (view s k);
  kv_get_view now k s r s' : kv_Get now k s = (r, s') -> view s' = view s;
  kv_set_ok now k v ttl s s' : kv_Set now k v ttl s = (None, s') ->
    view s' k = Some (mkEntry v (now + ttl));
  kv_set_frame now k v ttl s r s' k' : kv_Set now k v ttl s = (r, s') -> k' <> k ->
    view s' k' = view s k';
  kv_incr_ok now k d ttl s total s' : kv_Incr now k d ttl s = (inr total, s') ->
    exists e, incr_slot now d ttl (view s k) = Some (total, e) /\ view s' k = Some e;
  kv_incr_err now k d ttl s err s' : kv_Incr now k d ttl s = (inl err, s') ->
    view s' k = view s k
    \/ exists total e, incr_slot now d ttl (view s k) = Some (total, e) /\ view s' k = Some e;
  kv_incr_frame now k d ttl s r s' k' : kv_Incr now k d ttl s = (r, s') -> k' <> k ->
    view s' k' = view s k';
  kv_delete_ok now k s s' : kv_Delete now k s = (None, s') -> view s' k = None;
  kv_delete_frame now k s r s' k' : kv_Delete now k s = (r, s') -> k' <> k ->
    view s' k' = view s k' }.

(** ** The in-process store (adapters/memkv/memkv.go, format.go) *)
Module memkv.

Record Store := mkStore { entries : gmap string entry }.

Definition New : Store := mkStore ∅.

Definition parseInt (b : bytes) : NumError + Z := ParseInt b.
Definition formatInt (v : Z) : bytes := FormatInt v.

Definition expired (now : time) (e : entry) : bool :=
  negb (IsZero (expiresAt e)) && After now (expiresAt e).

Definition Get (now : time) (key : string) (s : Store) : (error + option bytes) * Store :=
  match entries s !! key with
  | None => (inr None, s)
  | Some e => if expired now e then (inr None, s) else (inr (Some (value e)), s)
  end.

Definition Set_ (now : time) (key : string) (v : bytes) (ttl : duration) (s : Store)
    : option error * Store :=
  (None, mkStore (<[key := mkEntry v (now + ttl)]> (entries s))).

(** The error a non-numeric counter is reported with, wrapping strconv's. *)
Definition num_error (e : NumError) : error :=
  Foreign (match e with ErrSyntax => "invalid syntax" | ErrRange => "value out of range" end) None.

Definition Incr (now : time) (key : string) (delta : Z) (ttl : duration) (s : Store)
    : (error + Z) * Store :=
  let fresh := inr (0, now + ttl) in
  let start :=
    match entries s !! key with
    | Some e =>
        if negb (expired now e) then
          match parseInt (value e) with
          | inl err => inl (GwError CodeInternal (Msg "counter holds a non-numeric value" []) false
                              (Some (num_error err)))
          | inr parsed => inr (parsed, expiresAt e)
          end
        else fresh
    | None => fresh
    end in
  match start with
  | inl err => (inl err, s)
  | inr (current, exp) =>
      let total := wrap64 (current + delta) in
      (inr total, mkStore (<[key := mkEntry (formatInt total) exp]> (entries s)))
  end.

Definition Delete (now : time) (key : string) (s : Store) : option error * Store :=
  (None, mkStore (delete key (entries s))).

Definition Sweep (now : time) (s : Store) : Z * Store :=
  let kept := filter (fun kv : string * entry => expired now kv.2 = false) (entries s) in
  (Z.of_nat (size (entries s)) - Z.of_nat (size kept), mkStore kept).

Definition Len (s : Store) : Z := Z.of_nat (size (entries s)).

#[global] Instance memkv_store : KVStore Store :=
  {| kv_Get := Get; kv_Set := Set_; kv_Incr := Incr; kv_Delete := Delete |}.

Definition view (s : Store) (k : string) : option entry := entries s !! k.

(** *** Lemmas *)

Lemma Incr_slot now k d ttl s :
  match incr_slot now d ttl (view s k) with
  | Some (total, e) => Incr now k d ttl s = (inr total, mkStore (<[k := e]> (entries s)))
  | None => exists err, Incr now k d ttl s = (inl err, s)
  end.
Proof.
  unfold incr_slot, Incr, live, view, parseInt, formatInt.
  destruct (entries s !! k) as [e|]; [|done].
  change (expired now e) with (entry_expired now e).
  destruct (entry_expired now e); simpl; [done|].
  destruct (ParseInt (value e)); [eauto|done].
Qed.

Lemma Incr_inv now k d ttl s r s' :
  Incr now k d ttl s = (r, s') ->
  (exists total e, r = inr total /\ incr_slot now d ttl (view s k) = Some (total, e)
     /\ s' = mkStore (<[k := e]> (entries s)))
  \/ (exists err, r = inl err /\ s' = s).
Proof.
  intros H. pose proof (Incr_slot now k d ttl s) as Hs.
  destruct (incr_slot now d ttl (view s k)) as [[total e]|].
  - rewrite Hs in H. simplify_eq. left. eauto.
  - destruct Hs as [err Hs]. rewrite Hs in H. simplify_eq. right. eauto.
Qed.

Lemma Get_live now k s : Get now k s = (inr (value <$> live now (view s k)), s).
Proof.
  unfold Get, live, view. destruct (entries s !! k) as [e|]; [|done].
  change (expired now e) with (entry_expired now e). by destruct (entry_expired now e).
Qed.

#[global] Instance memkv_laws : KVLaws Store view.
Proof.
  split; simpl.
  - intros now k s r s' H. rewrite Get_live in H. by simplify_eq.
  - intros now k s r s' H. rewrite Get_live in H. by simplify_eq.
  - intros now k v ttl s s' [= <-]. apply lookup_insert_eq.
  - intros now k v ttl s r s' k' [= <- <-] Hk. by apply lookup_insert_ne.
  - intros now k d ttl s total s' H.
    apply Incr_inv in H as [(t & e & Ht & Hi & ->)|(err & ? & _)]; simplify_eq.
    exists e. split; [done|]. apply lookup_insert_eq.
  - intros now k d ttl s err s' H.
    apply Incr_inv in H as [(t & e & ? & _)|(err' & _ & ->)]; [done|by left].
  - intros now k d ttl s r s' k' H Hk.
    apply Incr_inv in H as [(t & e & _ & _ & ->)|(err' & _ & ->)]; [|done].
    by apply lookup_insert_ne.
  - intros now k s s' [= <-]. apply lookup_delete_eq.
  - intros now k s r s' k' [= <- <-] Hk. by apply lookup_delete_ne.
Qed.

(** Sweeping is invisible to readers from then on. *)
Lemma Sweep_live now s k t :
  now <= t -> live t (view (Sweep now s).2 k) = live t (view s k).
Proof.
  intros Ht. unfold Sweep, view; simpl.
  destruct (entries s !! k) as [e|] eqn:E.
  - destruct (entry_expired now e) eqn:Hx.
    + rewrite map_lookup_filter_None_2 by (right; intros e' ? Hf; simplify_eq/=; unfold entry_expired in Hx; unfold expired in Hf; congruence).
      simpl. enough (entry_expired t e = true) as -> by done.
      unfold entry_expired, After in *. zify_bools. apply andb_true_iff. split.
      * by apply negb_true_iff.
      * apply Z.ltb_lt. lia.
    + by rewrite (map_lookup_filter_Some_2 _ _ _ e).
  - by rewrite map_lookup_filter_None_2 by by left.
Qed.

End memkv.

(** ** Counters against the interface *)
Section counters.
Context {S : Type} `{!KVStore S} {view : S -> string -> option entry} `{!KVLaws S view}.

(** A run of increments of one key, each at its own time; the store may serve other keys in
    between, which [frame] leaves to the caller. *)
Fixpoint incr_all (k : string) (ttl : duration) (ops : list (time * Z)) (s : S) : list (error + Z) * S :=
  match ops with
  | [] => ([], s)
  | (now, d) :: ops' =>
      let '(r, s1) := kv_Incr now k d ttl s in
      let '(rs, s2) := incr_all k ttl ops' s1 in
      (r :: rs, s2)
  end.

(** The counter's value as a reader at [now] would compute it; an absent counter is zero. *)
Definition counter (now : time) (e : option entry) : option Z :=
  match live now e with
  | None => Some 0
  | Some e => match ParseInt (value e) with inl _ => None | inr z => Some z end
  end.

Lemma incr_slot_counter now d ttl e total e' :
  incr_slot now d ttl e = Some (total, e') ->
  exists c, counter now e = Some c /\ total = wrap64 (c + d) /\ value e' = FormatInt total
    /\ expiresAt e' = match live now e with Some e => expiresAt e | None => now + ttl end.
Proof.
  unfold incr_slot, counter. destruct (live now e) as [e0|].
  - destruct (ParseInt (value e0)) as [|c]; [done|]. intros [= <- <-]. by exists c.
  - intros [= <- <-]. by exists 0.
Qed.

(** The totals a counter starting at [acc] reports. *)
Fixpoint totals (acc : Z) (ops : list (time * Z)) : list Z :=
  match ops with
  | [] => []
  | (_, d) :: ops' => (acc + d) :: totals (acc + d) ops'
  end.

Definition sum_deltas (ops : list (time * Z)) : Z := foldr (fun o acc => o.2 + acc) 0 ops.

Lemma sum_deltas_nonneg ops : Forall (fun o => 0 <= o.2) ops -> 0 <= sum_deltas ops.
Proof. induction 1; simpl; lia. Qed.

Lemma live_until t e : expiresAt e <> 0 -> t <= expiresAt e -> live t (Some e) = Some e.
Proof.
  intros Hz Ht. simpl. enough (entry_expired t e = false) as -> by done.
  unfold entry_expired, After. apply andb_false_iff. right. apply Z.ltb_ge. lia.
Qed.

Lemma live_after t e : expiresAt e <> 0 -> expiresAt e < t -> live t (Some e) = None.
Proof.
  intros Hz Ht. simpl. enough (entry_expired t e = true) as -> by done.
  unfold entry_expired, After, IsZero. apply andb_true_iff. split; [|by apply Z.ltb_lt].
  by apply negb_true_iff, Z.eqb_neq.
Qed.

(** An increment of a live counter adds to it and keeps its expiry. *)
Lemma incr_live now k d ttl s total s' acc exp :
  view s k = Some (mkEntry (FormatInt acc) exp) -> exp <> 0 -> now <= exp ->
  0 <= acc -> 0 <= d -> acc + d <= int64_max ->
  kv_Incr now k d ttl s = (inr total, s') ->
  total = acc + d /\ view s' k = Some (mkEntry (FormatInt (acc + d)) exp).
Proof.
  intros Hv Hz Hn Ha Hd Hmax H. apply kv_incr_ok in H as (e & He & ->).
  rewrite Hv in He. unfold incr_slot in He. rewrite live_until in He by done. simpl in He.
  rewrite ParseInt_FormatInt in He by (unfold in_int64, int64_min; lia).
  rewrite wrap64_id in He by (unfold in_int64, int64_min; lia). by simplify_eq.
Qed.

Lemma incr_all_live k ttl ops s rs s' acc exp :
  view s k = Some (mkEntry (FormatInt acc) exp) -> exp <> 0 ->
  Forall (fun o => o.1 <= exp /\ 0 <= o.2) ops -> 0 <= acc -> acc + sum_deltas ops <= int64_max ->
  incr_all k ttl ops s = (rs, s') -> Forall (fun r => exists z, r = inr z) rs ->
  rs = inr <$> totals acc ops
  /\ view s' k = Some (mkEntry (FormatInt (acc + sum_deltas ops)) exp).
Proof.
  intros Hv Hz Hops. revert s rs acc Hv.
  induction Hops as [|[now d] ops [Ht Hd] Hops IH]; intros s rs acc Hv Ha Hmax H Hok; simpl in *.
  - simplify_eq. by rewrite Z.add_0_r.
  - destruct (kv_Incr now k d ttl s) as [r s1] eqn:Hi.
    destruct (incr_all k ttl ops s1) as [rs1 s2] eqn:Hrec. simplify_eq.
    apply list.Forall_cons in Hok as [[z ->] Hok].
    assert (Hnn : 0 <= sum_deltas ops).
    { apply sum_deltas_nonneg. eapply Forall_impl; [exact Hops|]. simpl. tauto. }
    destruct (incr_live _ _ _ _ _ _ _ _ _ Hv Hz Ht Ha Hd ltac:(lia) Hi) as [-> Hv1].
    destruct (IH _ _ _ Hv1 ltac:(lia) ltac:(lia) Hrec Hok) as [-> Hv2].
    split; [done|]. rewrite Hv2. do 3 f_equal. lia.
Qed.

(** A rate-limit counter against any lawful store: the increments that land before the
    window's expiry report exact running totals, the expiry stays where the first increment put
    it however busy the key is, and once it has passed the counter is gone. *)
Theorem counter_window_rolls k ttl t0 d0 ops s rs s' :
  live t0 (view s k) = None -> t0 + ttl <> 0 -> 0 <= ttl -> 0 <= d0 ->
  Forall (fun o => o.1 <= t0 + ttl /\ 0 <= o.2) ops ->
  d0 + sum_deltas ops <= int64_max ->
  incr_all k ttl ((t0, d0) :: ops) s = (rs, s') -> Forall (fun r => exists z, r = inr z) rs ->
  rs = inr <$> totals 0 ((t0, d0) :: ops)
  /\ view s' k = Some (mkEntry (FormatInt (d0 + sum_deltas ops)) (t0 + ttl))
  /\ (forall t, t0 + ttl < t -> live t (view s' k) = None).
Proof.
  intros Hl Hz Httl Hd0 Hops Hmax H Hok. cbn [incr_all totals] in *.
  destruct (kv_Incr t0 k d0 ttl s) as [r s1] eqn:Hi.
  destruct (incr_all k ttl ops s1) as [rs1 s2] eqn:Hrec. simplify_eq.
  apply list.Forall_cons in Hok as [[z ->] Hok].
  assert (Hnn : 0 <= sum_deltas ops).
  { apply sum_deltas_nonneg. eapply Forall_impl; [exact Hops|]. simpl. tauto. }
  apply kv_incr_ok in Hi as (e & He & Hv). unfold incr_slot in He. rewrite Hl in He.
  rewrite wrap64_id in He by (unfold in_int64, int64_min; lia). simplify_eq.
  destruct (incr_all_live k ttl ops s1 rs1 s' (0 + d0) _ Hv Hz Hops ltac:(lia) ltac:(lia) Hrec Hok)
    as [-> Hv2].
  split_and!; [done|by rewrite Hv2|]. intros t Ht. rewrite Hv2. by apply live_after.
Qed.
End counters.

Lemma counter_window_rolls_witness :
  exists rs s', incr_all "k" 120 [(1000, 25); (1060, 25); (1120, 25)] memkv.New = (rs, s')
    /\ rs = [inr 25; inr 50; inr 75] /\ live 1121 (memkv.view s' "k") = None.
Proof.
  destruct (incr_all "k" 120 [(1000, 25); (1060, 25); (1120, 25)] memkv.New) as [rs s'] eqn:E.
  exists rs, s'.
  assert (Hok : Forall (fun r : error + Z => exists z, r = inr z) rs).
  { revert E. vm_compute. intros [= <- _]. repeat constructor; eauto. }
  destruct (counter_window_rolls (view := memkv.view) "k" 120 1000 25 [(1060, 25); (1120, 25)]
              memkv.New rs s') as (-> & _ & Hg);
    [reflexivity|lia|lia|lia|repeat constructor; simpl; lia|vm_compute; discriminate|exact E|exact Hok|].
  split_and!; [reflexivity|reflexivity|]. apply Hg. lia.
Defined.

#[export] Hint Resolve kv_incr_frame kv_set_frame kv_delete_frame : gw.
