(* ===== verification/Limits.v ===== *)
(** * Rate limiting (limits/bucket.go, limits/limiter.go)

    A bucket is a local lease of permits; the limiter keeps one bucket per counter key and one
    in-flight count per principal, and leases blocks of permits from a [KVStore].  Each clock
    reading is a separate reading: the limiter's state carries how many have been made, and
    [clk] gives the n-th, with no assumption on how readings relate. *)
From S2P Require Import Prelude Errors Core Strconv Kv.
From Stdlib Require Import ZArith Lia Ascii.
From stdpp Require Import base gmap strings list.
Open Scope Z_scope.
Open Scope gw_scope.

(** ** Bucket (limits/bucket.go) *)
Record Bucket := mkBucket { remaining : Z; b_expiresAt : time; refreshing : bool }.

Definition empty_bucket : Bucket := mkBucket 0 0 false.

Definition Take (now : time) (b : Bucket) : (bool * bool) * Bucket :=
  let rem := if After now (b_expiresAt b) then 0 else remaining b in
  if 0 <? rem then
    let rem := wrap64 (rem - 1) in
    ((true, negb (refreshing b) && (rem =? 0)), mkBucket rem (b_expiresAt b) (refreshing b))
  else ((false, negb (refreshing b)), mkBucket rem (b_expiresAt b) (refreshing b)).

Definition BeginRefill (b : Bucket) : bool * Bucket :=
  if refreshing b then (false, b)
  else (true, mkBucket (remaining b) (b_expiresAt b) true).

Definition Grant (permits : Z) (exp : time) (b : Bucket) : Bucket :=
  if 0 <? permits then mkBucket (wrap64 (remaining b + permits)) exp false
  else mkBucket (remaining b) (b_expiresAt b) false.

Definition AbandonRefill (b : Bucket) : Bucket := mkBucket (remaining b) (b_expiresAt b) false.

Definition Remaining (b : Bucket) : Z := remaining b.

(** ** Limiter (limits/limiter.go) *)
Definition Window : duration := Minute.
Definition DefaultLeaseSize : Z := 25.
Definition DefaultConcurrencySlack : duration := 5 * Minute.

Record Decision := mkDecision { Allowed : bool; Reason : Code; RetryAfter : duration }.
Definition allowed : Decision := mkDecision true "" 0.

Record Limiter := mkLimiter {
  lm_lease : Z;
  lm_buckets : gmap string Bucket;
  lm_concurrent : gmap string Z;
  lm_failedOpen : Z }.

(** What is left of the lease that brought the shared total to [used]. *)
Definition lease_grant (lease limit used : Z) : Z :=
  let overshoot := wrap64 (used - limit) in
  if lease <=? overshoot then 0
  else if 0 <? overshoot then wrap64 (lease - overshoot)
  else lease.

(** [atomic.Int64.Add]: the new value. *)
Definition slots_Add (slots d : Z) : Z := wrap64 (slots + d).

Definition acquireSlot (p : Principal) (l : Limiter) : bool * Limiter :=
  let slots := slots_Add (default 0 (lm_concurrent l !! p_KeyID p)) 1 in
  let set v := mkLimiter (lm_lease l) (lm_buckets l) (<[p_KeyID p := v]> (lm_concurrent l))
                 (lm_failedOpen l) in
  if MaxConcurrent (p_Limits p) <? slots then (false, set (slots_Add slots (-1)))
  else (true, set slots).

Definition releaseSlot (p : Principal) (l : Limiter) : Limiter :=
  match lm_concurrent l !! p_KeyID p with
  | None => l
  | Some slots =>
      let slots := slots_Add slots (-1) in
      mkLimiter (lm_lease l) (lm_buckets l)
        (<[p_KeyID p := if slots <? 0 then 0 else slots]> (lm_concurrent l)) (lm_failedOpen l)
  end.

Definition Release (p : Principal) (l : Limiter) : Limiter :=
  if 0 <? MaxConcurrent (p_Limits p) then releaseSlot p l else l.

Definition FailedOpen (l : Limiter) : Z := lm_failedOpen l.

Definition fail_open (l : Limiter) : Limiter :=
  mkLimiter (lm_lease l) (lm_buckets l) (lm_concurrent l) (wrap64 (lm_failedOpen l + 1)).

(** [l.buckets[key]], created empty on first use, and the write back through the pointer. *)
Definition bucket (key : string) (l : Limiter) : Bucket :=
  default empty_bucket (lm_buckets l !! key).
Definition set_bucket (key : string) (b : Bucket) (l : Limiter) : Limiter :=
  mkLimiter (lm_lease l) (<[key := b]> (lm_buckets l)) (lm_concurrent l) (lm_failedOpen l).

Section limiter.
Context {S : Type} `{!KVStore S} (clk : nat -> time).

(** The limiter, the store behind it, and the number of clock readings so far. *)
Record World := mkWorld { w_lim : Limiter; w_store : S; w_tick : nat }.

Definition WithLeaseSize (n : Z) (l : Limiter) : Limiter :=
  if 0 <? n then mkLimiter n (lm_buckets l) (lm_concurrent l) (lm_failedOpen l) else l.

Definition NewLimiter (store : option S) (opts : list (Limiter -> Limiter)) : error + World :=
  match store with
  | None => inl (New CodeInternal
                   "a limiter needs a store; use an in-process one for per-worker limits")
  | Some s =>
      inr (mkWorld (foldl (fun l opt => opt l) (mkLimiter DefaultLeaseSize ∅ ∅ 0) opts) s 0)
  end.

Definition now (w : World) : time * World :=
  (clk (w_tick w), mkWorld (w_lim w) (w_store w) (w_tick w + 1)).

Definition on_lim (f : Limiter -> Limiter) (w : World) : World :=
  mkWorld (f (w_lim w)) (w_store w) (w_tick w).

(** The store reads a clock of its own: one more reading. *)
Definition on_store {A} (f : time -> S -> A * S) (w : World) : A * World :=
  let '(a, s') := f (clk (w_tick w)) (w_store w) in
  (a, mkWorld (w_lim w) s' (w_tick w + 1)).

Definition key (p : Principal) (dimension : string) (w : World) : string * World :=
  let '(t, w) := now w in
  ("rl:" +:+ p_Tenant p +:+ ":" +:+ p_KeyID p +:+ ":" +:+ dimension +:+ ":"
     +:+ String.string_of_list_ascii (FormatInt (Unix (Truncate t Window))), w).

Definition windowEnd (w : World) : time * World :=
  let '(t, w) := now w in (Truncate t Window + Window, w).

Definition untilWindowRolls (w : World) : duration * World :=
  let '(stop, w) := windowEnd w in
  let '(t, w) := now w in
  let left := Sub stop t in
  (if left <? Second then Second else left, w).

Definition leaseFrom (k : string) (limit : Z) (w : World) : Z * World :=
  let lease := lm_lease (w_lim w) in
  let '(r, w) := on_store (fun t => kv_Incr t k lease (Window * 2)) w in
  match r with
  | inl _ => (lease, on_lim fail_open w)
  | inr used => (lease_grant lease limit used, w)
  end.

Definition take (k : string) (limit : Z) (w : World) : bool * World :=
  let '(t, w) := now w in
  let '((taken, shouldRefill), b) := Take t (bucket k (w_lim w)) in
  let w := on_lim (set_bucket k b) w in
  if negb shouldRefill then (taken, w) else
  let '(won, b) := BeginRefill (bucket k (w_lim w)) in
  let w := on_lim (set_bucket k b) w in
  if negb won then (taken, w) else
  let '(granted, w) := leaseFrom k limit w in
  let '(stop, w) := windowEnd w in
  let w := on_lim (fun l => set_bucket k (Grant granted stop (bucket k l)) l) w in
  if taken then (true, w) else
  let '(t, w) := now w in
  let '((again, _), b) := Take t (bucket k (w_lim w)) in
  (again, on_lim (set_bucket k b) w).

Definition windowSpent (k : string) (limit : Z) (w : World) : bool * World :=
  let '(r, w) := on_store (fun t => kv_Get t k) w in
  match r with
  | inl _ => (false, on_lim fail_open w)
  | inr None => (false, w)
  | inr (Some raw) =>
      match ParseInt raw with
      | inl _ => (false, w)
      | inr used => (limit <=? used, w)
      end
  end.

(** The refusal of a request over its window, its slot given back. *)
Definition refuse (p : Principal) (w : World) : Decision * World :=
  let w := on_lim (releaseSlot p) w in
  let '(ra, w) := untilWindowRolls w in
  (mkDecision false CodeRateLimited ra, w).

Definition Admit (p : Principal) (w : World) : Decision * World :=
  let lim := p_Limits p in
  if Unlimited lim then (allowed, w) else
  let '(slot, w) :=
    if 0 <? MaxConcurrent lim
    then let '(ok, l) := acquireSlot p (w_lim w) in (ok, mkWorld l (w_store w) (w_tick w))
    else (true, w) in
  if negb slot then (mkDecision false CodeRateLimited Second, w) else
  let '(rpm, w) :=
    if 0 <? RequestsPerMinute lim
    then let '(k, w) := key p "rpm" w in take k (RequestsPerMinute lim) w
    else (true, w) in
  if negb rpm then refuse p w else
  let '(spent, w) :=
    if 0 <? TokensPerMinute lim
    then let '(k, w) := key p "tpm" w in windowSpent k (TokensPerMinute lim) w
    else (false, w) in
  if spent then refuse p w else (allowed, w).

(** A failure to record is logged and otherwise ignored. *)
Definition RecordTokens (p : Principal) (tokens : Z) (w : World) : World :=
  if (TokensPerMinute (p_Limits p) =? 0) || (tokens <=? 0) then w
  else
    let '(k, w) := key p "tpm" w in
    (on_store (fun t => kv_Incr t k tokens (Window * 2)) w).2.
End limiter.

Arguments World : clear implicits.
Arguments mkWorld {S}.
