(* ===== verification/LimitsFacts.v ===== *)
(** * What rate limiting guarantees

    [Fleet]: every worker's requests for one counter key, interleaved at the granularity of the
    bucket's critical sections and the store's atomic increment; permits are conserved, so the
    fleet never admits more than the limit plus the leases it granted itself while the store
    was failing.  [Slots]: the in-flight count at the granularity of its atomic adds.
    Then the slot accounting of whole [Admit] calls. *)
From S2P Require Import Prelude Errors Core Strconv Kv Limits.
From Stdlib Require Import ZArith Lia Ascii.
From stdpp Require Import base gmap strings list relations.
Open Scope Z_scope.
Open Scope gw_scope.

(** ** One bucket *)

Lemma Take_permits t b taken should b' :
  Take t b = ((taken, should), b') -> 0 <= remaining b <= int64_max ->
  0 <= remaining b' <= int64_max
  /\ (if taken then 1 else 0) + remaining b' <= remaining b
  /\ (should = true -> refreshing b = false) /\ refreshing b' = refreshing b.
Proof.
  unfold Take. intros H Hr.
  destruct (After t (b_expiresAt b)); simpl in H; [simplify_eq/=; destruct (refreshing b); lia || naive_solver lia|].
  destruct (0 <? remaining b) eqn:E; zify_bools; simplify_eq/=.
  - rewrite wrap64_id by (unfold in_int64, int64_min, int64_max in *; lia).
    destruct (refreshing b); naive_solver lia.
  - destruct (refreshing b); naive_solver lia.
Qed.

Lemma Grant_permits g stop b :
  0 <= remaining b -> 0 <= g -> remaining b + g <= int64_max ->
  remaining (Grant g stop b) = remaining b + g.
Proof.
  intros Hr Hg Hm. unfold Grant. destruct (0 <? g) eqn:E; zify_bools; simpl; [|lia].
  apply wrap64_id. unfold in_int64, int64_min in *. lia.
Qed.

(** The permits a lease yields are exactly the part of it that falls inside the limit. *)
Lemma lease_grant_exact lease limit c :
  0 < lease -> 0 <= limit -> 0 <= c -> c + lease <= int64_max -> limit <= int64_max ->
  lease_grant lease limit (c + lease) = Z.min (c + lease) limit - Z.min c limit
  /\ 0 <= lease_grant lease limit (c + lease) <= lease.
Proof.
  intros. unfold lease_grant, int64_max in *.
  rewrite !wrap64_id by (unfold in_int64, int64_min, int64_max; lia).
  destruct (lease <=? _) eqn:E1; [zify_bools; lia|].
  destruct (0 <? _) eqn:E2; zify_bools; lia.
Qed.

(** ** The fleet on one counter key *)
Module Fleet.
Section fleet.
Context {S : Type} `{!KVStore S} {view : S -> string -> option entry} `{!KVLaws S view}.
Context (k : string) (limit lease : Z) (wstart : time).

(** Where a request is in [take]: each step below is one critical section or store call. *)
Inductive pc :=
| PTake
| PBegin (taken : bool)
| PLease (taken : bool)
| PGrant (taken : bool) (granted : Z)
| PAgain
| PDone (admitted : bool).

Record state := mkState {
  st_store : S;
  st_buckets : list Bucket;          (* one per worker *)
  st_reqs : list (nat * pc);         (* worker, progress *)
  st_failed : Z }.                   (* the alarms raised, over all workers *)

(** [leaseFrom] as the step of a request. *)
Definition lease_result (r : error + Z) : Z * Z :=
  match r with inl _ => (lease, 1) | inr used => (lease_grant lease limit used, 0) end.

Inductive step : state -> state -> Prop :=
| step_arrive st i b :
    st_buckets st !! i = Some b ->
    step st (mkState (st_store st) (st_buckets st) (st_reqs st ++ [(i, PTake)]) (st_failed st))
| step_take st r i b b' t taken should :
    st_reqs st !! r = Some (i, PTake) -> st_buckets st !! i = Some b ->
    Take t b = ((taken, should), b') ->
    step st (mkState (st_store st) (<[i := b']> (st_buckets st))
               (<[r := (i, if should then PBegin taken else PDone taken)]> (st_reqs st)) (st_failed st))
| step_begin st r i b b' taken won :
    st_reqs st !! r = Some (i, PBegin taken) -> st_buckets st !! i = Some b ->
    BeginRefill b = (won, b') ->
    step st (mkState (st_store st) (<[i := b']> (st_buckets st))
               (<[r := (i, if won then PLease taken else PDone taken)]> (st_reqs st)) (st_failed st))
| step_lease st r i taken t res s' :
    st_reqs st !! r = Some (i, PLease taken) ->
    wstart <= t <= wstart + Window * 2 ->
    kv_Incr t k lease (Window * 2) (st_store st) = (res, s') ->
    step st (mkState s' (st_buckets st)
               (<[r := (i, PGrant taken (lease_result res).1)]> (st_reqs st))
               (st_failed st + (lease_result res).2))
| step_grant st r i b taken granted stop :
    st_reqs st !! r = Some (i, PGrant taken granted) -> st_buckets st !! i = Some b ->
    step st (mkState (st_store st) (<[i := Grant granted stop b]> (st_buckets st))
               (<[r := (i, if taken then PDone true else PAgain)]> (st_reqs st)) (st_failed st))
| step_again st r i b b' t again should :
    st_reqs st !! r = Some (i, PAgain) -> st_buckets st !! i = Some b ->
    Take t b = ((again, should), b') ->
    step st (mkState (st_store st) (<[i := b']> (st_buckets st))
               (<[r := (i, PDone again)]> (st_reqs st)) (st_failed st))
| step_other st s' :
    (* the store serving other keys *)
    view s' k = view (st_store st) k ->
    step st (mkState s' (st_buckets st) (st_reqs st) (st_failed st)).

Definition init (s : S) (workers : nat) : state := mkState s (replicate workers empty_bucket) [] 0.

Definition admitted (st : state) : Z :=
  sumZ (fun r : nat * pc => match r.2 with PDone true => 1 | _ => 0 end) (st_reqs st).

(** Permits a request has in hand: the one it spends, and a lease not yet in the bucket. *)
Definition held (r : nat * pc) : Z :=
  match r.2 with
  | PTake | PAgain => 0
  | PBegin taken | PLease taken | PDone taken => if taken then 1 else 0
  | PGrant taken granted => (if taken then 1 else 0) + granted
  end.

Definition holds (st : state) : Z := sumZ held (st_reqs st) + sumZ remaining (st_buckets st).

(** The shared counter stands at [c] for the whole window. *)
Definition counts (s : S) (c : Z) : Prop :=
  (c = 0 /\ view s k = None)
  \/ exists exp, view s k = Some (mkEntry (FormatInt c) exp) /\ wstart + Window * 2 <= exp.

Record Inv (n : nat) (st : state) : Prop := {
  inv_counter : exists c, counts (st_store st) c /\ 0 <= c <= lease * Z.of_nat n
    /\ holds st <= Z.min c limit + lease * st_failed st;
  inv_failed : 0 <= st_failed st <= Z.of_nat n;
  inv_buckets : Forall (fun b => 0 <= remaining b) (st_buckets st);
  inv_reqs : Forall (fun r => 0 <= held r) (st_reqs st);
  inv_grants : Forall (fun r : nat * pc => match r.2 with PGrant _ g => 0 <= g | _ => True end)
                 (st_reqs st) }.

Hypothesis lease_pos : 0 < lease.
Hypothesis limit_nonneg : 0 <= limit.
Hypothesis wstart_pos : 0 < wstart.

(** An increment inside the window moves the counter, and a failed one may have. *)
Lemma counts_incr s c t res s' :
  counts s c -> 0 <= c -> c + lease <= int64_max -> wstart <= t <= wstart + Window * 2 ->
  kv_Incr t k lease (Window * 2) s = (res, s') ->
  match res with
  | inr used => used = c + lease /\ counts s' (c + lease)
  | inl _ => counts s' c \/ counts s' (c + lease)
  end.
Proof.
  intros Hc Hc0 Hmax Ht H.
  assert (Hslot : exists exp, incr_slot t lease (Window * 2) (view s k)
            = Some (c + lease, mkEntry (FormatInt (c + lease)) exp) /\ wstart + Window * 2 <= exp).
  { destruct Hc as [[-> Hv]|(exp & Hv & Hexp)]; rewrite Hv; unfold incr_slot.
    - simpl live. cbv beta iota zeta.
      rewrite wrap64_id by (unfold in_int64, int64_min; lia).
      eexists. split; [done|lia].
    - rewrite live_until by (simpl; lia). simpl value.
      rewrite ParseInt_FormatInt by (unfold in_int64, int64_min; lia).
      rewrite wrap64_id by (unfold in_int64, int64_min; lia). eauto. }
  destruct Hslot as (exp & Hslot & Hexp). destruct res as [err|used].
  - apply kv_incr_err in H as [Hv|(total & e & He & Hv)].
    + left. unfold counts. by rewrite Hv.
    + right. right. exists exp. rewrite Hslot in He. by simplify_eq.
  - apply kv_incr_ok in H as (e & He & Hv). rewrite Hslot in He. simplify_eq.
    split; [done|]. right. by exists exp.
Qed.

Lemma init_inv s workers : view s k = None -> Inv 0 (init s workers).
Proof.
  intros Hv. split; simpl; [exists 0|lia| |constructor|constructor].
  - split_and!; [by left|lia|lia|]. unfold holds. simpl.
    enough (sumZ remaining (replicate workers empty_bucket) = 0) by lia.
    induction workers; simpl; lia.
  - apply Forall_replicate. simpl. lia.
Qed.

(** Replacing one request and its worker's bucket: the permits in hand may not grow. *)
Lemma Inv_update n st r i old new b b' :
  Inv n st -> st_reqs st !! r = Some old -> st_buckets st !! i = Some b ->
  held new + remaining b' <= held old + remaining b ->
  0 <= remaining b' -> 0 <= held new -> match new.2 with PGrant _ g => 0 <= g | _ => True end ->
  Inv n (mkState (st_store st) (<[i := b']> (st_buckets st)) (<[r := new]> (st_reqs st)) (st_failed st)).
Proof.
  intros [(c & Hc & Hcb & Hh) Hf Hb Hr Hg] Hreq Hbuck Hle Hb' Hn Hgn.
  split; simpl; [|done|by apply Forall_insert|by apply Forall_insert|by apply Forall_insert].
  exists c. split_and!; [done|lia|lia|]. unfold holds in *. simpl.
  rewrite (sumZ_insert _ _ _ _ _ Hreq), (sumZ_insert _ _ _ _ _ Hbuck). lia.
Qed.

Lemma holds_bucket n st i b :
  Inv n st -> st_buckets st !! i = Some b -> 0 <= remaining b <= holds st.
Proof.
  intros H Hb. pose proof (sumZ_elem _ _ _ _ (inv_buckets _ _ H) Hb).
  pose proof (sumZ_nonneg _ _ (inv_reqs _ _ H)).
  pose proof (Forall_lookup_1 _ _ _ _ (inv_buckets _ _ H) Hb). unfold holds. simpl in *. lia.
Qed.

Lemma holds_max n st :
  Inv n st -> limit + lease * Z.of_nat n <= int64_max -> holds st <= int64_max.
Proof. intros [(c & _ & _ & Hh) Hf _ _ _] Hm. nia. Qed.

Lemma Inv_S n st : Inv n st -> Inv (Datatypes.S n) st.
Proof.
  intros [(c & Hc & Hcb & Hh) Hf Hb Hr Hg]. split; [exists c|lia|done..].
  split_and!; [done|lia|nia|done].
Qed.

Lemma Inv_lease n st r i taken t res s' :
  Inv n st -> limit + lease * Z.of_nat (Datatypes.S n) <= int64_max ->
  st_reqs st !! r = Some (i, PLease taken) -> wstart <= t <= wstart + Window * 2 ->
  kv_Incr t k lease (Window * 2) (st_store st) = (res, s') ->
  Inv (Datatypes.S n)
    (mkState s' (st_buckets st) (<[r := (i, PGrant taken (lease_result res).1)]> (st_reqs st))
       (st_failed st + (lease_result res).2)).
Proof.
  intros [(c & Hc & Hcb & Hh) Hf Hb Hr Hg] Hmax Hreq Ht Hi.
  pose proof (counts_incr _ _ _ _ _ Hc ltac:(lia) ltac:(nia) Ht Hi) as Hcnt.
  destruct (lease_grant_exact lease limit c) as [Hgr Hgb]; [lia..|nia|nia|].
  assert (Hheld : 0 <= held (i, PGrant taken (lease_result res).1) /\ 0 <= (lease_result res).1).
  { destruct res as [|used]; [|destruct Hcnt as [-> _]]; unfold held; simpl; destruct taken; lia. }
  destruct Hheld as [Hheld Hg0].
  split; simpl; [|destruct res; simpl; lia|done|by apply Forall_insert..].
  assert (Hsum : forall g, sumZ held (<[r:=(i, PGrant taken g)]> (st_reqs st))
                 = sumZ held (st_reqs st) + g).
  { intros g. rewrite (sumZ_insert _ _ _ _ _ Hreq). unfold held; simpl. lia. }
  unfold holds in *. simpl. rewrite Hsum.
  destruct res as [err|used]; simpl.
  - destruct Hcnt as [Hcnt|Hcnt]; [exists c|exists (c + lease)]; split_and!; try done; nia.
  - destruct Hcnt as [-> Hcnt]. exists (c + lease). split_and!; [done|nia|nia|]. lia.
Qed.

Lemma step_inv n st st' :
  Inv n st -> limit + lease * Z.of_nat (Datatypes.S n) <= int64_max -> step st st' ->
  Inv (Datatypes.S n) st'.
Proof.
  intros HI Hmax Hs. assert (Hm : holds st <= int64_max) by (eapply holds_max; [done|nia]).
  destruct Hs as [st i b Hb|st r i b b' t taken should Hr Hb HT|st r i b b' taken won Hr Hb HB
    |st r i taken t res s' Hr Ht Hi|st r i b taken g stop Hr Hb|st r i b b' t again should Hr Hb HT
    |st s' Hv].
  - apply Inv_S. destruct HI as [(c & Hc & Hcb & Hh) Hf Hbs Hr Hg].
    split; simpl; [|done|done|apply Forall_app_2; [done|]..];
      [|repeat constructor; done..].
    exists c. split_and!; [done|lia|lia|]. unfold holds in *. simpl. rewrite sumZ_app.
    unfold held at 2. simpl. lia.
  - apply Inv_S. pose proof (holds_bucket _ _ _ _ HI Hb).
    destruct (Take_permits _ _ _ _ _ HT) as (Hb' & Hle & _); [lia|].
    eapply Inv_update; [done..| | | |]; destruct should, taken; unfold held; simpl in *; done || lia.
  - apply Inv_S. pose proof (holds_bucket _ _ _ _ HI Hb).
    assert (remaining b' = remaining b) by (unfold BeginRefill in HB; by destruct (refreshing b); simplify_eq/=).
    eapply Inv_update; [done..| | | |]; destruct won, taken; unfold held; simpl in *; done || lia.
  - by eapply Inv_lease.
  - apply Inv_S. pose proof (holds_bucket _ _ _ _ HI Hb).
    assert (0 <= g) by exact (Forall_lookup_1 _ _ _ _ (inv_grants _ _ HI) Hr).
    assert (Hle : remaining b + g <= int64_max).
    { pose proof (sumZ_elem _ _ _ _ (inv_reqs _ _ HI) Hr) as H1.
      pose proof (sumZ_elem _ _ _ _ (inv_buckets _ _ HI) Hb).
      unfold holds in *. cbn [held snd] in H1. destruct taken; lia. }
    eapply Inv_update; [done..| | | |]; rewrite ?Grant_permits by lia;
      destruct taken; unfold held; simpl in *; done || lia.
  - apply Inv_S. pose proof (holds_bucket _ _ _ _ HI Hb).
    destruct (Take_permits _ _ _ _ _ HT) as (Hb' & Hle & _); [lia|].
    eapply Inv_update; [done..| | | |]; destruct again; unfold held; simpl in *; done || lia.
  - apply Inv_S. destruct HI as [(c & Hc & Hcb & Hh) Hf Hbs Hr Hg].
    split; simpl; [|done..]. exists c. split_and!; [|lia|lia|done].
    unfold counts in *. by rewrite Hv.
Qed.

Lemma nsteps_inv n s workers st :
  view s k = None -> limit + lease * Z.of_nat n <= int64_max ->
  nsteps step n (init s workers) st -> Inv n st.
Proof.
  intros Hv. revert st. induction n as [|n IH]; intros st Hmax Hn.
  - inversion Hn; subst. by apply init_inv.
  - apply nsteps_inv_r in Hn as (st1 & Hn & Hs). eapply step_inv; [|done|done]. apply IH; [nia|done].
Qed.

(** C5. However requests of any number of workers interleave on one rate-limit window, every
    bucket operation and store call in any order, the fleet never admits more requests than the
    limit plus one lease per alarm of a failing store; with no alarm, never more than the limit.
    (The bound on [n] rules out the 64-bit counter wrapping around.) *)
Theorem fleet_never_overadmits n s workers st :
  view s k = None -> limit + lease * Z.of_nat n <= int64_max ->
  nsteps step n (init s workers) st ->
  admitted st <= limit + lease * st_failed st.
Proof.
  intros Hv Hmax Hn. pose proof (nsteps_inv _ _ _ _ Hv Hmax Hn) as HI.
  assert (admitted st <= sumZ held (st_reqs st)).
  { apply sumZ_le. eapply Forall_impl; [exact (inv_reqs _ _ HI)|].
    intros [i [| | | | |[]]]; unfold held; simpl; lia. }
  pose proof (sumZ_nonneg _ _ (inv_buckets _ _ HI)).
  destruct HI as [(c & _ & _ & Hh) _ _ _ _]. unfold holds in Hh. lia.
Qed.
End fleet.
End Fleet.

(** One worker, a limit of one: the first request leases and is admitted. *)
Lemma fleet_demo_run :
  exists st, nsteps (Fleet.step (view := memkv.view) "k" 1 25 Minute) 6 (Fleet.init memkv.New 1) st
    /\ Fleet.admitted st = 1.
Proof.
  eexists. split.
  - eapply nsteps_l; [by eapply (Fleet.step_arrive _ _ _ _ _ 0%nat)|].
    eapply nsteps_l; [eapply (Fleet.step_take _ _ _ _ _ 0%nat _ _ _ Minute); reflexivity|].
    eapply nsteps_l; [eapply (Fleet.step_begin _ _ _ _ _ 0%nat); reflexivity|].
    eapply nsteps_l; [eapply (Fleet.step_lease _ _ _ _ _ 0%nat _ _ Minute);
                      [reflexivity|vm_compute; split; discriminate|reflexivity]|].
    eapply nsteps_l; [eapply (Fleet.step_grant _ _ _ _ _ 0%nat _ _ _ _ (Minute + Minute)); reflexivity|].
    eapply nsteps_l; [eapply (Fleet.step_again _ _ _ _ _ 0%nat _ _ _ Minute); reflexivity|].
    apply nsteps_O.
  - reflexivity.
Qed.

Lemma fleet_never_overadmits_witness :
  exists st, nsteps (Fleet.step (view := memkv.view) "k" 1 25 Minute) 6 (Fleet.init memkv.New 1) st
    /\ Fleet.admitted st = 1 /\ Fleet.admitted st <= 1 + 25 * Fleet.st_failed st.
Proof.
  destruct fleet_demo_run as (st & Hn & Ha). exists st. split_and!; [exact Hn|exact Ha|].
  apply (Fleet.fleet_never_overadmits (view := memkv.view) "k" 1 25 Minute) with (6%nat) memkv.New (1%nat);
    [lia|lia|reflexivity|reflexivity|vm_compute; discriminate|exact Hn].
Defined.

(** ** Concurrency slots *)
Module Slots.
Section slots.
Context (max : Z).

(** A request in [acquireSlot] and [releaseSlot], one atomic operation per step. *)
Inductive pc :=
| SNew             (* not yet counted *)
| SOver            (* counted past the maximum, about to back off *)
| SHold            (* in flight *)
| SClamp           (* released below zero, about to store zero *)
| SDone.

Record state := mkSt { count : Z; reqs : list pc }.

Inductive step : state -> state -> Prop :=
| step_arrive st : step st (mkSt (count st) (reqs st ++ [SNew]))
| step_acquire st r : reqs st !! r = Some SNew ->
    step st (mkSt (slots_Add (count st) 1)
               (<[r := if max <? slots_Add (count st) 1 then SOver else SHold]> (reqs st)))
| step_backoff st r : reqs st !! r = Some SOver ->
    step st (mkSt (slots_Add (count st) (-1)) (<[r := SDone]> (reqs st)))
| step_release st r : reqs st !! r = Some SHold ->
    step st (mkSt (slots_Add (count st) (-1))
               (<[r := if slots_Add (count st) (-1) <? 0 then SClamp else SDone]> (reqs st)))
| step_clamp st r : reqs st !! r = Some SClamp -> step st (mkSt 0 (<[r := SDone]> (reqs st))).

Definition counted (r : pc) : Z := match r with SOver | SHold => 1 | _ => 0 end.
Definition holding (r : pc) : Z := match r with SHold => 1 | _ => 0 end.
Definition in_flight (st : state) : Z := sumZ holding (reqs st).

Record Inv (n : nat) (st : state) : Prop := {
  inv_count : count st = sumZ counted (reqs st);
  inv_small : 0 <= count st <= Z.of_nat n;
  inv_max : in_flight st <= Z.max 0 max;
  inv_clamp : Forall (fun r => r <> SClamp) (reqs st) }.

Lemma holding_counted l : sumZ holding l <= sumZ counted l.
Proof. apply sumZ_le, Forall_forall. intros [] _; simpl; lia. Qed.

Lemma counted_here l r x : l !! r = Some x -> counted x <= sumZ counted l.
Proof. apply sumZ_elem, list.Forall_forall. intros [] _; simpl; lia. Qed.

Lemma slots_step_inv n st st' :
  Inv n st -> Z.of_nat (S n) <= int64_max -> step st st' -> Inv (S n) st'.
Proof.
  intros [Hc Hs Hm Hcl] Hn Hst. unfold in_flight in *.
  pose proof (holding_counted (reqs st)) as Hhc.
  destruct Hst as [st|st r Hr|st r Hr|st r Hr|st r Hr];
    [| |pose proof (counted_here _ _ _ Hr) as H1; simpl in H1..|];
    try (unfold slots_Add; rewrite wrap64_id by (unfold in_int64, int64_min; lia)).
  - split; unfold in_flight; simpl; rewrite ?sumZ_app; simpl; try lia.
    apply Forall_app_2; [done|by repeat constructor].
  - split; unfold in_flight; simpl; rewrite ?(sumZ_insert _ _ _ _ _ Hr);
      destruct (max <? count st + 1) eqn:E; zify_bools; simpl; try lia; by apply Forall_insert.
  - split; unfold in_flight; simpl; rewrite ?(sumZ_insert _ _ _ _ _ Hr); simpl; try lia.
    by apply Forall_insert.
  - rewrite (proj2 (Z.ltb_ge _ _)) by lia.
    split; unfold in_flight; simpl; rewrite ?(sumZ_insert _ _ _ _ _ Hr); simpl; try lia.
    by apply Forall_insert.
  - by destruct (Forall_lookup_1 _ _ _ _ Hcl Hr).
Qed.

Lemma slots_nsteps_inv n st : Z.of_nat n <= int64_max -> nsteps step n (mkSt 0 []) st -> Inv n st.
Proof.
  revert st. induction n as [|n IH]; intros st Hn H.
  - inversion H; subst. split; unfold in_flight; simpl; [lia..|constructor].
  - apply nsteps_inv_r in H as (st1 & H & Hs). eapply slots_step_inv; [apply IH; [lia|done]|done|done].
Qed.

(** However acquisitions, back-offs and releases interleave, a principal never has more
    requests in flight than its maximum, and once every request is done the count is back at
    zero: no slot leaks and the clamp is never reached. *)
Theorem slots_bounded n st :
  0 <= max -> Z.of_nat n <= int64_max -> nsteps step n (mkSt 0 []) st ->
  in_flight st <= max
  /\ (SClamp ∉ reqs st)
  /\ (Forall (fun r => r = SDone \/ r = SNew) (reqs st) -> count st = 0).
Proof.
  intros Hmax Hn H. destruct (slots_nsteps_inv _ _ Hn H) as [Hc Hs Hm Hcl].
  split_and!; [lia| |].
  - intros Hin. rewrite list.Forall_forall in Hcl. by apply (Hcl _ Hin).
  - intros Hd. rewrite Hc. clear -Hd. induction Hd as [|x l [Hx|Hx] _ IH]; simpl; [done|rewrite Hx; simpl; lia..].
Qed.
End slots.

Lemma slots_bounded_witness :
  exists st, nsteps (step 1) 5 (mkSt 0 []) st /\ reqs st = [SHold; SDone] /\ in_flight st <= 1.
Proof.
  exists (mkSt 1 [SHold; SDone]).
  assert (Hn : nsteps (step 1) 5 (mkSt 0 []) (mkSt 1 [SHold; SDone])).
  { eapply nsteps_l; [apply step_arrive|]. eapply nsteps_l; [apply step_arrive|].
    eapply nsteps_l; [by apply (step_acquire _ _ 0)|].
    eapply nsteps_l; [by apply (step_acquire _ _ 1)|].
    eapply nsteps_l; [by apply (step_backoff _ _ 1)|]. apply nsteps_O. }
  split_and!; [exact Hn|done|].
  apply (slots_bounded 1 5 (mkSt 1 [SHold; SDone])); [lia|done|exact Hn].
Defined.
End Slots.

(** ** Whole [Admit] calls *)
Section admission.
Context {S : Type} `{!KVStore S} (clk : nat -> time).
Implicit Types (w : World S) (p : Principal).

Definition slots_of (k : KeyID) (l : Limiter) : Z := default 0 (lm_concurrent l !! k).

Lemma leaseFrom_concurrent k limit w :
  lm_concurrent (w_lim (leaseFrom clk k limit w).2) = lm_concurrent (w_lim w).
Proof.
  unfold leaseFrom, on_store. destruct (kv_Incr _ _ _ _ _) as [[] s']; done.
Qed.

Lemma take_concurrent k limit w :
  lm_concurrent (w_lim (Limits.take clk k limit w).2) = lm_concurrent (w_lim w).
Proof.
  unfold Limits.take. cbn [now]. destruct (Take _ _) as [[taken should] b].
  destruct should; [|done]. cbn [negb]. destruct (BeginRefill _) as [[] b1]; [|done]. cbn [negb].
  match goal with |- context [leaseFrom clk k limit ?w0] =>
    pose proof (leaseFrom_concurrent k limit w0) as Hl; destruct (leaseFrom clk k limit w0) as [g w1] end.
  cbn [windowEnd now]. destruct taken; [exact Hl|].
  destruct (Take _ _) as [[again ?] b2]. simpl in *. by rewrite Hl.
Qed.

Lemma windowSpent_concurrent k limit w :
  lm_concurrent (w_lim (windowSpent clk k limit w).2) = lm_concurrent (w_lim w).
Proof.
  unfold windowSpent, on_store. destruct (kv_Get _ _ _) as [[|[raw|]] s']; [done| |done].
  by destruct (ParseInt raw).
Qed.

Lemma untilWindowRolls_bounds w : Second <= (untilWindowRolls clk w).1.
Proof.
  unfold untilWindowRolls. cbn [windowEnd now]. simpl.
  destruct (Sub _ _ <? Second) eqn:E; zify_bools; lia.
Qed.

Lemma refuse_spec p w :
  Allowed (refuse clk p w).1 = false /\ Reason (refuse clk p w).1 = CodeRateLimited
  /\ Second <= RetryAfter (refuse clk p w).1
  /\ lm_concurrent (w_lim (refuse clk p w).2) = lm_concurrent (releaseSlot p (w_lim w)).
Proof.
  unfold refuse. pose proof (untilWindowRolls_bounds (on_lim (releaseSlot p) w)) as H.
  destruct (untilWindowRolls clk (on_lim (releaseSlot p) w)) as [ra w1] eqn:E.
  split_and!; [done..|exact H|].
  unfold untilWindowRolls, windowEnd, now in E. by simplify_eq/=.
Qed.

(** The two window checks leave the in-flight counts alone; then [Admit] either allows or
    refuses from there. *)
Lemma Admit_split p w :
  Unlimited (p_Limits p) = false ->
  let '(slot, w1) :=
    if 0 <? MaxConcurrent (p_Limits p)
    then let '(ok, l) := acquireSlot p (w_lim w) in (ok, mkWorld l (w_store w) (w_tick w))
    else (true, w) in
  if slot then
    exists w2, lm_concurrent (w_lim w2) = lm_concurrent (w_lim w1)
      /\ (Admit clk p w = (allowed, w2) \/ Admit clk p w = refuse clk p w2)
  else Admit clk p w = (mkDecision false CodeRateLimited Second, w1).
Proof.
  intros Hu. unfold Admit. rewrite Hu.
  destruct (if 0 <? MaxConcurrent (p_Limits p) then _ else _) as [[] w1]; [|done]. cbn [negb].
  destruct (if 0 <? RequestsPerMinute (p_Limits p) then _ else _) as [rpm w2] eqn:E2.
  assert (H2 : lm_concurrent (w_lim w2) = lm_concurrent (w_lim w1)).
  { destruct (0 <? RequestsPerMinute (p_Limits p)); [|by simplify_eq].
    cbn [key now] in E2. by rewrite (surjective_pairing (Limits.take _ _ _ _)) in E2; simplify_eq;
      rewrite take_concurrent. }
  destruct rpm; [|exists w2; split; [done|by right]]. cbn [negb].
  destruct (if 0 <? TokensPerMinute (p_Limits p) then _ else _) as [spent w3] eqn:E3.
  assert (H3 : lm_concurrent (w_lim w3) = lm_concurrent (w_lim w1)).
  { destruct (0 <? TokensPerMinute (p_Limits p)); [|by simplify_eq].
    cbn [key now] in E3. by rewrite (surjective_pairing (windowSpent _ _ _ _)) in E3; simplify_eq;
      rewrite windowSpent_concurrent. }
  exists w3. destruct spent; [split; [done|by right]|split; [done|by left]].
Qed.

Lemma acquireSlot_spec p l :
  0 <= slots_of (p_KeyID p) l < int64_max ->
  lm_concurrent (acquireSlot p l).2
  = <[p_KeyID p := slots_of (p_KeyID p) l + (if (acquireSlot p l).1 then 1 else 0)]> (lm_concurrent l)
  /\ ((acquireSlot p l).1 = true <-> slots_of (p_KeyID p) l < MaxConcurrent (p_Limits p)).
Proof.
  intros Hs. unfold acquireSlot. fold (slots_of (p_KeyID p) l). unfold slots_Add.
  rewrite (wrap64_id (_ + 1)) by (unfold in_int64, int64_min; lia).
  destruct (MaxConcurrent (p_Limits p) <? _) eqn:E; zify_bools; simpl.
  - rewrite wrap64_id by (unfold in_int64, int64_min; lia). split; [f_equal; lia|split; [done|lia]].
  - split; [done|split; [lia|done]].
Qed.

Lemma releaseSlot_spec p l v :
  lm_concurrent l !! p_KeyID p = Some v -> 0 < v <= int64_max ->
  lm_concurrent (releaseSlot p l) = <[p_KeyID p := v - 1]> (lm_concurrent l).
Proof.
  intros Hl Hv. unfold releaseSlot, slots_Add. rewrite Hl. simpl.
  rewrite wrap64_id by (unfold in_int64, int64_min; lia).
  rewrite (proj2 (Z.ltb_ge _ _)) by lia. f_equal.
Qed.

Definition at_key (p : Principal) (k : KeyID) : Z := if bool_decide (k = p_KeyID p) then 1 else 0.

Lemma slots_of_insert p l l' v :
  lm_concurrent l' = <[p_KeyID p := slots_of (p_KeyID p) l + v]> (lm_concurrent l) ->
  forall k, slots_of k l' = slots_of k l + v * at_key p k.
Proof.
  intros Hl k. unfold slots_of at 1, at_key. rewrite Hl. case_bool_decide as Hk.
  - subst. rewrite lookup_insert_eq. simpl. lia.
  - rewrite lookup_insert_ne by done. fold (slots_of k l). lia.
Qed.

(** Giving a slot back. *)
Lemma releaseSlot_held p l k :
  0 < slots_of (p_KeyID p) l <= int64_max -> slots_of k (releaseSlot p l) = slots_of k l - at_key p k.
Proof.
  intros Hv. unfold slots_of in Hv. destruct (lm_concurrent l !! p_KeyID p) as [v|] eqn:E; simpl in Hv; [|lia].
  rewrite (slots_of_insert p l (releaseSlot p l) (-1)); [lia|].
  rewrite (releaseSlot_spec _ _ v) by done. unfold slots_of. by rewrite E.
Qed.

Lemma releaseSlot_le p l k :
  0 <= slots_of (p_KeyID p) l <= int64_max -> slots_of k (releaseSlot p l) <= slots_of k l.
Proof.
  intros Hv. destruct (decide (0 < slots_of (p_KeyID p) l)) as [Hp|Hp].
  - rewrite releaseSlot_held by lia. unfold at_key. case_bool_decide; lia.
  - unfold releaseSlot. destruct (lm_concurrent l !! p_KeyID p) as [v|] eqn:E; [|done].
    assert (slots_of (p_KeyID p) l = v) by (unfold slots_of; by rewrite E). assert (v = 0) as -> by lia.
    unfold slots_of at 1. simpl. destruct (decide (k = p_KeyID p)) as [->|Hk].
    + rewrite lookup_insert_eq. simpl. lia.
    + by rewrite lookup_insert_ne.
Qed.

Lemma Release_slots p l k :
  0 < MaxConcurrent (p_Limits p) -> 0 < slots_of (p_KeyID p) l <= int64_max ->
  slots_of k (Release p l) = slots_of k l - at_key p k.
Proof. intros Hm Hs. unfold Release. rewrite (proj2 (Z.ltb_lt _ _)) by done. by apply releaseSlot_held. Qed.

(** Admission of a principal with a concurrency limit. *)
Lemma Admit_bounded p w d w' :
  0 < MaxConcurrent (p_Limits p) -> 0 <= slots_of (p_KeyID p) (w_lim w) < int64_max ->
  Admit clk p w = (d, w') ->
  (forall k, slots_of k (w_lim w') = slots_of k (w_lim w) + (if Allowed d then at_key p k else 0))
  /\ if Allowed d then slots_of (p_KeyID p) (w_lim w) < MaxConcurrent (p_Limits p)
     else Reason d = CodeRateLimited /\ Second <= RetryAfter d.
Proof.
  intros Hmax Hs H.
  assert (Hu : Unlimited (p_Limits p) = false).
  { unfold Unlimited. apply andb_false_iff. right. apply Z.eqb_neq. lia. }
  pose proof (Admit_split p w Hu) as Ha. rewrite (proj2 (Z.ltb_lt _ _)) in Ha by done.
  destruct (acquireSlot_spec p (w_lim w) Hs) as [Hl Hok].
  destruct (acquireSlot p (w_lim w)) as [ok l]. simpl in Hl, Hok. pose proof (slots_of_insert _ _ _ _ Hl) as Hk.
  destruct ok; simpl in Ha.
  - destruct Ha as (w2 & Hw2 & Ha). assert (Hk2 : forall k, slots_of k (w_lim w2) = slots_of k (w_lim w) + at_key p k).
    { intros k. unfold slots_of at 1. rewrite Hw2. fold (slots_of k l). rewrite Hk. lia. }
    destruct Ha as [Ha|Ha]; rewrite Ha in H; clear Ha.
    + simplify_eq/=. split; [done|by apply Hok].
    + destruct (refuse_spec p w2) as (H1 & H2 & H3 & H4). rewrite H in *. simpl in *. rewrite H1.
      split; [|done]. intros k. unfold slots_of at 1. rewrite H4. fold (slots_of k (releaseSlot p (w_lim w2))).
      assert (slots_of (p_KeyID p) (w_lim w2) = slots_of (p_KeyID p) (w_lim w) + 1).
      { rewrite Hk2. unfold at_key. by rewrite bool_decide_true. }
      rewrite releaseSlot_held, Hk2 by lia. lia.
  - rewrite Ha in H. simplify_eq/=. split; [|split; [done|lia]]. intros k. rewrite Hk. lia.
Qed.

(** Admission of a principal without one. *)
Lemma Admit_unbounded p w d w' :
  MaxConcurrent (p_Limits p) <= 0 -> 0 <= slots_of (p_KeyID p) (w_lim w) <= int64_max ->
  Admit clk p w = (d, w') ->
  forall k, if Allowed d then slots_of k (w_lim w') = slots_of k (w_lim w)
            else slots_of k (w_lim w') <= slots_of k (w_lim w).
Proof.
  intros Hmax Hs H k. destruct (Unlimited (p_Limits p)) eqn:Hu.
  { unfold Admit in H. rewrite Hu in H. by simplify_eq/=. }
  pose proof (Admit_split p w Hu) as Ha. rewrite (proj2 (Z.ltb_ge _ _)) in Ha by done.
  destruct Ha as (w2 & Hw2 & [Ha|Ha]); rewrite Ha in H; clear Ha.
  - simplify_eq/=. unfold slots_of. by rewrite Hw2.
  - destruct (refuse_spec p w2) as (H1 & _ & _ & H4). rewrite H in *. simpl in *. rewrite H1.
    unfold slots_of at 1. rewrite H4. fold (slots_of k (releaseSlot p (w_lim w2))).
    assert (E : forall k, slots_of k (w_lim w2) = slots_of k (w_lim w)) by (intros; unfold slots_of; by rewrite Hw2).
    rewrite <- E. apply releaseSlot_le. by rewrite E.
Qed.

Lemma RecordTokens_slots p n w k :
  slots_of k (w_lim (RecordTokens clk p n w)) = slots_of k (w_lim w).
Proof.
  unfold RecordTokens. destruct (_ || _); [done|]. cbn [key now]. unfold on_store.
  by destruct (kv_Incr _ _ _ _ _).
Qed.

(** Slot accounting of one admission for a principal with a concurrency limit: an allowed
    request takes exactly one slot, within the limit, and [Release] gives exactly that slot
    back; a refused request, whichever limit refused it, leaves every in-flight count as it
    was and reports [rate_limited] with at least a second to wait. *)
Theorem Admit_slot_accounting p w d w' :
  0 < MaxConcurrent (p_Limits p) -> 0 <= slots_of (p_KeyID p) (w_lim w) < int64_max ->
  Admit clk p w = (d, w') ->
  (Allowed d = true ->
     slots_of (p_KeyID p) (w_lim w') = slots_of (p_KeyID p) (w_lim w) + 1
     /\ slots_of (p_KeyID p) (w_lim w') <= MaxConcurrent (p_Limits p)
     /\ (forall k, slots_of k (Release p (w_lim w')) = slots_of k (w_lim w)))
  /\ (Allowed d = false ->
        Reason d = CodeRateLimited /\ Second <= RetryAfter d
        /\ (forall k, slots_of k (w_lim w') = slots_of k (w_lim w))).
Proof.
  intros Hmax Hs H. destruct (Admit_bounded _ _ _ _ Hmax Hs H) as [Hk Hd].
  split; intros Ha; rewrite Ha in *.
  - assert (Hone : slots_of (p_KeyID p) (w_lim w') = slots_of (p_KeyID p) (w_lim w) + 1).
    { rewrite Hk. unfold at_key. by rewrite bool_decide_true. }
    split_and!; [done|lia|]. intros k. rewrite Release_slots, Hk by lia. lia.
  - destruct Hd. split_and!; [done..|]. intros k. rewrite Hk. lia.
Qed.
End admission.

(** ** Demonstrations *)
Definition limited (tenant key : string) (rl : RateLimit) : Principal :=
  mkPrincipal key tenant "" "" "" "" [] (mkAllowlist true []) [] "" TrustUnset rl false 0.

Definition fresh_limiter : World memkv.Store := mkWorld (mkLimiter 25 ∅ ∅ 0) memkv.New 0.

Lemma Admit_slot_accounting_witness :
  let p := limited "t" "k" (mkRateLimit 10 0 2) in
  let r := Admit (fun _ => Hour) p fresh_limiter in
  Allowed r.1 = true /\ slots_of "k" (w_lim r.2) = 1
  /\ slots_of "k" (Release p (w_lim r.2)) = 0.
Proof.
  set (p := limited "t" "k" (mkRateLimit 10 0 2)). set (r := Admit (fun _ => Hour) p fresh_limiter).
  assert (Ha : Allowed r.1 = true) by (vm_compute; reflexivity).
  destruct (Admit_slot_accounting (fun _ => Hour) p fresh_limiter r.1 r.2) as [H _];
    [reflexivity|vm_compute; split; congruence|apply surjective_pairing|].
  destruct (H Ha) as (H1 & _ & H3). split_and!; [exact Ha|exact H1|exact (H3 "k")].
Defined.

(** A request refused for its rate gives back a slot even when its principal has no concurrency
    limit and took none.  In-flight counts are kept per key id alone, so with two tenants using
    the same key id the slot it gives back is the other tenant's: a second request of that
    tenant is then admitted past its maximum of one. *)
Lemma refusal_releases_unheld_slot :
  let a := limited "tenant-a" "k" (mkRateLimit 0 0 1) in
  let b := limited "tenant-b" "k" (mkRateLimit 1 0 0) in
  let clk := fun _ : nat => Hour in
  let r1 := Admit clk a fresh_limiter in
  let r2 := Admit clk b r1.2 in
  let r3 := Admit clk b r2.2 in
  let r4 := Admit clk a r3.2 in
  Allowed (Admit clk a r2.2).1 = false
  /\ Allowed r3.1 = false /\ Allowed r4.1 = true.
Proof. vm_compute. done. Qed.
