(* ===== verification/Breaker.v ===== *)
(** * Circuit breaker (router/breaker.go)

    Every method runs under the breaker's mutex, so concurrent use is some sequence of whole
    operations: the theorems quantify over all of them.  A clock reading is an argument. *)
From S2P Require Import Prelude.
From Stdlib Require Import ZArith Lia.
From stdpp Require Import base list sets.
Open Scope Z_scope.

Inductive bstate := closed | open | halfOpen.

#[export] Instance bstate_eq_dec : EqDecision bstate.
Proof. solve_decision. Defined.

Definition DefaultFailureThreshold : Z := 5.
Definition DefaultCooldown : duration := 10 * Second.
Definition DefaultHalfOpenSuccesses : Z := 2.

Record Breaker := mkBreaker {
  failureThreshold : Z;
  cooldown : duration;
  halfOpenSuccesses : Z;
  br_state : bstate;
  failures : Z;
  successes : Z;
  openedAt : time;
  probeInFlight : bool }.

Definition BreakerOption := Breaker -> Breaker.

Definition WithFailureThreshold (n : Z) : BreakerOption := fun b =>
  if 0 <? n then mkBreaker n (cooldown b) (halfOpenSuccesses b) (br_state b) (failures b)
                   (successes b) (openedAt b) (probeInFlight b)
  else b.

Definition WithCooldown (d : duration) : BreakerOption := fun b =>
  if 0 <? d then mkBreaker (failureThreshold b) d (halfOpenSuccesses b) (br_state b) (failures b)
                   (successes b) (openedAt b) (probeInFlight b)
  else b.

Definition NewBreaker (opts : list BreakerOption) : Breaker :=
  foldl (fun b opt => opt b)
    (mkBreaker DefaultFailureThreshold DefaultCooldown DefaultHalfOpenSuccesses closed 0 0 0 false)
    opts.

(** The fields the methods assign. *)
Definition with_state (b : Breaker) (s : bstate) (fails succs : Z) (since : time) (probe : bool) : Breaker :=
  mkBreaker (failureThreshold b) (cooldown b) (halfOpenSuccesses b) s fails succs since probe.

Definition Allow (now : time) (b : Breaker) : bool * Breaker :=
  match br_state b with
  | closed => (true, b)
  | open =>
      if Sub now (openedAt b) <? cooldown b then (false, b)
      else (true, with_state b halfOpen (failures b) 0 (openedAt b) true)
  | halfOpen =>
      if probeInFlight b then (false, b)
      else (true, with_state b halfOpen (failures b) (successes b) (openedAt b) true)
  end.

Definition Succeed (b : Breaker) : Breaker :=
  match br_state b with
  | halfOpen =>
      let succs := wrap64 (successes b + 1) in
      if halfOpenSuccesses b <=? succs then with_state b closed 0 0 (openedAt b) false
      else with_state b halfOpen 0 succs (openedAt b) false
  | s => with_state b s 0 (successes b) (openedAt b) false
  end.

Definition Fail_ (now : time) (b : Breaker) : Breaker :=
  match br_state b with
  | halfOpen => with_state b open (failures b) 0 now false
  | s =>
      let fails := wrap64 (failures b + 1) in
      if failureThreshold b <=? fails then with_state b open 0 (successes b) now false
      else with_state b s fails (successes b) (openedAt b) false
  end.

Definition Open_ (now : time) (b : Breaker) : bool :=
  bool_decide (br_state b = open) && (Sub now (openedAt b) <? cooldown b).

(** ** Histories *)

Inductive op := OAllow (t : time) | OSucceed | OFail (t : time).

Definition apply_op (b : Breaker) (o : op) : Breaker :=
  match o with
  | OAllow t => (Allow t b).2
  | OSucceed => Succeed b
  | OFail t => Fail_ t b
  end.

Definition run (tr : list op) (b : Breaker) : Breaker := foldl apply_op b tr.

Definition is_fail (o : op) : Z := match o with OFail _ => 1 | _ => 0 end.

(** [n] failures in the history with no success among them. *)
Definition fail_run (n : Z) (tr : list op) : Prop :=
  exists pre mid post, tr = pre ++ mid ++ post /\ (OSucceed ∉ mid) /\ sumZ is_fail mid = n.

(** Configuration is fixed at construction and positive. *)
Definition configured (b : Breaker) : Prop :=
  0 < failureThreshold b <= int64_max /\ 0 < cooldown b /\ 0 < halfOpenSuccesses b <= int64_max.

(** ** Lemmas *)

Lemma apply_op_config b o :
  failureThreshold (apply_op b o) = failureThreshold b /\ cooldown (apply_op b o) = cooldown b
  /\ halfOpenSuccesses (apply_op b o) = halfOpenSuccesses b.
Proof.
  destruct o; unfold apply_op, Allow, Succeed, Fail_, with_state; break_match_goal; done.
Qed.

Lemma run_config tr b :
  failureThreshold (run tr b) = failureThreshold b /\ cooldown (run tr b) = cooldown b
  /\ halfOpenSuccesses (run tr b) = halfOpenSuccesses b.
Proof.
  revert b. induction tr as [|o tr IH]; intros b; [done|].
  change (run (o :: tr) b) with (run tr (apply_op b o)).
  destruct (IH (apply_op b o)) as (-> & -> & ->). apply apply_op_config.
Qed.

Lemma run_app tr1 tr2 b : run (tr1 ++ tr2) b = run tr2 (run tr1 b).
Proof. apply foldl_app. Qed.

Lemma fail_run_app n tr tr' : fail_run n tr -> fail_run n (tr ++ tr').
Proof.
  intros (pre & mid & post & -> & Hs & Hf). exists pre, mid, (post ++ tr').
  by rewrite <- !app_assoc.
Qed.

(** What the recorded count stands for: the failures since the last success, if the breaker is
    closed; otherwise the threshold has been reached at some point. *)
Definition accounted (tr : list op) (b : Breaker) : Prop :=
  match br_state b with
  | closed => 0 <= failures b < failureThreshold b
      /\ exists pre mid, tr = pre ++ mid /\ (OSucceed ∉ mid) /\ sumZ is_fail mid = failures b
  | _ => fail_run (failureThreshold b) tr
  end.

Lemma accounted_step tr b o :
  configured b -> accounted tr b -> accounted (tr ++ [o]) (apply_op b o).
Proof.
  intros (Hth & _ & _) Ha. unfold accounted in *.
  destruct (br_state b) eqn:E.
  - destruct Ha as (Hf & pre & mid & -> & Hs & Hm).
    destruct o as [t| |t]; simpl; unfold Allow, Succeed, Fail_; rewrite E; simpl.
    + rewrite E. split; [done|]. exists pre, (mid ++ [OAllow t]).
      rewrite sumZ_app, <- app_assoc. split_and!; [done|set_solver|simpl; lia].
    + split; [lia|]. exists (pre ++ mid ++ [OSucceed]), [].
      rewrite app_nil_r, <- app_assoc. split_and!; [done|set_solver|done].
    + rewrite wrap64_id by (unfold in_int64, int64_min; lia).
      destruct (failureThreshold b <=? failures b + 1) eqn:E2; zify_bools; simpl.
      * exists pre, (mid ++ [OFail t]), []. rewrite app_nil_r, sumZ_app, <- app_assoc.
        split_and!; [done|set_solver|simpl; lia].
      * split; [lia|]. exists pre, (mid ++ [OFail t]). rewrite sumZ_app, <- app_assoc.
        split_and!; [done|set_solver|simpl; lia].
  - apply (fail_run_app _ _ [o]) in Ha.
    destruct o as [t| |t]; simpl; unfold Allow, Succeed, Fail_; rewrite E; simpl; break_match_goal; congruence || done.
  - apply (fail_run_app _ _ [o]) in Ha.
    destruct o as [t| |t]; simpl; unfold Allow, Succeed, Fail_; rewrite E; simpl;
      try (break_match_goal; congruence || done).
    destruct (halfOpenSuccesses b <=? _); [|done]. simpl. split; [lia|].
    exists (tr ++ [OSucceed]), []. rewrite app_nil_r. split_and!; [done|set_solver|done].
Qed.

Lemma accounted_run tr b :
  configured b -> br_state b = closed -> failures b = 0 -> accounted tr (run tr b).
Proof.
  intros Hc Hs Hf. induction tr as [|o tr IH] using rev_ind.
  - unfold accounted. simpl. rewrite Hs, Hf. split; [destruct Hc; lia|].
    exists [], []. split_and!; [done|set_solver|done].
  - rewrite run_app. apply accounted_step; [|done].
    unfold configured in *. destruct (run_config tr b) as (-> & -> & ->). done.
Qed.

(** A breaker never turns a request away on a whim: whatever sequence of admissions,
    successes and failures a freshly built breaker has seen, if it refuses now then at some
    point as many failures as its threshold were recorded with no success between them; and
    while it is open it refuses exactly until the cooldown has passed. *)
Theorem refuses_only_after_threshold tr b now :
  configured b -> br_state b = closed -> failures b = 0 ->
  ((Allow now (run tr b)).1 = false -> fail_run (failureThreshold b) tr)
  /\ (br_state (run tr b) = open ->
        (Allow now (run tr b)).1 = negb (Sub now (openedAt (run tr b)) <? cooldown b)).
Proof.
  intros Hc Hs Hf. pose proof (accounted_run tr b Hc Hs Hf) as Ha. unfold accounted in Ha.
  destruct (run_config tr b) as (Hth & Hcd & _).
  unfold Allow. destruct (br_state (run tr b)) eqn:E; rewrite ?Hth, ?Hcd in *.
  - split; [done|done].
  - split; [done|]. intros _. by destruct (_ <? _).
  - split; [done|done].
Qed.

Lemma refuses_only_after_threshold_witness :
  let b := NewBreaker [WithFailureThreshold 2] in
  let tr := [OFail 1; OSucceed; OFail 2; OAllow 3; OFail 4] in
  (Allow 5 (run tr b)).1 = false /\ fail_run 2 tr.
Proof.
  set (b := NewBreaker [WithFailureThreshold 2]).
  set (tr := [OFail 1; OSucceed; OFail 2; OAllow 3; OFail 4]).
  assert (Hr : (Allow 5 (run tr b)).1 = false) by reflexivity.
  split; [exact Hr|].
  apply (refuses_only_after_threshold tr b 5); [vm_compute; repeat split; congruence|done|done|exact Hr].
Defined.

Lemma Allow_blocked b now :
  br_state b = halfOpen -> probeInFlight b = true -> Allow now b = (false, b).
Proof. intros Hs Hp. unfold Allow. by rewrite Hs, Hp. Qed.

Lemma run_blocked b tr :
  br_state b = halfOpen -> probeInFlight b = true ->
  Forall (fun o => exists t, o = OAllow t) tr -> run tr b = b.
Proof.
  intros Hs Hp. induction 1 as [|o tr [t ->] _ IH]; [done|].
  change (run (OAllow t :: tr) b) with (run tr (Allow t b).2). by rewrite Allow_blocked.
Qed.

(** The state a cooled-down breaker's first admission leaves. *)
Lemma Allow_cooled b now :
  br_state b = open -> cooldown b <= Sub now (openedAt b) ->
  Allow now b = (true, with_state b halfOpen (failures b) 0 (openedAt b) true).
Proof. intros Hs Hc. unfold Allow. rewrite Hs, (proj2 (Z.ltb_ge _ _)) by lia. done. Qed.

(** [k] probes that succeed, the next one admitted at [u] after each. *)
Fixpoint succeed_probes (k : nat) (u : time) (b : Breaker) : Breaker :=
  match k with
  | O => b
  | S k' => Succeed (Allow u (succeed_probes k' u b)).2
  end.

Lemma succeed_probes_half_open k u b :
  configured b -> br_state b = halfOpen -> successes b = 0 -> Z.of_nat k < halfOpenSuccesses b ->
  halfOpenSuccesses (succeed_probes k u b) = halfOpenSuccesses b
  /\ br_state (succeed_probes k u b) = halfOpen /\ successes (succeed_probes k u b) = Z.of_nat k.
Proof.
  intros (_ & _ & Hmax) Hs H0. induction k as [|k IH]; intros Hk; [done|].
  destruct IH as (Hc & Hst & Hsu); [lia|]. cbn [succeed_probes].
  assert (Hal : br_state (Allow u (succeed_probes k u b)).2 = halfOpen
            /\ successes (Allow u (succeed_probes k u b)).2 = Z.of_nat k
            /\ halfOpenSuccesses (Allow u (succeed_probes k u b)).2 = halfOpenSuccesses b).
  { unfold Allow. rewrite Hst. by destruct (probeInFlight _). }
  destruct Hal as (Ha1 & Ha2 & Ha3). unfold Succeed. rewrite Ha1, Ha2, Ha3.
  rewrite wrap64_id by (unfold in_int64, int64_min; lia).
  rewrite (proj2 (Z.leb_gt _ _)) by lia. simpl. split_and!; [done|done|lia].
Qed.

Lemma succeed_probes_closes k u b :
  configured b -> br_state b = halfOpen -> successes b = 0 -> Z.of_nat k = halfOpenSuccesses b ->
  br_state (succeed_probes k u b) = closed.
Proof.
  intros Hc Hs H0 Hk. destruct k as [|k]; [destruct Hc; lia|].
  destruct (succeed_probes_half_open k u b) as (Hh & Hst & Hsu); [done..|lia|]. cbn [succeed_probes].
  unfold Succeed, Allow. rewrite Hst. destruct Hc as (_ & _ & Hmax).
  destruct (probeInFlight _); simpl; rewrite ?Hst, Hh, Hsu;
    rewrite wrap64_id by (unfold in_int64, int64_min; lia);
    rewrite (proj2 (Z.leb_le _ _)) by lia; done.
Qed.

(** Recovery.  Once the cooldown of an open breaker has passed exactly one probe gets
    through: every other admission asked for while it is in flight is refused, however many and
    whenever.  Its failure opens the breaker again and restarts the cooldown; its success
    admits one further probe at a time; and the breaker closes after exactly as many
    successful probes as configured. *)
Theorem half_open_single_probe b t0 others t k :
  configured b -> br_state b = open -> cooldown b <= Sub t0 (openedAt b) ->
  Forall (fun o => exists u, o = OAllow u) others ->
  (Allow t0 b).1 = true
  /\ (Allow t (run others (Allow t0 b).2)).1 = false
  /\ (br_state (Fail_ t (run others (Allow t0 b).2)) = open
      /\ openedAt (Fail_ t (run others (Allow t0 b).2)) = t)
  /\ (Z.of_nat k < halfOpenSuccesses b ->
        br_state (succeed_probes k t (run others (Allow t0 b).2)) = halfOpen)
  /\ (Z.of_nat k = halfOpenSuccesses b ->
        br_state (succeed_probes k t (run others (Allow t0 b).2)) = closed).
Proof.
  intros Hc Hs Hcd Hoth. rewrite (Allow_cooled _ _ Hs Hcd). cbn [fst snd].
  rewrite run_blocked by done.
  split_and!; [done|done|done|done| |]; intros Hk.
  - by apply succeed_probes_half_open.
  - by apply succeed_probes_closes.
Qed.

Lemma half_open_single_probe_witness :
  let b := run [OFail 1] (NewBreaker [WithFailureThreshold 1]) in
  let p := run [OAllow 5; OAllow 6] (Allow (11 * Second) b).2 in
  (Allow (11 * Second) b).1 = true /\ (Allow (12 * Second) p).1 = false
  /\ br_state (succeed_probes 2 (12 * Second) p) = closed.
Proof.
  set (b := run [OFail 1] (NewBreaker [WithFailureThreshold 1])).
  destruct (half_open_single_probe b (11 * Second) [OAllow 5; OAllow 6] (12 * Second) 2) as (H1 & H2 & _ & _ & H3);
    [vm_compute; repeat split; congruence|reflexivity|vm_compute; congruence
    |repeat constructor; eauto|split_and!; [exact H1|exact H2|exact (H3 eq_refl)]].
Defined.
