(* ===== verification/Float64.v ===== *)
(** * Go's float64

    IEEE 754 binary64 as the Standard Library specifies it ([SpecFloat], 53 bits of precision,
    round to nearest even), without fused multiply-add.  The comparison is shown to be the
    lexicographic order of a key, which makes it a total preorder away from NaN. *)
From S2P Require Import Prelude.
From Stdlib Require Import ZArith Lia SpecFloat.
From stdpp Require Import base list.
Open Scope Z_scope.

Definition float64 := spec_float.

Definition prec64 : Z := 53.
Definition emax64 : Z := 1024.

Definition fadd : float64 -> float64 -> float64 := SFadd prec64 emax64.
Definition fsub : float64 -> float64 -> float64 := SFsub prec64 emax64.
Definition fmul : float64 -> float64 -> float64 := SFmul prec64 emax64.
Definition fdiv : float64 -> float64 -> float64 := SFdiv prec64 emax64.
Definition fneg : float64 -> float64 := SFopp.

(** [float64(i)] for an integer. *)
Definition of_int (z : Z) : float64 := binary_normalize prec64 emax64 z 0 false.

(** The constant [n/d], correctly rounded. *)
Definition ratio (n d : Z) : float64 := fdiv (of_int n) (of_int d).

Definition flt (a b : float64) : bool := SFltb a b.
Definition fle (a b : float64) : bool := SFleb a b.
Definition fgt (a b : float64) : bool := SFltb b a.

Definition is_nan (f : float64) : bool := match f with S754_nan => true | _ => false end.

(** [math.Min] and [math.Max]: NaN if either is, and they order the zeros. *)
Definition fmin (a b : float64) : float64 :=
  match a, b with
  | S754_infinity true, _ | _, S754_infinity true => S754_infinity true
  | S754_nan, _ | _, S754_nan => S754_nan
  | S754_zero sa, S754_zero sb => S754_zero (orb sa sb)
  | _, _ => if flt a b then a else b
  end.
Definition fmax (a b : float64) : float64 :=
  match a, b with
  | S754_infinity false, _ | _, S754_infinity false => S754_infinity false
  | S754_nan, _ | _, S754_nan => S754_nan
  | S754_zero sa, S754_zero sb => S754_zero (andb sa sb)
  | _, _ => if fgt a b then a else b
  end.

(** [Duration.Seconds]: whole seconds plus the fraction. *)
Definition Seconds (d : duration) : float64 :=
  fadd (of_int (Z.quot d Second)) (fdiv (of_int (Z.rem d Second)) (of_int 1000000000)).

(** ** The order *)

(** Class of the value, then exponent, then mantissa, the last two reversed below zero. *)
Definition fkey (f : float64) : Z * Z * Z :=
  match f with
  | S754_infinity true => (-2, 0, 0)
  | S754_finite true m e => (-1, - e, - Z.pos m)
  | S754_zero _ => (0, 0, 0)
  | S754_finite false m e => (1, e, Z.pos m)
  | S754_infinity false => (2, 0, 0)
  | S754_nan => (3, 0, 0)
  end.

Definition key_lt (a b : Z * Z * Z) : Prop :=
  a.1.1 < b.1.1 \/ (a.1.1 = b.1.1 /\ (a.1.2 < b.1.2 \/ (a.1.2 = b.1.2 /\ a.2 < b.2))).

Lemma flt_key a b :
  is_nan a = false -> is_nan b = false -> flt a b = true <-> key_lt (fkey a) (fkey b).
Proof.
  intros Ha Hb. unfold flt, SFltb, SFcompare, key_lt.
  destruct a as [[]|[]| |[] m e], b as [[]|[]| |[] m' e']; try discriminate; cbn [fkey fst snd];
    try (split; intros; first [lia|discriminate|reflexivity]).
  all: destruct (Z.compare_spec e e'); try (split; intros; first [lia|discriminate|reflexivity]).
  all: change (Pcompare m m' Eq) with (Pos.compare m m') in *;
    destruct (Pos.compare_spec m m'); cbn [CompOpp];
    split; intros; first [lia|discriminate|reflexivity].
Qed.

Lemma flt_nan a b : is_nan a = true \/ is_nan b = true -> flt a b = false.
Proof. destruct a as [| | |], b as [| | |]; simpl; intuition discriminate. Qed.

Lemma flt_not_nan a b : flt a b = true -> is_nan a = false /\ is_nan b = false.
Proof.
  intros H. destruct (is_nan a) eqn:Ea; [rewrite flt_nan in H; [done|by left]|].
  destruct (is_nan b) eqn:Eb; [rewrite flt_nan in H; [done|by right]|]. done.
Qed.

Lemma flt_trans a b c : flt a b = true -> flt b c = true -> flt a c = true.
Proof.
  intros H1 H2. destruct (flt_not_nan _ _ H1), (flt_not_nan _ _ H2).
  rewrite flt_key in * by done. unfold key_lt in *. lia.
Qed.

Lemma flt_irrefl a : flt a a = false.
Proof.
  destruct (is_nan a) eqn:E; [apply flt_nan; by left|].
  apply not_true_is_false. rewrite flt_key by done. unfold key_lt. lia.
Qed.

(** Not being below is transitive away from NaN. *)
Lemma fge_trans a b c :
  is_nan a = false -> is_nan b = false -> is_nan c = false ->
  flt a b = false -> flt b c = false -> flt a c = false.
Proof.
  intros Ha Hb Hc H1 H2. apply not_true_iff_false in H1, H2. apply not_true_iff_false.
  rewrite flt_key in * by done. unfold key_lt in *. lia.
Qed.

Lemma flt_asym a b : flt a b = true -> flt b a = false.
Proof.
  intros H. apply not_true_is_false. intros H2.
  pose proof (flt_trans _ _ _ H H2) as H3. by rewrite flt_irrefl in H3.
Qed.
