(* ===== verification/Format.v ===== *)
(** * Rendered text (fmt, strconv.Quote, time.Duration; core/errors.go)

    What the transport shows of an error: [fmt.Sprintf] on the verbs the source uses, Go's quoted
    strings, durations written and read back, and the text of an [Error].  Which runes beyond
    ASCII are printable is a table of the Unicode standard and an argument here. *)
From S2P Require Import Prelude Errors Strconv Text Json Float64 Snapshot.
From Stdlib Require Import ZArith Lia Ascii SpecFloat.
From stdpp Require Import base gmap strings list.
Open Scope Z_scope.
Open Scope gw_scope.

Definition text (s : string) : list ascii := String.list_ascii_of_string s.

(** ** Durations *)

(** [fmtFrac]: the digits of [v mod 10^prec] after a point, without trailing zeros. *)
Fixpoint fmtFrac (prec : nat) (v : Z) (tail : list ascii) (print : bool) : list ascii :=
  match prec with
  | O => if print then "."%char :: tail else tail
  | S p =>
      let digit := v mod 10 in
      let print := print || negb (digit =? 0) in
      fmtFrac p (v / 10) (if print then digit_char digit :: tail else tail) print
  end.

Definition fixed (v : Z) (prec : nat) (unit : list ascii) : list ascii :=
  FormatInt (v / 10 ^ Z.of_nat prec) ++ fmtFrac prec v [] false ++ unit.

Definition micro : list ascii := [zb 194; zb 181; "s"%char].

(** [Duration.String]. *)
Definition Duration_String (d : duration) : list ascii :=
  let u := Z.abs d in
  let sign := if d <? 0 then ["-"%char] else [] in
  if u =? 0 then text "0s"
  else if u <? 1000 then sign ++ fixed u 0 (text "ns")
  else if u <? Millisecond then sign ++ fixed u 3 micro
  else if u <? Second then sign ++ fixed u 6 (text "ms")
  else
    let s := u / Second in
    let seconds := FormatInt (s mod 60) ++ fmtFrac 9 u [] false ++ text "s" in
    let m := s / 60 in
    if m =? 0 then sign ++ seconds
    else if m / 60 =? 0 then sign ++ FormatInt m ++ text "m" ++ seconds
    else sign ++ FormatInt (m / 60) ++ text "h" ++ FormatInt (m mod 60) ++ text "m" ++ seconds.

(** [leadingInt]: the digits at the start, refused above 2^63. *)
Definition two63 : Z := 9223372036854775808.
Fixpoint leadingInt (x : Z) (s : list ascii) : option (Z * list ascii) :=
  match s with
  | c :: s' =>
      if negb (is_digit c) then Some (x, s)
      else if two63 / 10 <? x then None
      else let x := x * 10 + digit_val c in if two63 <? x then None else leadingInt x s'
  | [] => Some (x, [])
  end.

(** [leadingFraction]: digits past what 63 bits hold are dropped. *)
Fixpoint leadingFraction (x : Z) (scale : float64) (overflow : bool) (s : list ascii)
    : Z * float64 * list ascii :=
  match s with
  | c :: s' =>
      if negb (is_digit c) then (x, scale, s)
      else if overflow then leadingFraction x scale true s'
      else if int64_max / 10 <? x then leadingFraction x scale true s'
      else let y := x * 10 + digit_val c in
           if two63 <? y then leadingFraction x scale true s'
           else leadingFraction y (fmul scale (of_int 10)) false s'
  | [] => (x, scale, [])
  end.

Definition unitMap : list (list ascii * Z) :=
  [(text "ns", 1); (text "us", 1000); (micro, 1000); ([zb 206; zb 188; "s"%char], 1000);
   (text "ms", Millisecond); (text "s", Second); (text "m", Minute); (text "h", Hour)].

(** The unit: everything up to the next digit or point. *)
Fixpoint span_unit (s : list ascii) : list ascii * list ascii :=
  match s with
  | c :: s' => if Ascii.eqb c "." || is_digit c then ([], s)
               else let '(u, rest) := span_unit s' in (c :: u, rest)
  | [] => ([], [])
  end.

(** A float64 truncated to an integer. *)
Definition trunc (f : float64) : Z :=
  match f with
  | S754_finite s m e =>
      let v := if 0 <=? e then Z.pos m * 2 ^ e else Z.pos m / 2 ^ (- e) in if s then - v else v
  | _ => 0
  end.

(** One number with its unit. *)
Definition parse_term (s : list ascii) : option (Z * list ascii) :=
  match s with
  | c :: _ =>
      if negb (Ascii.eqb c "." || is_digit c) then None else
      match leadingInt 0 s with
      | None => None
      | Some (v, s1) =>
          let pre := negb (Nat.eqb (length s1) (length s)) in
          let '(f, scale, s2, post) :=
            match s1 with
            | p :: s' => if Ascii.eqb p "."
                         then let '(f, scale, s2) := leadingFraction 0 (of_int 1) false s' in
                              (f, scale, s2, negb (Nat.eqb (length s2) (length s')))
                         else (0, of_int 1, s1, false)
            | [] => (0, of_int 1, s1, false)
            end in
          if negb pre && negb post then None else
          let '(u, s3) := span_unit s2 in
          match list_find (fun p => p.1 = u) unitMap with
          | Some (_, (_, unit)) =>
              if two63 / unit <? v then None else
              let v := v * unit in
              let v := if 0 <? f then v + trunc (fmul (of_int f) (fdiv (of_int unit) scale)) else v in
              if two63 <? v then None else Some (v, s3)
          | None => None
          end
      end
  | [] => None
  end.

(** Each term consumes a byte at least: the length bounds the terms. *)
Fixpoint parse_terms (fuel : nat) (d : Z) (s : list ascii) : option Z :=
  match s, fuel with
  | [], _ => Some d
  | _, O => None
  | _, S n =>
      match parse_term s with
      | None => None
      | Some (v, rest) =>
          let d := (d + v) mod 18446744073709551616 in
          if two63 <? d then None else parse_terms n d rest
      end
  end.

(** [time.ParseDuration]. *)
Definition ParseDuration (s : list ascii) : option duration :=
  let '(neg, s) := match s with
                   | c :: s' => if Ascii.eqb c "-" || Ascii.eqb c "+" then (Ascii.eqb c "-", s') else (false, s)
                   | [] => (false, s)
                   end in
  if bool_decide (s = text "0") then Some 0
  else match s with
       | [] => None
       | _ => match parse_terms (length s) 0 s with
              | None => None
              | Some d => if neg then Some (- d) else if int64_max <? d then None else Some d
              end
       end.

(** ** Sprintf *)

Section printing.
Context (isPrint : Z -> bool).

Definition hex2 (r : Z) : list ascii := [lower_hex (r / 16 mod 16); lower_hex (r mod 16)].

(** [strconv.appendEscapedRune] with the double quote. *)
Definition appendEscapedRune (r : Z) : list ascii :=
  if (r =? bz dquote) || (r =? bz backslash) then [backslash; zb r]
  else if (if r <? 128 then within 32 r 126 else isPrint r) then EncodeRune r
  else if r =? 7 then [backslash; "a"%char]
  else if r =? 8 then [backslash; "b"%char]
  else if r =? 12 then [backslash; "f"%char]
  else if r =? 10 then [backslash; "n"%char]
  else if r =? 13 then [backslash; "r"%char]
  else if r =? 9 then [backslash; "t"%char]
  else if r =? 11 then [backslash; "v"%char]
  else if (r <? 32) || (r =? 127) then [backslash; "x"%char] ++ hex2 r
  else if r <? 65536 then u_escape r
  else [backslash; "U"%char] ++ hex2 (r / 16777216) ++ hex2 (r / 65536) ++ hex2 (r / 256) ++ hex2 r.

(** [strconv.Quote]. *)
Definition Quote (s : list ascii) : list ascii :=
  [dquote]
  ++ concat (map (fun p => if (p.1 =? RuneError) && Nat.eqb (length p.2) 1
                           then [backslash; "x"%char] ++ hex2 (from_option bz 0 (head p.2))
                           else appendEscapedRune p.1) (runes s))
  ++ [dquote].

(** One verb with its argument. *)
Definition verb (c : ascii) (a : fmt_arg) : list ascii :=
  match a with
  | AStr s => if Ascii.eqb c "q" then Quote (text s) else text s
  | AInt z => FormatInt z
  | ADur d => Duration_String d
  end.

Fixpoint Sprintf (format : list ascii) (args : list fmt_arg) : list ascii :=
  match format with
  | [] => []
  | c :: rest =>
      if Ascii.eqb c "%" then
        match rest with
        | v :: rest' =>
            if Ascii.eqb v "%" then v :: Sprintf rest' args
            else match args with
                 | a :: args' => verb v a ++ Sprintf rest' args'
                 | [] => text "%!" ++ v :: text "(MISSING)" ++ Sprintf rest' []
                 end
        | [] => text "%!(NOVERB)"
        end
      else c :: Sprintf rest args
  end.

(** The [Message] of an error: [New] and [Wrap] take it as it is. *)
Definition render (m : message) : list ascii :=
  match msg_args m with [] => text (msg_format m) | args => Sprintf (text (msg_format m)) args end.

(** [Error.Error]. *)
Fixpoint Error_Error (e : error) : list ascii :=
  match e with
  | Foreign t _ => text t
  | GwError code msg _ cause =>
      match render msg, cause with
      | [], None => text code
      | m, None => text code ++ text ": " ++ m
      | [], Some c => text code ++ text ": " ++ Error_Error c
      | m, Some c => text code ++ text ": " ++ m ++ text ": " ++ Error_Error c
      end
  end.

(** [LayerVersion.String]. *)
Definition LayerVersion_String (v : LayerVersion) : list ascii :=
  Sprintf (text "%d@%s") [AInt (Number v); AStr (Digest v)].
End printing.

(** ** Lemmas *)

(** The durations a limiter answers with, written and read back. *)
Definition whole_seconds (n : nat) : list Z := map (fun k => Z.of_nat k * Second) (seq 0 n).

Lemma seconds_roundtrip :
  forallb (fun d => bool_decide (ParseDuration (Duration_String d) = Some d)
                    && (trunc (Seconds d) =? d / Second)) (whole_seconds 61) = true.
Proof. vm_compute. reflexivity. Qed.

Lemma seconds_read_back k :
  0 <= k <= 60 ->
  ParseDuration (Duration_String (k * Second)) = Some (k * Second)
  /\ trunc (Seconds (k * Second)) = k.
Proof.
  intros Hk. pose proof seconds_roundtrip as H. rewrite forallb_forall in H.
  assert (Hin : In (k * Second) (whole_seconds 61)).
  { unfold whole_seconds. apply in_map_iff. exists (Z.to_nat k). rewrite in_seq, Z2Nat.id by lia. split; [done|lia]. }
  apply H in Hin. zify_bools. split; [done|].
  etrans; [eassumption|]. by apply Z.div_mul.
Qed.

Example durations :
  Duration_String 0 = text "0s" /\ Duration_String 1500 = text "1.5" ++ micro
  /\ Duration_String (Hour + 30 * Second + 250000000) = text "1h0m30.25s"
  /\ ParseDuration (text "1h0m30.25s") = Some (Hour + 30 * Second + 250000000)
  /\ ParseDuration (text "1.5") = None.
Proof. vm_compute. split_and!; reflexivity. Qed.
