(* ===== verification/Sha256.v ===== *)
(** * Hashing (crypto/sha256, crypto/hmac; core/identity.go, pii/transform.go)

    SHA-256 of FIPS 180-4 and HMAC of RFC 2104 on lists of bytes, executable, with the published test
    values; and what the program computes with them: the lookup a key's secret is filed under and the
    short hash in a placeholder.  Other files take these functions as arguments, so that what they
    prove holds of any; this one supplies the real ones.  Words are integers below 2^32, every
    addition and shift reduced. *)
From S2P Require Import Prelude Core Wire Codec Text Format.
From Stdlib Require Import ZArith Lia Ascii.
From stdpp Require Import base gmap strings list.
Open Scope Z_scope.
Open Scope gw_scope.

Definition word_size : Z := 4294967296.
Definition w32 (z : Z) : Z := z mod word_size.
Definition rotr (n x : Z) : Z := Z.lor (Z.shiftr x n) (w32 (Z.shiftl x (32 - n))).
Definition xor3 (a b c : Z) : Z := Z.lxor a (Z.lxor b c).

Definition choose (x y z : Z) : Z := Z.lxor (Z.land x y) (Z.land (word_size - 1 - x) z).
Definition majority (x y z : Z) : Z := xor3 (Z.land x y) (Z.land x z) (Z.land y z).
Definition big0 (x : Z) : Z := xor3 (rotr 2 x) (rotr 13 x) (rotr 22 x).
Definition big1 (x : Z) : Z := xor3 (rotr 6 x) (rotr 11 x) (rotr 25 x).
Definition small0 (x : Z) : Z := xor3 (rotr 7 x) (rotr 18 x) (Z.shiftr x 3).
Definition small1 (x : Z) : Z := xor3 (rotr 17 x) (rotr 19 x) (Z.shiftr x 10).

(** ** Constants

    The first 32 bits of the fractional parts of the square and cube roots of the first primes. *)
Definition is_prime (n : nat) : bool := forallb (fun d => negb (Nat.eqb (n mod d) 0)) (seq 2 (n - 2)).
Definition primes : list Z := Z.of_nat <$> filter (fun n => is_prime n = true) (seq 2 310).

(** The integer cube root, bit by bit. *)
Definition cube_root (n : Z) : Z :=
  foldl (fun r i => let r' := r + Z.shiftl 1 (Z.of_nat i) in if r' * r' * r' <=? n then r' else r) 0 (rev (seq 0 36)).

Definition initial : list Z := Eval vm_compute in (fun p => w32 (Z.sqrt (Z.shiftl p 64))) <$> take 8 primes.
Definition round_constants : list Z := Eval vm_compute in (fun p => w32 (cube_root (Z.shiftl p 96))) <$> take 64 primes.

(** ** Blocks *)

(** Big-endian bytes of a word, [n] of them. *)
Fixpoint be_bytes (n : nat) (z : Z) : bytes :=
  match n with O => [] | S n' => be_bytes n' (z / 256) ++ [zb (z mod 256)] end.
Definition be_word (b : bytes) : Z := foldl (fun z c => 256 * z + bz c) 0 b.

(** A one bit, zeros, and the length in bits, up to a whole number of blocks. *)
Definition padding (len : nat) : bytes :=
  zb 128 :: repeat (zb 0) (Z.to_nat ((55 - Z.of_nat len) mod 64)) ++ be_bytes 8 (8 * Z.of_nat len).
Definition padded (m : bytes) : bytes := m ++ padding (length m).

Fixpoint chunks (count size : nat) (b : bytes) : list bytes :=
  match count with O => [] | S c => take size b :: chunks c size (drop size b) end.
Definition blocks (m : bytes) : list bytes := let p := padded m in chunks (length p / 64) 64 p.

(** The schedule, latest word first. *)
Definition extend (ws : list Z) : list Z :=
  w32 (small1 (nth 1 ws 0) + nth 6 ws 0 + small0 (nth 14 ws 0) + nth 15 ws 0) :: ws.
Definition schedule (block : bytes) : list Z := rev (Nat.iter 48 extend (rev (be_word <$> chunks 16 4 block))).

Record chain := mkChain { ca : Z; cb : Z; cc : Z; cd : Z; ce : Z; cf : Z; cg : Z; ch : Z }.

Definition round (s : chain) (kw : Z * Z) : chain :=
  let t1 := ch s + big1 (ce s) + choose (ce s) (cf s) (cg s) + kw.1 + kw.2 in
  let t2 := big0 (ca s) + majority (ca s) (cb s) (cc s) in
  mkChain (w32 (t1 + t2)) (ca s) (cb s) (cc s) (w32 (cd s + t1)) (ce s) (cf s) (cg s).

Definition compress (s : chain) (block : bytes) : chain :=
  let r := foldl round s (zip round_constants (schedule block)) in
  mkChain (w32 (ca s + ca r)) (w32 (cb s + cb r)) (w32 (cc s + cc r)) (w32 (cd s + cd r))
    (w32 (ce s + ce r)) (w32 (cf s + cf r)) (w32 (cg s + cg r)) (w32 (ch s + ch r)).

Definition start : chain :=
  let h i := nth i initial 0 in mkChain (h 0%nat) (h 1%nat) (h 2%nat) (h 3%nat) (h 4%nat) (h 5%nat) (h 6%nat) (h 7%nat).
Definition chain_bytes (s : chain) : bytes :=
  [ca s; cb s; cc s; cd s; ce s; cf s; cg s; ch s] ≫= be_bytes 4.

(** [sha256.Sum256]. *)
Definition Sum256 (m : bytes) : bytes := chain_bytes (foldl compress start (blocks m)).

(** ** HMAC *)

Definition block_key (key : bytes) : bytes :=
  let k := if (64 <? length key)%nat then Sum256 key else key in k ++ repeat (zb 0) (64 - length k).
Definition xor_with (v : Z) (b : bytes) : bytes := (fun c => zb (Z.lxor (bz c) v)) <$> b.

(** [hmac.New(sha256.New, key)], one write, [Sum]. *)
Definition HMAC (key m : bytes) : bytes :=
  let k := block_key key in Sum256 (xor_with 92 k ++ Sum256 (xor_with 54 k ++ m)).

(** ** What the program computes *)

(** [core.ComputeKeyLookup]. *)
Definition ComputeKeyLookup (pepper : bytes) (secret : string) : KeyLookup := HMAC pepper (text secret).
(** The digest in [pii.hashValue]. *)
Definition short_hash (pepper value : bytes) : bytes := take 12 (text (hexEncode (HMAC pepper value))).

(** ** Published values *)

Example sha_empty : hexEncode (Sum256 []) = "e3b0c44298fc1c149afbf4c8996fb92427ae41e4649b934ca495991b7852b855".
Proof. vm_compute. reflexivity. Qed.
Example sha_abc : hexEncode (Sum256 (text "abc")) = "ba7816bf8f01cfea414140de5dae2223b00361a396177a9cb410ff61f20015ad".
Proof. vm_compute. reflexivity. Qed.
Example sha_two_blocks :
  hexEncode (Sum256 (text "abcdbcdecdefdefgefghfghighijhijkijkljklmklmnlmnomnopnopq"))
  = "248d6a61d20638b8e5c026930c3e6039a33ce45964ff2167f6ecedd419db06c1".
Proof. vm_compute. reflexivity. Qed.
Example hmac_rfc4231_1 :
  hexEncode (HMAC (repeat (zb 11) 20) (text "Hi There")) = "b0344c61d8db38535ca8afceaf0bf12b881dc200c9833da726e9376c2e32cff7".
Proof. vm_compute. reflexivity. Qed.
Example hmac_rfc4231_2 :
  hexEncode (HMAC (text "Jefe") (text "what do ya want for nothing?")) = "5bdcc146bf60754e6a042426089575c75a003f089d2739839dec58b964ec3843".
Proof. vm_compute. reflexivity. Qed.
Example hmac_rfc4231_6 :
  hexEncode (HMAC (repeat (zb 170) 131) (text "Test Using Larger Than Block-Size Key - Hash Key First"))
  = "60e431591ee0b67f0d8a26aacbf5b77f8e0bc6213728c5140546040f0ee37f54".
Proof. vm_compute. reflexivity. Qed.

(** ** Facts *)

Lemma be_bytes_length n z : length (be_bytes n z) = n.
Proof. revert z. induction n as [|n IH]; intros z; cbn [be_bytes]; [done|]. rewrite length_app, IH. cbn. lia. Qed.

Lemma Sum256_length m : length (Sum256 m) = 32%nat.
Proof.
  unfold Sum256, chain_bytes. generalize (foldl compress start (blocks m)). intros s. cbn -[be_bytes].
  by rewrite !length_app, !be_bytes_length.
Qed.

Lemma HMAC_length key m : length (HMAC key m) = 32%nat.
Proof. apply Sum256_length. Qed.

(** A lookup fills the array it is kept in. *)
Lemma ComputeKeyLookup_length pepper secret : length (ComputeKeyLookup pepper secret) = KeyLookup_size.
Proof. apply HMAC_length. Qed.

Lemma hexEncode_length b : length (text (hexEncode b)) = (2 * length b)%nat.
Proof.
  unfold text, hexEncode. rewrite String.list_ascii_of_string_of_list_ascii.
  induction b as [|c b IH]; [done|]. rewrite bind_cons, length_app, IH. cbn. lia.
Qed.

Lemma short_hash_length pepper value : length (short_hash pepper value) = 12%nat.
Proof. unfold short_hash. rewrite length_take, hexEncode_length, HMAC_length. lia. Qed.

(** *** Padding *)

Lemma be_bytes_inj n z z' :
  0 <= z < 256 ^ Z.of_nat n -> 0 <= z' < 256 ^ Z.of_nat n -> be_bytes n z = be_bytes n z' -> z = z'.
Proof.
  revert z z'. induction n as [|n IH]; intros z z' Hz Hz' E; [cbn in *; lia|].
  rewrite Nat2Z.inj_succ, Z.pow_succ_r in Hz, Hz' by lia. cbn [be_bytes] in E.
  apply app_inj_2 in E as [E1 E2]; [|done]. injection E2 as E2. apply (f_equal bz) in E2.
  rewrite !bz_zb in E2 by (apply Z.mod_pos_bound; lia).
  assert (z / 256 = z' / 256).
  { apply IH; [| |done]; (split; [apply Z.div_pos; lia|apply Z.div_lt_upper_bound; lia]). }
  rewrite (Z.div_mod z 256), (Z.div_mod z' 256) by lia. congruence.
Qed.

(** A message with its padding is a whole number of blocks. *)
Lemma padded_whole m : (length (padded m) mod 64 = 0)%nat.
Proof.
  unfold padded, padding. rewrite length_app. cbn [length]. rewrite length_app, repeat_length, be_bytes_length.
  pose proof (Z.mod_pos_bound (55 - Z.of_nat (length m)) 64 ltac:(lia)) as Hb.
  pose proof (Z.div_mod (55 - Z.of_nat (length m)) 64 ltac:(lia)) as Hd.
  set (k := (55 - Z.of_nat (length m)) mod 64) in *. set (q := (55 - Z.of_nat (length m)) / 64) in *.
  apply Nat.Div0.mod_divides. exists (Z.to_nat (1 - q)). lia.
Qed.

(** Two messages of a length the count can express are padded apart. *)
Lemma padded_inj m m' :
  Z.of_nat (length m) < 2 ^ 61 -> Z.of_nat (length m') < 2 ^ 61 -> padded m = padded m' -> m = m'.
Proof.
  intros Hm Hm' E.
  assert (Hd : forall b, drop (length (padded b) - 8) (padded b) = be_bytes 8 (8 * Z.of_nat (length b))).
  { intros b. unfold padded, padding. change (zb 128 :: ?r ++ ?t) with ((zb 128 :: r) ++ t). rewrite app_assoc.
    rewrite drop_app_length'; [done|]. rewrite (length_app _ (be_bytes _ _)), be_bytes_length. lia. }
  assert (He : be_bytes 8 (8 * Z.of_nat (length m)) = be_bytes 8 (8 * Z.of_nat (length m'))) by (by rewrite <- !Hd, E).
  apply be_bytes_inj in He; [|lia..]. unfold padded in E. apply app_inj_1 in E as [E _]; [done|lia].
Qed.

(** *** Collisions *)

(** The two inputs of the hash to look at when two messages have one keyed hash: those of the inner
    hash if it is where they meet, those of the outer one otherwise. *)
Definition suspects (key m m' : bytes) : bytes * bytes :=
  let k := block_key key in
  let inner b := xor_with 54 k ++ b in
  let outer b := xor_with 92 k ++ Sum256 (inner b) in
  if decide (Sum256 (inner m) = Sum256 (inner m')) then (inner m, inner m') else (outer m, outer m').
Definition collide (b : bytes * bytes) : Prop := b.1 <> b.2 /\ Sum256 b.1 = Sum256 b.2.

(** Two messages with one keyed hash are the same, or those two inputs are a collision. *)
Lemma HMAC_separates key m m' : HMAC key m = HMAC key m' -> m = m' \/ collide (suspects key m m').
Proof.
  unfold HMAC, suspects, collide. set (o := xor_with 92 _). set (i := xor_with 54 _). intros E.
  destruct (decide (m = m')) as [|Hne]; [by left|right]. case_decide as Es; cbn [fst snd]; (split; [|done]).
  - intros Ei. by apply app_inv_head in Ei.
  - intros Eo. by apply app_inv_head in Eo.
Qed.
