(* ===== verification/HttpText.v ===== *)
(** * Text at the transport's boundary (httpapi/logsafe.go, httpapi/clientip.go, bearerToken)

    Which model names are accepted, what a caller's string becomes in a log field, whose key and
    address a request carries. *)
From S2P Require Import Prelude Core Text JsonFacts Format.
From Stdlib Require Import ZArith Lia Ascii.
From stdpp Require Import base gmap strings list.
Open Scope Z_scope.

(** ** logsafe.go *)

Definition maxModelNameBytes : Z := 256.
Definition maxLoggedValueBytes : nat := 256.

Definition validModelName (name : list ascii) : bool :=
  if bool_decide (name = []) || (maxModelNameBytes <? Z.of_nat (length name)) then false
  else if negb (ValidString name) then false
  else forallb (fun p => negb (IsControl p.1)) (runes name).

(** The loop of [truncateRunes]: back from [cut] to the start of a rune. *)
Fixpoint rune_cut (s : list ascii) (cut : nat) : nat :=
  match cut with
  | O => O
  | S n => match s !! cut with
           | Some c => if RuneStart c then cut else rune_cut s n
           | None => cut
           end
  end.

Definition ellipsis : list ascii := EncodeRune 8230.

Definition truncateRunes (s : list ascii) (limit : nat) : list ascii :=
  if (length s <=? limit)%nat then s else take (rune_cut s limit) s ++ ellipsis.

(** [strings.ReplaceAll] of a single byte. *)
Definition ReplaceByte (s : list ascii) (old : ascii) (new : list ascii) : list ascii :=
  concat (map (fun c => if Ascii.eqb c old then new else [c]) s).

(** [strings.Map]: a byte that is not UTF-8 is written as the rune it decodes to. *)
Definition Map (f : Z -> Z) (s : list ascii) : list ascii :=
  concat (map (fun p => if (f p.1 =? p.1) && negb ((p.1 =? RuneError) && Nat.eqb (length p.2) 1)
                        then p.2 else EncodeRune (f p.1)) (runes s)).

Definition printable_rune (r : Z) : Z := if IsControl r then RuneError else r.

Definition logSafe (s : list ascii) : list ascii :=
  let s := truncateRunes s maxLoggedValueBytes in
  let s := ReplaceByte s (zb 13) (text "\r") in
  let s := ReplaceByte s (zb 10) (text "\n") in
  Map printable_rune s.

(** ** server.go: bearerToken *)

Definition bearerToken (authorization : list ascii) : list ascii :=
  match CutPrefix authorization (text "Bearer ") with
  | Some after => TrimSpace after
  | None => TrimSpace authorization
  end.

(** ** clientip.go *)

Fixpoint IndexByte (s : list ascii) (c : ascii) : option nat :=
  match s with
  | [] => None
  | d :: s' => if Ascii.eqb d c then Some 0%nat else S <$> IndexByte s' c
  end.
Definition LastIndexByte (s : list ascii) (c : ascii) : option nat :=
  (fun i => (length s - 1 - i)%nat) <$> IndexByte (rev s) c.

Definition lacks (s : list ascii) (c : ascii) : bool := bool_decide (IndexByte s c = None).

(** [net.SplitHostPort]: [None] for an address error. *)
Definition SplitHostPort (hostport : list ascii) : option (list ascii * list ascii) :=
  match LastIndexByte hostport ":" with
  | None => None
  | Some i =>
      let port := drop (S i) hostport in
      if bool_decide (head hostport = Some "["%char) then
        match IndexByte hostport "]" with
        | None => None
        | Some stop =>
            if negb (Nat.eqb (S stop) i) then None
            else if lacks (drop 1 hostport) "[" && lacks (drop (S stop) hostport) "]"
                 then Some (take (stop - 1) (drop 1 hostport), port) else None
        end
      else
        let host := take i hostport in
        if negb (lacks host ":") then None
        else if lacks hostport "[" && lacks hostport "]" then Some (host, port) else None
  end.

(** [Addr.Unmap]: an IPv4 address mapped into IPv6 as the IPv4 address. *)
Definition Unmap (a : Addr) : Addr :=
  match a with
  | Addr6 v _ => if Z.shiftr v 32 =? 65535 then Addr4 (v mod 4294967296) else a
  | _ => a
  end.

Definition clientIP (ParseAddr : list ascii -> option Addr) (remoteAddr : list ascii) : Addr :=
  let host := match SplitHostPort remoteAddr with Some (host, _) => host | None => remoteAddr end in
  match ParseAddr host with
  | None => AddrInvalid
  | Some a => Unmap a
  end.

(** ** What is safe to log *)

Lemma scalar_DecodeRune s r n : DecodeRune s = (r, n) -> s <> [] -> scalar r = true.
Proof.
  intros Hd Hs. destruct (decide (r = RuneError /\ (n <= 1)%nat)) as [[-> _]|Hne]; [done|].
  by destruct (DecodeRune_valid _ _ _ Hd Hne).
Qed.

(** Decoding what was encoded rune by rune. *)
Lemma EncodeRune_cons r : exists c t, EncodeRune r = c :: t.
Proof. unfold EncodeRune. repeat case_match; eauto. Qed.

Lemma runes_encode rs :
  Forall (fun r => scalar r = true) rs ->
  runes (concat (map EncodeRune rs)) = map (fun r => (r, EncodeRune r)) rs.
Proof.
  induction 1 as [|r rs Hr Hrs IH]; [done|]. simpl. destruct (EncodeRune_cons r) as (c & t & Hc).
  rewrite Hc. simpl app. destruct (runes_step c (t ++ concat (map EncodeRune rs))) as (r' & n & Hd & Hs).
  pose proof (DecodeRune_Encode r (concat (map EncodeRune rs)) Hr) as Hd'.
  rewrite Hc in Hd'. simpl app in Hd'. rewrite Hd' in Hd. simplify_eq/=.
  rewrite Hs. by rewrite take_app_length, drop_app_length, IH.
Qed.

(** [strings.Map] re-encodes the image of every rune. *)
Lemma runes_induction (P : list ascii -> Prop) :
  P [] ->
  (forall c s r n, DecodeRune (c :: s) = (r, S n) ->
     runes (c :: s) = (r, take (S n) (c :: s)) :: runes (drop n s) -> P (drop n s) -> P (c :: s)) ->
  forall s, P s.
Proof.
  intros H0 Hc s. induction s as [s IH] using (well_founded_induction (well_founded_ltof _ (@length ascii))).
  destruct s as [|c s]; [done|]. destruct (runes_step c s) as (r & n & Hd & Hr).
  apply (Hc _ _ r n Hd Hr), IH. unfold ltof. rewrite length_drop. simpl. lia.
Qed.

Lemma Map_runes f s : Map f s = concat (map EncodeRune (map (fun p => f p.1) (runes s))).
Proof.
  induction s as [|c s r n Hd Hr IH] using runes_induction; [done|].
  unfold Map in *. rewrite Hr. cbn [map concat fst snd]. rewrite IH. f_equal.
  destruct (f r =? r) eqn:E; [|done]. zify_bools. rewrite E. simpl.
  destruct ((r =? RuneError) && _) eqn:B; [done|]. simpl.
  destruct (DecodeRune_valid _ _ _ Hd) as (_ & Ht & _ & _); [|by rewrite <- Ht].
  intros [-> Hn]. assert (n = 0%nat) as -> by lia. done.
Qed.

Lemma runes_scalar s : Forall (fun p => scalar p.1 = true) (runes s).
Proof.
  induction s as [|c s r n Hd Hr IH] using runes_induction; [constructor|].
  rewrite Hr. constructor; [by eapply scalar_DecodeRune|done].
Qed.

Lemma printable_scalar r : scalar r = true -> scalar (printable_rune r) = true /\ IsControl (printable_rune r) = false.
Proof. intros H. unfold printable_rune. destruct (IsControl r) eqn:E; [done|done]. Qed.

Lemma Map_printable s :
  ValidString (Map printable_rune s) = true
  /\ forallb (fun p => negb (IsControl p.1)) (runes (Map printable_rune s)) = true
  /\ (length (Map printable_rune s) <= 3 * length s)%nat.
Proof.
  rewrite Map_runes.
  assert (Hs : Forall (fun r => scalar r = true) (map (fun p => printable_rune p.1) (runes s))).
  { rewrite List.Forall_map. eapply list.Forall_impl; [apply runes_scalar|]. intros p Hp. by apply printable_scalar. }
  unfold ValidString. rewrite runes_encode by done. split_and!.
  - apply forallb_forall. intros p Hp. apply in_map_iff in Hp as (r & <- & _). simpl.
    destruct (r =? RuneError) eqn:E; [|done]. zify_bools. by subst.
  - apply forallb_forall. intros p Hp. apply in_map_iff in Hp as (r & <- & Hr).
    apply in_map_iff in Hr as (q & <- & Hq). simpl. pose proof (runes_scalar s) as Hsc.
    rewrite List.Forall_forall in Hsc. by rewrite (proj2 (printable_scalar _ (Hsc _ Hq))).
  - clear Hs. induction s as [|c s r n Hd Hr IH] using runes_induction; [done|].
    rewrite Hr. cbn [map concat fst]. rewrite length_app.
    enough (length (EncodeRune (printable_rune r)) <= 3 * length (take (S n) (c :: s)))%nat.
    { cbn [take length] in *. rewrite length_take, length_drop in *. lia. }
    destruct (decide (r = RuneError /\ (S n <= 1)%nat)) as [[-> Hn]|Hne].
    + assert (n = 0%nat) as -> by lia. simpl. lia.
    + destruct (DecodeRune_valid _ _ _ Hd Hne) as (_ & Ht & Hl & _). rewrite Ht.
      unfold printable_rune. destruct (IsControl r); [|lia].
      rewrite <- Hl. simpl. lia.
Qed.

Lemma truncateRunes_length s limit : (length (truncateRunes s limit) <= limit + 3)%nat.
Proof.
  unfold truncateRunes. destruct (length s <=? limit)%nat eqn:E; [apply Nat.leb_le in E; lia|].
  rewrite length_app, length_take. simpl.
  enough (rune_cut s limit <= limit)%nat by lia.
  clear E. induction limit as [|n IH]; simpl; [done|]. repeat case_match; lia.
Qed.

Lemma ReplaceByte_length s old new : length new = 2%nat -> (length (ReplaceByte s old new) <= 2 * length s)%nat.
Proof.
  intros Hn. induction s as [|c s IH]; [done|]. unfold ReplaceByte in *. simpl. rewrite length_app.
  destruct (Ascii.eqb c old); simpl; lia.
Qed.

Lemma ReplaceByte_id s old new : Forall (fun c => c <> old) s -> ReplaceByte s old new = s.
Proof.
  induction 1 as [|c s Hc Hs IH]; [done|]. unfold ReplaceByte in *. simpl.
  destruct (Ascii.eqb_spec c old); [done|]. by rewrite IH.
Qed.

(** A string without control runes has no control byte. *)
Lemma no_control_bytes s b :
  bz b < 32 -> forallb (fun p => negb (IsControl p.1)) (runes s) = true -> Forall (fun c => c <> b) s.
Proof.
  intros Hb. induction s as [|c s r n Hd Hr IH] using runes_induction; [done|].
  rewrite Hr. cbn [forallb fst]. rewrite andb_true_iff. intros [Hc Hs].
  rewrite <- (take_drop (S n) (c :: s)). apply list.Forall_app_2; [|by apply IH].
  destruct (decide (r = RuneError /\ (S n <= 1)%nat)) as [[-> Hn]|Hne].
  - assert (n = 0%nat) as -> by lia. constructor; [|constructor]. intros ->.
    unfold DecodeRune in Hd. rewrite (proj2 (Z.ltb_lt _ _)) in Hd by lia. injection Hd as Hd.
    pose proof (bz_range b). unfold RuneError in Hd. lia.
  - destruct (DecodeRune_valid _ _ _ Hd Hne) as (Hsc & Ht & _ & _). rewrite Ht.
    destruct (Z.lt_ge_cases r 128) as [Hlt|Hge].
    + unfold EncodeRune. rewrite Hsc, (proj2 (Z.ltb_lt _ _)) by lia. constructor; [|constructor].
      intros <-. unfold scalar in Hsc. rewrite orb_true_iff, !within_spec in Hsc.
      rewrite bz_zb in Hb by lia. unfold IsControl in Hc.
      rewrite (proj2 (within_spec 0 _ 31)) in Hc by lia. done.
    + eapply list.Forall_impl; [by apply EncodeRune_high|]. simpl. intros x Hx ->. lia.
Qed.

Lemma logSafe_accepted s : validModelName s = true -> logSafe s = s.
Proof.
  unfold validModelName, maxModelNameBytes. intros H. case_match eqn:E; [done|].
  case_match eqn:Hv; [done|]. zify_bools. unfold logSafe, truncateRunes.
  rewrite (proj2 (Nat.leb_le _ _)) by (unfold maxLoggedValueBytes; lia).
  rewrite (ReplaceByte_id s (zb 13)) by (apply no_control_bytes; [by vm_compute|exact H]).
  rewrite (ReplaceByte_id s (zb 10)) by (apply no_control_bytes; [by vm_compute|exact H]).
  rewrite Map_runes, map_map. rewrite <- (to_valid_id s Hv) at 2. unfold to_valid. f_equal.
  apply map_ext_in. intros p Hp. rewrite forallb_forall in H. unfold printable_rune.
  by rewrite (proj1 (negb_true_iff _) (H p Hp)).
Qed.

(** A caller's string cannot forge a log entry: whatever its bytes, what reaches the log field
    is valid UTF-8, has no control character (so no line break and no terminal escape), and is at
    most a fixed length.  A model name the boundary accepts is logged as it is. *)
Theorem logSafe_is_safe s :
  ValidString (logSafe s) = true
  /\ Forall (fun p => IsControl p.1 = false) (runes (logSafe s))
  /\ (length (logSafe s) <= 12 * (maxLoggedValueBytes + 3))%nat
  /\ (validModelName s = true -> logSafe s = s).
Proof.
  split_and!; [..|apply logSafe_accepted]; unfold logSafe;
    set (t := truncateRunes s maxLoggedValueBytes);
    destruct (Map_printable (ReplaceByte (ReplaceByte t (zb 13) (text "\r")) (zb 10) (text "\n")))
      as (Hv & Hc & Hl); [done| |].
  - rewrite List.Forall_forall. intros p Hp. rewrite forallb_forall in Hc. by apply negb_true_iff, Hc.
  - pose proof (truncateRunes_length s maxLoggedValueBytes) as H1. fold t in H1.
    pose proof (ReplaceByte_length t (zb 13) (text "\r") eq_refl) as H2.
    pose proof (ReplaceByte_length (ReplaceByte t (zb 13) (text "\r")) (zb 10) (text "\n") eq_refl) as H3.
    lia.
Qed.

Lemma logSafe_is_safe_witness :
  validModelName (text "gpt-4o") = true /\ logSafe (text "gpt-4o") = text "gpt-4o"
  /\ Forall (fun p => IsControl p.1 = false) (runes (logSafe [zb 97; zb 10; zb 27])).
Proof.
  assert (H : validModelName (text "gpt-4o") = true) by (vm_compute; reflexivity).
  split_and!; [exact H|by apply (logSafe_is_safe (text "gpt-4o"))|apply (logSafe_is_safe [zb 97; zb 10; zb 27])].
Defined.


(** Truncation comes first and replacement expands: the limit does not bound the logged bytes. *)
Lemma logSafe_exceeds_the_limit : length (logSafe (repeat (zb 0) 256)) = 768%nat.
Proof. vm_compute. reflexivity. Qed.
