(* ===== verification/Router.v ===== *)
(** * Routing (router/health.go, router/router.go, router/prober.go)

    Selection reads a snapshot and produces an ordered candidate list; execution walks it.
    [RouterState] is what the mutexes guard: a breaker and a health tracker per deployment, the
    prober's record of recent traffic, and the number of clock readings made ([clk] gives the
    n-th).  During a provider call, a pause or a registry lookup other requests run, so those
    are functions of the caller that may change the router state in any way. *)
From S2P Require Import Prelude Errors Core Snapshot Float64 Breaker.
From Stdlib Require Import ZArith Lia.
From stdpp Require Import base gmap strings list.
Open Scope Z_scope.
Open Scope gw_scope.

(** ** Health (router/health.go) *)
Definition DefaultHalfLife : duration := 30 * Second.
Definition warmupObservations : Z := 5.

Record Health := mkHealth {
  halfLife : duration; errorAvg : float64; h_latency : float64; h_count : Z; h_updated : time }.

Definition HealthOption := Health -> Health.

Definition WithHalfLife (d : duration) : HealthOption := fun h =>
  if 0 <? d then mkHealth d (errorAvg h) (h_latency h) (h_count h) (h_updated h) else h.

Definition NewHealth (opts : list HealthOption) : Health :=
  foldl (fun h opt => opt h) (mkHealth DefaultHalfLife (of_int 0) (of_int 0) 0 0) opts.

Section health.
Context (Exp2 : float64 -> float64).          (* math.Exp2 *)

(** [now] is the reading made if the tracker has been updated before. *)
Definition decay (now : time) (h : Health) : float64 :=
  if IsZero (h_updated h) then of_int 0
  else
    let elapsed := Sub now (h_updated h) in
    if elapsed <=? 0 then Exp2 (of_int (-1))
    else Exp2 (fdiv (fneg (Seconds elapsed)) (Seconds (halfLife h))).

(** [Observe] reads the clock for the decay and again for the time of the update. *)
Definition Observe (failed : bool) (latency : duration) (now1 now2 : time) (h : Health) : Health :=
  let weight := decay now1 h in
  let outcome := if failed then of_int 1 else of_int 0 in
  let rest := fsub (of_int 1) weight in
  mkHealth (halfLife h)
    (fadd (fmul (errorAvg h) weight) (fmul outcome rest))
    (fadd (fmul (h_latency h) weight) (fmul (Seconds latency) rest))
    (wrap64 (h_count h + 1)) now2.

Definition Score (now : time) (h : Health) : float64 :=
  if h_count h <? warmupObservations then of_int 1
  else
    let weight := decay now h in
    let errorRate := fmul (errorAvg h) weight in
    let latency := fmul (h_latency h) weight in
    let penalty := fadd errorRate (fmin (fdiv latency (of_int 10)) (ratio 1 2)) in
    fmax (of_int 0) (fsub (of_int 1) penalty).
End health.

(** ** Selection (router/router.go) *)
Definition DefaultMaxAttempts : Z := 3.
Definition DefaultRetryBackoff : duration := 50 * Millisecond.
Definition minAttemptBudget : duration := 250 * Millisecond.

Definition Objective := Z.
Definition ObjectiveBalanced : Objective := 0.
Definition ObjectiveLatency : Objective := 1.
Definition ObjectiveCost : Objective := 2.

Record Candidate := mkCandidate {
  cand_Deployment : Deployment; cand_Score : float64; cand_Health : float64 }.

Record Router := mkRouter {
  maxAttempts : Z; backoff : duration;
  breakerOpts : list BreakerOption; healthOpts : list HealthOption }.

(** [New] with its defaults, for a registry that is not nil. *)
Definition NewRouter (opts : list (Router -> Router)) : Router :=
  foldl (fun r opt => opt r) (mkRouter DefaultMaxAttempts DefaultRetryBackoff [] []) opts.
Definition WithMaxAttempts (n : Z) (r : Router) : Router :=
  if 0 <? n then mkRouter n (backoff r) (breakerOpts r) (healthOpts r) else r.
Definition WithRetryBackoff (d : duration) (r : Router) : Router :=
  mkRouter (maxAttempts r) d (breakerOpts r) (healthOpts r).

Record RouterState := mkRS {
  rs_breakers : gmap DeploymentID Breaker;
  rs_health : gmap DeploymentID Health;
  rs_lastSeen : gmap DeploymentID time;      (* the prober's, see [Saw] *)
  rs_tick : nat }.

Definition breakerFor (r : Router) (id : DeploymentID) (rs : RouterState) : Breaker :=
  default (NewBreaker (breakerOpts r)) (rs_breakers rs !! id).
Definition healthFor (r : Router) (id : DeploymentID) (rs : RouterState) : Health :=
  default (NewHealth (healthOpts r)) (rs_health rs !! id).

(** Writing through the pointer [breakerFor] or [healthFor] returned, which is now in the map. *)
Definition set_breaker (id : DeploymentID) (b : Breaker) (rs : RouterState) : RouterState :=
  mkRS (<[id := b]> (rs_breakers rs)) (rs_health rs) (rs_lastSeen rs) (rs_tick rs).
Definition set_health (id : DeploymentID) (h : Health) (rs : RouterState) : RouterState :=
  mkRS (rs_breakers rs) (<[id := h]> (rs_health rs)) (rs_lastSeen rs) (rs_tick rs).
Definition tick (rs : RouterState) : RouterState :=
  mkRS (rs_breakers rs) (rs_health rs) (rs_lastSeen rs) (rs_tick rs + 1).

Record SelectionInput := mkSelection {
  sel_Snapshot : Snapshot;
  sel_Tenant : TenantID;
  sel_Model : string;
  sel_Endpoint : Endpoint;
  sel_MinTrustTier : TrustTier;
  sel_Required : list Capability;
  sel_Objective : Objective;
  sel_Region : string;
  sel_ReferenceTokens : Z }.

Definition drawWeight (c : Candidate) : float64 :=
  fmul (of_int (dep_Weight (cand_Deployment c))) (cand_Health c).

Definition weightsDiffer (candidates : list Candidate) : bool :=
  match candidates with
  | [] => false
  | c :: rest =>
      existsb (fun c' => negb (dep_Weight (cand_Deployment c') =? dep_Weight (cand_Deployment c))) rest
  end.

(** The index of the first candidate whose running weight passes the target. *)
Fixpoint drawn (running target : float64) (i : nat) (candidates : list Candidate) : option nat :=
  match candidates with
  | [] => None
  | c :: rest =>
      let running := fadd running (drawWeight c) in
      if fgt running target then Some i else drawn running target (S i) rest
  end.

(** Move element [i] to the front, keeping the order of the others. *)
Definition rotate {A} (i : nat) (l : list A) : list A :=
  match l !! i with
  | Some winner => winner :: delete i l
  | None => l
  end.

Definition promote (candidates : list Candidate) (draw : float64) : list Candidate :=
  if (length candidates <? 2)%nat || negb (weightsDiffer candidates) then candidates
  else
    let total := foldl (fun t c => fadd t (drawWeight c)) (of_int 0) candidates in
    if fle total (of_int 0) then candidates
    else
      match drawn (of_int 0) (fmul draw total) 0 candidates with
      | Some i => rotate i candidates
      | None => candidates
      end.

Definition referenceUsage (tokens : Z) : TokenUsage :=
  let tokens := if tokens <=? 0 then 1000 else tokens in
  mkUsage tokens 0 0 (Z.quot tokens 4).

Definition priceRange (candidates : list Candidate) (tokens : Z) : MicroUSD * MicroUSD :=
  let usage := referenceUsage tokens in
  match candidates with
  | [] => (0, 0)
  | c :: rest =>
      let first := For (dep_Cost (cand_Deployment c)) usage in
      foldl (fun '(cheapest, dearest) c =>
               let price := For (dep_Cost (cand_Deployment c)) usage in
               (if price <? cheapest then price else cheapest,
                if dearest <? price then price else dearest))
        (first, first) rest
  end.

(** The weights of price and locality under an objective. *)
Definition objectiveWeights (o : Objective) : float64 * float64 :=
  if o =? ObjectiveCost then (ratio 30 100, ratio 5 100)
  else if o =? ObjectiveLatency then (of_int 0, ratio 20 100)
  else if o =? ObjectiveBalanced then (ratio 15 100, ratio 10 100)
  else (of_int 0, of_int 0).

Definition objectiveScore (inp : SelectionInput) (cheapest dearest : MicroUSD) (c : Candidate) : Candidate :=
  let deployment := cand_Deployment c in
  let priceScore :=
    if cheapest <? dearest then
      let price := of_int (For (dep_Cost deployment) (referenceUsage (sel_ReferenceTokens inp))) in
      fsub (of_int 1) (fdiv (fsub price (of_int cheapest)) (of_int (wrap64 (dearest - cheapest))))
    else of_int 1 in
  let localityScore :=
    if bool_decide (sel_Region inp = "") || bool_decide (dep_Region deployment = sel_Region inp)
    then of_int 1 else of_int 0 in
  let '(costWeight, localityWeight) := objectiveWeights (sel_Objective inp) in
  mkCandidate deployment
    (fmul (cand_Health c)
       (fadd (fadd (of_int 1) (fmul costWeight priceScore)) (fmul localityWeight localityScore)))
    (cand_Health c).

Definition applyObjective (candidates : list Candidate) (inp : SelectionInput) : list Candidate :=
  let '(cheapest, dearest) := priceRange candidates (sel_ReferenceTokens inp) in
  objectiveScore inp cheapest dearest <$> candidates.

(** [slices.SortStableFunc], best score first: each candidate goes after those already placed
    that do not score below it. *)
Fixpoint insert_best (c : Candidate) (sorted : list Candidate) : list Candidate :=
  match sorted with
  | [] => [c]
  | d :: rest => if flt (cand_Score d) (cand_Score c) then c :: sorted else d :: insert_best c rest
  end.
Definition sort_best (candidates : list Candidate) : list Candidate :=
  foldl (fun sorted c => insert_best c sorted) [] candidates.

Definition selectionError (model : string) (tier : TrustTier) (sawAny sawServing sawTier : bool) : error :=
  if negb sawAny then Newf CodeModelNotFound "no model named %q" [AStr model]
  else if negb sawServing then Newf CodeNoCandidates "no deployment of %q is serving traffic" [AStr model]
  else if negb sawTier then
    Newf CodeTrustTierDenied "no deployment of %q meets the required trust tier %s" [AStr model; AStr (TrustTier_String tier)]
  else Newf CodeEndpointUnsupported
         "%q is not served on this endpoint with the required capabilities" [AStr model].

Section router.
Context (Exp2 : float64 -> float64) (clk : nat -> time).
Context {P : Type} (Endpoints : P -> list Endpoint).

(** What the selection loop accumulates. *)
Record Scan := mkScan {
  sawAny : bool; sawServing : bool; sawTier : bool;
  scan_cands : list Candidate; scan_rs : RouterState }.

Definition consider (r : Router) (providers : string -> option P) (inp : SelectionInput)
    (acc : Scan) (d : Deployment) : Scan :=
  let rs := scan_rs acc in
  if negb (Serving d) then mkScan true (sawServing acc) (sawTier acc) (scan_cands acc) rs
  else if negb (AtLeast (dep_TrustTier d) (sel_MinTrustTier inp))
  then mkScan true true (sawTier acc) (scan_cands acc) rs
  else if negb (Supports d (sel_Required inp)) then mkScan true true true (scan_cands acc) rs
  else
    match providers (dep_Provider d) with
    | None => mkScan true true true (scan_cands acc) rs
    | Some provider =>
        if negb (bool_decide (sel_Endpoint inp ∈ Endpoints provider))
        then mkScan true true true (scan_cands acc) rs
        else
          let h := healthFor r (dep_ID d) rs in
          let health := Score Exp2 (clk (rs_tick rs)) h in
          mkScan true true true (scan_cands acc ++ [mkCandidate d health health])
            (tick (set_health (dep_ID d) h rs))
    end.

(** Every deployment the model's targets lead to, in catalog order. *)
Definition reachable_deployments (inp : SelectionInput) : list Deployment :=
  ResolveAlias (sel_Snapshot inp) (sel_Tenant inp) (sel_Model inp)
    ≫= Deployments (sel_Snapshot inp).

Definition Select (r : Router) (providers : string -> option P) (draw : float64)
    (inp : SelectionInput) (rs : RouterState) : (error + list Candidate) * RouterState :=
  let acc := foldl (consider r providers inp) (mkScan false false false [] rs)
               (reachable_deployments inp) in
  match scan_cands acc with
  | [] => (inl (selectionError (sel_Model inp) (sel_MinTrustTier inp)
                  (sawAny acc) (sawServing acc) (sawTier acc)), scan_rs acc)
  | cands => (inr (promote (sort_best (applyObjective cands inp)) draw), scan_rs acc)
  end.

(** ** Execution *)
Context {Strm W : Type}.

Record Attempt := mkAttempt {
  at_Deployment : DeploymentID; at_Latency : duration; at_Err : option error; at_Skipped : bool }.

Record Result := mkResult {
  r_Deployment : Deployment;
  r_Response : option ProviderResponse;
  r_Stream : option Strm;
  r_Attempts : list Attempt }.

(** What execution calls out to; each may change the world and the router state.
    [pause d] sleeps for [d] plus its jitter and reports whether the context is still live;
    [call] runs one attempt under a timeout. *)
Record Env := mkEnv {
  lookup : string -> RouterState * W -> option P * (RouterState * W);
  pause : duration -> RouterState * W -> bool * (RouterState * W);
  call : duration -> P -> Deployment -> RouterState * W ->
         (option ProviderResponse * option Strm * option error) * (RouterState * W) }.

Definition on_rs (f : RouterState -> RouterState) (x : RouterState * W) : RouterState * W :=
  (f x.1, x.2).

Definition now (x : RouterState * W) : time * (RouterState * W) :=
  (clk (rs_tick x.1), on_rs tick x).

(** [time.Duration(1<<uint(n))]: a shift of 64 or more yields zero. *)
Definition shift_one (n : Z) : Z := if n <? 64 then wrap64 (Z.shiftl 1 n) else 0.

Definition wait (r : Router) (env : Env) (attempt : Z) (x : RouterState * W) : bool * (RouterState * W) :=
  if backoff r <=? 0 then (true, x)
  else pause env (wrap64 (backoff r * shift_one (attempt - 1))) x.

(** [ctxDeadline] is the context's own deadline, if it has one. *)
Definition time_remaining (ctxDeadline : option time) (deadline : time) (x : RouterState * W)
    : duration * (RouterState * W) :=
  let deadline :=
    match ctxDeadline with
    | Some cd => if IsZero deadline || Before cd deadline then cd else deadline
    | None => deadline
    end in
  if IsZero deadline then (Hour, x)
  else let '(t, x) := now x in (Sub deadline t, x).

Definition breaker_Allow (r : Router) (id : DeploymentID) (x : RouterState * W) : bool * (RouterState * W) :=
  let '(ok, b) := Allow (clk (rs_tick x.1)) (breakerFor r id x.1) in
  (ok, on_rs (fun rs => tick (set_breaker id b rs)) x).
Definition breaker_Succeed (r : Router) (id : DeploymentID) : RouterState * W -> RouterState * W :=
  on_rs (fun rs => set_breaker id (Succeed (breakerFor r id rs)) rs).
Definition breaker_Fail (r : Router) (id : DeploymentID) : RouterState * W -> RouterState * W :=
  on_rs (fun rs => tick (set_breaker id (Fail_ (clk (rs_tick rs)) (breakerFor r id rs)) rs)).
Definition health_Observe (r : Router) (id : DeploymentID) (failed : bool) (latency : duration)
    : RouterState * W -> RouterState * W :=
  on_rs (fun rs => tick (tick (set_health id
    (Observe Exp2 failed latency (clk (rs_tick rs)) (clk (rs_tick rs + 1)) (healthFor r id rs)) rs))).

(** [Prober.Saw], the traffic observer of the router. *)
Definition Saw (id : DeploymentID) : RouterState * W -> RouterState * W :=
  on_rs (fun rs => tick (mkRS (rs_breakers rs) (rs_health rs)
                           (<[id := clk (rs_tick rs)]> (rs_lastSeen rs)) (rs_tick rs))).

Definition exhausted : error :=
  New CodeNoCandidates "every candidate deployment is unavailable or the deadline was exhausted".

(** The end of [Execute] after the loop. *)
Definition give_out (attempts : list Attempt) (lastErr : option error) : Result * option error :=
  (mkResult NoDeployment None None attempts,
   Some (match lastErr with Some e => e | None => exhausted end)).

(** The loop of [Execute] from candidate [i] on. *)
Fixpoint walk (r : Router) (env : Env) (observed : bool) (ctxDeadline : option time) (deadline : time)
    (i : Z) (cands : list Candidate) (attempts : list Attempt) (lastErr : option error)
    (x : RouterState * W) : (Result * option error) * (RouterState * W) :=
  match cands with
  | [] => (give_out attempts lastErr, x)
  | c :: rest =>
      let d := cand_Deployment c in
      if maxAttempts r <=? i then (give_out attempts lastErr, x) else
      let '(remaining, x) := time_remaining ctxDeadline deadline x in
      if remaining <? minAttemptBudget then (give_out attempts lastErr, x) else
      let '(ok, x) := breaker_Allow r (dep_ID d) x in
      if negb ok then
        walk r env observed ctxDeadline deadline (i + 1) rest
          (attempts ++ [mkAttempt (dep_ID d) 0 None true]) lastErr x
      else
      let '(live, x) := if 0 <? i then wait r env i x else (true, x) in
      if negb live then (give_out attempts lastErr, x) else
      let '(provider, x) := lookup env (dep_Provider d) x in
      match provider with
      | None =>
          walk r env observed ctxDeadline deadline (i + 1) rest attempts
            (Some (Newf CodeInternal "provider %q vanished between selection and execution"
                     [AStr (dep_Provider d)])) x
      | Some provider =>
          let x := if observed then Saw (dep_ID d) x else x in
          let '(started, x) := now x in
          let '((response, stream, err), x) := call env remaining provider d x in
          let '(ended, x) := now x in
          let latency := Sub ended started in
          let attempts := attempts ++ [mkAttempt (dep_ID d) latency err false] in
          match err with
          | None =>
              let x := breaker_Succeed r (dep_ID d) x in
              let x := health_Observe r (dep_ID d) false latency x in
              ((mkResult d response stream attempts, None), x)
          | Some e =>
              if IsRetryable (Some e) then
                let x := breaker_Fail r (dep_ID d) x in
                let x := health_Observe r (dep_ID d) true latency x in
                walk r env observed ctxDeadline deadline (i + 1) rest attempts (Some e) x
              else ((mkResult NoDeployment None None attempts, Some e), x)
          end
      end
  end.

Definition Execute (r : Router) (env : Env) (observed : bool) (ctxDeadline : option time)
    (cands : list Candidate) (deadline : time) (x : RouterState * W)
    : (Result * option error) * (RouterState * W) :=
  walk r env observed ctxDeadline deadline 0 cands [] None x.

(** ** Metrics *)
Record DeploymentHealth := mkDH {
  dh_Deployment : DeploymentID; dh_Score : float64; dh_Observations : Z; dh_BreakerOpen : bool }.

(** One row of [Stats]; the caller sorts the ids. *)
Definition stats_row (rs : RouterState) (id : DeploymentID) : DeploymentHealth :=
  mkDH id
    (from_option (Score Exp2 (clk (rs_tick rs))) (of_int 0) (rs_health rs !! id))
    (from_option h_count 0 (rs_health rs !! id))
    (from_option (Open_ (clk (rs_tick rs))) false (rs_breakers rs !! id)).

(** ** The prober (router/prober.go) *)
Definition idleBeforeProbing : duration := 60 * Second.

(** Deployments with no recent traffic, before the shuffle; a clock reading per id. *)
Fixpoint idle_from (rs : RouterState) (n : nat) (ids : list DeploymentID) : list DeploymentID :=
  match ids with
  | [] => []
  | id :: rest =>
      match rs_lastSeen rs !! id with
      | Some seen =>
          if Sub (clk n) seen <? idleBeforeProbing then idle_from rs (n + 1) rest
          else id :: idle_from rs (n + 1) rest
      | None => id :: idle_from rs n rest
      end
  end.
Definition idle (snap : Snapshot) (rs : RouterState) : list DeploymentID :=
  idle_from rs (rs_tick rs) (DeploymentIDs snap).

(** What a probe calls out to. *)
Record ProbeEnv := mkProbeEnv {
  probe_lookup : string -> RouterState * W -> option P * (RouterState * W);
  probe_credential : string -> RouterState * W -> (error + Credential) * (RouterState * W);
  probe_call : P -> Deployment -> Credential -> RouterState * W -> option error * (RouterState * W) }.

Definition probe (r : Router) (env : ProbeEnv) (d : Deployment) (x : RouterState * W) : RouterState * W :=
  let '(provider, x) := probe_lookup env (dep_Provider d) x in
  match provider with
  | None => x
  | Some provider =>
      let '(credential, x) := probe_credential env (dep_CredentialRef d) x in
      match credential with
      | inl _ => x
      | inr credential =>
          let '(started, x) := now x in
          let '(err, x) := probe_call env provider d credential x in
          let '(ended, x) := now x in
          let failed := match err with Some _ => true | None => false end in
          let x := health_Observe r (dep_ID d) failed (Sub ended started) x in
          if failed then x else breaker_Succeed r (dep_ID d) x
      end
  end.

(** [RunOnce] over the idle ids in the order [shuffle] puts them. *)
Definition RunOnce (r : Router) (env : ProbeEnv) (shuffle : list DeploymentID -> list DeploymentID)
    (snap : option Snapshot) (x : RouterState * W) : Z * (RouterState * W) :=
  match snap with
  | None => (0, x)
  | Some snap =>
      foldl (fun '(probed, x) id =>
               match lookupDeployment snap id with
               | None => (probed, x)
               | Some d => (probed + 1, probe r env d x)
               end)
        (0, x) (shuffle (idle snap x.1))
  end.
End router.

Arguments Result : clear implicits.
Arguments mkResult {Strm}.
Arguments Env : clear implicits.
Arguments mkEnv {P Strm W}.
Arguments ProbeEnv : clear implicits.
Arguments mkProbeEnv {P W}.
