(* ===== verification/RouterFacts.v ===== *)
(** * What routing guarantees

    Selection: exactly the eligible deployments, none other, best score first behind the one the
    weights drew, and an error that names why nothing was eligible.  Execution: attempts in
    candidate order and within the attempt budget, stopping at the first error that is not
    retryable, against any behaviour of providers and of concurrent requests. *)
From S2P Require Import Prelude Errors Core Snapshot SnapshotFacts Float64 Breaker.
From Stdlib Require Import ZArith Lia SpecFloat Sorted.
From stdpp Require Import base gmap strings list sets.
From S2P Require Import Router.
Open Scope Z_scope.
Open Scope gw_scope.

(** ** Sorting and drawing *)

Definition no_worse (a b : Candidate) : Prop := flt (cand_Score a) (cand_Score b) = false.
Definition scored (c : Candidate) : Prop := is_nan (cand_Score c) = false.

Lemma insert_best_perm c l : insert_best c l ≡ₚ c :: l.
Proof.
  induction l as [|d l IH]; simpl; [done|]. destruct (flt _ _); [done|].
  rewrite IH. by rewrite Permutation_swap.
Qed.

Lemma sort_best_perm_from l acc : foldl (fun s c => insert_best c s) acc l ≡ₚ acc ++ l.
Proof.
  revert acc. induction l as [|c l IH]; intros acc; simpl; [by rewrite app_nil_r|].
  rewrite IH, insert_best_perm. by rewrite <- Permutation_middle.
Qed.

Lemma sort_best_perm l : sort_best l ≡ₚ l.
Proof. apply sort_best_perm_from. Qed.

Lemma insert_best_sorted c l :
  scored c -> Forall scored l -> StronglySorted no_worse l -> StronglySorted no_worse (insert_best c l).
Proof.
  intros Hc Hl Hs. induction Hs as [|d l Hs IH Hd]; simpl; [repeat constructor|].
  apply list.Forall_cons in Hl as [Hsd Hl].
  destruct (flt (cand_Score d) (cand_Score c)) eqn:E.
  - constructor; [by constructor|]. constructor; [by apply flt_asym|].
    rewrite list.Forall_forall in *. intros y Hy.
    eapply fge_trans; [done|exact Hsd|by apply Hl|by apply flt_asym|by apply Hd].
  - constructor; [by apply IH|]. rewrite insert_best_perm. by constructor.
Qed.

Lemma sort_best_sorted l : Forall scored l -> StronglySorted no_worse (sort_best l).
Proof.
  unfold sort_best. intros Hl.
  enough (forall acc, Forall scored acc -> StronglySorted no_worse acc ->
            StronglySorted no_worse (foldl (fun s c => insert_best c s) acc l)) as H
    by (apply H; constructor).
  induction Hl as [|c l Hc Hl IH]; intros acc Ha Hs; simpl; [done|].
  apply IH; [|by apply insert_best_sorted]. rewrite insert_best_perm. by constructor.
Qed.

Lemma rotate_perm {A} i (l : list A) : rotate i l ≡ₚ l.
Proof. unfold rotate. destruct (l !! i) eqn:E; [|done]. symmetry. by apply delete_Permutation. Qed.

(** [promote] moves one candidate to the front and leaves the others in their order. *)
Lemma promote_cases cands draw :
  promote cands draw = cands
  \/ exists pre h post, cands = pre ++ h :: post /\ promote cands draw = h :: pre ++ post.
Proof.
  unfold promote. destruct (_ || _); [by left|]. destruct (fle _ _); [by left|].
  destruct (drawn _ _ _ _) as [i|]; [|by left]. unfold rotate.
  destruct (cands !! i) as [h|] eqn:E; [|by left]. right.
  exists (take i cands), h, (drop (S i) cands).
  by rewrite take_drop_middle, delete_take_drop.
Qed.

Lemma promote_perm cands draw : promote cands draw ≡ₚ cands.
Proof.
  destruct (promote_cases cands draw) as [->|(pre & h & post & -> & ->)]; [done|].
  by rewrite Permutation_middle.
Qed.

Lemma applyObjective_deployments cands inp :
  cand_Deployment <$> applyObjective cands inp = cand_Deployment <$> cands.
Proof.
  unfold applyObjective. destruct (priceRange _ _) as [lo hi]. rewrite <- list_fmap_compose.
  apply list_fmap_ext. intros i c _. unfold compose, objectiveScore.
  by destruct (objectiveWeights _).
Qed.

(** ** Selection *)
Section select.
Context (Exp2 : float64 -> float64) (clk : nat -> time).
Context {P : Type} (Endpoints : P -> list Endpoint).
Context (r : Router) (providers : string -> option P).

(** What a deployment must satisfy to serve the request. *)
Definition meets_tier (inp : SelectionInput) (d : Deployment) : bool :=
  AtLeast (dep_TrustTier d) (sel_MinTrustTier inp).
Definition speaks (inp : SelectionInput) (d : Deployment) : bool :=
  match providers (dep_Provider d) with
  | Some p => bool_decide (sel_Endpoint inp ∈ Endpoints p)
  | None => false
  end.
Definition eligible (inp : SelectionInput) (d : Deployment) : bool :=
  Serving d && meets_tier inp d && Supports d (sel_Required inp) && speaks inp d.

Lemma consider_spec inp acc d :
  let acc' := consider Exp2 clk Endpoints r providers inp acc d in
  sawAny acc' = true
  /\ sawServing acc' = (sawServing acc || Serving d)
  /\ sawTier acc' = (sawTier acc || (Serving d && meets_tier inp d))
  /\ cand_Deployment <$> scan_cands acc'
     = (cand_Deployment <$> scan_cands acc) ++ (if eligible inp d then [d] else []).
Proof.
  unfold consider, eligible, speaks. fold (meets_tier inp d).
  destruct (Serving d), (meets_tier inp d), (Supports d (sel_Required inp)),
    (providers (dep_Provider d)) as [p|]; simpl;
    try (rewrite ?orb_true_r, ?orb_false_r, ?app_nil_r; done).
  destruct (bool_decide _); simpl;
    rewrite ?orb_true_r, ?orb_false_r, ?app_nil_r, ?fmap_app; done.
Qed.

Lemma scan_spec inp ds acc :
  let acc' := foldl (consider Exp2 clk Endpoints r providers inp) acc ds in
  sawAny acc' = (sawAny acc || bool_decide (ds <> []))
  /\ sawServing acc' = (sawServing acc || existsb Serving ds)
  /\ sawTier acc' = (sawTier acc || existsb (fun d => Serving d && meets_tier inp d) ds)
  /\ cand_Deployment <$> scan_cands acc'
     = (cand_Deployment <$> scan_cands acc) ++ filter (fun d => eligible inp d = true) ds.
Proof.
  revert acc. induction ds as [|d ds IH]; intros acc; cbn [foldl existsb].
  - rewrite !orb_false_r. simpl. by rewrite app_nil_r.
  - destruct (consider_spec inp acc d) as (H1 & H2 & H3 & H4).
    destruct (IH (consider Exp2 clk Endpoints r providers inp acc d)) as (-> & -> & -> & ->).
    rewrite H1, H2, H3, H4, <- !orb_assoc, <- app_assoc, filter_cons.
    split_and!; [by rewrite orb_true_r|done|done|].
    destruct (eligible inp d) eqn:E; [rewrite decide_True by done|rewrite decide_False by congruence]; done.
Qed.

Lemma Select_spec draw inp rs :
  let ds := reachable_deployments inp in
  match (Select Exp2 clk Endpoints r providers draw inp rs).1 with
  | inl e => filter (fun d => eligible inp d = true) ds = []
      /\ e = selectionError (sel_Model inp) (sel_MinTrustTier inp) (bool_decide (ds <> []))
               (existsb Serving ds) (existsb (fun d => Serving d && meets_tier inp d) ds)
  | inr cands =>
      exists raw, raw <> [] /\ cand_Deployment <$> raw = filter (fun d => eligible inp d = true) ds
        /\ cands = promote (sort_best (applyObjective raw inp)) draw
  end.
Proof.
  intros ds. unfold Select. fold ds.
  destruct (scan_spec inp ds (mkScan false false false [] rs)) as (H1 & H2 & H3 & H4).
  destruct (scan_cands (foldl _ _ ds)) as [|c cs] eqn:E; cbn [fst]; rewrite ?E in H4.
  - rewrite H1, H2, H3. by split.
  - exists (c :: cs). split_and!; [done|exact H4|done].
Qed.

(** C14. A successful selection returns exactly the eligible deployments, each as often as the
    catalog lists it: serving, at or above the required trust tier, with every required
    capability, and with a registered provider that speaks the endpoint.  Behind the candidate
    the weights drew, they are ordered best score first, when no score is NaN. *)
Theorem Select_exact draw inp rs cands rs' :
  Select Exp2 clk Endpoints r providers draw inp rs = (inr cands, rs') ->
  (cand_Deployment <$> cands) ≡ₚ filter (fun d => eligible inp d = true) (reachable_deployments inp)
  /\ cands <> []
  /\ exists pre h post, cands = h :: pre ++ post
       /\ (Forall scored cands -> StronglySorted no_worse (pre ++ h :: post)).
Proof.
  intros H. pose proof (Select_spec draw inp rs) as Hs. rewrite H in Hs. cbn [fst] in Hs.
  destruct Hs as (raw & Hraw0 & Hraw & Hc).
  assert (Hperm : cands ≡ₚ applyObjective raw inp) by (subst; by rewrite promote_perm, sort_best_perm).
  assert (Hdep : cand_Deployment <$> cands ≡ₚ cand_Deployment <$> raw)
    by (by rewrite Hperm, applyObjective_deployments).
  assert (Hne : cands <> []).
  { intros ->. apply Permutation_nil in Hdep. by destruct raw. }
  split_and!; [|done|].
  - by rewrite Hdep, Hraw.
  - destruct (promote_cases (sort_best (applyObjective raw inp)) draw) as [He|(pre & h & post & Hsort & He)].
    + destruct cands as [|h cands]; [done|]. exists [], h, cands. split; [done|]. intros Hsc. simpl.
      rewrite Hc, He. apply sort_best_sorted. by rewrite <- Hperm.
    + exists pre, h, post. split; [by rewrite Hc, He|]. intros Hsc. rewrite <- Hsort.
      apply sort_best_sorted. by rewrite <- Hperm.
Qed.
End select.

(** When nothing is eligible the error says why: the model is unknown, nothing of it is
    serving, nothing serving meets the trust tier, or nothing that does supports the request on
    this endpoint.  Selection fails only when nothing is eligible. *)
Theorem Select_error_reason Exp2 clk {P} (Endpoints : P -> list Endpoint) r providers draw inp rs :
  let ds := reachable_deployments inp in
  match (Select Exp2 clk Endpoints r providers draw inp rs).1 with
  | inr _ => exists d, d ∈ ds /\ eligible Endpoints providers inp d = true
  | inl e =>
      (forall d, d ∈ ds -> eligible Endpoints providers inp d = false)
      /\ ((ds = [] /\ CodeOf (Some e) = CodeModelNotFound)
          \/ (ds <> [] /\ (forall d, d ∈ ds -> Serving d = false) /\ CodeOf (Some e) = CodeNoCandidates)
          \/ ((exists d, d ∈ ds /\ Serving d = true)
              /\ (forall d, d ∈ ds -> Serving d = true -> meets_tier inp d = false)
              /\ CodeOf (Some e) = CodeTrustTierDenied)
          \/ ((exists d, d ∈ ds /\ Serving d = true /\ meets_tier inp d = true)
              /\ CodeOf (Some e) = CodeEndpointUnsupported))
  end.
Proof.
  intros ds. pose proof (Select_spec Exp2 clk Endpoints r providers draw inp rs) as H.
  cbv zeta in H. fold ds in H.
  destruct (Select _ _ _ _ _ _ _ _).1 as [e|cands].
  - destruct H as [Hf ->]. split.
    { intros d Hd. apply not_true_iff_false. intros He.
      apply (not_elem_of_nil d). rewrite <- Hf. by apply list_elem_of_filter. }
    unfold selectionError. destruct (decide (ds = [])) as [E|E].
    { left. split; [done|]. by rewrite bool_decide_false by tauto. }
    rewrite (bool_decide_true (ds <> [])) by done. cbn [negb]. right.
    destruct (existsb Serving ds) eqn:Es; cbn [negb]; [right|].
    + apply existsb_exists in Es as (d & Hd & Hsd). apply list_elem_of_In in Hd.
      destruct (existsb (fun d => Serving d && meets_tier inp d) ds) eqn:Et; cbn [negb]; [right|left].
      * apply existsb_exists in Et as (d' & Hd' & [? ?]%andb_true_iff).
        apply list_elem_of_In in Hd'. split; [by exists d'|done].
      * split_and!; [by exists d|..|done]. intros d' Hd' Hs'.
        destruct (meets_tier inp d') eqn:Em; [|done]. exfalso. revert Et. apply not_false_iff_true.
        apply existsb_exists. exists d'. split; [by apply list_elem_of_In|by rewrite Hs', Em].
    + left. split_and!; [done|..|done]. intros d Hd. destruct (Serving d) eqn:Hs; [|done].
      exfalso. revert Es. apply not_false_iff_true. apply existsb_exists. exists d.
      split; [by apply list_elem_of_In|done].
  - destruct H as ([|c raw] & Hne & Hraw & _); [done|].
    assert (Hin : cand_Deployment c ∈ filter (fun d => eligible Endpoints providers inp d = true) ds).
    { rewrite <- Hraw. left. }
    apply list_elem_of_filter in Hin as [He Hd]. by exists (cand_Deployment c).
Qed.

(** ** Execution *)

(** An attempt after which the walk goes on. *)
Definition passed (a : Attempt) : Prop :=
  at_Skipped a = true \/ exists e, at_Err a = Some e /\ IsRetryable (Some e) = true.

Section execute.
Context (Exp2 : float64 -> float64) (clk : nat -> time) {P Strm W : Type}.
Context (r : Router) (env : Env P Strm W) (observed : bool) (ctxDeadline : option time) (deadline : time).

Abbreviation walk_here := (walk Exp2 clk r env observed ctxDeadline deadline).
Abbreviation ids cands := ((fun c : Candidate => dep_ID (cand_Deployment c)) <$> cands).

(** What execution did with a candidate it reached: its breaker refused it, its provider was
    gone from the registry, or its provider was called and answered. *)
Inductive fate :=
  | Refused
  | Vanished
  | Answered (answer : option ProviderResponse * option Strm * option error).

(** What the world outside the router sees of an execution. *)
Inductive doing :=
  | Missing (provider : string)
  | Called (d : Deployment) (answer : option ProviderResponse * option Strm * option error)
  | Interrupted.

Abbreviation story := (list (Candidate * fate)).

Definition doings (s : story) : list doing :=
  s ≫= fun '(c, f) => match f with
                       | Refused => []
                       | Vanished => [Missing (dep_Provider (cand_Deployment c))]
                       | Answered a => [Called (cand_Deployment c) a]
                       end.

(** What the recorded attempts say, their latencies apart. *)
Definition shown (a : Attempt) : DeploymentID * option error * bool :=
  (at_Deployment a, at_Err a, at_Skipped a).
Definition records (s : story) : list (DeploymentID * option error * bool) :=
  s ≫= fun '(c, f) => match f with
                       | Refused => [(dep_ID (cand_Deployment c), None, true)]
                       | Vanished => []
                       | Answered a => [(dep_ID (cand_Deployment c), a.2, false)]
                       end.

(** A fate after which the next candidate's turn comes. *)
Definition moved_on (p : Candidate * fate) : Prop :=
  match p.2 with
  | Refused | Vanished => True
  | Answered a => exists e, a.2 = Some e /\ IsRetryable (Some e) = true
  end.

(** The error of the latest candidate that had one, [before] if none had. *)
Definition latest_error (before : option error) (s : story) : option error :=
  foldl (fun before '(c, f) =>
           match f with
           | Refused => before
           | Vanished => Some (Newf CodeInternal "provider %q vanished between selection and execution"
                                 [AStr (dep_Provider (cand_Deployment c))])
           | Answered a => match a.2 with Some e => Some e | None => before end
           end) before s.

(** The time left was below the smallest budget of an attempt, at the run's last clock reading. *)
Definition out_of_time (x' : RouterState * W) : Prop :=
  exists y remaining, time_remaining clk ctxDeadline deadline y = (remaining, x')
    /\ remaining < minAttemptBudget.

(** How an execution with [budget] attempts left ends: served by its last candidate, failed for
    good by it, or given up with every candidate it reached behind it. *)
Inductive concludes (budget : nat) (cands : list Candidate) (before : option error)
    : story -> Result Strm -> option error -> RouterState * W -> bool -> Prop :=
  | concludes_served pre c response stream attempts x' :
      Forall moved_on pre ->
      concludes budget cands before (pre ++ [(c, Answered (response, stream, None))])
        (mkResult (cand_Deployment c) response stream attempts) None x' false
  | concludes_rejected pre c response stream e attempts x' :
      Forall moved_on pre -> IsRetryable (Some e) = false ->
      concludes budget cands before (pre ++ [(c, Answered (response, stream, Some e))])
        (mkResult NoDeployment None None attempts) (Some e) x' false
  | concludes_given_up s attempts x' interrupted :
      Forall moved_on s ->
      interrupted = true \/ out_of_time x' \/ length s = Nat.min budget (length cands) ->
      concludes budget cands before s
        (mkResult NoDeployment None None attempts) (Some (default exhausted (latest_error before s)))
        x' interrupted.

Lemma concludes_cons budget c f cands before s res err x' b :
  moved_on (c, f) ->
  concludes budget cands (latest_error before [(c, f)]) s res err x' b ->
  concludes (S budget) (c :: cands) before ((c, f) :: s) res err x' b.
Proof.
  intros Hm [pre c' response stream attempts y Hp|pre c' response stream e attempts y Hp He|s' attempts y b' Hs Hstop].
  - apply (concludes_served _ _ _ ((c, f) :: pre)). by constructor.
  - apply (concludes_rejected _ _ _ ((c, f) :: pre)); [by constructor|done].
  - apply (concludes_given_up _ _ _ ((c, f) :: s')); [by constructor|].
    destruct Hstop as [->|[?|E]]; [by left|by right; left|]. right. right. simpl. by rewrite E.
Qed.

(** A candidate met for the first time is refused exactly when its breaker, as the execution
    found it, refuses at the time of a clock reading of the execution. *)
Definition refusals (rs : RouterState) (s : story) (rs' : RouterState) : Prop :=
  forall pre c f post, s = pre ++ (c, f) :: post ->
    (dep_ID (cand_Deployment c) ∉ ids (fst <$> pre)) ->
    exists n, (rs_tick rs <= n < rs_tick rs')%nat
      /\ (f = Refused <-> (Allow (clk n) (breakerFor r (dep_ID (cand_Deployment c)) rs)).1 = false).

Lemma refusals_cons rs c f n rs2 s rs' :
  (rs_tick rs <= n < rs_tick rs2)%nat -> (rs_tick rs2 <= rs_tick rs')%nat ->
  (f = Refused <-> (Allow (clk n) (breakerFor r (dep_ID (cand_Deployment c)) rs)).1 = false) ->
  (forall id, id <> dep_ID (cand_Deployment c) -> breakerFor r id rs2 = breakerFor r id rs) ->
  refusals rs2 s rs' -> refusals rs ((c, f) :: s) rs'.
Proof.
  intros Hn Hrs Hf Hother Hs pre d g post E Hnew. destruct pre as [|p pre]; simplify_eq/=.
  - exists n. split; [lia|done].
  - apply not_elem_of_cons in Hnew as [Hne Hnew].
    destruct (Hs pre d g post eq_refl Hnew) as (m & Hm & Hd). exists m. split; [lia|].
    by rewrite <- Hother.
Qed.

(** The environment leaves the router's own state alone. *)
Definition quiet : Prop :=
  (forall name y, (lookup env name y).2.1 = y.1) /\ (forall d y, (pause env d y).2.1 = y.1)
  /\ (forall t p d y, (call env t p d y).2.1 = y.1).

Lemma breakerFor_set id id' b rs :
  id <> id' -> breakerFor r id (set_breaker id' b rs) = breakerFor r id rs.
Proof. intros H. unfold breakerFor. simpl. by rewrite lookup_insert_ne. Qed.

(** The deployments actually called, in order. *)
Definition called (attempts : list Attempt) : list DeploymentID :=
  at_Deployment <$> filter (fun a => at_Skipped a = false) attempts.

Lemma called_app l1 l2 : called (l1 ++ l2) = called l1 ++ called l2.
Proof. unfold called. by rewrite filter_app, fmap_app. Qed.

(** A relation between the world and the calls made so far, kept by everything execution calls
    out to; a call is only ever made for one of the candidates. *)
Section invariant.
Context (J : W -> list DeploymentID -> Prop).
Hypothesis J_lookup : forall name x l, J x.2 l -> J (lookup env name x).2.2 l.
Hypothesis J_pause : forall d x l, J x.2 l -> J (pause env d x).2.2 l.

Lemma J_time_remaining x l : J x.2 l -> J (time_remaining clk ctxDeadline deadline x).2.2 l.
Proof. unfold time_remaining. by destruct (IsZero _). Qed.
Lemma J_breaker_Allow id x l : J x.2 l -> J (breaker_Allow clk r id x).2.2 l.
Proof. unfold breaker_Allow. by destruct (Allow _ _). Qed.
Lemma J_wait i x l : J x.2 l -> J (wait r env i x).2.2 l.
Proof. unfold wait. destruct (backoff r <=? 0); [done|]. apply J_pause. Qed.

Lemma walk_invariant i cands attempts lastErr x :
  (forall t p c x l, c ∈ cands -> J x.2 l ->
     J (call env t p (cand_Deployment c) x).2.2 (l ++ [dep_ID (cand_Deployment c)])) ->
  J x.2 (called attempts) ->
  let '((res, _), x') := walk_here i cands attempts lastErr x in J x'.2 (called (r_Attempts res)).
Proof.
  revert i attempts lastErr x.
  induction cands as [|c rest IH]; intros i attempts lastErr x Hcall HJ; cbn [walk]; [done|].
  specialize (fun i a le y => IH i a le y ltac:(intros; apply Hcall; [by right|done])).
  destruct (maxAttempts r <=? i); [done|].
  apply J_time_remaining in HJ. destruct (time_remaining _ _ _ x) as [remaining x1]. cbn [snd] in HJ.
  destruct (remaining <? minAttemptBudget); [done|].
  apply (J_breaker_Allow (dep_ID (cand_Deployment c))) in HJ.
  destruct (breaker_Allow _ _ _ x1) as [[] x2]; cbn [negb snd] in *.
  2: { apply IH. by rewrite called_app, app_nil_r. }
  assert (HJ3 : J (if 0 <? i then wait r env i x2 else (true, x2)).2.2 (called attempts)).
  { destruct (0 <? i); [by apply J_wait|done]. }
  destruct (if 0 <? i then _ else _) as [[] x3]; cbn [negb snd] in *; [|done].
  apply (J_lookup (dep_Provider (cand_Deployment c))) in HJ3.
  destruct (lookup env _ x3) as [[p|] x4]; cbn [snd] in *; [|by apply IH].
  set (x5 := now clk (if observed then _ else _)).
  assert (HJ5 : J x5.2.2 (called attempts)) by (subst x5; by destruct observed).
  destruct x5 as [started x5]. cbn [snd] in HJ5.
  apply (Hcall remaining p c) in HJ5; [|left].
  destruct (call env remaining p (cand_Deployment c) x5) as [[[response stream] err] x6].
  cbn [snd] in HJ5. cbn [now].
  destruct err as [e|]; [destruct (IsRetryable (Some e))|]; cbn [r_Attempts].
  - apply IH. by rewrite called_app.
  - by rewrite called_app.
  - by rewrite called_app.
Qed.
End invariant.

(** A success carries what some call answered with. *)
Lemma walk_answer (Q : option ProviderResponse -> option Strm -> Prop) i cands attempts lastErr x :
  (forall t p d x, (call env t p d x).1.2 = None -> Q (call env t p d x).1.1.1 (call env t p d x).1.1.2) ->
  let '((res, err), _) := walk_here i cands attempts lastErr x in err = None -> Q (r_Response res) (r_Stream res).
Proof.
  intros HQ. revert i attempts lastErr x. induction cands as [|c rest IH]; intros i attempts lastErr x; cbn [walk]; [done|].
  destruct (maxAttempts r <=? i); [done|]. destruct (time_remaining _ _ _ x) as [remaining x1].
  destruct (remaining <? minAttemptBudget); [done|]. destruct (breaker_Allow _ _ _ x1) as [[] x2]; cbn [negb]; [|apply IH].
  destruct (if 0 <? i then _ else _) as [[] x3]; cbn [negb]; [|done].
  destruct (lookup env _ x3) as [[p|] x4]; [|apply IH]. destruct (now _ (if observed then _ else _)) as [started x5].
  specialize (HQ remaining p (cand_Deployment c) x5).
  destruct (call env remaining p (cand_Deployment c) x5) as [[[response stream] err] x6]. cbn [fst snd] in HQ. cbn [now].
  destruct err as [e|]; [destruct (IsRetryable (Some e)); [apply IH|done]|]. intros _. by apply HQ.
Qed.

(** *** The story of an execution *)
Section told.
Context (log : W -> list doing).
Hypothesis log_lookup : forall name y,
  log (lookup env name y).2.2
  = log y.2 ++ match (lookup env name y).1 with Some _ => [] | None => [Missing name] end.
Hypothesis log_pause : forall d y,
  log (pause env d y).2.2 = log y.2 ++ if (pause env d y).1 then [] else [Interrupted].
Hypothesis log_call : forall t p d y,
  log (call env t p d y).2.2 = log y.2 ++ [Called d (call env t p d y).1].

Record told (budget : nat) (cands : list Candidate) (before : option error) (attempts : list Attempt)
    (x : RouterState * W) (s : list (Candidate * fate)) (res : Result Strm) (err : option error)
    (x' : RouterState * W) (interrupted : bool) : Prop := {
  told_order : fst <$> s = take (length s) cands;
  told_budget : (length s <= budget)%nat;
  told_attempts : shown <$> r_Attempts res = (shown <$> attempts) ++ records s;
  told_log : log x'.2 = log x.2 ++ doings s ++ (if interrupted then [Interrupted] else []);
  told_end : concludes budget cands before s res err x' interrupted;
  told_refusals : quiet -> (rs_tick x.1 <= rs_tick x'.1)%nat /\ refusals x.1 s x'.1 }.

Lemma told_stop budget cands before attempts x x' (b : bool) :
  log x'.2 = log x.2 ++ (if b then [Interrupted] else []) ->
  (quiet -> (rs_tick x.1 <= rs_tick x'.1)%nat) ->
  b = true \/ out_of_time x' \/ Nat.min budget (length cands) = 0%nat ->
  told budget cands before attempts x [] (give_out (Strm := Strm) attempts before).1
    (give_out (Strm := Strm) attempts before).2 x' b.
Proof.
  intros Hlog Hq Hstop. split; simpl; [done|lia|by rewrite app_nil_r|done| |].
  - replace (Some _) with (Some (default exhausted (latest_error before []))) by (by destruct before).
    apply concludes_given_up; [constructor|]. destruct Hstop as [->|[?|E]]; [by left|by right; left|].
    right. right. by rewrite E.
  - intros Q. split; [by apply Hq|]. intros [|??] ????; discriminate.
Qed.

(** The head's part of a story. *)
Record begins (c : Candidate) (f : fate) (x x2 : RouterState * W) : Prop := {
  begins_log : log x2.2 = log x.2 ++ doings [(c, f)];
  begins_quiet : quiet -> exists n, (rs_tick x.1 <= n < rs_tick x2.1)%nat
    /\ (f = Refused <-> (Allow (clk n) (breakerFor r (dep_ID (cand_Deployment c)) x.1)).1 = false)
    /\ (forall id, id <> dep_ID (cand_Deployment c) -> breakerFor r id x2.1 = breakerFor r id x.1) }.

Lemma told_cons budget c f rest before attempts attempts2 x x2 s res err x' b :
  begins c f x x2 -> moved_on (c, f) ->
  shown <$> attempts2 = (shown <$> attempts) ++ records [(c, f)] ->
  told budget rest (latest_error before [(c, f)]) attempts2 x2 s res err x' b ->
  told (S budget) (c :: rest) before attempts x ((c, f) :: s) res err x' b.
Proof.
  intros [Hl Hq] Hm Ha [Ho Hb Hr Hlog He Hrs]. split.
  - rewrite fmap_cons, Ho. done.
  - simpl. lia.
  - rewrite Hr, Ha. simpl. by rewrite app_nil_r, <- app_assoc.
  - rewrite Hlog, Hl. simpl. by rewrite app_nil_r, <- !app_assoc.
  - by apply concludes_cons.
  - intros Q. destruct (Hq Q) as (n & Hn & Hf & Hother), (Hrs Q) as [Ht Hrest].
    split; [lia|]. by eapply refusals_cons.
Qed.

Lemma told_last budget c answer rest before attempts x x' res err :
  begins c (Answered answer) x x' ->
  shown <$> r_Attempts res = (shown <$> attempts) ++ records [(c, Answered answer)] ->
  concludes (S budget) (c :: rest) before [(c, Answered answer)] res err x' false ->
  told (S budget) (c :: rest) before attempts x [(c, Answered answer)] res err x' false.
Proof.
  intros [Hl Hq] Ha He. split; [done|simpl; lia|done|by rewrite Hl|done|].
  intros Q. destruct (Hq Q) as (n & Hn & Hf & Hother).
  split; [lia|]. eapply (refusals_cons _ _ _ n); [done|reflexivity|done|done|].
  intros [|??] ????; discriminate.
Qed.

(** What a step adds to the log; the clock goes on and, in a quiet environment, only the breaker
    of [id] may change. *)
Record keeps (id : DeploymentID) (l : list doing) (x y : RouterState * W) : Prop := {
  keeps_log : log y.2 = log x.2 ++ l;
  keeps_rs : quiet -> (rs_tick x.1 <= rs_tick y.1)%nat
    /\ forall id', id' <> id -> breakerFor r id' y.1 = breakerFor r id' x.1 }.

Lemma keeps_trans id l1 l2 x y z : keeps id l1 x y -> keeps id l2 y z -> keeps id (l1 ++ l2) x z.
Proof.
  intros [L1 R1] [L2 R2]. split; [by rewrite L2, L1, <- app_assoc|]. intros Q.
  destruct (R1 Q) as [T1 B1], (R2 Q) as [T2 B2]. split; [lia|]. intros id' H. by rewrite B2, B1.
Qed.

Lemma keeps_refl id x : keeps id [] x x.
Proof. split; [by rewrite app_nil_r|done]. Qed.

Lemma keeps_wait id i x :
  keeps id (if (wait r env i x).1 then [] else [Interrupted]) x (wait r env i x).2.
Proof.
  unfold wait. destruct (backoff r <=? 0); [apply keeps_refl|].
  split; [apply log_pause|]. intros (_ & Hp & _). by rewrite Hp.
Qed.

Lemma keeps_lookup id name x :
  keeps id (match (lookup env name x).1 with Some _ => [] | None => [Missing name] end)
    x (lookup env name x).2.
Proof. split; [apply log_lookup|]. intros (Hl & _). by rewrite Hl. Qed.

Lemma keeps_call id t p d x : keeps id [Called d (call env t p d x).1] x (call env t p d x).2.
Proof. split; [apply log_call|]. intros (_ & _ & Hc). by rewrite Hc. Qed.

Lemma keeps_now id x : keeps id [] x (now clk x).2.
Proof. split; [by rewrite app_nil_r|]. intros _. split; [simpl; lia|done]. Qed.

Lemma keeps_Saw id x : keeps id [] x (if observed then Saw clk id x else x).
Proof.
  destruct observed; [|apply keeps_refl]. split; [by rewrite app_nil_r|]. intros _.
  split; [simpl; lia|done].
Qed.

Lemma keeps_settled id f l x :
  keeps id [] x (health_Observe Exp2 clk r id f l (if f then breaker_Fail clk r id x else breaker_Succeed r id x)).
Proof.
  split; [destruct f; by rewrite app_nil_r|]. intros _. split; [destruct f; simpl; lia|].
  intros id' H. destruct f; exact (breakerFor_set id' id _ x.1 H).
Qed.

Lemma begins_of c f x remaining x1 ok x2 y :
  time_remaining clk ctxDeadline deadline x = (remaining, x1) ->
  breaker_Allow clk r (dep_ID (cand_Deployment c)) x1 = (ok, x2) ->
  (f = Refused <-> ok = false) ->
  keeps (dep_ID (cand_Deployment c)) (doings [(c, f)]) x2 y -> begins c f x y.
Proof.
  intros Ht Ha Hf [Hl Hq].
  assert (H1 : x1.2 = x.2 /\ (rs_tick x.1 <= rs_tick x1.1)%nat /\ forall id, breakerFor r id x1.1 = breakerFor r id x.1).
  { unfold time_remaining in Ht. destruct (IsZero _); simplify_eq/=; split_and!; try done; lia. }
  destruct H1 as (H1 & H2 & H3). unfold breaker_Allow in Ha.
  destruct (Allow (clk (rs_tick x1.1)) (breakerFor r (dep_ID (cand_Deployment c)) x1.1)) as [ok' b'] eqn:E.
  simplify_eq/=. split; [rewrite Hl; simpl; by rewrite H1|]. intros Q. destruct (Hq Q) as [Q1 Q2].
  cbn [on_rs fst rs_tick tick set_breaker] in *.
  exists (rs_tick x1.1). split_and!; [lia|lia|by rewrite <- H3, E|].
  intros id Hid. rewrite Q2 by done. rewrite <- H3. exact (breakerFor_set id _ _ x1.1 Hid).
Qed.

Lemma entered id (x : RouterState * W) remaining x1 ok x2 :
  time_remaining clk ctxDeadline deadline x = (remaining, x1) -> breaker_Allow clk r id x1 = (ok, x2) ->
  x2.2 = x.2 /\ (rs_tick x.1 <= rs_tick x2.1)%nat.
Proof.
  intros Ht Ha. unfold time_remaining in Ht. unfold breaker_Allow in Ha.
  destruct (Allow _ _), (IsZero _); simplify_eq/=; split; try done; lia.
Qed.

Lemma walk_told i cands attempts before x :
  let '((res, err), x') := walk_here i cands attempts before x in
  exists s interrupted, told (Z.to_nat (maxAttempts r - i)) cands before attempts x s res err x' interrupted.
Proof.
  revert i attempts before x. induction cands as [|c rest IH]; intros i attempts before x; cbn [walk].
  { exists [], false. apply told_stop; [by rewrite app_nil_r|done|]. right. right. simpl. lia. }
  destruct (maxAttempts r <=? i) eqn:Hi; zify_bools.
  { exists [], false. apply told_stop; [by rewrite app_nil_r|done|]. right. right. lia. }
  replace (Z.to_nat (maxAttempts r - i)) with (S (Z.to_nat (maxAttempts r - (i + 1)))) by lia.
  destruct (time_remaining _ _ _ x) as [remaining x1] eqn:Ht.
  destruct (remaining <? minAttemptBudget) eqn:Hrem; zify_bools.
  { exists [], false. apply told_stop.
    - unfold time_remaining in Ht. rewrite app_nil_r. by destruct (IsZero _); simplify_eq/=.
    - unfold time_remaining in Ht. intros _. destruct (IsZero _); simplify_eq/=; lia.
    - right. left. by exists x, remaining. }
  set (d := cand_Deployment c) in *.
  destruct (breaker_Allow _ _ _ x1) as [ok x2] eqn:Ha.
  pose proof (fun f y => begins_of c f x remaining x1 ok x2 y Ht Ha) as Hbeg.
  destruct ok; cbn [negb].
  2: { specialize (IH (i + 1) (attempts ++ [mkAttempt (dep_ID d) 0 None true]) before x2).
       destruct (walk_here _ _ _ _ _) as [[res err] x']. destruct IH as (s & b & Ho).
       exists ((c, Refused) :: s), b. eapply told_cons; [|done| |exact Ho].
       - by apply Hbeg, keeps_refl.
       - by rewrite fmap_app. }
  assert (H3 : keeps (dep_ID d) (if (if 0 <? i then wait r env i x2 else (true, x2)).1 then [] else [Interrupted])
                 x2 (if 0 <? i then wait r env i x2 else (true, x2)).2).
  { destruct (0 <? i); [apply keeps_wait|apply keeps_refl]. }
  destruct (if 0 <? i then _ else _) as [[] x3]; cbn [negb fst snd] in *.
  2: { exists [], true. destruct (entered _ _ _ _ _ _ Ht Ha) as [E1 E2], H3 as [L3 Q3].
       apply told_stop; [by rewrite L3, E1|intros Q; destruct (Q3 Q); lia|by left]. }
  pose proof (keeps_lookup (dep_ID d) (dep_Provider d) x3) as H4.
  destruct (lookup env _ x3) as [[p|] x4]; cbn [fst snd] in H4.
  2: { specialize (IH (i + 1) attempts (latest_error before [(c, Vanished)]) x4). cbn [latest_error foldl] in IH.
       destruct (walk_here _ _ _ _ _) as [[res err] x']. destruct IH as (s & b & Ho).
       exists ((c, Vanished) :: s), b. eapply told_cons; [|done| |exact Ho].
       - apply Hbeg; [done|]. exact (keeps_trans _ _ _ _ _ _ H3 H4).
       - by rewrite app_nil_r. }
  pose proof (keeps_trans _ _ _ _ _ _ (keeps_Saw (dep_ID d) x4)
                (keeps_now (dep_ID d) (if observed then Saw clk (dep_ID d) x4 else x4))) as H5.
  destruct (now clk (if observed then _ else _)) as [started x5]. cbn [snd] in H5.
  pose proof (keeps_call (dep_ID d) remaining p d x5) as H6.
  destruct (call env remaining p d x5) as [[[response stream] err] x6]. cbn [fst snd] in H6.
  pose proof (keeps_now (dep_ID d) x6) as H7. destruct (now clk x6) as [ended x7]. cbn [snd] in H7.
  pose proof (keeps_trans _ _ _ _ _ _ H3 (keeps_trans _ _ _ _ _ _ H4 (keeps_trans _ _ _ _ _ _ H5
                (keeps_trans _ _ _ _ _ _ H6 H7)))) as H. cbn [app] in H. clear H3 H4 H5 H6 H7.
  assert (Hans : forall f l, begins c (Answered (response, stream, err)) x
            (health_Observe Exp2 clk r (dep_ID d) f l
               (if f then breaker_Fail clk r (dep_ID d) x7 else breaker_Succeed r (dep_ID d) x7))).
  { intros f l. apply Hbeg; [done|]. exact (keeps_trans _ _ _ _ _ _ H (keeps_settled _ f l _)). }
  destruct err as [e|]; [destruct (IsRetryable (Some e)) eqn:Hr|].
  - specialize (IH (i + 1) (attempts ++ [mkAttempt (dep_ID d) (Sub ended started) (Some e) false]) (Some e)
      (health_Observe Exp2 clk r (dep_ID d) true (Sub ended started) (breaker_Fail clk r (dep_ID d) x7))).
    destruct (walk_here _ _ _ _ _) as [[res err] x']. destruct IH as (s & b & Ho).
    exists ((c, Answered (response, stream, Some e)) :: s), b.
    eapply told_cons; [apply (Hans true)|by exists e| |exact Ho]. by rewrite fmap_app.
  - exists [(c, Answered (response, stream, Some e))], false.
    eapply told_last; [by apply Hbeg|by cbn [r_Attempts]; rewrite fmap_app|].
    by apply (concludes_rejected _ _ _ []).
  - exists [(c, Answered (response, stream, None))], false.
    eapply told_last; [apply (Hans false)|by cbn [r_Attempts]; rewrite fmap_app|].
    by apply (concludes_served _ _ _ []).
Qed.

(** C15. Execution, whatever providers answer and other requests do meanwhile.  There is a story
    of it: the first candidates in candidate order, at most the attempt budget of them, each
    refused by its breaker, or missing its provider, or called and answered.  The world sees
    exactly the calls and the missing providers of the story, in that order, and no other call;
    the attempts recorded are exactly the story's refusals and answers, with each answer's error.
    Every candidate but the last was refused, missing, or failed with a retryable error.
    Execution succeeds only with the answer of the last candidate, whose deployment, response and
    stream it returns.  It fails with the error of its last candidate when that is not retryable;
    otherwise every candidate of the story is behind it, and it stopped because the backoff was
    interrupted, because the time left was too little for an attempt, or because candidates or
    attempts ran out, with the error of the latest candidate that had one (for a missing provider
    the error that names it) or, none having had one, that no candidate is available.  When
    nothing else touches the router, a candidate first met is refused exactly when the breaker the
    execution found for it refuses at a time read from the clock in the execution. *)
Theorem Execute_outcome cands x res err (x' : RouterState * W) :
  Execute Exp2 clk r env observed ctxDeadline cands deadline x = ((res, err), x') ->
  exists s (interrupted : bool),
    fst <$> s = take (length s) cands
    /\ (length s <= Z.to_nat (maxAttempts r))%nat
    /\ shown <$> r_Attempts res = records s
    /\ log x'.2 = log x.2 ++ doings s ++ (if interrupted then [Interrupted] else [])
    /\ concludes (Z.to_nat (maxAttempts r)) cands None s res err x' interrupted
    /\ (quiet -> refusals x.1 s x'.1).
Proof.
  intros H. unfold Execute in H. pose proof (walk_told 0 cands [] None x) as Ho.
  rewrite H, Z.sub_0_r in Ho. destruct Ho as (s & b & [Ho Hb Ha Hl He Hq]).
  exists s, b. split_and!; [done..|]. intros Q. by apply Hq.
Qed.
End told.
End execute.

(** ** A probe that is never settled *)

(** The breaker learns of an attempt only when it succeeds or fails with a retryable error.
    If the one probe a half-open breaker lets through ends in an error that is not retryable (a
    provider rejecting a malformed request, say), the slot stays taken: the breaker refuses every
    later request, at any time, until some success or failure is recorded from elsewhere. *)
Theorem lost_probe_locks_out Exp2 clk {P Strm W} r (env : Env P Strm W) observed c rest x p e resp :
  let id := dep_ID (cand_Deployment c) in
  let b := breakerFor r id x.1 in
  0 < maxAttempts r -> br_state b = open -> cooldown b <= Sub (clk (rs_tick x.1)) (openedAt b) ->
  (forall z, lookup env (dep_Provider (cand_Deployment c)) z = (Some p, z)) ->
  (forall t z, exists y, call env t p (cand_Deployment c) z = ((resp, None, Some e), (z.1, y))) ->
  IsRetryable (Some e) = false ->
  let out := Execute Exp2 clk r env observed None (c :: rest) 0 x in
  out.1.2 = Some e
  /\ forall later t, Forall (fun o => exists u, o = OAllow u) later ->
       (Allow t (run later (breakerFor r id out.2.1))).1 = false.
Proof.
  intros id b Hm Hs Hc Hl Hcall He out. subst out. unfold Execute. cbn [walk].
  rewrite (proj2 (Z.leb_gt _ _)) by done. cbn [time_remaining IsZero Z.eqb].
  change (Hour <? minAttemptBudget) with false. cbv iota.
  unfold breaker_Allow. fold id. fold b. rewrite (Allow_cooled b _ Hs Hc). cbn [negb].
  change (0 <? 0) with false. cbv iota. rewrite Hl. cbn [now].
  edestruct Hcall as [y ->]. cbn [now]. rewrite He. cbn [fst snd].
  split; [done|]. intros later t Hlater.
  match goal with |- context [breakerFor r id ?rs] =>
    assert (Hb : breakerFor r id rs = with_state b halfOpen (failures b) 0 (openedAt b) true) end.
  { unfold breakerFor. destruct observed; simpl; by rewrite lookup_insert_eq. }
  rewrite Hb, run_blocked by done. by rewrite Allow_blocked.
Qed.

(** ** Demonstrations *)

(** A quiet environment that logs its calls and answers by deployment. *)
Definition demo_env (answer : DeploymentID -> option error) : Env unit unit (list DeploymentID) :=
  mkEnv (fun _ x => (Some tt, x)) (fun _ x => (true, x))
    (fun _ _ d x => ((None, None, answer (dep_ID d)), (x.1, x.2 ++ [dep_ID d]))).

Definition demo_cand (id : DeploymentID) : Candidate :=
  mkCandidate (mkDeployment id (mkRoutingKey "m" "") "echo" "" "" TrustExternal "" 1 0 NoCost [])
    (of_int 1) (of_int 1).

Definition idle_router : RouterState := mkRS ∅ ∅ ∅ 0.

(** The same, with everything the router does in the log, and no provider called "gone". *)
Definition telling_env (answer : DeploymentID -> option error) : Env unit unit (list (doing (Strm := unit))) :=
  mkEnv (fun name x => if bool_decide (name = "gone") then (None, (x.1, x.2 ++ [Missing name])) else (Some tt, x))
    (fun _ x => (true, x))
    (fun _ _ d x => ((None, None, answer (dep_ID d)), (x.1, x.2 ++ [Called d (None, None, answer (dep_ID d))]))).

Definition demo_cand_of (provider : string) (id : DeploymentID) : Candidate :=
  mkCandidate (mkDeployment id (mkRoutingKey "m" "") provider "" "" TrustExternal "" 1 0 NoCost [])
    (of_int 1) (of_int 1).

Lemma Execute_outcome_witness :
  let down := Some (AsRetryable (New CodeUpstreamError "down")) in
  let env := telling_env (fun id => if bool_decide (id = "d1") then down else None) in
  let cands := [demo_cand "d1"; demo_cand_of "gone" "d2"; demo_cand "d3"; demo_cand "d4"] in
  let out := Execute (fun f => f) (fun _ => Hour) (NewRouter []) env true None cands 0 (idle_router, []) in
  out.2.2 = [Called (cand_Deployment (demo_cand "d1")) (None, None, down); Missing "gone";
             Called (cand_Deployment (demo_cand "d3")) (None, None, None)]
  /\ exists s, doings s = out.2.2 /\ fst <$> s = take (length s) cands /\ shown <$> r_Attempts out.1.1 = records s.
Proof.
  intros down env cands out.
  assert (Hw : out.2.2 = [Called (cand_Deployment (demo_cand "d1")) (None, None, down); Missing "gone";
             Called (cand_Deployment (demo_cand "d3")) (None, None, None)]) by (vm_compute; reflexivity).
  split; [exact Hw|].
  destruct (Execute_outcome (fun f => f) (fun _ => Hour) (NewRouter []) env true None 0 (fun w => w))
    with (cands := cands) (x := (idle_router, @nil (doing (Strm := unit)))) (res := out.1.1) (err := out.1.2) (x' := out.2)
    as (s & b & H1 & H2 & H3 & H4 & H5 & _).
  - intros name y. cbn [lookup env telling_env]. case_bool_decide; [done|]. symmetry. apply app_nil_r.
  - intros d y. symmetry. apply app_nil_r.
  - reflexivity.
  - unfold out. by rewrite <- !surjective_pairing.
  - assert (He : out.1.2 = None) by (vm_compute; reflexivity). rewrite He in H5.
    assert (Hb : b = false) by (by inversion H5). subst b. rewrite app_nil_r in H4.
    by exists s.
Defined.

Lemma lost_probe_locks_out_witness :
  let r := NewRouter [] in
  let down := with_state (NewBreaker []) open 0 0 Second false in
  let x := (set_breaker "d1" down idle_router, []) in
  let env := demo_env (fun _ => Some (New CodeInvalidRequest "bad request")) in
  let out := Execute (fun f => f) (fun _ => Hour) r env false None [demo_cand "d1"] 0 x in
  out.1.2 = Some (New CodeInvalidRequest "bad request")
  /\ (Allow (100 * Hour) (breakerFor r "d1" out.2.1)).1 = false.
Proof.
  intros r down x env out.
  destruct (lost_probe_locks_out (fun f => f) (fun _ => Hour) r env false (demo_cand "d1") [] x tt
              (New CodeInvalidRequest "bad request") None) as [H1 H2].
  - reflexivity.
  - reflexivity.
  - vm_compute. congruence.
  - reflexivity.
  - intros t z. eexists. reflexivity.
  - reflexivity.
  - split; [exact H1|]. apply (H2 [] (100 * Hour)). constructor.
Defined.

Definition demo_selection : SelectionInput :=
  mkSelection demo_snapshot "acme" "fast" EndpointChatCompletions TrustExternal [] ObjectiveBalanced "" 0.

Lemma Select_exact_witness :
  exists cands rs', Select (fun f => f) (fun _ => Hour) (fun _ : unit => [EndpointChatCompletions])
      (NewRouter []) (fun _ => Some tt) (of_int 0) demo_selection idle_router = (inr cands, rs')
    /\ (cand_Deployment <$> cands) ≡ₚ [demo_dep].
Proof.
  destruct (Select (fun f => f) (fun _ => Hour) (fun _ : unit => [EndpointChatCompletions])
      (NewRouter []) (fun _ => Some tt) (of_int 0) demo_selection idle_router) as [[e|cands] rs'] eqn:E.
  { exfalso. revert E. vm_compute. discriminate. }
  exists cands, rs'. split; [reflexivity|].
  destruct (Select_exact _ _ _ _ _ _ _ _ _ _ E) as [Hp _].
  etransitivity; [exact Hp|]. vm_compute. reflexivity.
Defined.

(** The objective can put a deployment above a healthier one: at a health of 0.85, being cheaper
    and in the worker's region outweighs the other's perfect health. *)
Lemma objective_overrides_health :
  let local := mkDeployment "near" (mkRoutingKey "m" "") "p" "" "eu" TrustExternal "" 1 0
                 (mkCost 100 100 0 0) [] in
  let remote := mkDeployment "far" (mkRoutingKey "m" "") "p" "" "us" TrustExternal "" 1 0
                  (mkCost 200 200 0 0) [] in
  let sick := mkCandidate local (ratio 85 100) (ratio 85 100) in
  let well := mkCandidate remote (of_int 1) (of_int 1) in
  let inp := mkSelection demo_snapshot "acme" "m" EndpointChatCompletions TrustExternal []
               ObjectiveBalanced "eu" 0 in
  cand_Deployment <$> sort_best (applyObjective [well; sick] inp) = [local; remote].
Proof. vm_compute. reflexivity. Qed.

(** A successful health probe does not bring an open breaker back: it stays open, with the same
    opening time, and only the cooldown ends it. *)
Lemma probe_does_not_close_open_breaker b :
  br_state b = open -> br_state (Succeed b) = open /\ openedAt (Succeed b) = openedAt b.
Proof. intros H. unfold Succeed. by rewrite H. Qed.
