(* ===== verification/Loops.v ===== *)
(** * Background loops (router/prober.go, snapshot/subscriber.go)

    The prober and the subscriber each run a loop beside the requests: [Start] adds to a wait group and
    spawns it, [Stop] closes a channel once and waits.  [lstep] is the protocol they share, over what
    a loop does at its points; the goroutines that run loops, the callers of [Start] and the callers
    of [Stop] take turns in any order.  [Probing] and [Polling] are the two loops, cut where another
    goroutine can come between: per probe, and per poll. *)
From S2P Require Import Prelude Errors Core Snapshot Float64 Breaker Router Holder Source.
From Stdlib Require Import ZArith Lia Floats.SpecFloat.
From stdpp Require Import base gmap strings list sorting.
Open Scope Z_scope.
Open Scope gw_scope.

(** ** Start and Stop *)
Section protocol.
(** [P] is where a loop is, [W] what it works on.  At a point that [selects] the loop waits for its
    timer, [Stop] or the context; at the others it acts. *)
Context {P W : Type} (entry : P) (selects : P -> bool) (fires : P -> P) (acts : P -> W -> P -> W -> Prop).

Inductive once := NotRun | InBody | Ran.

Record LState := mkLState {
  l_closed : bool;        (* stop *)
  l_once : once;          (* stopOnce *)
  l_waiting : nat;        (* callers of Stop held by stopOnce *)
  l_group : Z;            (* done *)
  l_starting : nat;       (* callers of Start between Add and go *)
  l_loops : list P;       (* the goroutines *)
  l_world : W }.

Inductive label :=
| Added | Spawned               (* Start *)
| StopCalled | StopReturned
| Worked                        (* a loop acted on what it works on *)
| Moved                         (* a loop woke up, or ended *)
| Elsewhere.                    (* the rest of the worker *)

Definition on_loops (f : list P -> list P) (s : LState) : LState :=
  mkLState (l_closed s) (l_once s) (l_waiting s) (l_group s) (l_starting s) (f (l_loops s)) (l_world s).
Definition with_world (w : W) (s : LState) : LState :=
  mkLState (l_closed s) (l_once s) (l_waiting s) (l_group s) (l_starting s) (l_loops s) w.
Definition with_once (o : once) (waiting : nat) (s : LState) : LState :=
  mkLState (l_closed s) o waiting (l_group s) (l_starting s) (l_loops s) (l_world s).

(** [ctx] says whether the context may be done. *)
Inductive lstep (ctx : Prop) : label -> LState -> LState -> Prop :=
| L_add s : lstep ctx Added s
    (mkLState (l_closed s) (l_once s) (l_waiting s) (l_group s + 1) (Datatypes.S (l_starting s)) (l_loops s) (l_world s))
| L_go s n : l_starting s = Datatypes.S n -> lstep ctx Spawned s
    (mkLState (l_closed s) (l_once s) (l_waiting s) (l_group s) n (l_loops s ++ [entry]) (l_world s))
| L_close s : l_once s = NotRun -> lstep ctx StopCalled s
    (mkLState true InBody (l_waiting s) (l_group s) (l_starting s) (l_loops s) (l_world s))
| L_queue s : l_once s = InBody -> lstep ctx StopCalled s (with_once InBody (Datatypes.S (l_waiting s)) s)
| L_again s : l_once s = Ran -> lstep ctx StopCalled s (with_once Ran (Datatypes.S (l_waiting s)) s)
| L_waited s : l_once s = InBody -> l_group s = 0 -> lstep ctx StopReturned s (with_once Ran (l_waiting s) s)
| L_released s n : l_once s = Ran -> l_waiting s = Datatypes.S n -> lstep ctx StopReturned s (with_once Ran n s)
| L_fire s i p : l_loops s !! i = Some p -> selects p = true -> lstep ctx Moved s (on_loops <[i := fires p]> s)
| L_exit s i p : l_loops s !! i = Some p -> selects p = true -> l_closed s = true \/ ctx -> lstep ctx Moved s
    (mkLState (l_closed s) (l_once s) (l_waiting s) (l_group s - 1) (l_starting s) (delete i (l_loops s)) (l_world s))
| L_act s i p p' w' : l_loops s !! i = Some p -> selects p = false -> acts p (l_world s) p' w' ->
    lstep ctx Worked s (with_world w' (on_loops <[i := p']> s))
| L_env s w' : lstep ctx Elsewhere s (with_world w' s).

Inductive lrun (ctx : Prop) : LState -> list label -> LState -> Prop :=
| lrun_nil s : lrun ctx s [] s
| lrun_cons s l s' tr s'' : lstep ctx l s s' -> lrun ctx s' tr s'' -> lrun ctx s (l :: tr) s''.

Definition fresh_loop (w : W) : LState := mkLState false NotRun 0 0 0 [] w.

(** The wait group counts the loops; the channel is closed by the one body that runs. *)
Definition counted (s : LState) : Prop :=
  l_group s = Z.of_nat (l_starting s) + Z.of_nat (length (l_loops s))
  /\ (l_closed s = true <-> l_once s <> NotRun) /\ (l_waiting s <> 0%nat -> l_once s <> NotRun).

Lemma lstep_counted ctx l s s' : lstep ctx l s s' -> counted s -> counted s'.
Proof.
  intros Hs (Hg & Hc & Hw). destruct Hs; unfold counted; cbn in *; rewrite ?length_insert, ?length_app; cbn;
    (split_and!; [try lia| |]); try (intuition congruence).
  apply lookup_lt_Some in H as Hi. rewrite length_delete by eauto. lia.
Qed.
Lemma lrun_counted ctx s tr s' : lrun ctx s tr s' -> counted s -> counted s'.
Proof. induction 1 as [|s l s1 tr s2 Hs _ IH]; [done|]. intros Hc. by eapply IH, lstep_counted. Qed.

(** *** After Stop *)

(** A trace in which no [Start] comes after a [Stop] was called. *)
Definition prudent (tr : list label) : Prop := forall before after, tr = before ++ StopCalled :: after -> Added ∉ after.

Definition settled (s : LState) : Prop := l_once s = Ran -> l_group s = 0.

Lemma prudent_tail l tr : prudent (l :: tr) -> prudent tr.
Proof. intros H before after ->. by apply (H (l :: before)). Qed.

Lemma lstep_called ctx l s s' : lstep ctx l s s' -> l_once s' <> NotRun -> l_once s <> NotRun \/ l = StopCalled.
Proof. destruct 1; cbn; intros; first [by right | left; congruence]. Qed.

Lemma lstep_settled ctx l s s' : lstep ctx l s s' -> counted s -> settled s -> (l_once s <> NotRun -> l <> Added) -> settled s'.
Proof.
  intros Hs (Hg & _) Hq Ha. unfold settled in *. destruct Hs; cbn in *; try (by auto); try (intros Hr; specialize (Hq Hr)).
  - by destruct (Ha ltac:(congruence)).
  - apply lookup_lt_Some in H. lia.
Qed.

(** What holds along a prudent trace, at its end and of what is left of it. *)
Lemma lrun_settled ctx s tr s' : lrun ctx s tr s' -> counted s -> settled s -> prudent tr -> (l_once s <> NotRun -> Added ∉ tr) ->
  counted s' /\ settled s'.
Proof.
  induction 1 as [|s l s1 tr s2 Hs _ IH]; [done|]. intros Hc Hq Hp Ha.
  assert (Hl : l_once s <> NotRun -> l <> Added) by (intros H1 ->; apply Ha in H1; by apply not_elem_of_cons in H1 as [? _]).
  apply IH; [by eapply lstep_counted|by eapply lstep_settled|by eapply prudent_tail|].
  intros H1. destruct (lstep_called _ _ _ _ Hs H1) as [H2| ->]; [|by apply (Hp [])].
  apply Ha in H2. by apply not_elem_of_cons in H2 as [_ ?].
Qed.

Lemma lrun_called ctx s tr s' : lrun ctx s tr s' -> l_once s' <> NotRun -> l_once s <> NotRun \/ StopCalled ∈ tr.
Proof.
  induction 1 as [|s l s1 tr s2 Hs _ IH]; [by left|]. intros Hn. destruct (IH Hn) as [H1|H1]; [|right; by right].
  destruct (lstep_called _ _ _ _ Hs H1) as [|<-]; [by left|right; left].
Qed.

(** From a state in which a [Stop] has returned nothing runs, and nothing can but a new [Start]. *)
Definition over (s : LState) : Prop := l_once s = Ran /\ l_group s = 0 /\ l_starting s = 0%nat /\ l_loops s = [].
Lemma lrun_over ctx s tr s' : lrun ctx s tr s' -> over s -> Added ∉ tr -> over s' /\ (Worked ∉ tr) /\ (Moved ∉ tr) /\ (Spawned ∉ tr).
Proof.
  induction 1 as [s|s l s1 tr s2 Hs _ IH]; [intros; split_and!; by try apply not_elem_of_nil|].
  intros Ho Ha. apply not_elem_of_cons in Ha as [Hl Ha].
  assert (over s1 /\ l <> Worked /\ l <> Moved /\ l <> Spawned) as (Ho1 & ? & ? & ?).
  { destruct Ho as (H1 & H2 & H3 & H4). unfold over. destruct Hs; cbn in *; rewrite ?H4 in *; try done; split_and!; congruence. }
  destruct (IH Ho1 Ha) as (? & ? & ? & ?). split; [done|]. rewrite !not_elem_of_cons. intuition congruence.
Qed.

Lemma stop_returned_over ctx s s' : lstep ctx StopReturned s s' -> counted s' -> settled s' -> over s'.
Proof.
  intros Hs (Hg & _) Hq. assert (Hr : l_once s' = Ran) by by inversion Hs. specialize (Hq Hr).
  split_and!; try done; [lia|]. apply nil_length_inv. lia.
Qed.

Lemma lrun_split ctx s tr1 l tr2 s' : lrun ctx s (tr1 ++ l :: tr2) s' ->
  exists s1 s2, lrun ctx s tr1 s1 /\ lstep ctx l s1 s2 /\ lrun ctx s2 tr2 s'.
Proof.
  revert s. induction tr1 as [|l1 tr1 IH]; intros s Hr; inversion Hr as [|? ? s1 ? ? H1 H2]; subst.
  - exists s, s1. split; [constructor|done].
  - destruct (IH _ H2) as (s3 & s4 & ? & ? & ?). exists s3, s4. split; [by econstructor|done].
Qed.

Lemma nothing_runs_after_Stop ctx w tr1 tr2 s :
  lrun ctx (fresh_loop w) (tr1 ++ StopReturned :: tr2) s -> prudent (tr1 ++ StopReturned :: tr2) ->
  (Worked ∉ tr2) /\ (Moved ∉ tr2) /\ (Spawned ∉ tr2) /\ l_loops s = [].
Proof.
  intros Hr Hp. destruct (lrun_split _ _ _ _ _ _ Hr) as (s1 & s2 & H1 & H2 & H3).
  assert (Hin : StopCalled ∈ tr1).
  { destruct (lrun_called _ _ _ _ H1) as [|]; [by inversion H2; congruence|done|done]. }
  assert (Hc0 : counted (fresh_loop w)) by (split_and!; [done|split; done|done]).
  assert (Hp1 : prudent tr1).
  { intros before after ->. rewrite <- app_assoc in Hp. specialize (Hp before _ eq_refl). by apply not_elem_of_app in Hp as [? _]. }
  destruct (lrun_settled _ _ _ _ H1 Hc0) as [Hc1 Hq1]; [by unfold settled|done|done|].
  apply list_elem_of_split in Hin as (a & b & ->). rewrite <- app_assoc in Hp. specialize (Hp a _ eq_refl).
  apply not_elem_of_app in Hp as [_ Hp]. apply not_elem_of_cons in Hp as [_ Ha].
  assert (Ho : over s2).
  { eapply stop_returned_over; [exact H2|by eapply lstep_counted|]. eapply lstep_settled; [exact H2|done|done|done]. }
  destruct (lrun_over _ _ _ _ H3 Ho Ha) as ((_ & _ & _ & ?) & ? & ? & ?). done.
Qed.

(** *** Stop comes back *)

Lemma lrun_app ctx s1 tr1 s2 tr2 s3 : lrun ctx s1 tr1 s2 -> lrun ctx s2 tr2 s3 -> lrun ctx s1 (tr1 ++ tr2) s3.
Proof. induction 1; [done|]. intros. econstructor; eauto. Qed.

(** What a loop does comes back to its select, left alone. *)
Inductive returns : P -> W -> Prop :=
| returns_here p w : selects p = true -> returns p w
| returns_acts p w p' w' : selects p = false -> acts p w p' w' -> returns p' w' -> returns p w.
Context (returning : forall p w, returns p w).

(** The steps a closed loop takes to its end. *)
Definition draining (l : label) : Prop := l = Spawned \/ l = Worked \/ l = Moved \/ l = StopReturned.

Lemma first_ends ctx p w : returns p w -> forall s rest, l_loops s = p :: rest -> l_world s = w -> l_closed s = true ->
  exists tr w', Forall draining tr /\ lrun ctx s tr
    (mkLState true (l_once s) (l_waiting s) (l_group s - 1) (l_starting s) rest w').
Proof.
  induction 1 as [p w Hs|p w p' w' Hs Ha _ IH]; intros s rest Hl Hw Hc.
  - exists [Moved], w. split; [apply list.Forall_singleton; unfold draining; auto|]. econstructor; [|constructor].
    pose proof (L_exit ctx s 0 p) as HE. rewrite Hl, Hc, Hw in HE. cbn in HE. apply HE; auto.
  - destruct (IH (with_world w' (on_loops <[0%nat := p']> s)) rest) as (tr & w1 & HF & HR); [by cbn; rewrite Hl|done|done|].
    exists (Worked :: tr), w1. split; [constructor; [unfold draining; auto|done]|].
    econstructor; [|exact HR]. eapply L_act; [by rewrite Hl|done|by rewrite Hw].
Qed.

Lemma all_end ctx n : forall s, length (l_loops s) = n -> l_closed s = true ->
  exists tr w', Forall draining tr /\ lrun ctx s tr
    (mkLState true (l_once s) (l_waiting s) (l_group s - Z.of_nat n) (l_starting s) [] w').
Proof.
  induction n as [|n IH]; intros s Hn Hc.
  - exists [], (l_world s). split; [constructor|]. rewrite Z.sub_0_r, <- Hc. apply nil_length_inv in Hn. rewrite <- Hn.
    destruct s; constructor.
  - destruct (l_loops s) as [|p rest] eqn:E; [done|].
    destruct (first_ends ctx p (l_world s) (returning _ _) s rest E eq_refl Hc) as (tr1 & w1 & F1 & R1).
    destruct (IH _ (f_equal pred Hn : length (l_loops (mkLState true (l_once s) (l_waiting s) (l_group s - 1) (l_starting s) rest w1)) = n) eq_refl)
      as (tr2 & w2 & F2 & R2).
    exists (tr1 ++ tr2), w2. split; [by apply Forall_app|]. eapply lrun_app; [exact R1|]. cbn in R2.
    replace (l_group s - Z.of_nat (Datatypes.S n)) with (l_group s - 1 - Z.of_nat n) by lia. exact R2.
Qed.

Lemma all_spawn ctx n : forall s, l_starting s = n ->
  exists tr, Forall draining tr /\ lrun ctx s tr
    (mkLState (l_closed s) (l_once s) (l_waiting s) (l_group s) 0 (l_loops s ++ repeat entry n) (l_world s)).
Proof.
  induction n as [|n IH]; intros s Hn.
  - exists []. split; [constructor|]. cbn. rewrite app_nil_r, <- Hn. destruct s; constructor.
  - destruct (IH (mkLState (l_closed s) (l_once s) (l_waiting s) (l_group s) n (l_loops s ++ [entry]) (l_world s)) eq_refl) as (tr & F & R).
    exists (Spawned :: tr). split; [constructor; [unfold draining; auto|done]|].
    econstructor; [by apply L_go|]. cbn in R. by rewrite <- app_assoc in R.
Qed.

(** A [Stop] under way can come back by steps of the loops alone. *)
Lemma stop_can_return ctx s : counted s -> l_once s = InBody -> exists tr s', Forall draining tr /\ lrun ctx s tr s' /\ over s'.
Proof.
  intros (Hg & Hc & _) Ho. assert (Hcl : l_closed s = true) by (apply Hc; congruence).
  destruct (all_spawn ctx _ s eq_refl) as (tr1 & F1 & R1). set (s1 := mkLState _ _ _ _ _ _ _) in R1.
  destruct (all_end ctx _ s1 eq_refl Hcl) as (tr2 & w & F2 & R2).
  assert (Hz : l_group s1 - Z.of_nat (length (l_loops s1)) = 0)
    by (cbn; rewrite length_app, repeat_length; lia). rewrite Hz in R2.
  exists (tr1 ++ tr2 ++ [StopReturned]). eexists. split_and!.
  - apply Forall_app. split; [done|]. apply Forall_app. split; [done|]. apply list.Forall_singleton. unfold draining. auto.
  - eapply lrun_app; [exact R1|]. eapply lrun_app; [exact R2|]. econstructor; [by apply L_waited|constructor].
  - done.
Qed.
End protocol.

(** ** The prober *)
Module Probing.

Definition DefaultProbeInterval : duration := 30 * Second.
Definition DefaultProbeTimeout : duration := 3 * Second.

Record Prober := mkProber { pr_interval : duration; pr_timeout : duration }.
Definition WithProbeInterval (d : duration) (p : Prober) : Prober :=
  if 0 <? d then mkProber d (pr_timeout p) else p.
Definition WithProbeTimeout (d : duration) (p : Prober) : Prober :=
  if 0 <? d then mkProber (pr_interval p) d else p.

(** The arguments say which of them are there; what is registered with the router is [Saw]. *)
Definition NewProber (r snapshots credentials : bool) (opts : list (Prober -> Prober)) : error + Prober :=
  if negb r || negb snapshots || negb credentials
  then inl (New CodeInternal "a prober needs a router, a snapshot source and a credential source")
  else inr (foldl (fun p opt => opt p) (mkProber DefaultProbeInterval DefaultProbeTimeout) opts).

Section loop.
Context (Exp2 : float64 -> float64) (clk : nat -> time) {P W : Type} (r : Router) (env : ProbeEnv P W)
  (snapshots : RouterState * W -> option Snapshot).

(** In the select; in [RunOnce]; and there with these ids left. *)
Inductive point := AtTicker | AtRunOnce | AtIds (snap : Snapshot) (ids : list DeploymentID).
Definition selects (p : point) : bool := match p with AtTicker => true | _ => false end.
Definition fires (_ : point) : point := AtRunOnce.

Inductive acts : point -> RouterState * W -> point -> RouterState * W -> Prop :=
| A_none x : snapshots x = None -> acts AtRunOnce x AtTicker x
| A_idle x snap ids : snapshots x = Some snap -> ids ≡ₚ idle clk snap x.1 -> acts AtRunOnce x (AtIds snap ids) x
| A_gone x snap id ids : lookupDeployment snap id = None -> acts (AtIds snap (id :: ids)) x (AtIds snap ids) x
| A_probe x snap id ids d : lookupDeployment snap id = Some d ->
    acts (AtIds snap (id :: ids)) x (AtIds snap ids) (probe Exp2 clk r env d x)
| A_done x snap : acts (AtIds snap []) x AtTicker x.

(** A pass left alone. *)
Inductive pass : point -> RouterState * W -> RouterState * W -> Prop :=
| pass_end x : pass AtTicker x x
| pass_act p x p' x' y : acts p x p' x' -> pass p' x' y -> pass p x y.

Lemma pass_ids snap ids n x : pass (AtIds snap ids) x
  (foldl (fun '(probed, x) id =>
            match lookupDeployment snap id with None => (probed, x) | Some d => (probed + 1, probe Exp2 clk r env d x) end)
     (n, x) ids).2.
Proof.
  revert n x. induction ids as [|id ids IH]; intros n x; cbn; [eapply pass_act; [apply A_done|constructor]|].
  destruct (lookupDeployment snap id) as [d|] eqn:E; (eapply pass_act; [|apply IH]); [by apply A_probe|by apply A_gone].
Qed.

(** A pass nobody interrupts is [RunOnce]. *)
Lemma pass_is_RunOnce shuffle x : (forall ids, shuffle ids ≡ₚ ids) ->
  pass AtRunOnce x (RunOnce Exp2 clk r env shuffle (snapshots x) x).2.
Proof.
  intros Hs. unfold RunOnce. destruct (snapshots x) as [snap|] eqn:E.
  - eapply pass_act; [by apply A_idle, Hs|]. apply pass_ids.
  - eapply pass_act; [by apply A_none|constructor].
Qed.

Lemma probing_returns p x : returns selects acts p x.
Proof.
  assert (HI : forall snap ids x, returns selects acts (AtIds snap ids) x).
  { intros snap ids. induction ids as [|id ids IH]; intros y.
    - by eapply returns_acts; [|apply A_done|apply returns_here].
    - destruct (lookupDeployment snap id) as [d|] eqn:E; (eapply returns_acts; [done| |apply IH]); [by apply A_probe|by apply A_gone]. }
  destruct p as [| |snap ids]; [by apply returns_here| |apply HI].
  destruct (snapshots x) as [snap|] eqn:E; (eapply returns_acts; [done| |]).
  - by apply A_idle.
  - apply HI.
  - by apply A_none.
  - by apply returns_here.
Qed.

(** [Start], [Stop] and [run] of the prober, beside everything else. *)
Definition live : Prop -> LState -> list label -> LState -> Prop := lrun AtTicker selects fires acts.
End loop.
End Probing.

(** ** The subscriber *)
Module Polling.

(** [jitterUpTo], with the number [rand.Float64] gives; the conversion to a duration truncates. *)
Definition to_duration (f : float64) : duration :=
  match f with
  | S754_finite s m e => let z := if 0 <=? e then Z.pos m * 2 ^ e else Z.pos m / 2 ^ (- e) in if s then - z else z
  | _ => 0
  end.
Definition jitterUpTo (ratio random : float64) (d : duration) : duration :=
  if d <=? 0 then d else wrap64 (d + wrap64 (to_duration (fmul random (fmul (of_int d) ratio)))).

Record SubscriberStats := mkSubscriberStats {
  ss_Digest : string; ss_Applied : Z; ss_Unchanged : Z; ss_Failed : Z; ss_Rejected : Z; ss_LastError : option error }.
Definition Stats (s : Subscriber) : SubscriberStats :=
  mkSubscriberStats (default "" (sub_digest s)) (sub_applied s) (sub_unchanged s) (sub_failed s) (sub_rejected s) (sub_lastError s).

Section loop.
Context (c : SubConfig) (fetch : string -> error + Fetched) (fresh : Holder -> nat).

(** In one of the two selects, or polling. *)
Inductive point := AtTimer (backoff : duration) | AtPoll (backoff : duration) | AtBackoff (backoff : duration).
Definition selects (p : point) : bool := match p with AtPoll _ => false | _ => true end.
Definition fires (p : point) : point :=
  match p with
  | AtTimer backoff => AtPoll backoff
  | AtBackoff backoff => AtTimer (Z.min (wrap64 (backoff * 2)) (cfg_maxBackoff c))
  | AtPoll _ => p
  end.
Definition point_of (l : loop_at) : option point :=
  match l with AtInterval b => Some (AtTimer b) | AtRetry b => Some (AtBackoff b) | AtExit => None end.

Inductive acts : point -> Subscriber * Holder -> point -> Subscriber * Holder -> Prop :=
| A_failed b s h s' h' err : Refresh s h (fresh h) fetch = (s', h', Some err) -> acts (AtPoll b) (s, h) (AtBackoff b) (s', h')
| A_polled b s h s' h' : Refresh s h (fresh h) fetch = (s', h', None) -> acts (AtPoll b) (s, h) (AtTimer (cfg_minBackoff c)) (s', h').

(** A wake-up by the timer is a step of the loop's own definition. *)
Lemma acts_run_step b s h p' s' h' : acts (AtPoll b) (s, h) p' (s', h')
  <-> exists l, run_step c fetch (fresh h) (AtInterval b, s, h) WakeTimer = (l, s', h') /\ point_of l = Some p'.
Proof.
  cbn. destruct (Refresh s h (fresh h) fetch) as [[s1 h1] [e|]] eqn:E; split.
  - intros H. inversion H; subst; rewrite E in *; by simplify_eq; eexists.
  - intros (l & [= <- <- <-] & [= <-]). by eapply A_failed.
  - intros H. inversion H; subst; rewrite E in *; by simplify_eq; eexists.
  - intros (l & [= <- <- <-] & [= <-]). by eapply A_polled.
Qed.

Lemma polling_returns p x : returns selects acts p x.
Proof.
  destruct p as [b|b|b]; [by apply returns_here| |by apply returns_here]. destruct x as [s h].
  destruct (Refresh s h (fresh h) fetch) as [[s' h'] [e|]] eqn:E.
  - eapply returns_acts; [done|by eapply A_failed|by apply returns_here].
  - eapply returns_acts; [done|by apply A_polled|by apply returns_here].
Qed.

(** [Start], [Stop] and [run] of the subscriber, beside everything else. *)
Definition live : Prop -> LState -> list label -> LState -> Prop := lrun (AtTimer (cfg_minBackoff c)) selects fires acts.
End loop.
End Polling.

(** ** What Stop promises *)

(** Along every interleaving in which no [Start] follows a [Stop]: once a [Stop] has returned no loop
    runs or acts again, and a [Stop] under way can be brought back by steps of the loops alone. *)
Definition well_stopped {P W} (live : Prop -> LState (P := P) (W := W) -> list label -> LState -> Prop) : Prop :=
  forall (ctx : Prop) w tr s, live ctx (fresh_loop w) tr s -> prudent tr ->
    (forall tr1 tr2, tr = tr1 ++ StopReturned :: tr2 -> (Worked ∉ tr2) /\ (Moved ∉ tr2) /\ l_loops s = [])
    /\ (l_once s = InBody -> exists tr' s', Forall draining tr' /\ live ctx s tr' s' /\ over s').

Lemma returning_well_stopped {P W} (entry : P) selects fires (acts : P -> W -> P -> W -> Prop) :
  (forall p w, returns selects acts p w) -> well_stopped (lrun entry selects fires acts).
Proof.
  intros Hret ctx w tr s Hr Hp. split.
  - intros tr1 tr2 ->. by destruct (nothing_runs_after_Stop _ _ _ _ _ _ _ _ _ Hr Hp) as (? & ? & _ & ?).
  - intros Ho. apply stop_can_return; [done| |done]. eapply lrun_counted; [exact Hr|]. split_and!; [done|split; done|done].
Qed.

(** C36. Stop is final, for the prober and for the subscriber.  However requests, other callers of
    [Start] and [Stop] and the loops themselves interleave, when no [Start] comes after a [Stop]:
    once a [Stop] has returned, in whichever caller, the loop probes no deployment and installs no
    snapshot again, and no goroutine of it is left; and from every point of every such run a [Stop]
    under way can come back, since what the loops still do, a pass over any number of deployments or
    a poll, leads back to their select. *)
Theorem Stop_is_final {P W} Exp2 clk (r : Router) (env : ProbeEnv P W) snapshots c fetch fresh :
  well_stopped (Probing.live Exp2 clk r env snapshots) /\ well_stopped (Polling.live c fetch fresh).
Proof. split; apply returning_well_stopped; [apply Probing.probing_returns|apply Polling.polling_returns]. Qed.

(** *** Runs *)

Definition idle_subscriber : Subscriber * Holder := (mkSubscriber None 0 0 0 0 None, src_holder).
Definition down (_ : string) : error + Fetched := inl (Foreign "connection refused" None).
Definition try_sub : SubConfig := (NewSubscriber id []).1.
#[local] Abbreviation polls := (Polling.live try_sub down (fun _ => 0%nat)).

(** A [Stop] called while a poll is under way: it comes back after the poll. *)
Lemma stop_waits_for_the_poll : exists s, polls False (fresh_loop idle_subscriber)
    [Added; Spawned; Moved; StopCalled; Worked; Moved; StopReturned] s
  /\ prudent [Added; Spawned; Moved; StopCalled; Worked; Moved; StopReturned]
  /\ over s /\ sub_failed (l_world s).1 = 1.
Proof.
  eexists. split_and!.
  - econstructor; [apply L_add|]. econstructor; [by apply L_go|].
    econstructor; [by eapply (L_fire _ _ _ _ _ _ 0)|]. econstructor; [by apply L_close|].
    econstructor; [eapply (L_act _ _ _ _ _ _ 0); [done|done|]; by eapply Polling.A_failed|].
    econstructor; [by eapply (L_exit _ _ _ _ _ _ 0); [| |left]|]. econstructor; [by apply L_waited|constructor].
  - intros before after E. do 4 (destruct before as [|? before]; [try discriminate E; injection E as <-; set_solver|injection E as _ E]).
    repeat (destruct before as [|? before]; [discriminate E|injection E as _ E]). by destruct before.
  - done.
  - done.
Qed.

(** A [Start] after [Stop] is not covered: if its timer is ready when it first looks, the loop may
    take it rather than the closed channel, and poll. *)
Lemma late_start_may_poll : exists s, polls False (fresh_loop idle_subscriber)
    [StopCalled; StopReturned; Added; Spawned; Moved; Worked] s.
Proof.
  eexists. econstructor; [by apply L_close|]. econstructor; [by apply L_waited|].
  econstructor; [apply L_add|]. econstructor; [by apply L_go|].
  econstructor; [by eapply (L_fire _ _ _ _ _ _ 0)|].
  econstructor; [eapply (L_act _ _ _ _ _ _ 0); [done|done|]; by eapply Polling.A_failed|constructor].
Qed.

(** ** What the router reports *)

(** [slices.Sort] on ids: by bytes. *)
Definition id_le (a b : DeploymentID) : Prop := String.leb a b = true.
#[local] Instance id_le_dec : RelDecision id_le := fun a b => decide (String.leb a b = true).
#[local] Instance id_le_total : Total id_le.
Proof. intros a b. apply String.leb_total. Qed.

Definition Router_Stats (Exp2 : float64 -> float64) (clk : nat -> time) (rs : RouterState) : list DeploymentHealth :=
  stats_row Exp2 clk rs <$> merge_sort id_le (elements (dom (rs_health rs))).

(** A row for each deployment whose health was ever observed, and no other, in the order of their
    ids: what an operator reads does not depend on the order a map is walked in. *)
Lemma Router_Stats_complete Exp2 clk rs :
  let ids := dh_Deployment <$> Router_Stats Exp2 clk rs in
  Sorted id_le ids /\ NoDup ids /\ forall id, id ∈ ids <-> is_Some (rs_health rs !! id).
Proof.
  intros ids. assert (E : ids = merge_sort id_le (elements (dom (rs_health rs)))).
  { subst ids. unfold Router_Stats. rewrite <- list_fmap_compose. apply list_fmap_id. }
  rewrite E. split; [apply Sorted_merge_sort, _|]. rewrite merge_sort_Permutation. split; [apply NoDup_elements|].
  intros id. by rewrite merge_sort_Permutation, elem_of_elements, elem_of_dom.
Qed.

(** ** The spread of the polls *)

Definition not_negative (f : float64) : Prop :=
  match f with S754_finite true _ _ | S754_infinity true => False | _ => True end.

Lemma round_not_negative m e l : not_negative (binary_round_aux prec64 emax64 false m e l).
Proof.
  unfold binary_round_aux. destruct (shr_fexp _ _ _ _) as [mrs e1]. destruct (shr_fexp _ _ _ _) as [mrs' e2].
  destruct (shr_m mrs'); [done| |done]. by destruct (_ <=? _).
Qed.
Lemma fmul_not_negative a b : not_negative a -> not_negative b -> not_negative (fmul a b).
Proof.
  destruct a as [s|[]| |[] m e], b as [s'|[]| |[] m' e']; try done; intros _ _.
  apply round_not_negative.
Qed.
Lemma of_int_not_negative d : 0 < d -> not_negative (of_int d).
Proof.
  intros Hd. destruct d as [|p|p]; [lia| |lia]. unfold of_int, binary_normalize, binary_round.
  destruct (shl_align _ _ _) as [m e]. apply round_not_negative.
Qed.
Lemma to_duration_not_negative f : not_negative f -> 0 <= Polling.to_duration f.
Proof.
  destruct f as [| | |[] m e]; try done. intros _. cbn -[Z.mul Z.pow Z.div]. destruct (0 <=? e) eqn:E.
  - apply Z.leb_le in E. nia.
  - apply Z.leb_gt in E. apply Z.div_pos; [lia|]. apply Z.pow_pos_nonneg; lia.
Qed.

(** A spread delay is no shorter than the delay: jitter does not make a worker poll sooner. *)
Lemma jitter_never_hurries ratio random d : not_negative ratio -> not_negative random -> 0 < d ->
  d + Polling.to_duration (fmul random (fmul (of_int d) ratio)) < 2 ^ 63 ->
  d <= Polling.jitterUpTo ratio random d.
Proof.
  intros Hr Hx Hd. unfold Polling.jitterUpTo. destruct (d <=? 0) eqn:E; [apply Z.leb_le in E; lia|].
  assert (H0 : 0 <= Polling.to_duration (fmul random (fmul (of_int d) ratio)))
    by (apply to_duration_not_negative, fmul_not_negative; [done|]; apply fmul_not_negative; [by apply of_int_not_negative|done]).
  intros Hl. rewrite (wrap64_id (Polling.to_duration _)) by (unfold in_int64, int64_min, int64_max; lia). rewrite wrap64_id by (unfold in_int64, int64_min, int64_max; lia). lia.
Qed.

(** A fifth of a second at most on a second. *)
Lemma jitter_on_a_second :
  Polling.jitterUpTo (ratio 1 5) (of_int 0) Second = Second
  /\ Polling.jitterUpTo (ratio 1 5) (ratio 999 1000) Second = Second + 199800000.
Proof. vm_compute. split; reflexivity. Qed.
