(* ===== verification/Placeholder.v ===== *)
(** * Placeholders (pii/transform.go, the pattern and its replacement)

    [placeholderPattern] is the regular expression [\[\[[A-Z_]+_\d+\]\]].  [match_at] matches it
    at the front of a text and is shown to be exactly the language; [substitute] is
    [ReplaceAllStringFunc] with a map of originals.  The central lemma says when a text may be
    cut in two and substituted piecewise: whenever no placeholder of the map lies across the
    cut. *)
From S2P Require Import Prelude Core Strconv.
From Stdlib Require Import ZArith Lia Ascii.
From stdpp Require Import base gmap strings list.

(** The bytes of a string literal. *)
Definition str (s : string) : list ascii := String.list_ascii_of_string s.

Definition placeholderOpen : list ascii := str "[[".
Definition placeholderClose : list ascii := str "]]".
Definition MaxPlaceholderLen : nat := 64.

(** [[A-Z_]]. *)
Definition is_name_char (c : ascii) : bool :=
  ((65 <=? nat_of_ascii c) && (nat_of_ascii c <=? 90))%nat || bool_decide (c = "_"%char).

Definition NameChar (c : ascii) : Prop := is_name_char c = true.
Definition DigitChar (c : ascii) : Prop := is_digit c = true.

(** The language of the pattern. *)
Definition shape (p : list ascii) : Prop :=
  exists name num, p = placeholderOpen ++ name ++ ["_"%char] ++ num ++ placeholderClose
    /\ name <> [] /\ Forall NameChar name /\ num <> [] /\ Forall DigitChar num.

(** Longest prefix of characters satisfying [f]. *)
Fixpoint span (f : ascii -> bool) (s : list ascii) : list ascii * list ascii :=
  match s with
  | [] => ([], [])
  | c :: s' => if f c then let '(u, v) := span f s' in (c :: u, v) else ([], s)
  end.

(** Strip a literal from the front. *)
Fixpoint strip (p s : list ascii) : option (list ascii) :=
  match p, s with
  | [], _ => Some s
  | c :: p', d :: s' => if bool_decide (c = d) then strip p' s' else None
  | _ :: _, [] => None
  end.

(** Match the pattern at the front of [s]: the matched text and what follows it.  The run of
    name characters must end in the underscore, because a digit is not a name character. *)
Definition match_at (s : list ascii) : option (list ascii * list ascii) :=
  match strip placeholderOpen s with
  | None => None
  | Some s1 =>
      let '(run, s2) := span is_name_char s1 in
      let '(num, s3) := span is_digit s2 in
      match rev run with
      | u :: _ :: _ =>
          match bool_decide (u = "_"%char), num, strip placeholderClose s3 with
          | true, _ :: _, Some rest => Some (placeholderOpen ++ run ++ num ++ placeholderClose, rest)
          | _, _, _ => None
          end
      | _ => None
      end
  end.

(** A text as the matcher sees it: placeholders and the bytes between them. *)
Inductive piece := Lit (c : ascii) | Ph (p : list ascii).

(** [skip] bytes belong to a match already taken. *)
Fixpoint pieces_from (skip : nat) (s : list ascii) : list piece :=
  match s with
  | [] => []
  | c :: s' =>
      match skip with
      | S k => pieces_from k s'
      | O => match match_at s with
             | Some (p, _) => Ph p :: pieces_from (length p - 1) s'
             | None => Lit c :: pieces_from 0 s'
             end
      end
  end.
Definition pieces (s : list ascii) : list piece := pieces_from 0 s.

Definition replacements := gmap (list ascii) (list ascii).

Definition render (m : replacements) (x : piece) : list ascii :=
  match x with
  | Lit c => [c]
  | Ph p => default p (m !! p)
  end.

Definition substitute (m : replacements) (s : list ascii) : list ascii :=
  pieces s ≫= render m.
#[global] Arguments substitute : simpl never.

(** The placeholders of a text that were never issued. *)
Definition missed (m : replacements) (s : list ascii) : Z :=
  sumZ (fun x => match x with
                 | Ph p => match m !! p with Some _ => 0 | None => 1 end
                 | Lit _ => 0
                 end)%Z (pieces s).

(** ** The matcher is the pattern *)

Lemma span_app f s u v : span f s = (u, v) -> s = u ++ v /\ Forall (fun c => f c = true) u
  /\ match v with c :: _ => f c = false | [] => True end.
Proof.
  revert u v. induction s as [|c s IH]; intros u v H; simpl in H; [by simplify_eq|].
  destruct (f c) eqn:E.
  - destruct (span f s) as [u' v'] eqn:Es. simplify_eq. destruct (IH u' v eq_refl) as (-> & Hu & Hv).
    split_and!; [done|by constructor|done].
  - simplify_eq. by split_and!.
Qed.

Lemma span_exact f u v :
  Forall (fun c => f c = true) u -> match v with c :: _ => f c = false | [] => True end ->
  span f (u ++ v) = (u, v).
Proof.
  intros Hu Hv. induction Hu as [|c u Hc _ IH]; simpl.
  - destruct v as [|c v]; [done|]. simpl. by rewrite Hv.
  - by rewrite Hc, IH.
Qed.

Lemma strip_Some p s rest : strip p s = Some rest <-> s = p ++ rest.
Proof.
  revert s. induction p as [|c p IH]; intros s; simpl; [split; [by intros [=]|by intros ->]|].
  destruct s as [|d s]; [split; [done|done]|].
  case_bool_decide as E; [subst; rewrite IH; split; [by intros ->|by intros [=]]|].
  split; [done|]. intros [=]. congruence.
Qed.

Lemma digit_not_name c : is_digit c = true -> is_name_char c = false.
Proof. destruct c as [[] [] [] [] [] [] [] []]; vm_compute; congruence. Qed.

Lemma match_at_Some s p rest : match_at s = Some (p, rest) <-> s = p ++ rest /\ shape p.
Proof.
  unfold match_at. split.
  - destruct (strip placeholderOpen s) as [s1|] eqn:E1; [|done]. apply strip_Some in E1 as ->.
    destruct (span is_name_char s1) as [run s2] eqn:E2.
    destruct (span is_digit s2) as [num s3] eqn:E3.
    apply span_app in E2 as (-> & Hrun & _). apply span_app in E3 as (-> & Hnum & _).
    destruct (rev run) as [|x [|y r]] eqn:Er; [done..|].
    case_bool_decide as Hx; [subst x|done].
    destruct num as [|d num]; [done|]. destruct (strip placeholderClose s3) as [s4|] eqn:E4; [|done].
    apply strip_Some in E4 as ->. intros [= <- <-].
    apply (f_equal (@rev ascii)) in Er. rewrite rev_involutive in Er. cbn [rev] in Er. subst run.
    apply Forall_app in Hrun as [Hrun _].
    split; [cbn; by rewrite <- !app_assoc; cbn; rewrite <- !app_assoc|].
    exists (rev r ++ [y]), (d :: num). split_and!; [cbn; by rewrite <- !app_assoc|by destruct (rev r)|done..].
  - intros (-> & name & num & -> & Hne & Hname & Hnn & Hnum).
    assert (Hs : strip placeholderOpen ((placeholderOpen ++ name ++ ["_"%char] ++ num ++ placeholderClose) ++ rest)
                 = Some ((name ++ ["_"%char]) ++ num ++ placeholderClose ++ rest)).
    { apply strip_Some. by rewrite <- !app_assoc. }
    rewrite Hs. rewrite span_exact.
    + rewrite (span_exact is_digit num) by done. rewrite rev_app_distr. cbn [rev app].
      destruct (rev name) as [|y r] eqn:Er.
      { exfalso. apply Hne. by rewrite <- (rev_involutive name), Er. }
      destruct num as [|d num]; [done|]. rewrite (proj2 (strip_Some _ _ rest)) by done.
      f_equal. f_equal. by rewrite <- !app_assoc.
    + apply Forall_app. split; [done|by repeat constructor].
    + destruct num as [|d num]; [done|]. simpl. apply digit_not_name.
      by apply list.Forall_cons in Hnum as [? _].
Qed.

(** ** The matcher's segmentation *)

Lemma pieces_from_skip u v : pieces_from (length u) (u ++ v) = pieces v.
Proof. induction u as [|c u IH]; simpl; [done|exact IH]. Qed.

Lemma pieces_shape p v : shape p -> pieces (p ++ v) = Ph p :: pieces v.
Proof.
  intros Hp. pose proof (proj2 (match_at_Some (p ++ v) p v) (conj eq_refl Hp)) as Hm.
  destruct p as [|c p]; [by destruct Hp as (? & ? & [=] & _)|].
  unfold pieces. cbn [app pieces_from] in *. rewrite Hm. f_equal.
  replace (length (c :: p) - 1) with (length p) by (simpl; lia). apply pieces_from_skip.
Qed.

Lemma pieces_lit c s : match_at (c :: s) = None -> pieces (c :: s) = Lit c :: pieces s.
Proof. intros Hm. unfold pieces. cbn [pieces_from]. by rewrite Hm. Qed.

(** No match starts inside [u], whatever follows: [u] is copied. *)
Lemma pieces_lits u v :
  (forall u1 u2, u = u1 ++ u2 -> u2 <> [] -> match_at (u2 ++ v) = None) ->
  pieces (u ++ v) = (Lit <$> u) ++ pieces v.
Proof.
  induction u as [|c u IH]; intros H; [done|]. cbn [app fmap list_fmap].
  rewrite pieces_lit by (by apply (H [] (c :: u))). f_equal. apply IH.
  intros u1 u2 -> Hne. by apply (H (c :: u1) u2).
Qed.

Lemma match_at_open s p rest : match_at s = Some (p, rest) -> exists w, s = placeholderOpen ++ w.
Proof.
  intros H. apply match_at_Some in H as [-> (name & num & -> & _)].
  eexists. by rewrite <- !app_assoc.
Qed.

(** ** Brackets of a placeholder *)

Definition plain (c : ascii) : Prop := c <> "["%char /\ c <> "]"%char.

Lemma shape_body p : shape p ->
  exists c mid, p = placeholderOpen ++ (c :: mid) ++ placeholderClose /\ Forall plain (c :: mid).
Proof.
  intros (name & num & -> & Hne & Hname & _ & Hnum). destruct name as [|c name]; [done|].
  exists c, (name ++ ["_"%char] ++ num). split; [cbn; by rewrite <- !app_assoc|].
  assert (Hn : Forall plain (c :: name)).
  { eapply Forall_impl; [exact Hname|]. intros x Hx. split; intros ->; by vm_compute in Hx. }
  assert (Hd : Forall plain num).
  { eapply Forall_impl; [exact Hnum|]. intros x Hx. split; intros ->; by vm_compute in Hx. }
  apply list.Forall_cons in Hn as [Hc Hn]. constructor; [done|].
  apply Forall_app. split; [done|]. apply Forall_app. split; [by repeat constructor|done].
Qed.

(** Past its first byte a placeholder has no opening bracket pair, even with text appended. *)
Lemma shape_no_inner_open p a u v w :
  shape p -> p = a ++ u -> a <> [] -> u <> [] -> u ++ v <> placeholderOpen ++ w.
Proof.
  intros Hp -> Ha Hu Heq. apply shape_body in Hp as (c & mid & Hp & Hm).
  assert (Hq : Forall (fun x => x <> "["%char) ((c :: mid) ++ placeholderClose)).
  { apply Forall_app. split; [eapply Forall_impl; [exact Hm|]; intros x [? ?]; done|by repeat constructor]. }
  destruct a as [|x a]; [done|]. destruct u as [|y u]; [done|].
  destruct a as [|z a]; cbn in Hp, Heq; simplify_eq.
  - simplify_eq/=. by apply list.Forall_cons in Hm as [[? _] _].
  - match goal with H : _ = c :: _ |- _ => cbn in Hq; rewrite <- H in Hq end. apply Forall_app in Hq as [_ Hq]. by apply list.Forall_cons in Hq as [? _].
Qed.

Lemma shape_no_inner_match p a u v :
  shape p -> p = a ++ u -> a <> [] -> u <> [] -> match_at (u ++ v) = None.
Proof.
  intros Hp Heq Ha Hu. destruct (match_at (u ++ v)) as [[q rest]|] eqn:E; [|done].
  apply match_at_open in E as [w Hw]. exfalso. by eapply shape_no_inner_open.
Qed.

(** A proper prefix of a placeholder has no match in it. *)
Lemma shape_prefix_no_match p a s u1 u2 :
  shape p -> p = a ++ s -> s <> [] -> a = u1 ++ u2 -> u2 <> [] -> match_at u2 = None.
Proof.
  intros Hp Heq Hs -> Hu. destruct (match_at u2) as [[q rest]|] eqn:E; [|done]. exfalso.
  destruct u1 as [|x u1].
  - apply match_at_Some in E as [-> Hq]. cbn [app] in *.
    assert (H1 : match_at p = Some (p, [])) by (apply match_at_Some; by rewrite app_nil_r).
    assert (H2 : match_at p = Some (q, rest ++ s)) by (apply match_at_Some; by rewrite app_assoc).
    rewrite H1 in H2. injection H2 as _ H2. symmetry in H2. by apply app_eq_nil in H2 as [_ ?].
  - apply match_at_open in E as [w Hw]. rewrite <- app_assoc in Heq.
    apply (shape_no_inner_open p (x :: u1) (u2 ++ s) [] (w ++ s)); try done.
    + by destruct u2.
    + rewrite app_nil_r, Hw. by rewrite <- app_assoc.
Qed.

(** ** Cutting a text *)

(** Some placeholder of the map lies across the cut. *)
Definition straddles (m : replacements) (a s : list ascii) : Prop :=
  exists a1 a2 s1 s2, a = a1 ++ a2 /\ s = s1 ++ s2 /\ a2 <> [] /\ s1 <> []
    /\ shape (a2 ++ s1) /\ is_Some (m !! (a2 ++ s1)).

Lemma substitute_lits m u v :
  (forall u1 u2, u = u1 ++ u2 -> u2 <> [] -> match_at (u2 ++ v) = None) ->
  substitute m (u ++ v) = u ++ substitute m v.
Proof.
  intros H. unfold substitute. rewrite pieces_lits by done. rewrite bind_app. f_equal.
  clear H. induction u as [|c u IH]; [done|]. cbn. by rewrite IH.
Qed.

Lemma substitute_shape m p v : shape p -> substitute m (p ++ v) = default p (m !! p) ++ substitute m v.
Proof. intros Hp. unfold substitute. by rewrite pieces_shape. Qed.

Lemma substitute_nil m : substitute m [] = [].
Proof. done. Qed.

(** A placeholder across the cut that was not issued is copied either way. *)
Lemma substitute_across_unissued m a s rest :
  a <> [] -> s <> [] -> shape (a ++ s) -> m !! (a ++ s) = None ->
  substitute m (a ++ s ++ rest) = substitute m a ++ substitute m (s ++ rest).
Proof.
  intros Ha Hs Hp Hm. rewrite app_assoc, substitute_shape, Hm by done. cbn [default from_option].
  rewrite <- (app_nil_r a) at 2. rewrite substitute_lits; [|intros u1 u2 -> Hu; rewrite app_nil_r].
  - rewrite substitute_nil, app_nil_r, <- app_assoc. f_equal. symmetry. apply substitute_lits.
    intros u1 u2 -> Hu. eapply (shape_no_inner_match (a ++ u1 ++ u2) (a ++ u1)); try done.
    + by rewrite app_assoc.
    + by destruct a.
  - by eapply shape_prefix_no_match.
Qed.

Lemma substitute_cut m a s :
  ~ straddles m a s -> substitute m (a ++ s) = substitute m a ++ substitute m s.
Proof.
  induction a as [a IH] using (well_founded_induction (well_founded_ltof _ length)).
  unfold ltof in IH. intros Hns. destruct a as [|c a]; [done|].
  destruct (match_at ((c :: a) ++ s)) as [[p rest]|] eqn:E.
  - apply match_at_Some in E as [Heq Hp].
    destruct (app_eq_inv _ _ _ _ Heq) as [(k & Ha & ->)|(k & -> & Hs)].
    + rewrite Ha, <- app_assoc, (substitute_shape m p (k ++ s)), (substitute_shape m p k) by done.
      rewrite <- app_assoc. f_equal.
      apply IH.
      * rewrite Ha, length_app. apply shape_body in Hp as (? & ? & -> & _). cbn. lia.
      * intros (a1 & a2 & s1 & s2 & -> & -> & H). apply Hns. exists (p ++ a1), a2, s1, s2.
        by rewrite Ha, app_assoc.
    + subst s. destruct (decide (k = [])) as [->|Hk].
      * rewrite app_nil_r in *. cbn [app] in *. change (c :: a ++ rest) with ((c :: a) ++ rest).
        rewrite substitute_shape by done. f_equal. rewrite <- (app_nil_r (c :: a)) at 3.
        by rewrite substitute_shape, substitute_nil, app_nil_r.
      * apply substitute_across_unissued; [done..|]. apply eq_None_not_Some. intros Hi. apply Hns.
        exists [], (c :: a), k, rest. by split_and!.
  - cbn [app] in *. unfold substitute in *. rewrite pieces_lit by done.
    assert (E2 : match_at (c :: a) = None).
    { destruct (match_at (c :: a)) as [[p rest]|] eqn:E2; [|done].
      apply match_at_Some in E2 as [Heq Hp]. exfalso. revert E. apply not_eq_None_Some.
      exists (p, rest ++ s). apply match_at_Some. change (c :: a ++ s) with ((c :: a) ++ s).
      by rewrite Heq, <- app_assoc. }
    rewrite (pieces_lit _ _ E2). cbn. f_equal. apply IH; [simpl; lia|].
    intros (a1 & a2 & s1 & s2 & -> & -> & H). apply Hns. by exists (c :: a1), a2, s1, s2.
Qed.

#[export] Hint Resolve substitute_shape pieces_shape : gw.
