(* ===== verification/Restorer.v ===== *)
(** * Restoring originals in a streamed response (pii/stream.go)

    The restorer holds back the end of what it has seen for as long as a placeholder might still
    be forming there.  However a response is cut into chunks, what it emits is what [Restore]
    would make of the whole response at once, and it never holds more than the longest
    placeholder. *)
From S2P Require Import Prelude Core Strconv Placeholder.
From Stdlib Require Import ZArith Lia Ascii.
From stdpp Require Import base gmap strings list.

(** ** Restoring a whole response (pii/transform.go) *)

(** [Restore]. *)
Definition Restore (payload : list ascii) (m : replacements) : list ascii :=
  if bool_decide (m = ∅) then payload else substitute m payload.

(** ** The streaming restorer *)
Record Restorer := mkRestorer { r_replacements : replacements; held : list ascii; misses : Z }.

Definition NewRestorer (m : replacements) : Restorer := mkRestorer m [] 0.

Definition Active (r : Restorer) : bool := negb (bool_decide (r_replacements r = ∅)).

Definition starts_with (p s : list ascii) : bool :=
  match strip p s with Some _ => true | None => false end.

(** [strings.LastIndex] and [strings.Contains]. *)
Fixpoint LastIndex (s p : list ascii) : option nat :=
  match s with
  | [] => if starts_with p [] then Some 0 else None
  | _ :: s' =>
      match LastIndex s' p with
      | Some i => Some (S i)
      | None => if starts_with p s then Some 0 else None
      end
  end.
Fixpoint Contains (s p : list ascii) : bool :=
  match s with
  | [] => starts_with p []
  | _ :: s' => starts_with p s || Contains s' p
  end.

Definition has_suffix_open (s : list ascii) : bool := bool_decide (last s = Some "["%char).

Definition pendingTail (text : list ascii) : nat :=
  let window := Nat.min MaxPlaceholderLen (length text) in
  let tail := drop (length text - window) text in
  let single := if has_suffix_open text then 1 else 0 in
  match LastIndex tail placeholderOpen with
  | Some open => if negb (Contains (drop open tail) placeholderClose) then window - open else single
  | None => single
  end.

(** [substitute], counting what was never issued. *)
Definition restore_text (r : Restorer) (text : list ascii) : list ascii * Restorer :=
  (substitute (r_replacements r) text,
   mkRestorer (r_replacements r) (held r) (misses r + missed (r_replacements r) text)).

Definition Push (chunk : list ascii) (r : Restorer) : list ascii * Restorer :=
  if negb (Active r) then (chunk, r)
  else
    let text := held r ++ chunk in
    let safe := (Z.of_nat (length text) - Z.of_nat (pendingTail text))%Z in
    if (safe <=? 0)%Z then ([], mkRestorer (r_replacements r) text (misses r))
    else
      let '(emitted, r) := restore_text r (take (Z.to_nat safe) text) in
      (emitted, mkRestorer (r_replacements r) (drop (Z.to_nat safe) text) (misses r)).

Definition Flush (r : Restorer) : list ascii * Restorer :=
  if negb (Active r) then ([], r)
  else
    let remaining := held r in
    let r := mkRestorer (r_replacements r) [] (misses r) in
    match remaining with
    | [] => ([], r)
    | _ => restore_text r remaining
    end.

Definition Misses (r : Restorer) : Z := misses r.

(** A whole stream: every chunk pushed, then the flush. *)
Fixpoint push_all (chunks : list (list ascii)) (r : Restorer) : list ascii * Restorer :=
  match chunks with
  | [] => ([], r)
  | c :: rest =>
      let '(out, r) := Push c r in
      let '(outs, r) := push_all rest r in
      (out ++ outs, r)
  end.

Definition restore_stream (chunks : list (list ascii)) (m : replacements) : list ascii :=
  let '(out, r) := push_all chunks (NewRestorer m) in out ++ (Flush r).1.

(** ** Lemmas *)

Lemma starts_with_true p s : starts_with p s = true <-> exists w, s = p ++ w.
Proof.
  unfold starts_with. destruct (strip p s) as [w|] eqn:E.
  - apply strip_Some in E. naive_solver.
  - split; [done|]. intros [w Hw]. apply strip_Some in Hw. congruence.
Qed.

Lemma Contains_true s p : Contains s p = true <-> exists u w, s = u ++ p ++ w.
Proof.
  induction s as [|c s IH]; cbn [Contains].
  - rewrite starts_with_true. split; [intros [w ->]; by exists [], w|].
    intros (u & w & H). symmetry in H. apply app_eq_nil in H as [-> H]. exists w. by rewrite H.
  - rewrite orb_true_iff, IH, starts_with_true. split.
    + intros [[w ->]|(u & w & ->)]; [by exists [], w|by exists (c :: u), w].
    + intros ([|d u] & w & H); [left; by exists w|]. injection H as -> ->. right. by exists u, w.
Qed.

(** The occurrence found is one, and none lies further right. *)
Lemma LastIndex_Some s p i :
  LastIndex s p = Some i -> i <= length s /\ (exists w, drop i s = p ++ w)
  /\ forall j, i < j -> starts_with p (drop j s) = false \/ (length s < j).
Proof.
  revert i. induction s as [|c s IH]; intros i; cbn [LastIndex].
  - destruct (starts_with p []) eqn:E; [|done]. intros [= <-].
    split_and!; [done|by apply starts_with_true in E|]. intros j Hj. right. simpl. lia.
  - destruct (LastIndex s p) as [k|] eqn:Ek.
    + intros [= <-]. destruct (IH k eq_refl) as (Hk & Hw & Hlast).
      split_and!; [simpl; lia|done|]. intros [|j] Hj; [lia|]. cbn [drop].
      destruct (Hlast j ltac:(lia)) as [?|?]; [by left|right; simpl; lia].
    + destruct (starts_with p (c :: s)) eqn:E; [|done]. intros [= <-].
      split_and!; [lia|by apply starts_with_true in E|]. intros [|j] Hj; [lia|]. cbn [drop length].
      clear -Ek. revert j Ek. induction s as [|d s IHs]; intros j Ek; cbn [LastIndex] in Ek.
      * destruct (starts_with p []) eqn:E; [done|]. destruct j; [by left|right; simpl; lia].
      * destruct (LastIndex s p) eqn:E2; [done|]. destruct (starts_with p (d :: s)) eqn:E3; [done|].
        destruct j as [|j]; [by left|]. cbn [drop length]. destruct (IHs j eq_refl); [by left|right; lia].
Qed.

Lemma LastIndex_None s p : LastIndex s p = None -> Contains s p = false.
Proof.
  induction s as [|c s IH]; cbn [LastIndex Contains]; [by destruct (starts_with p [])|].
  destruct (LastIndex s p); [done|]. destruct (starts_with p (c :: s)); [done|]. intros _. by apply IH.
Qed.

Lemma LastIndex_is s p i w :
  drop i s = p ++ w -> i <= length s ->
  (forall j, i < j -> j <= length s -> starts_with p (drop j s) = false) -> LastIndex s p = Some i.
Proof.
  intros Hi Hlen Hno. destruct (LastIndex s p) as [k|] eqn:E.
  - apply LastIndex_Some in E as (Hk & [w' Hw] & Hlast). f_equal.
    destruct (lt_eq_lt_dec k i) as [[Hlt|Heq]|Hgt]; [|done|].
    + destruct (Hlast i Hlt) as [H|H]; [|lia]. rewrite Hi in H.
      apply not_true_iff_false in H. exfalso. apply H, starts_with_true. eauto.
    + specialize (Hno k Hgt Hk). apply not_true_iff_false in Hno. exfalso.
      apply Hno, starts_with_true. eauto.
  - apply LastIndex_None, not_true_iff_false in E. exfalso. apply E, Contains_true.
    exists (take i s), w. by rewrite <- Hi, take_drop.
Qed.

(** A placeholder closes only at its end. *)
Lemma shape_close_end p u w : shape p -> p = u ++ placeholderClose ++ w -> w = [].
Proof.
  intros Hp Heq. apply shape_body in Hp as (c & mid & Hp & Hm).
  destruct u as [|x [|y u]]; [by simplify_eq/=..|]. rewrite Hp in Heq. cbn [app] in Heq.
  injection Heq as _ _ Heq. change (c :: mid ++ placeholderClose) with ((c :: mid) ++ placeholderClose) in Heq.
  destruct (app_eq_inv _ _ _ _ Heq) as [(k & Hk & Hr)|(k & Hk & Hr)].
  - destruct k as [|z k]; cbn in Hr.
    + by simplify_eq.
    + injection Hr as <- Hr. rewrite Hk in Hm. apply Forall_app in Hm as [_ Hm].
      by apply list.Forall_cons in Hm as [[_ ?] _].
  - apply (f_equal length) in Hr. rewrite !length_app in Hr. cbn in Hr.
    destruct w; [done|simpl in Hr; lia].
Qed.

(** A text that ends in a proper prefix of a placeholder, brackets and all, holds it back. *)
Lemma pendingTail_open text a1 a2 s1 :
  text = a1 ++ placeholderOpen ++ a2 -> shape (placeholderOpen ++ a2 ++ s1) -> s1 <> [] ->
  length (placeholderOpen ++ a2) <= MaxPlaceholderLen ->
  pendingTail text = length (placeholderOpen ++ a2).
Proof.
  intros Ht Hp Hs Hlen. unfold pendingTail.
  set (window := Nat.min MaxPlaceholderLen (length text)).
  assert (Hlt : length text = length a1 + length (placeholderOpen ++ a2)).
  { by rewrite Ht, length_app. }
  set (k := length text - window). assert (Hk : k <= length a1) by lia.
  assert (Htail : drop k text = drop k a1 ++ placeholderOpen ++ a2).
  { rewrite Ht. by rewrite drop_app_le by lia. }
  assert (Hi : length (drop k a1) = length a1 - k) by apply length_drop.
  rewrite Htail.
  assert (Hlast : LastIndex (drop k a1 ++ placeholderOpen ++ a2) placeholderOpen
                  = Some (length (drop k a1))).
  { apply (LastIndex_is _ _ _ a2); [by rewrite drop_app_length|rewrite length_app; lia|].
    intros j Hj Hjl. rewrite drop_app_ge by lia.
    set (j' := j - length (drop k a1)). destruct (starts_with _ _) eqn:E; [|done]. exfalso.
    apply starts_with_true in E as [w Hw].
    assert (Hn : drop j' (placeholderOpen ++ a2) <> []) by (rewrite Hw; done).
    eapply (shape_no_inner_open _ (take j' (placeholderOpen ++ a2))
              (drop j' (placeholderOpen ++ a2) ++ s1) [] (w ++ s1) Hp).
    - by rewrite (app_assoc (take _ _)), take_drop, <- app_assoc.
    - intros H. apply (f_equal length) in H. rewrite length_take in H. cbn in H. lia.
    - by destruct (drop j' _).
    - by rewrite app_nil_r, Hw, <- app_assoc. }
  rewrite Hlast, drop_app_length.
  destruct (Contains (placeholderOpen ++ a2) placeholderClose) eqn:E.
  - apply Contains_true in E as (u & w & Hu). exfalso. apply Hs.
    assert (Hw : w ++ s1 = []); [|by apply app_eq_nil in Hw as [_ ?]].
    eapply (shape_close_end _ u); [exact Hp|]. by rewrite app_assoc, Hu, <- !app_assoc.
  - cbn [negb]. lia.
Qed.

(** An opening bracket that is not a placeholder's first byte is its second. *)
Lemma shape_second_bracket a s : shape (a ++ "["%char :: s) -> a <> [] -> a = ["["%char].
Proof.
  intros Hp Ha. apply shape_body in Hp as (c & mid & Hp & Hm).
  assert (Hq : Forall (fun x => x <> "["%char) ((c :: mid) ++ placeholderClose)).
  { apply Forall_app. split; [eapply Forall_impl; [exact Hm|]; intros x [? ?]; done|by repeat constructor]. }
  destruct a as [|x [|y a]]; [done|by simplify_eq/=|]. exfalso. cbn in Hp. injection Hp as _ _ Hp.
  cbn in Hq. rewrite <- Hp in Hq. apply Forall_app in Hq as [_ Hq]. by apply list.Forall_cons in Hq as [? _].
Qed.

(** What is held back starts a possible placeholder, or is a lone bracket, or is nothing. *)
Lemma pendingTail_cases text :
  pendingTail text <= Nat.min MaxPlaceholderLen (length text)
  /\ ((exists w, drop (length text - pendingTail text) text = placeholderOpen ++ w)
      \/ (pendingTail text = 1 /\ last text = Some "["%char)
      \/ (pendingTail text = 0 /\ last text <> Some "["%char)).
Proof.
  unfold pendingTail. set (window := Nat.min MaxPlaceholderLen (length text)).
  set (single := if has_suffix_open text then 1 else 0).
  assert (Hs : single <= window
    /\ ((single = 1 /\ last text = Some "["%char) \/ (single = 0 /\ last text <> Some "["%char))).
  { subst single. unfold has_suffix_open. case_bool_decide as E; [|split; [lia|by right]].
    split; [|by left]. subst window. destruct text; [done|]. unfold MaxPlaceholderLen. simpl. lia. }
  set (tail := drop (length text - window) text).
  assert (Hl : length tail = window) by (subst tail; rewrite length_drop; lia).
  destruct (LastIndex tail placeholderOpen) as [o|] eqn:E; [|split; [tauto|right; tauto]].
  destruct (negb (Contains _ _)) eqn:Ec; [|split; [tauto|right; tauto]].
  apply LastIndex_Some in E as (Ho & [w Hw] & _). split; [lia|]. left. exists w.
  rewrite <- Hw. subst tail. rewrite drop_drop. f_equal. lia.
Qed.

(** No placeholder of the map can lie across the cut the restorer makes. *)
Lemma pendingTail_safe m text v :
  (forall p, is_Some (m !! p) -> shape p -> length p <= MaxPlaceholderLen) ->
  let n := length text - pendingTail text in
  ~ straddles m (take n text) (drop n text ++ v).
Proof.
  intros Hm n (a1 & a2 & s1 & s2 & Ha & Hb & Ha2 & Hs1 & Hp & Hi).
  pose proof (Hm _ Hi Hp) as Hlen. rewrite length_app in Hlen.
  destruct (pendingTail_cases text) as [Hle Hcase]. fold n in Hcase.
  destruct Hcase as [[w Hw]|Hcase].
  { eapply (shape_no_inner_open _ a2 s1 s2 (w ++ v) Hp); try done.
    by rewrite <- Hb, Hw, <- app_assoc. }
  assert (Hopen : forall a2', text = a1 ++ placeholderOpen ++ a2' ->
            (exists s', s' <> [] /\ a2 ++ s1 = placeholderOpen ++ a2' ++ s') ->
            pendingTail text = length (placeholderOpen ++ a2')).
  { intros a2' Ht (s' & Hs' & Heq). rewrite Heq in Hp. apply (pendingTail_open text a1 a2' s' Ht Hp Hs').
    apply (f_equal length) in Heq. rewrite !length_app in *. lia. }
  destruct Hcase as [[H1 Hl]|[H0 Hl]].
  - (* the lone bracket would be the placeholder's second *)
    assert (Hn : S n = length text) by (subst n; destruct text; [done|]; simpl in *; lia).
    assert (Hd : drop n text = ["["%char]).
    { rewrite last_lookup in Hl. rewrite (drop_S _ "["%char) by (rewrite <- Hl; f_equal; lia).
      f_equal. apply drop_ge. lia. }
    rewrite Hd in Hb. destruct s1 as [|y s1]; [done|]. injection Hb as <- Hb.
    pose proof (shape_second_bracket _ _ Hp Ha2) as ->.
    enough (pendingTail text = 2) by lia. apply (Hopen []).
    + rewrite <- (take_drop n text), Ha, Hd, <- app_assoc. done.
    + exists s1. split; [|done]. intros ->. by apply shape_body in Hp as (? & ? & ? & ?); simplify_eq/=.
  - assert (Ht : text = a1 ++ a2).
    { rewrite <- Ha. subst n. rewrite H0, Nat.sub_0_r. by rewrite take_ge. }
    destruct (shape_body _ Hp) as (c & mid & Hbody & _).
    destruct a2 as [|x [|y a2]]; [done| |]; simplify_eq/=.
    + apply Hl. by rewrite last_snoc.
    + enough (pendingTail (a1 ++ "["%char :: "["%char :: a2) = S (S (length a2))) by lia.
      apply (Hopen a2); [done|]. by exists s1.
Qed.

(** Every issued placeholder fits in the window. *)
Definition fits (m : replacements) : Prop :=
  forall p, is_Some (m !! p) -> shape p -> length p <= MaxPlaceholderLen.

(** A push neither loses nor anticipates anything, whatever is still to come. *)
Lemma Push_spec r chunk v :
  r_replacements r <> ∅ -> fits (r_replacements r) ->
  let '(out, r') := Push chunk r in
  out ++ substitute (r_replacements r) (held r' ++ v) = substitute (r_replacements r) (held r ++ chunk ++ v)
  /\ r_replacements r' = r_replacements r /\ length (held r') <= MaxPlaceholderLen.
Proof.
  intros Hm Hf. unfold Push, Active. rewrite bool_decide_false by done. cbn [negb].
  set (text := held r ++ chunk). destruct (pendingTail_cases text) as [Hle _].
  destruct (_ <=? 0)%Z eqn:E; zify_bools; cbn [held r_replacements].
  - split_and!; [subst text; by rewrite <- app_assoc|done|lia].
  - replace (Z.to_nat _) with (length text - pendingTail text) by lia. cbn.
    split_and!; [|done|rewrite length_drop; lia].
    rewrite <- substitute_cut by by apply pendingTail_safe.
    rewrite app_assoc, take_drop. subst text. by rewrite <- app_assoc.
Qed.

Lemma push_all_spec chunks r v :
  r_replacements r <> ∅ -> fits (r_replacements r) -> length (held r) <= MaxPlaceholderLen ->
  let '(out, r') := push_all chunks r in
  out ++ substitute (r_replacements r) (held r' ++ v)
  = substitute (r_replacements r) (held r ++ concat chunks ++ v)
  /\ r_replacements r' = r_replacements r /\ length (held r') <= MaxPlaceholderLen.
Proof.
  revert r. induction chunks as [|c chunks IH]; intros r Hm Hf Hl; cbn [push_all concat]; [done|].
  pose proof (Push_spec r c (concat chunks ++ v) Hm Hf) as Hp.
  destruct (Push c r) as [out r1]. destruct Hp as (Ho & Hr & Hh).
  specialize (IH r1). rewrite Hr in IH. specialize (IH Hm Hf Hh).
  destruct (push_all chunks r1) as [outs r2]. destruct IH as (Ho2 & Hr2 & Hh2).
  split_and!; [|done|done]. rewrite <- !app_assoc, Ho2, Ho. done.
Qed.

Lemma Flush_spec r : r_replacements r <> ∅ -> (Flush r).1 = substitute (r_replacements r) (held r).
Proof.
  intros Hm. unfold Flush, Active. rewrite bool_decide_false by done. by destruct (held r).
Qed.

Lemma push_all_inactive chunks r :
  r_replacements r = ∅ -> push_all chunks r = (concat chunks, r).
Proof.
  intros Hm. induction chunks as [|c chunks IH]; cbn [push_all concat]; [done|].
  unfold Push, Active. rewrite bool_decide_true by done. cbn [negb]. by rewrite IH.
Qed.

Lemma restore_stream_Restore chunks m : fits m -> restore_stream chunks m = Restore (concat chunks) m.
Proof.
  intros Hf. unfold restore_stream, Restore. case_bool_decide as Hm.
  - rewrite push_all_inactive by done. unfold Flush, Active. simpl.
    rewrite bool_decide_true by done. cbn. by rewrite app_nil_r.
  - pose proof (push_all_spec chunks (NewRestorer m) [] Hm Hf) as Hp. cbn [NewRestorer held r_replacements] in Hp.
    destruct (push_all chunks (NewRestorer m)) as [out r]. destruct Hp as (Ho & Hr & _); [cbn; lia|].
    rewrite !app_nil_r in Ho. rewrite Flush_spec by congruence. by rewrite Hr, Ho.
Qed.

(** C6. Streaming loses nothing: for every response and every way of cutting it into chunks,
    even mid-placeholder, the restorer emits exactly what restoring the whole response at once
    gives, provided no issued placeholder exceeds the window; and at no point does it hold back
    more than the window. *)
Theorem streaming_restore_exact chunks m :
  fits m ->
  restore_stream chunks m = Restore (concat chunks) m
  /\ forall k, length (held (push_all (take k chunks) (NewRestorer m)).2) <= MaxPlaceholderLen.
Proof.
  intros Hf. split; [by apply restore_stream_Restore|]. intros k.
  destruct (decide (m = ∅)) as [Hm|Hm]; [rewrite push_all_inactive by done; cbn; lia|].
  pose proof (push_all_spec (take k chunks) (NewRestorer m) [] Hm Hf) as Hp.
  destruct (push_all _ _) as [out r]. destruct Hp as (_ & _ & Hh); [cbn; lia|exact Hh].
Qed.

(** The response "hi [[EMAIL_1]] and [[X_9]]", cut in the middle of both placeholders. *)
Definition demo_replacements : replacements := {[ str "[[EMAIL_1]]" := str "a@b.c" ]}.

Lemma demo_fits : fits demo_replacements.
Proof.
  intros p [q Hq] _. unfold demo_replacements in Hq.
  apply lookup_singleton_Some in Hq as [<- _]. vm_compute. lia.
Qed.

Lemma streaming_restore_exact_witness :
  restore_stream [str "hi [[EM"; str "AIL_1]"; str "] and ["; str "[X_9]]"] demo_replacements
  = str "hi a@b.c and [[X_9]]".
Proof.
  destruct (streaming_restore_exact [str "hi [[EM"; str "AIL_1]"; str "] and ["; str "[X_9]]"]
              demo_replacements demo_fits) as [H _].
  etransitivity; [exact H|]. vm_compute. reflexivity.
Defined.
