(* ===== verification/Regex.v ===== *)
(** * Regular expressions (regexp, the subset pii/detect.go and the guardrail adapters use)

    A backtracking matcher with the leftmost-first preference of Go's [regexp]: classes,
    sequences, alternatives, greedy counted repetition and the ASCII word boundary.  The classes
    used are ASCII, so matching bytes and matching runes coincide.  [find_all] is
    [FindAllStringIndex], [Match_] is [Match].  [consumes] says what an expression means, and
    [rmatch_exact] that the search finds a match exactly when there is one. *)
From S2P Require Import Prelude Core.
From Stdlib Require Import ZArith Lia Ascii.
From stdpp Require Import base list.

Inductive regex :=
| RSet (f : ascii -> bool)
| RSeq (a b : regex)
| RAlt (a b : regex)                                  (* a|b, a first *)
| RRep (a : regex) (lo : nat) (hi : option nat)       (* a{lo,hi}, greedy *)
| RBound.                                             (* \b *)

Definition in_range (lo hi : nat) (c : ascii) : bool :=
  ((lo <=? nat_of_ascii c) && (nat_of_ascii c <=? hi))%nat.
Definition one_of (l : list ascii) (c : ascii) : bool := bool_decide (c ∈ l).

Definition is_word (c : option ascii) : bool :=
  match c with
  | None => false
  | Some c => in_range 48 57 c || in_range 65 90 c || in_range 97 122 c || bool_decide (c = "_"%char)
  end.

(** A position: the byte before it and the bytes after it. *)
Definition position := (option ascii * list ascii)%type.

Section matcher.
Context {R : Type}.

(** Try [a] again while [fuel] lasts, then continue with [k] once at least [lo] have matched. *)
Fixpoint repeat_with (one : position -> (position -> option R) -> option R) (lo : nat)
    (k : position -> option R) (fuel count : nat) (s : position) : option R :=
  let stop := if (lo <=? count)%nat then k s else None in
  match fuel with
  | O => stop
  | S fuel' =>
      match one s (repeat_with one lo k fuel' (S count)) with
      | Some r => Some r
      | None => stop
      end
  end.

(** Match [r] at a position and continue with [k]; an unbounded repetition needs at most one
    iteration per remaining byte. *)
Fixpoint rmatch (r : regex) (s : position) (k : position -> option R) : option R :=
  match r with
  | RSet f =>
      match s.2 with
      | c :: rest => if f c then k (Some c, rest) else None
      | [] => None
      end
  | RSeq a b => rmatch a s (fun s' => rmatch b s' k)
  | RAlt a b => match rmatch a s k with Some x => Some x | None => rmatch b s k end
  | RRep a lo hi => repeat_with (rmatch a) lo k (default (length s.2) hi) 0 s
  | RBound =>
      if xorb (is_word s.1) (is_word (head s.2)) then k s else None
  end.
End matcher.

(** Length of the match at a position. *)
Definition match_len (r : regex) (s : position) : option nat :=
  rmatch r s (fun s' => Some (length s.2 - length s'.2)%nat).

(** All matches left to right without overlap; [skip] bytes belong to the last one. *)
Fixpoint find_from (r : regex) (skip pos : nat) (prev : option ascii) (s : list ascii)
    : list (nat * nat) :=
  match s with
  | [] => []
  | c :: s' =>
      match skip with
      | S skip' => find_from r skip' (S pos) (Some c) s'
      | O =>
          match match_len r (prev, s) with
          | Some len => (pos, pos + len)%nat :: find_from r (len - 1) (S pos) (Some c) s'
          | None => find_from r 0 (S pos) (Some c) s'
          end
      end
  end.

Definition find_all (r : regex) (s : list ascii) : list (nat * nat) := find_from r 0 0 None s.

(** [Regexp.Match]: a match starts somewhere, the end of the text included. *)
Fixpoint match_from (r : regex) (prev : option ascii) (s : list ascii) : bool :=
  bool_decide (is_Some (match_len r (prev, s)))
  || match s with [] => false | c :: s' => match_from r (Some c) s' end.
Definition Match_ (r : regex) (s : list ascii) : bool := match_from r None s.

(** ** Lemmas *)

(** Whether the expression can match without consuming. *)
Fixpoint nullable (r : regex) : bool :=
  match r with
  | RSet _ => false
  | RSeq a b => nullable a && nullable b
  | RAlt a b => nullable a || nullable b
  | RRep a lo hi => (lo =? 0)%nat || nullable a
  | RBound => true
  end.

Lemma repeat_with_inv {R} (one : position -> (position -> option R) -> option R) (strict : bool) lo k fuel count s x :
  (forall s k x, one s k = Some x ->
     exists s', k s' = Some x /\ length s'.2 <= length s.2 /\ (strict = true -> length s'.2 < length s.2)) ->
  repeat_with one lo k fuel count s = Some x ->
  exists s', k s' = Some x /\ length s'.2 <= length s.2
    /\ (strict = true -> count < lo -> length s'.2 < length s.2).
Proof.
  intros Hone. revert count s. induction fuel as [|fuel IH]; intros count s; cbn [repeat_with].
  - destruct (lo <=? count)%nat eqn:E; [|done]. apply Nat.leb_le in E. intros H.
    exists s. split_and!; [done|lia|lia].
  - destruct (one s _) as [y|] eqn:E1.
    + intros [= <-]. apply Hone in E1 as (s1 & H1 & Hle & Hlt).
      apply IH in H1 as (s2 & H2 & Hle2 & _). exists s2. split_and!; [done|lia|]. intros Hs _.
      specialize (Hlt Hs). lia.
    + destruct (lo <=? count)%nat eqn:E; [|done]. apply Nat.leb_le in E. intros H.
      exists s. split_and!; [done|lia|lia].
Qed.

(** A match ends at or after where it starts, and strictly after unless it may be empty. *)
Lemma rmatch_inv {R} r s (k : position -> option R) x :
  rmatch r s k = Some x ->
  exists s', k s' = Some x /\ length s'.2 <= length s.2
    /\ (nullable r = false -> length s'.2 < length s.2).
Proof.
  revert s k x. induction r as [f|a IHa b IHb|a IHa b IHb|a IHa lo hi|]; intros s k x; cbn [rmatch nullable].
  - destruct s as [prev [|c rest]]; simpl; [done|]. destruct (f c); [|done]. intros H.
    exists (Some c, rest). simpl. split_and!; [done|lia|lia].
  - intros H. apply IHa in H as (s1 & H1 & Hle1 & Hlt1). apply IHb in H1 as (s2 & H2 & Hle2 & Hlt2).
    exists s2. split_and!; [done|lia|]. intros [Ha|Hb]%andb_false_iff; [specialize (Hlt1 Ha)|specialize (Hlt2 Hb)]; lia.
  - destruct (rmatch a s k) as [y|] eqn:E.
    + intros [= <-]. apply IHa in E as (s' & ? & ? & Hlt). exists s'. split_and!; [done|done|].
      intros [? _]%orb_false_iff. auto.
    + intros H. apply IHb in H as (s' & ? & ? & Hlt). exists s'. split_and!; [done|done|].
      intros [_ ?]%orb_false_iff. auto.
  - intros H. apply (repeat_with_inv _ (negb (nullable a))) in H as (s2 & H2 & Hle & Hlt).
    + exists s2. split_and!; [done|done|]. intros [Hlo Ha]%orb_false_iff.
      apply Nat.eqb_neq in Hlo. apply Hlt; [by rewrite Ha|lia].
    + intros s' k' x' H'. apply IHa in H' as (s2 & H2 & Hle & Hlt). exists s2.
      split_and!; [done|done|]. intros Hn%negb_true_iff. auto.
  - destruct (xorb _ _); [|done]. intros H. exists s. split_and!; [done|lia|done].
Qed.

Lemma match_len_bounds r s len :
  match_len r s = Some len -> nullable r = false -> 0 < len <= length s.2.
Proof.
  intros H Hn. unfold match_len in H. apply rmatch_inv in H as (s' & [= <-] & Hle & Hlt).
  specialize (Hlt Hn). lia.
Qed.

Lemma find_from_bounds r skip pos prev s i j :
  nullable r = false -> (i, j) ∈ find_from r skip pos prev s ->
  pos <= i < j /\ j <= pos + length s.
Proof.
  intros Hn. revert skip pos prev. induction s as [|c s IH]; intros skip pos prev Hin; cbn [find_from] in Hin.
  - by apply elem_of_nil in Hin.
  - destruct skip as [|skip].
    + destruct (match_len r (prev, c :: s)) as [len|] eqn:E.
      * apply match_len_bounds in E; [|done]. cbn [snd length] in E.
        apply elem_of_cons in Hin as [[= -> ->]|Hin]; [simpl; lia|].
        apply IH in Hin. simpl. lia.
      * apply IH in Hin. simpl. lia.
    + apply IH in Hin. simpl. lia.
Qed.

(** Every span [FindAllStringIndex] reports is a non-empty span of the text. *)
Lemma find_all_bounds r s i j :
  nullable r = false -> (i, j) ∈ find_all r s -> i < j <= length s.
Proof. intros Hn Hin. apply find_from_bounds in Hin; [lia|done]. Qed.

(** ** What an expression means *)

Fixpoint repeats (one : position -> position -> Prop) (n : nat) (s s' : position) : Prop :=
  match n with
  | O => s' = s
  | S n => exists m, one s m /\ repeats one n m s'
  end.

(** [r] matches from the first position up to the second. *)
Fixpoint consumes (r : regex) (s s' : position) : Prop :=
  match r with
  | RSet f => exists c, f c = true /\ s.2 = c :: s'.2 /\ s'.1 = Some c
  | RSeq a b => exists m, consumes a s m /\ consumes b m s'
  | RAlt a b => consumes a s s' \/ consumes b s s'
  | RRep a lo hi => exists n, lo <= n /\ from_option (fun h => n <= h) True hi /\ repeats (consumes a) n s s'
  | RBound => s' = s /\ xorb (is_word s.1) (is_word (head s.2)) = true
  end.

(** Unbounded repetition of something that may be empty is not used. *)
Fixpoint productive (r : regex) : bool :=
  match r with
  | RSet _ | RBound => true
  | RSeq a b | RAlt a b => productive a && productive b
  | RRep a _ hi => productive a && (bool_decide (hi <> None) || negb (nullable a))
  end.

Lemma consumes_shrinks r s s' :
  consumes r s s' -> length s'.2 <= length s.2 /\ (nullable r = false -> length s'.2 < length s.2).
Proof.
  revert s s'. induction r as [f|a IHa b IHb|a IHa b IHb|a IHa lo hi|]; intros s s'; cbn [consumes nullable].
  - intros (c & _ & -> & _). simpl. lia.
  - intros (m & [Ha Ha']%IHa & [Hb Hb']%IHb). split; [lia|].
    intros [?|?]%andb_false_iff; [specialize (Ha' H)|specialize (Hb' H)]; lia.
  - intros [[Ha Ha']%IHa|[Hb Hb']%IHb]; (split; [lia|]); intros []%orb_false_iff; auto.
  - intros (n & Hlo & _ & Hn).
    enough (length s'.2 <= length s.2 /\ (nullable a = false -> length s'.2 + n <= length s.2)) as [? He].
    { split; [done|]. intros [Hl Hn']%orb_false_iff. apply Nat.eqb_neq in Hl. specialize (He Hn'). lia. }
    clear Hlo. revert s Hn. induction n as [|n IH]; intros s; simpl.
    + intros ->. lia.
    + intros (m & [Ha Ha']%IHa & [Hm Hm']%IH). split; [lia|]. intros H. specialize (Ha' H). specialize (Hm' H). lia.
  - intros [-> _]. split; [lia|done].
Qed.

Lemma repeats_length one n s s' :
  (forall s s', one s s' -> length s'.2 < length s.2) -> repeats one n s s' -> n + length s'.2 <= length s.2.
Proof.
  intros H. revert s. induction n as [|n IH]; intros s; simpl; [intros ->; lia|].
  intros (m & Hm%H & Hr%IH). lia.
Qed.

Lemma repeat_with_exact {R} (one : position -> (position -> option R) -> option R) (rel : position -> position -> Prop)
    lo k fuel count s :
  (forall s k, is_Some (one s k) <-> exists s', rel s s' /\ is_Some (k s')) ->
  is_Some (repeat_with one lo k fuel count s)
  <-> exists n s', n <= fuel /\ lo <= count + n /\ repeats rel n s s' /\ is_Some (k s').
Proof.
  intros Hone. revert count s. induction fuel as [|fuel IH]; intros count s; cbn [repeat_with].
  - split.
    + destruct (lo <=? count)%nat eqn:E; [|by intros []]. apply Nat.leb_le in E. intros H.
      exists 0, s. split_and!; [lia|lia|done|done].
    + intros (n & s' & Hn & Hlo & Hr & Hk). assert (n = 0) as -> by lia. simpl in Hr. subst.
      rewrite (proj2 (Nat.leb_le _ _)); [done|lia].
  - assert (Ht : is_Some (one s (repeat_with one lo k fuel (S count))) <->
      exists n s', n <= fuel /\ lo <= S count + n /\ repeats rel (S n) s s' /\ is_Some (k s')).
    { rewrite Hone. split.
      - intros (m & Hm & (n & s' & ? & ? & ? & ?)%IH). exists n, s'. split_and!; [done|lia|by exists m|done].
      - intros (n & s' & ? & ? & (m & Hm & Hr) & ?). exists m. split; [done|]. apply IH.
        exists n, s'. split_and!; [done|lia|done|done]. }
    destruct (one s _) as [y|].
    + split; [|by eauto]. intros _. destruct (proj1 Ht) as (n & s' & ? & ? & ? & ?); [by eauto|].
      exists (S n), s'. split_and!; [lia|lia|done|done].
    + split.
      * destruct (lo <=? count)%nat eqn:E; [|by intros []]. apply Nat.leb_le in E. intros Hk.
        exists 0, s. split_and!; [lia|lia|done|done].
      * intros ([|n] & s' & ? & ? & Hr & ?).
        -- simpl in Hr. subst. rewrite (proj2 (Nat.leb_le _ _)); [done|lia].
        -- destruct (proj2 Ht) as [? ?]; [|done]. exists n, s'. split_and!; [lia|lia|done|done].
Qed.

(** The search finds a match exactly when there is one. *)
Lemma rmatch_exact {R} r s (k : position -> option R) :
  productive r = true -> is_Some (rmatch r s k) <-> exists s', consumes r s s' /\ is_Some (k s').
Proof.
  revert s k. induction r as [f|a IHa b IHb|a IHa b IHb|a IHa lo hi|]; intros s k; cbn [rmatch consumes productive].
  - intros _. destruct s as [prev [|c rest]]; simpl.
    { split; [by intros []|]. by intros (s' & (c & _ & ? & _) & _). }
    destruct (f c) eqn:E.
    + split.
      * intros H. exists (Some c, rest). split; [by exists c|done].
      * intros ([p rest'] & (c' & _ & He & Hp) & Hk). simpl in *. by simplify_eq.
    + split; [by intros []|]. intros (s' & (c' & Hc & He & _) & _). simplify_eq. congruence.
  - intros [Ha Hb]%andb_prop. rewrite (IHa _ _ Ha). split.
    + intros (m & Hm & (s' & Hs & Hk)%IHb); [|done]. exists s'. split; [by exists m|done].
    + intros (s' & (m & Hm & Hs) & Hk). exists m. split; [done|]. apply (IHb _ _ Hb). by exists s'.
  - intros [Ha Hb]%andb_prop. specialize (IHa s k Ha). specialize (IHb s k Hb).
    destruct (rmatch a s k) as [x|].
    + split; [|by eauto]. intros _. destruct (proj1 IHa) as (s' & ? & ?); [by eauto|]. by eauto.
    + rewrite IHb. split; [intros (s' & ? & ?); by eauto|].
      intros (s' & [Hc|Hc] & Hk); [|by eauto]. destruct (proj2 IHa) as [? ?]; [by eauto|done].
  - intros [Ha Hh]%andb_prop. rewrite (repeat_with_exact _ (consumes a)) by (intros; by apply IHa).
    split.
    + intros (n & s' & Hn & Hlo & Hr & Hk). exists s'. split; [|done]. exists n. split_and!; [lia| |done].
      by destruct hi.
    + intros (s' & (n & Hlo & Hhi & Hr) & Hk). exists n, s'. split_and!; [|lia|done|done].
      destruct hi as [h|]; [done|]. apply negb_true_iff in Hh.
      pose proof (repeats_length _ _ _ _ (fun s s' H => proj2 (consumes_shrinks a s s' H) Hh) Hr). simpl. lia.
  - intros _. destruct (xorb _ _) eqn:E.
    + split; [by eauto|]. by intros (s' & [-> _] & ?).
    + split; [by intros []|]. by intros (s' & [_ ?] & _).
Qed.

(** A text contains a match: some span of it, between what precedes and what follows. *)
Definition contains (r : regex) (text : list ascii) : Prop :=
  exists before inside after,
    text = before ++ inside ++ after
    /\ exists prev, consumes r (last before, inside ++ after) (prev, after).

Lemma match_len_exact r s :
  productive r = true -> is_Some (match_len r s) <-> exists s', consumes r s s'.
Proof.
  intros H. unfold match_len. rewrite rmatch_exact by done. split; intros (s' & Hs); [by destruct Hs; eauto|].
  exists s'. eauto.
Qed.

Lemma consumes_suffix r s s' : consumes r s s' -> exists mid, s.2 = mid ++ s'.2.
Proof.
  revert s s'. induction r as [f|a IHa b IHb|a IHa b IHb|a IHa lo hi|]; intros s s'; cbn [consumes].
  - intros (c & _ & -> & _). by exists [c].
  - intros (m & (x & ->)%IHa & (y & ->)%IHb). exists (x ++ y). by rewrite <- app_assoc.
  - intros [H%IHa|H%IHb]; done.
  - intros (n & _ & _ & Hn). revert s Hn. induction n as [|n IH]; intros s; simpl.
    + intros ->. by exists [].
    + intros (m & (x & ->)%IHa & (y & ->)%IH). exists (x ++ y). by rewrite <- app_assoc.
  - intros [-> _]. by exists [].
Qed.

Lemma match_from_exact r before s :
  productive r = true ->
  match_from r (last before) s = true
  <-> exists skipped inside after prev, s = skipped ++ inside ++ after
        /\ consumes r (last (before ++ skipped), inside ++ after) (prev, after).
Proof.
  intros Hr. assert (Here : forall before s, is_Some (match_len r (last before, s)) ->
    exists skipped inside after prev, s = skipped ++ inside ++ after
        /\ consumes r (last (before ++ skipped), inside ++ after) (prev, after)).
  { intros bf t. rewrite match_len_exact by done. intros ([prev after] & Hc).
    destruct (consumes_suffix _ _ _ Hc) as [mid Hm]. simpl in Hm. subst.
    exists [], mid, after, prev. rewrite app_nil_r. by split. }
  revert before. induction s as [|c s IH]; intros before; cbn [match_from].
  - rewrite orb_false_r, bool_decide_eq_true. split; [apply Here|].
    intros (sk & i & af & prev & He & Hc). destruct sk, i, af; try done. rewrite app_nil_r in Hc.
    apply match_len_exact; [done|]. eauto.
  - rewrite orb_true_iff, bool_decide_eq_true. assert (Hl : Some c = last (before ++ [c])) by (by rewrite last_snoc).
    rewrite Hl, IH. split.
    + intros [H|(sk & i & af & prev & -> & Hc)]; [by apply Here|].
      exists (c :: sk), i, af, prev. split; [done|]. by rewrite <- (assoc (++) before [c] sk) in Hc.
    + intros ([|c' sk] & i & af & prev & He & Hc).
      * left. rewrite app_nil_r in Hc. rewrite He. simpl. apply match_len_exact; [done|]. eauto.
      * right. injection He as -> ->. exists sk, i, af, prev. split; [done|].
        by rewrite <- (assoc (++) before [_] sk).
Qed.

Lemma Match_exact r text : productive r = true -> Match_ r text = true <-> contains r text.
Proof.
  intros H. unfold Match_. change (None (A:=ascii)) with (last (A:=ascii) []). rewrite match_from_exact by done.
  split.
  - intros (b & i & a & prev & -> & Hc). exists b, i, a. split; [done|]. by exists prev.
  - intros (b & i & a & -> & prev & Hc). by exists b, i, a, prev.
Qed.
