(* ===== verification/Detect.v ===== *)
(** * Detecting personal data (pii/detect.go)

    The deterministic tier: a pattern per kind, a checksum where the kind has one, and the
    removal of overlaps.  The theorems: what detection reports is in bounds, validated, sorted
    and disjoint, and everything validated is reported or lies under something reported; the
    checksums are what they claim to be (Luhn catches any single wrong digit, the running IBAN
    remainder is the big number's). *)
From S2P Require Import Prelude Errors Core Regex Strconv.
From Stdlib Require Import ZArith Lia Ascii Sorted.
From stdpp Require Import base gmap strings list sorting.
From S2P Require Import Placeholder.
Open Scope Z_scope.

Definition Kind := string.
Definition KindEmail : Kind := "EMAIL".
Definition KindPhone : Kind := "PHONE".
Definition KindCard : Kind := "CARD".
Definition KindIBAN : Kind := "IBAN".
Definition KindEmiratesID : Kind := "EMIRATES_ID".
Definition KindIPAddress : Kind := "IP".

Record Match := mkMatch { m_Kind : Kind; m_Start : Z; m_End : Z; m_Value : bytes }.

(** ** Checksums *)

Definition byte_val (c : ascii) : Z := Z.of_nat (nat_of_ascii c).

Definition digitsOf (s : bytes) : bytes := filter (fun c => is_digit c = true) s.

(** From the last digit to the first, doubling every second one. *)
Definition luhn_digit (double : bool) (n : Z) : Z :=
  if double then let n := n * 2 in if 9 <? n then n - 9 else n else n.
Fixpoint luhn_sum (double : bool) (rev_digits : bytes) : Z :=
  match rev_digits with
  | [] => 0
  | c :: rest => luhn_digit double (digit_val c) + luhn_sum (negb double) rest
  end.
Definition luhn (digits : bytes) : bool :=
  if Z.of_nat (length digits) <? 12 then false
  else luhn_sum false (rev digits) mod 10 =? 0.

Definition is_upper (c : ascii) : bool := in_range 65 90 c.

(** The value of a character of an IBAN. *)
Definition iban_value (c : ascii) : option Z :=
  if is_digit c then Some (byte_val c - 48)
  else if is_upper c then Some (byte_val c - 65 + 10)
  else None.

Fixpoint iban_remainder (remainder : Z) (s : bytes) : option Z :=
  match s with
  | [] => Some remainder
  | c :: rest =>
      match iban_value c with
      | None => None
      | Some v =>
          iban_remainder (if 9 <? v then (remainder * 100 + v) mod 97 else (remainder * 10 + v) mod 97) rest
      end
  end.

Definition validIBAN (s : bytes) : bool :=
  let len := Z.of_nat (length s) in
  if (len <? 15) || (34 <? len) then false
  else match iban_remainder 0 (drop 4 s ++ take 4 s) with
       | Some r => r =? 1
       | None => false
       end.

(** [strings.Split] on a one-byte separator. *)
Fixpoint split_on (sep : ascii) (s : bytes) : list bytes :=
  match s with
  | [] => [[]]
  | c :: rest =>
      if bool_decide (c = sep) then [] :: split_on sep rest
      else match split_on sep rest with
           | p :: ps => (c :: p) :: ps
           | [] => [[c]]
           end
  end.

Definition octet_value (part : bytes) : Z :=
  foldl (fun n c => wrap64 (wrap64 (n * 10) + (byte_val c - 48))) 0 part.

Definition valid_octet (part : bytes) : bool :=
  negb ((1 <? Z.of_nat (length part)) && bool_decide (head part = Some "0"%char))
  && negb (255 <? octet_value part).

Definition validIPv4 (s : bytes) : bool :=
  let parts := split_on "." s in
  (Z.of_nat (length parts) =? 4) && forallb valid_octet parts.

(** ** Detectors *)
Definition lit (c : ascii) : regex := RSet (fun d => bool_decide (d = c)).
Definition digit : regex := RSet is_digit.
Definition opt (r : regex) : regex := RRep r 0 (Some 1%nat).
Definition plus (r : regex) : regex := RRep r 1 None.
Definition count (r : regex) (n : nat) : regex := RRep r n (Some n).
Definition between (r : regex) (lo hi : nat) : regex := RRep r lo (Some hi).
Fixpoint seq (rs : list regex) : regex :=
  match rs with
  | [] => RRep RBound 0 (Some 0%nat)
  | [r] => r
  | r :: rs' => RSeq r (seq rs')
  end.

Definition is_lower (c : ascii) : bool := in_range 97 122 c.
Definition is_alpha (c : ascii) : bool := is_upper c || is_lower c.
Definition is_alnum (c : ascii) : bool := is_alpha c || is_digit c.
(** [\s]: tab, newline, form feed, carriage return, space. *)
Definition is_space (c : ascii) : bool :=
  one_of (ascii_of_nat <$> [9; 10; 12; 13; 32]%nat) c.

Definition email_re : regex :=
  seq [RBound; plus (RSet (fun c => is_alnum c || one_of (str "._%+-") c)); lit "@";
       plus (RSet (fun c => is_alnum c || one_of (str ".-") c)); lit ".";
       RRep (RSet is_alpha) 2 None; RBound].
Definition emirates_re : regex :=
  seq [RBound; lit "7"; lit "8"; lit "4"; opt (lit "-"); count digit 4; opt (lit "-");
       count digit 7; opt (lit "-"); digit; RBound].
Definition card_re : regex :=
  seq [RBound; between (RSeq digit (opt (RSet (one_of (str " -"))))) 12 18; digit; RBound].
Definition iban_re : regex :=
  seq [RBound; count (RSet is_upper) 2; count digit 2;
       between (RSet (fun c => is_upper c || is_digit c)) 10 30; RBound].
Definition phone_re : regex :=
  let sep := opt (RSet (fun c => is_space c || bool_decide (c = "-"%char))) in
  seq [lit "+"; between digit 1 3; sep; opt (lit "("); between digit 1 4; opt (lit ")"); sep;
       between digit 3 4; sep; between digit 3 4; RBound].
Definition ip_re : regex :=
  seq [RBound; between digit 1 3; lit "."; between digit 1 3; lit "."; between digit 1 3; lit ".";
       between digit 1 3; RBound].

Record detector := mkDetector { d_kind : Kind; d_re : regex; d_validate : option (bytes -> bool) }.

Definition detectors : list detector :=
  [mkDetector KindEmail email_re None;
   mkDetector KindEmiratesID emirates_re (Some (fun s => luhn (digitsOf s)));
   mkDetector KindCard card_re (Some (fun s => luhn (digitsOf s)));
   mkDetector KindIBAN iban_re (Some validIBAN);
   mkDetector KindPhone phone_re None;
   mkDetector KindIPAddress ip_re (Some validIPv4)].

Definition slice (s : bytes) (i j : nat) : bytes := take (j - i) (drop i s).

(** ** Overlaps *)

(** [sortByStart] moves each match left past those that start after it. *)
Fixpoint insert_start (m : Match) (sorted : list Match) : list Match :=
  match sorted with
  | [] => [m]
  | x :: rest => if m_Start m <? m_Start x then m :: sorted else x :: insert_start m rest
  end.
Definition sortByStart (matches : list Match) : list Match :=
  foldl (fun sorted m => insert_start m sorted) [] matches.

Fixpoint keep_disjoint (stop : Z) (matches : list Match) : list Match :=
  match matches with
  | [] => []
  | m :: rest => if m_Start m <? stop then keep_disjoint stop rest else m :: keep_disjoint (m_End m) rest
  end.

Definition withoutOverlaps (matches : list Match) : list Match :=
  if (length matches <? 2)%nat then matches else keep_disjoint (-1) (sortByStart matches).

Definition detect_with (text : bytes) (d : detector) : list Match :=
  omap (fun '(i, j) =>
          let value := slice text i j in
          if from_option (fun validate => validate value) true (d_validate d)
          then Some (mkMatch (d_kind d) (Z.of_nat i) (Z.of_nat j) value)
          else None)
       (find_all (d_re d) text).

Definition found (payload : bytes) : list Match := detectors ≫= detect_with payload.

Definition Detect (payload : bytes) : list Match := withoutOverlaps (found payload).

(** [DetectAll] over what each detector answered. *)
Definition DetectAll (answers : list (error + list Match)) : list Match * list error :=
  (withoutOverlaps (answers ≫= fun a => match a with inr found => found | inl _ => [] end),
   answers ≫= fun a => match a with inl err => [err] | inr _ => [] end).

(** ** The statistical tier's answer (adapters/nersidecar) *)

Record detectedEntity := mkEntity { ent_Kind : Kind; ent_Start : Z; ent_End : Z; ent_Value : bytes }.

Definition toMatches (payload : bytes) (entities : list detectedEntity) : list Match :=
  omap (fun e =>
          if (ent_Start e <? 0) || (Z.of_nat (length payload) <? ent_End e) || (ent_End e <=? ent_Start e)
          then None
          else if negb (bool_decide (slice payload (Z.to_nat (ent_Start e)) (Z.to_nat (ent_End e)) = ent_Value e))
          then None
          else Some (mkMatch (ent_Kind e) (ent_Start e) (ent_End e) (ent_Value e)))
       entities.

(** ** Lemmas: removing overlaps *)

Definition starts_before (a b : Match) : Prop := m_Start a <= m_Start b.
Definition ends_before (a b : Match) : Prop := m_End a <= m_Start b.

Lemma insert_start_perm m l : insert_start m l ≡ₚ m :: l.
Proof.
  induction l as [|x l IH]; simpl; [done|]. destruct (_ <? _); [done|]. rewrite IH.
  by rewrite Permutation_swap.
Qed.

Lemma sortByStart_perm l : sortByStart l ≡ₚ l.
Proof.
  unfold sortByStart. enough (forall acc, foldl (fun s m => insert_start m s) acc l ≡ₚ acc ++ l) as H
    by apply (H []).
  induction l as [|m l IH]; intros acc; simpl; [by rewrite app_nil_r|].
  rewrite IH, insert_start_perm. by rewrite <- Permutation_middle.
Qed.

Lemma insert_start_sorted m l : StronglySorted starts_before l -> StronglySorted starts_before (insert_start m l).
Proof.
  induction 1 as [|x l Hs IH Hx]; simpl; [repeat constructor|].
  destruct (m_Start m <? m_Start x) eqn:E; zify_bools.
  - constructor; [by constructor|]. constructor; [unfold starts_before; lia|].
    eapply Forall_impl; [exact Hx|]. unfold starts_before. lia.
  - constructor; [done|]. rewrite insert_start_perm. constructor; [unfold starts_before; lia|done].
Qed.

Lemma sortByStart_sorted l : StronglySorted starts_before (sortByStart l).
Proof.
  unfold sortByStart. enough (forall acc, StronglySorted starts_before acc ->
    StronglySorted starts_before (foldl (fun s m => insert_start m s) acc l)) as H by (apply H; constructor).
  induction l as [|m l IH]; intros acc Ha; simpl; [done|]. by apply IH, insert_start_sorted.
Qed.

Lemma keep_disjoint_incl stop l m : m ∈ keep_disjoint stop l -> m ∈ l.
Proof.
  revert stop. induction l as [|x l IH]; intros stop; simpl; [done|]. destruct (_ <? _).
  - intros H. right. by eapply IH.
  - intros [->|H]%elem_of_cons; [left|right; by eapply IH].
Qed.

(** On sorted non-empty spans: what is kept is disjoint, in order, and covers every start. *)
Lemma keep_disjoint_spec stop l :
  StronglySorted starts_before l -> Forall (fun m => m_Start m < m_End m) l ->
  StronglySorted ends_before (keep_disjoint stop l)
  /\ Forall (fun m => stop <= m_Start m) (keep_disjoint stop l)
  /\ forall m, m ∈ l -> m_Start m < stop \/
       exists k, k ∈ keep_disjoint stop l /\ m_Start k <= m_Start m < m_End k.
Proof.
  intros Hs. revert stop. induction Hs as [|x l Hs IH Hx]; intros stop Hw; simpl.
  { split_and!; [constructor|constructor|]. intros m Hm. by apply elem_of_nil in Hm. }
  apply list.Forall_cons in Hw as [Hxw Hw]. rewrite list.Forall_forall in Hx.
  destruct (m_Start x <? stop) eqn:E; zify_bools.
  - destruct (IH stop Hw) as (H1 & H2 & H3). split_and!; [done|done|].
    intros m [->|Hm]%elem_of_cons; [by left|by apply H3].
  - destruct (IH (m_End x) Hw) as (H1 & H2 & H3). split_and!.
    + constructor; [done|]. eapply Forall_impl; [exact H2|]. done.
    + constructor; [done|]. eapply Forall_impl; [exact H2|]. simpl. lia.
    + intros m [->|Hm]%elem_of_cons.
      * right. exists x. split; [left|lia].
      * right. destruct (H3 m Hm) as [Hlt|(k & Hk & Hm')].
        -- exists x. split; [left|]. specialize (Hx m Hm). unfold starts_before in Hx. lia.
        -- exists k. split; [by right|done].
Qed.

Lemma withoutOverlaps_spec l :
  Forall (fun m => 0 <= m_Start m < m_End m) l ->
  StronglySorted ends_before (withoutOverlaps l)
  /\ (forall m, m ∈ withoutOverlaps l -> m ∈ l)
  /\ (forall m, m ∈ l -> exists k, k ∈ withoutOverlaps l /\ m_Start k <= m_Start m < m_End k).
Proof.
  intros Hw. unfold withoutOverlaps. destruct (length l <? 2)%nat eqn:E.
  - split_and!; [|done|].
    + destruct l as [|x [|y l]]; [constructor|repeat constructor|done].
    + intros m Hm. exists m. rewrite list.Forall_forall in Hw. split; [done|]. specialize (Hw m Hm). lia.
  - destruct (keep_disjoint_spec (-1) (sortByStart l)) as (H1 & _ & H3).
    { apply sortByStart_sorted. }
    { rewrite sortByStart_perm. eapply Forall_impl; [exact Hw|]. simpl. lia. }
    split_and!; [done| |].
    + intros m Hm. apply keep_disjoint_incl in Hm. by rewrite sortByStart_perm in Hm.
    + intros m Hm. destruct (H3 m) as [Hlt|?]; [by rewrite sortByStart_perm| |done].
      rewrite list.Forall_forall in Hw. specialize (Hw m Hm). lia.
Qed.

(** ** Lemmas: what the detectors find *)

Lemma detectors_consume d : d ∈ detectors -> nullable (d_re d) = false.
Proof.
  intros Hd. repeat (apply elem_of_cons in Hd as [->|Hd]; [reflexivity|]). by apply elem_of_nil in Hd.
Qed.

(** A span a detector claims: of the text, and validated. *)
Definition claims (payload : bytes) (m : Match) : Prop :=
  exists d i j, d ∈ detectors /\ (i, j) ∈ find_all (d_re d) payload
    /\ m = mkMatch (d_kind d) (Z.of_nat i) (Z.of_nat j) (slice payload i j)
    /\ from_option (fun validate => validate (slice payload i j)) true (d_validate d) = true.

Lemma found_spec payload m : m ∈ found payload <-> claims payload m.
Proof.
  unfold found, claims. rewrite list_elem_of_bind. split.
  - intros (d & Hm & Hd). apply list_elem_of_omap in Hm as ([i j] & Hij & Hm).
    cbv zeta in Hm. case_match eqn:E; [|done]. simplify_eq. by exists d, i, j.
  - intros (d & i & j & Hd & Hij & -> & Hv). exists d. split; [|done].
    apply list_elem_of_omap. exists (i, j). split; [done|]. cbv beta iota zeta. by rewrite Hv.
Qed.

Lemma claims_bounds payload m :
  claims payload m -> 0 <= m_Start m < m_End m /\ m_End m <= Z.of_nat (length payload)
    /\ m_Value m = slice payload (Z.to_nat (m_Start m)) (Z.to_nat (m_End m)).
Proof.
  intros (d & i & j & Hd & Hij & -> & _). apply find_all_bounds in Hij; [|by apply detectors_consume].
  simpl. rewrite !Nat2Z.id. split_and!; [lia|lia|lia|done].
Qed.

(** Detection.  Every reported match is a validated match of one of the detectors, lies
    within the payload and carries exactly the bytes it spans; the matches come in order and
    none overlaps another; and every validated match of any detector is reported or starts
    inside one that is, so none goes unnoticed. *)
Theorem Detect_correct payload :
  StronglySorted ends_before (Detect payload)
  /\ (forall m, m ∈ Detect payload ->
        claims payload m /\ 0 <= m_Start m < m_End m /\ m_End m <= Z.of_nat (length payload)
        /\ m_Value m = slice payload (Z.to_nat (m_Start m)) (Z.to_nat (m_End m)))
  /\ (forall m, claims payload m ->
        exists k, k ∈ Detect payload /\ m_Start k <= m_Start m < m_End k).
Proof.
  assert (Hw : Forall (fun m => 0 <= m_Start m < m_End m) (found payload)).
  { apply list.Forall_forall. intros m Hm%found_spec. by apply claims_bounds in Hm as [? _]. }
  destruct (withoutOverlaps_spec _ Hw) as (H1 & H2 & H3). unfold Detect. split_and!; [done| |].
  - intros m Hm%H2%found_spec. split; [done|]. by apply claims_bounds.
  - intros m Hm%found_spec. by apply H3.
Qed.

(** ** Checksums *)

Fixpoint flips (n : nat) (b : bool) : bool :=
  match n with O => b | S n' => flips n' (negb b) end.

Lemma luhn_sum_app b l1 l2 : luhn_sum b (l1 ++ l2) = luhn_sum b l1 + luhn_sum (flips (length l1) b) l2.
Proof. revert b. induction l1 as [|c l1 IH]; intros b; simpl; [done|]. rewrite IH. lia. Qed.

Lemma luhn_digit_range b v : 0 <= v <= 9 -> 0 <= luhn_digit b v <= 9.
Proof. unfold luhn_digit. destruct b; [|done]. destruct (9 <? v * 2) eqn:E; zify_bools; lia. Qed.

Lemma luhn_digit_inj b v w : 0 <= v <= 9 -> 0 <= w <= 9 -> luhn_digit b v = luhn_digit b w -> v = w.
Proof.
  unfold luhn_digit. destruct b; [|done].
  destruct (9 <? v * 2) eqn:E; destruct (9 <? w * 2) eqn:E2; zify_bools; lia.
Qed.

Lemma is_digit_val c : is_digit c = true -> 0 <= digit_val c <= 9.
Proof. unfold is_digit, digit_val. intros [H1%Z.leb_le H2%Z.leb_le]%andb_true_iff. lia. Qed.

Lemma digit_val_inj c d : digit_val c = digit_val d -> c = d.
Proof.
  unfold digit_val. intros H. rewrite <- (ascii_nat_embedding c), <- (ascii_nat_embedding d).
  f_equal. lia.
Qed.

(** The check digit does its job: a number that passes Luhn no longer does once any single
    digit of it is changed. *)
Theorem luhn_catches_single_error pre c d suf :
  is_digit c = true -> is_digit d = true -> c <> d ->
  luhn (pre ++ c :: suf) = true -> luhn (pre ++ d :: suf) = false.
Proof.
  intros Hc%is_digit_val Hd%is_digit_val Hne. unfold luhn. rewrite !length_app. cbn [length].
  destruct (_ <? 12); [done|]. rewrite !rev_app_distr. cbn [rev]. rewrite <- !app_assoc. cbn [app].
  rewrite !luhn_sum_app. cbn [luhn_sum]. set (b := flips _ false).
  intros H%Z.eqb_eq. apply Z.eqb_neq. intros H2.
  pose proof (luhn_digit_range b _ Hc). pose proof (luhn_digit_range b _ Hd).
  assert (Hdiff : luhn_digit b (digit_val c) <> luhn_digit b (digit_val d)).
  { intros Heq. apply Hne, digit_val_inj. by eapply luhn_digit_inj. }
  revert H H2. generalize (luhn_sum false (rev suf)), (luhn_sum (negb b) (rev pre)). intros x y H H2.
  apply Z.mod_divide in H as [q1 Hq1]; [|lia]. apply Z.mod_divide in H2 as [q2 Hq2]; [|lia]. lia.
Qed.

Lemma luhn_catches_single_error_witness :
  luhn (str "4111111111111111") = true /\ luhn (str "4111111711111111") = false.
Proof.
  split; [reflexivity|].
  apply (luhn_catches_single_error (str "4111111") "1"%char "7"%char (str "11111111"));
    [reflexivity|reflexivity|discriminate|reflexivity].
Defined.

(** The number an IBAN's characters spell, two digits per letter. *)
Fixpoint iban_number (acc : Z) (s : bytes) : option Z :=
  match s with
  | [] => Some acc
  | c :: rest =>
      match iban_value c with
      | None => None
      | Some v => iban_number (if 9 <? v then acc * 100 + v else acc * 10 + v) rest
      end
  end.

Lemma iban_remainder_number a s :
  iban_remainder (a mod 97) s = (fun n => n mod 97) <$> iban_number a s.
Proof.
  revert a. induction s as [|c s IH]; intros a; cbn [iban_remainder iban_number]; [done|].
  destruct (iban_value c) as [v|]; [|done].
  destruct (9 <? v); rewrite <- IH; f_equal.
  - rewrite <- Z.add_mod_idemp_l, Z.mul_mod_idemp_l, Z.add_mod_idemp_l by lia. done.
  - rewrite <- Z.add_mod_idemp_l, Z.mul_mod_idemp_l, Z.add_mod_idemp_l by lia. done.
Qed.

(** The IBAN check equals its definition over unbounded integers: right length, and the
    number spelled by the rearranged characters leaves remainder 1 modulo 97. *)
Theorem validIBAN_mod97 s :
  validIBAN s = true <->
  (15 <= length s <= 34)%nat
  /\ exists n, iban_number 0 (drop 4 s ++ take 4 s) = Some n /\ n mod 97 = 1.
Proof.
  unfold validIBAN. change 0 with (0 mod 97) at 1. rewrite iban_remainder_number.
  destruct (_ || _) eqn:E.
  - split; [done|]. intros [Hl _]. apply orb_true_iff in E as [E|E]; zify_bools; lia.
  - apply orb_false_iff in E as [E1 E2]. zify_bools.
    destruct (iban_number 0 _) as [n|]; cbn [fmap option_fmap option_map].
    + rewrite Z.eqb_eq. split; [intros H; split; [lia|eauto]|intros (_ & n' & [= <-] & H); done].
    + split; [done|]. by intros (_ & n' & ? & _).
Qed.
