(* ===== verification/Transform.v ===== *)
(** * Replacing personal data (pii/transform.go)

    [TransformMatches] rewrites a payload match by match; slicing out of range panics, which is
    [None] here.  The keyed digest of the hash strategy is a parameter.  The theorems: it cannot
    panic on what detection reports; redaction is a function of everything but the detected
    values; tokenising and restoring is the identity. *)
From S2P Require Import Prelude Errors Core Strconv Kv.
From Stdlib Require Import ZArith Lia Ascii Sorted.
From stdpp Require Import base gmap strings list.
From S2P Require Import Placeholder Restorer Detect.
Open Scope Z_scope.
Open Scope gw_scope.

Definition Strategy := string.
Definition StrategyNone : Strategy := "none".
Definition StrategyRedact : Strategy := "redact".
Definition StrategyHash : Strategy := "hash".
Definition StrategyTokenize : Strategy := "tokenize".

Record TransformResult := mkTransformed { t_Payload : bytes; t_Replacements : replacements; t_Count : Z }.

(** [text[i:j]], or a panic. *)
Definition slice_checked (text : bytes) (i j : Z) : option bytes :=
  if (0 <=? i) && (i <=? j) && (j <=? Z.of_nat (length text))
  then Some (slice text (Z.to_nat i) (Z.to_nat j)) else None.

Definition placeholder (kind : Kind) (n : Z) : bytes :=
  placeholderOpen ++ str kind ++ ["_"%char] ++ FormatInt n ++ placeholderClose.

#[global] Arguments placeholder : simpl never.

Section transform.
(** The first twelve hex digits of the HMAC-SHA256 of a value under the pepper. *)
Context (hmac12 : bytes -> bytes -> bytes).

Definition hashValue (pepper : bytes) (m : Match) : bytes :=
  placeholderOpen ++ str (m_Kind m) ++ ["_"%char] ++ hmac12 pepper (m_Value m) ++ placeholderClose.

Record TState := mkT { ts_out : bytes; ts_repl : replacements; ts_counters : gmap Kind Z; ts_last : Z }.

Definition transform_step (text : bytes) (strategy : Strategy) (pepper : bytes)
    (st : unit + TState) (m : Match) : unit + TState :=
  let! st := st in
  match slice_checked text (ts_last st) (m_Start m) with
  | None => inl tt
  | Some gap =>
      let out := ts_out st ++ gap in
      if bool_decide (strategy = StrategyHash) then
        inr (mkT (out ++ hashValue pepper m) (ts_repl st) (ts_counters st) (m_End m))
      else if bool_decide (strategy = StrategyRedact) || bool_decide (strategy = StrategyTokenize) then
        let n := wrap64 (default 0 (ts_counters st !! m_Kind m) + 1) in
        let ph := placeholder (m_Kind m) n in
        inr (mkT (out ++ ph)
               (if bool_decide (strategy = StrategyTokenize) then <[ph := m_Value m]> (ts_repl st)
                else ts_repl st)
               (<[m_Kind m := n]> (ts_counters st)) (m_End m))
      else inr (mkT out (ts_repl st) (ts_counters st) (m_End m))
  end.

Definition TransformMatches (payload : bytes) (matches : list Match) (strategy : Strategy)
    (pepper : bytes) : option TransformResult :=
  if bool_decide (strategy = StrategyNone) || bool_decide (strategy = "")
  then Some (mkTransformed payload ∅ 0)
  else
    match matches with
    | [] => Some (mkTransformed payload ∅ 0)
    | _ =>
        match foldl (transform_step payload strategy pepper) (inr (mkT [] ∅ ∅ 0)) matches with
        | inl _ => None
        | inr st =>
            match slice_checked payload (ts_last st) (Z.of_nat (length payload)) with
            | None => None
            | Some rest =>
                Some (mkTransformed (ts_out st ++ rest) (ts_repl st) (Z.of_nat (length matches)))
            end
        end
    end.

Definition Transform (payload : bytes) (strategy : Strategy) (pepper : bytes) : option TransformResult :=
  TransformMatches payload (Detect payload) strategy pepper.
End transform.

(** ** Vault *)
Section vault.
Context {S : Type} `{!KVStore S}.

Record Vault := mkVault { v_ttl : duration }.

Definition NewVault (store : option S) (ttl : duration) : error + Vault :=
  match store with
  | None => inl (New CodeInternal "a token vault needs a store")
  | Some _ => inr (mkVault (if ttl <=? 0 then 5 * Minute else ttl))
  end.

Definition vaultKey (tenant : TenantID) (requestID : string) (ph : bytes) : string :=
  "pii:" +:+ tenant +:+ ":" +:+ requestID +:+ ":" +:+ String.string_of_list_ascii ph.

(** [Put] in the order the map iterates; stops at the first store failure. *)
Fixpoint Put (v : Vault) (now : time) (tenant : TenantID) (requestID : string)
    (repl : list (bytes * bytes)) (s : S) : option error * S :=
  match repl with
  | [] => (None, s)
  | (ph, original) :: rest =>
      let '(err, s) := kv_Set now (vaultKey tenant requestID ph) original (v_ttl v) s in
      match err with
      | Some e => (Wrap CodeUnavailable (Some e) "storing tokenised values", s)
      | None => Put v now tenant requestID rest s
      end
  end.

Definition VaultGet (v : Vault) (now : time) (tenant : TenantID) (requestID : string) (ph : bytes) (s : S)
    : option bytes * S :=
  let '(r, s) := kv_Get now (vaultKey tenant requestID ph) s in
  (match r with inr found => found | inl _ => None end, s).

Fixpoint Forget (v : Vault) (now : time) (tenant : TenantID) (requestID : string)
    (phs : list bytes) (s : S) : S :=
  match phs with
  | [] => s
  | ph :: rest => Forget v now tenant requestID rest (kv_Delete now (vaultKey tenant requestID ph) s).2
  end.
End vault.

(** ** A payload cut at its matches *)

(** The text before a match, its kind, its value. *)
Record segment := mkSeg { s_gap : bytes; s_kind : Kind; s_value : bytes }.

Definition flatten (segs : list segment) (rest : bytes) : bytes :=
  (segs ≫= fun s => s_gap s ++ s_value s) ++ rest.

Fixpoint matches_of (pos : Z) (segs : list segment) : list Match :=
  match segs with
  | [] => []
  | s :: segs' =>
      let start := pos + Z.of_nat (length (s_gap s)) in
      let stop := start + Z.of_nat (length (s_value s)) in
      mkMatch (s_kind s) start stop (s_value s) :: matches_of stop segs'
  end.

(** What replaces each match: a placeholder numbered within its kind. *)
Fixpoint numbered (counters : gmap Kind Z) (segs : list segment) : list (bytes * bytes * bytes) :=
  match segs with
  | [] => []
  | s :: segs' =>
      let n := wrap64 (default 0 (counters !! s_kind s) + 1) in
      (s_gap s, placeholder (s_kind s) n, s_value s) :: numbered (<[s_kind s := n]> counters) segs'
  end.

Definition rewritten (l : list (bytes * bytes * bytes)) (rest : bytes) : bytes :=
  (l ≫= fun x => x.1.1 ++ x.1.2) ++ rest.

Definition issued (l : list (bytes * bytes * bytes)) (m : replacements) : replacements :=
  foldl (fun m x => <[x.1.2 := x.2]> m) m l.

Lemma slice_checked_app pre mid post :
  slice_checked (pre ++ mid ++ post) (Z.of_nat (length pre)) (Z.of_nat (length pre) + Z.of_nat (length mid))
  = Some mid.
Proof.
  unfold slice_checked. rewrite !length_app.
  rewrite (proj2 (Z.leb_le 0 _)), (proj2 (Z.leb_le (Z.of_nat (length pre)) _)) by lia.
  rewrite (proj2 (Z.leb_le (_ + _) _)) by lia. cbn [andb]. f_equal. unfold slice.
  rewrite Nat2Z.id, drop_app_length. replace (_ - _)%nat with (length mid) by lia.
  by rewrite take_app_length.
Qed.

Lemma flatten_cons s segs rest : flatten (s :: segs) rest = s_gap s ++ s_value s ++ flatten segs rest.
Proof. unfold flatten. cbn. by rewrite <- !app_assoc. Qed.

Lemma flatten_app segs rest : flatten segs rest = flatten segs [] ++ rest.
Proof. unfold flatten. by rewrite app_nil_r. Qed.

Lemma rewritten_cons g p v l rest : rewritten ((g, p, v) :: l) rest = g ++ p ++ rewritten l rest.
Proof. unfold rewritten. cbn. by rewrite <- !app_assoc. Qed.

(** Redaction and tokenising over a cut payload. *)
Definition replacing (strategy : Strategy) : Prop :=
  strategy = StrategyRedact \/ strategy = StrategyTokenize.

Definition kept (strategy : Strategy) (l : list (bytes * bytes * bytes)) (m : replacements) : replacements :=
  if bool_decide (strategy = StrategyTokenize) then issued l m else m.

Lemma transform_loop hmac12 strategy pepper segs pre rest out repl counters :
  replacing strategy ->
  exists counters',
    foldl (transform_step hmac12 (pre ++ flatten segs rest) strategy pepper)
      (inr (mkT out repl counters (Z.of_nat (length pre)))) (matches_of (Z.of_nat (length pre)) segs)
    = inr (mkT (out ++ rewritten (numbered counters segs) [])
             (kept strategy (numbered counters segs) repl) counters'
             (Z.of_nat (length (pre ++ flatten segs [])))).
Proof.
  intros Hst. revert pre out repl counters. induction segs as [|s segs IH]; intros pre out repl counters.
  - exists counters. cbn. unfold kept. rewrite !app_nil_r. by destruct (bool_decide _).
  - cbn [matches_of foldl transform_step ts_last m_Start].
    rewrite flatten_cons. rewrite slice_checked_app. cbn [ts_out ts_repl ts_counters m_Kind m_Value m_End].
    rewrite (bool_decide_false (strategy = StrategyHash)) by (by destruct Hst as [-> | ->]).
    replace (bool_decide (strategy = StrategyRedact) || bool_decide (strategy = StrategyTokenize))
      with true by (by destruct Hst as [-> | ->]).
    set (n := wrap64 _). set (ph := placeholder _ n).
    specialize (IH (pre ++ s_gap s ++ s_value s) ((out ++ s_gap s) ++ ph)
      (if bool_decide (strategy = StrategyTokenize) then <[ph := s_value s]> repl else repl)
      (<[s_kind s := n]> counters)) as [counters' IH].
    exists counters'. rewrite !length_app, !Nat2Z.inj_add, Z.add_assoc in IH.
    rewrite <- !app_assoc in IH. rewrite <- app_assoc. rewrite IH.
    f_equal. f_equal.
    + cbn [numbered]. fold n. fold ph. by rewrite rewritten_cons.
    + cbn [numbered]. fold n. fold ph. unfold kept. by destruct (bool_decide _).
    + rewrite !flatten_cons, !length_app. lia.
Qed.

Lemma TransformMatches_segments hmac12 strategy pepper segs rest :
  replacing strategy -> segs <> [] ->
  TransformMatches hmac12 (flatten segs rest) (matches_of 0 segs) strategy pepper
  = Some (mkTransformed (rewritten (numbered ∅ segs) rest) (kept strategy (numbered ∅ segs) ∅)
            (Z.of_nat (length segs))).
Proof.
  intros Hst Hne. unfold TransformMatches.
  rewrite (bool_decide_false (strategy = StrategyNone)), (bool_decide_false (strategy = ""))
    by (by destruct Hst as [-> | ->]). cbn [orb].
  destruct (transform_loop hmac12 strategy pepper segs [] rest [] ∅ ∅ Hst) as [counters' Hl].
  cbn [app length] in Hl. change (Z.of_nat 0) with 0 in Hl.
  assert (Hlen : forall pos, length (matches_of pos segs) = length segs).
  { clear. induction segs as [|s segs IH]; intros pos; simpl; [done|]. by rewrite IH. }
  specialize (Hlen 0). destruct (matches_of 0 segs) as [|m ms] eqn:E; [by destruct segs|].
  rewrite Hl. cbn [ts_last ts_out ts_repl].
  rewrite (flatten_app segs rest) at 1 2. rewrite <- (app_nil_r (flatten segs [] ++ rest)) at 1.
  rewrite <- app_assoc, length_app, Nat2Z.inj_add, slice_checked_app.
  f_equal. f_equal; [|by rewrite <- Hlen].
  unfold rewritten. rewrite app_nil_r. done.
Qed.

(** Matches that are in bounds, in order, disjoint, and carry the bytes they span. *)
Definition good_matches (payload : bytes) (ms : list Match) : Prop :=
  StronglySorted ends_before ms
  /\ Forall (fun m => 0 <= m_Start m <= m_End m /\ m_End m <= Z.of_nat (length payload)
               /\ m_Value m = slice payload (Z.to_nat (m_Start m)) (Z.to_nat (m_End m))) ms.

Lemma segments_from payload ms pre tail :
  good_matches payload ms -> payload = pre ++ tail ->
  Forall (fun m => Z.of_nat (length pre) <= m_Start m) ms ->
  exists segs rest, tail = flatten segs rest /\ ms = matches_of (Z.of_nat (length pre)) segs.
Proof.
  intros [Hs Hb]. revert pre tail. induction Hs as [|m ms Hs IH Hm]; intros pre tail Hp Hst.
  { by exists [], tail. }
  apply list.Forall_cons in Hb as [(Hse & Hel & Hv) Hb]. apply list.Forall_cons in Hst as [Hst _].
  set (i := (Z.to_nat (m_Start m) - length pre)%nat).
  set (n := (Z.to_nat (m_End m) - Z.to_nat (m_Start m))%nat).
  assert (Hlt : length tail = (length payload - length pre)%nat) by (rewrite Hp, length_app; lia).
  assert (Hdrop : drop (Z.to_nat (m_Start m)) payload = drop i tail).
  { rewrite Hp, drop_app_ge by lia. done. }
  set (gap := take i tail). set (value := take n (drop i tail)).
  assert (Hgl : length gap = i) by (subst gap; rewrite length_take; lia).
  assert (Hvl : length value = n) by (subst value; rewrite length_take, length_drop; lia).
  destruct (IH Hb (pre ++ gap ++ value) (drop n (drop i tail))) as (segs & rest & Ht & Hms).
  { rewrite <- !app_assoc. subst gap value. by rewrite (take_drop n), take_drop. }
  { eapply Forall_impl; [exact Hm|]. unfold ends_before. intros x Hx. rewrite !length_app. lia. }
  exists (mkSeg gap (m_Kind m) value :: segs), rest. split.
  - rewrite flatten_cons, <- Ht. cbn. subst gap value. by rewrite (take_drop n), take_drop.
  - cbn [matches_of s_gap s_value s_kind].
    rewrite !length_app, !Nat2Z.inj_add, Z.add_assoc in Hms. rewrite <- Hms. f_equal.
    destruct m as [k st en v]. cbn in *. f_equal; [lia|lia|]. rewrite Hv. unfold slice. by rewrite Hdrop.
Qed.

Lemma segments payload ms :
  good_matches payload ms ->
  exists segs rest, payload = flatten segs rest /\ ms = matches_of 0 segs.
Proof.
  intros H. apply (segments_from payload ms [] payload H eq_refl).
  eapply Forall_impl; [exact (proj2 H)|]. simpl. lia.
Qed.

(** ** Placeholders as issued *)

Definition kind_ok (k : Kind) : Prop := str k <> [] /\ Forall NameChar (str k).

Lemma str_inj s1 s2 : str s1 = str s2 -> s1 = s2.
Proof.
  intros H. rewrite <- (String.string_of_list_ascii_of_string s1), <- (String.string_of_list_ascii_of_string s2).
  by f_equal.
Qed.

Lemma FormatInt_digits n : 0 <= n -> FormatInt n <> [] /\ Forall DigitChar (FormatInt n).
Proof.
  intros Hn. unfold FormatInt. rewrite (proj2 (Z.ltb_ge _ _)) by lia. split.
  - destruct (format_digits_cons 20 n []) as (d & s & -> & _); [lia|done].
  - by apply format_digits_is_digit.
Qed.

Lemma placeholder_shape k n : kind_ok k -> 0 <= n -> shape (placeholder k n).
Proof.
  intros [Hk Hf] Hn. destruct (FormatInt_digits n Hn). by exists (str k), (FormatInt n).
Qed.

Lemma placeholder_inj k1 n1 k2 n2 :
  kind_ok k1 -> kind_ok k2 -> 0 <= n1 <= int64_max -> 0 <= n2 <= int64_max ->
  placeholder k1 n1 = placeholder k2 n2 -> k1 = k2 /\ n1 = n2.
Proof.
  intros [_ H1] [_ H2] Hn1 Hn2 H. unfold placeholder in H.
  apply app_inv_head in H. rewrite !app_assoc in H. apply app_inv_tail in H.
  assert (Hs : forall k n, Forall NameChar (str k) -> 0 <= n ->
            span is_name_char ((str k ++ ["_"%char]) ++ FormatInt n) = (str k ++ ["_"%char], FormatInt n)).
  { intros k n Hk Hn. apply span_exact.
    - apply Forall_app. split; [done|by repeat constructor].
    - destruct (FormatInt_digits n Hn) as [Hne Hd]. destruct (FormatInt n); [done|].
      apply digit_not_name. by apply list.Forall_cons in Hd as [? _]. }
  apply (f_equal (span is_name_char)) in H. rewrite !Hs in H by (done || lia). injection H as Hk Hn.
  split; [by apply app_inv_tail, str_inj in Hk|].
  apply FormatInt_inj; [unfold in_int64, int64_min; lia..|done].
Qed.

Definition count_of (counters : gmap Kind Z) (k : Kind) : Z := default 0 (counters !! k).

(** Counters far enough from overflow for [n] more placeholders. *)
Definition room (counters : gmap Kind Z) (n : nat) : Prop :=
  forall k, 0 <= count_of counters k /\ count_of counters k + Z.of_nat n <= int64_max.

Lemma room_step counters n k :
  room counters (S n) ->
  wrap64 (count_of counters k + 1) = count_of counters k + 1
  /\ room (<[k := count_of counters k + 1]> counters) n.
Proof.
  intros Hr. split.
  - apply wrap64_id. specialize (Hr k). unfold in_int64, int64_min. lia.
  - intros k'. unfold count_of at 1 3. destruct (decide (k' = k)) as [->|Hk].
    + rewrite lookup_insert_eq. simpl. specialize (Hr k). lia.
    + rewrite lookup_insert_ne by done. specialize (Hr k'). unfold count_of in Hr. lia.
Qed.

(** Every placeholder issued has a number above the counter it started from. *)
Lemma numbered_above counters segs g p v :
  room counters (length segs) -> Forall (fun s => kind_ok (s_kind s)) segs ->
  (g, p, v) ∈ numbered counters segs ->
  exists k n, p = placeholder k n /\ kind_ok k /\ count_of counters k < n <= int64_max.
Proof.
  revert counters. induction segs as [|s segs IH]; intros counters Hr Hk Hin; [by apply elem_of_nil in Hin|].
  apply list.Forall_cons in Hk as [Hk Hks]. cbn [numbered] in Hin. fold (count_of counters (s_kind s)) in Hin.
  destruct (room_step _ _ (s_kind s) Hr) as [Hw Hr']. rewrite Hw in Hin.
  apply elem_of_cons in Hin as [[= -> -> ->]|Hin].
  - exists (s_kind s), (count_of counters (s_kind s) + 1). split_and!; [done..|lia|].
    specialize (Hr (s_kind s)). simpl in Hr. lia.
  - destruct (IH _ Hr' Hks Hin) as (k & n & -> & Hok & Hn). exists k, n. split_and!; [done..| |lia].
    unfold count_of in Hn at 1. destruct (decide (k = s_kind s)) as [->|Hne].
    + rewrite lookup_insert_eq in Hn. simpl in Hn. lia.
    + rewrite lookup_insert_ne in Hn by done. unfold count_of. lia.
Qed.

(** Issuing more placeholders does not touch one not among them. *)
Lemma issued_other l m p : p ∉ l.*1.*2 -> issued l m !! p = m !! p.
Proof.
  revert m. induction l as [|[[g q] v] l IH]; intros m Hp; [done|]. cbn in Hp.
  apply not_elem_of_cons in Hp as [Hne Hp]. unfold issued. cbn [foldl fst snd].
  fold (issued l (<[q := v]> m)). rewrite IH by done. by apply lookup_insert_ne.
Qed.

(** Every placeholder of the rewritten payload is issued with the value it stands for. *)
Lemma issued_lookup counters segs m g p v :
  room counters (length segs) -> Forall (fun s => kind_ok (s_kind s)) segs ->
  (g, p, v) ∈ numbered counters segs -> issued (numbered counters segs) m !! p = Some v.
Proof.
  revert counters m. induction segs as [|s segs IH]; intros counters m Hr Hk Hin; [by apply elem_of_nil in Hin|].
  pose proof Hk as Hk0. apply list.Forall_cons in Hk as [Hk Hks]. cbn [numbered] in Hin |- *.
  fold (count_of counters (s_kind s)) in Hin |- *.
  destruct (room_step _ _ (s_kind s) Hr) as [Hw Hr']. rewrite Hw in *.
  set (n := count_of counters (s_kind s) + 1) in *.
  set (l := numbered (<[s_kind s := n]> counters) segs) in *.
  change (issued ((s_gap s, placeholder (s_kind s) n, s_value s) :: l) m)
    with (issued l (<[placeholder (s_kind s) n := s_value s]> m)).
  apply elem_of_cons in Hin as [[= -> -> ->]|Hin]; [|by apply IH].
  rewrite issued_other; [apply lookup_insert_eq|].
  intros Hin. apply list_elem_of_fmap in Hin as ([g' p'] & Hp & Hin).
  apply list_elem_of_fmap in Hin as ([[g2 p2] v2] & [= -> ->] & Hin). cbn in Hp. subst p2.
  apply (numbered_above _ _ _ _ _ Hr' Hks) in Hin as (k & n' & Hp & Hok & Hn').
  specialize (Hr (s_kind s)). simpl in Hr. pose proof (Hr' k) as Hrk.
  apply placeholder_inj in Hp as [<- <-]; [|done|done|subst n; lia|lia].
  unfold count_of at 1 in Hn'. rewrite lookup_insert_eq in Hn'. simpl in Hn'. lia.
Qed.

(** ** Restoring what was tokenised *)

(** The text has no placeholder of its own. *)
Definition shape_free (s : bytes) : Prop := forall u p v, s = u ++ p ++ v -> ~ shape p.

Lemma shape_free_app s1 s2 : shape_free (s1 ++ s2) -> shape_free s1 /\ shape_free s2.
Proof.
  intros H. split.
  - intros u p v ->. apply (H u p (v ++ s2)). by rewrite <- !app_assoc.
  - intros u p v ->. apply (H (s1 ++ u) p v). by rewrite <- !app_assoc.
Qed.

Lemma substitute_shape_free m s : shape_free s -> substitute m s = s.
Proof.
  intros Hf. rewrite <- (app_nil_r s) at 1. rewrite substitute_lits; [apply app_nil_r|].
  intros u1 u2 -> _. rewrite app_nil_r. destruct (match_at u2) as [[p rest]|] eqn:E; [|done].
  apply match_at_Some in E as [-> Hp]. exfalso. by apply (Hf u1 p rest).
Qed.

(** Text before a placeholder is restored on its own. *)
Lemma substitute_before m gap p rest :
  shape p -> substitute m (gap ++ p ++ rest) = substitute m gap ++ substitute m (p ++ rest).
Proof.
  intros Hp. apply substitute_cut. intros (a1 & a2 & s1 & s2 & -> & Hs & Ha2 & Hs1 & Hq & _).
  destruct Hp as (name & num & -> & _).
  eapply (shape_no_inner_open _ a2 s1 s2 _ Hq eq_refl Ha2 Hs1). rewrite <- Hs. by rewrite <- !app_assoc.
Qed.

Lemma substitute_rewritten m l rest :
  (forall g p v, (g, p, v) ∈ l -> shape p /\ m !! p = Some v /\ shape_free g) -> shape_free rest ->
  substitute m (rewritten l rest) = (l ≫= fun x => x.1.1 ++ x.2) ++ rest.
Proof.
  intros Hl Hr. induction l as [|[[g p] v] l IH]; [by apply substitute_shape_free|].
  destruct (Hl g p v) as (Hp & Hm & Hg); [left|].
  rewrite rewritten_cons, substitute_before, substitute_shape, Hm by done. cbn.
  rewrite IH by (intros; apply Hl; by right). rewrite substitute_shape_free by done.
  by rewrite <- !app_assoc.
Qed.

Lemma numbered_payload counters segs rest :
  (numbered counters segs ≫= fun x => x.1.1 ++ x.2) ++ rest = flatten segs rest.
Proof.
  revert counters. induction segs as [|s segs IH]; intros counters; [done|].
  rewrite flatten_cons. cbn. by rewrite <- !app_assoc, IH.
Qed.

Lemma numbered_gap counters segs g p v : (g, p, v) ∈ numbered counters segs -> exists s, s ∈ segs /\ s_gap s = g.
Proof.
  revert counters. induction segs as [|s segs IH]; intros counters Hin; [by apply elem_of_nil in Hin|].
  apply elem_of_cons in Hin as [[= -> _ _]|Hin]; [exists s; split; [left|done]|].
  apply IH in Hin as (s' & Hs & Hg). exists s'. split; [by right|done].
Qed.

Lemma flatten_shape_free segs rest :
  shape_free (flatten segs rest) -> shape_free rest /\ Forall (fun s => shape_free (s_gap s)) segs.
Proof.
  induction segs as [|s segs IH]; intros H; [done|]. rewrite flatten_cons in H.
  apply shape_free_app in H as [Hg H]. apply shape_free_app in H as [_ H].
  destruct (IH H) as [Hr Hs]. split; [done|by constructor].
Qed.

Lemma matches_of_kinds (P : Kind -> Prop) pos segs :
  Forall (fun m => P (m_Kind m)) (matches_of pos segs) <-> Forall (fun s => P (s_kind s)) segs.
Proof.
  revert pos. induction segs as [|s segs IH]; intros pos; [split; constructor|].
  cbn [matches_of]. by rewrite !list.Forall_cons, IH.
Qed.

Lemma matches_of_length pos segs : length (matches_of pos segs) = length segs.
Proof. revert pos. induction segs as [|s segs IH]; intros pos; simpl; [done|]. by rewrite IH. Qed.

Lemma format_digits_length fuel n acc : (length (format_digits fuel n acc) <= fuel + length acc)%nat.
Proof.
  revert n acc. induction fuel as [|fuel IH]; intros n acc; cbn [format_digits]; [lia|].
  destruct (_ =? 0); [simpl; lia|]. etransitivity; [apply IH|]. simpl. lia.
Qed.

Lemma issued_dom l m p : is_Some (issued l m !! p) -> is_Some (m !! p) \/ p ∈ l.*1.*2.
Proof.
  revert m. induction l as [|[[g q] v] l IH]; intros m Hp; [by left|].
  destruct (IH (<[q := v]> m) Hp) as [H|H]; [|right; by right].
  destruct (decide (p = q)) as [->|Hne]; [right; left|left].
  destruct H as [x Hx]. exists x. rewrite <- Hx. symmetry. by apply lookup_insert_ne.
Qed.

(** Kinds short enough for their placeholders to fit the streaming window. *)
Definition kind_short (k : Kind) : Prop := (length (str k) <= 39)%nat.

Lemma issued_fits segs :
  room ∅ (length segs) -> Forall (fun s => kind_ok (s_kind s)) segs ->
  Forall (fun s => kind_short (s_kind s)) segs -> fits (issued (numbered ∅ segs) ∅).
Proof.
  intros Hr Hk Hsh p Hp _. apply issued_dom in Hp as [[? ?]|Hp]; [done|].
  apply list_elem_of_fmap in Hp as ([g' p'] & -> & Hin).
  apply list_elem_of_fmap in Hin as ([[g2 p2] v2] & [= -> ->] & Hin). cbn.
  enough (exists k n, p2 = placeholder k n /\ kind_short k /\ 0 <= n) as (k & n & -> & Hs & Hn).
  { unfold placeholder, kind_short, MaxPlaceholderLen in *. rewrite !length_app. unfold FormatInt.
    rewrite (proj2 (Z.ltb_ge _ _)) by lia.
    pose proof (format_digits_length 20 n []). cbn in *. lia. }
  clear -Hr Hsh Hin. revert Hr Hin. generalize (∅ : gmap Kind Z).
  induction Hsh as [|s segs Hs _ IH]; intros c Hr Hin; [by apply elem_of_nil in Hin|].
  cbn [numbered] in Hin. fold (count_of c (s_kind s)) in Hin.
  destruct (room_step _ _ (s_kind s) Hr) as [Hw Hr']. rewrite Hw in Hin.
  apply elem_of_cons in Hin as [[= -> -> ->]|Hin]; [|by eapply IH].
  exists (s_kind s), (count_of c (s_kind s) + 1). split_and!; [done..|]. specialize (Hr (s_kind s)). lia.
Qed.

Lemma room_empty n : Z.of_nat n <= int64_max -> room ∅ n.
Proof. intros H k. unfold count_of. rewrite lookup_empty. simpl. lia. Qed.

(** C13. Tokenising is reversible.  For fewer than 2^63 matches in bounds, in order and disjoint, as
    detection reports them, with kinds of the placeholder alphabet, and a payload with no
    placeholder-shaped text of its own: tokenising cannot panic, and restoring the tokenised payload
    whole gives back exactly the original payload.  Restoring it streamed, in any chunks, does too
    when no kind is longer than 39 characters: every kind the six detectors report is shorter, but
    the kinds of the entity detector are taken as they come, and a longer one defeats the stream. *)
Theorem tokenize_restore_roundtrip hmac12 payload ms pepper :
  good_matches payload ms -> Forall (fun m => kind_ok (m_Kind m)) ms ->
  shape_free payload -> Z.of_nat (length ms) <= int64_max ->
  exists r, TransformMatches hmac12 payload ms StrategyTokenize pepper = Some r
    /\ Restore (t_Payload r) (t_Replacements r) = payload
    /\ (Forall (fun m => kind_short (m_Kind m)) ms ->
        forall chunks, concat chunks = t_Payload r -> restore_stream chunks (t_Replacements r) = payload).
Proof.
  intros Hg Hk Hf Hlen. destruct (segments _ _ Hg) as (segs & rest & -> & ->).
  rewrite !matches_of_kinds in *. rewrite matches_of_length in Hlen.
  destruct segs as [|s segs0] eqn:Es.
  { exists (mkTransformed (flatten [] rest) ∅ 0). split_and!; [done|done|].
    intros _ chunks Hc. unfold restore_stream. rewrite push_all_inactive by done. cbn. by rewrite app_nil_r. }
  rewrite <- Es in *.
  eexists. split; [apply TransformMatches_segments; [by right|by rewrite Es]|]. cbn [t_Payload t_Replacements].
  unfold kept. rewrite bool_decide_true by done.
  assert (Hrest : Restore (rewritten (numbered ∅ segs) rest) (issued (numbered ∅ segs) ∅) = flatten segs rest).
  { pose proof (room_empty _ Hlen) as Hroom. destruct (flatten_shape_free _ _ Hf) as [Hfr Hfg].
    unfold Restore. rewrite bool_decide_false.
    - rewrite substitute_rewritten; [apply numbered_payload| |done]. intros g p v Hin.
      destruct (numbered_above _ _ _ _ _ Hroom Hk Hin) as (k & n & Hp & Hok & Hn).
      destruct (numbered_gap _ _ _ _ _ Hin) as (s' & Hs' & <-). rewrite list.Forall_forall in Hfg.
      split_and!; [subst p; apply placeholder_shape; [done|]|by eapply issued_lookup|by apply Hfg].
      unfold count_of in Hn. rewrite lookup_empty in Hn. simpl in Hn. lia.
    - intros He. rewrite Es in He, Hk, Hroom. apply (f_equal (fun m => m !! (placeholder (s_kind s) 1))) in He.
      erewrite issued_lookup in He; [done|done|done|]. left. }
  split; [exact Hrest|]. intros Hsh chunks Hc. rewrite matches_of_kinds in Hsh.
  rewrite restore_stream_Restore.
  2: { apply issued_fits; [by apply room_empty|done|done]. }
  by rewrite Hc.
Qed.

(** What a payload shows besides the values of its matches: the text before each, its kind, and
    the text after the last. *)
Fixpoint outside (pos : nat) (ms : list Match) (payload : bytes) : list (bytes * Kind) * bytes :=
  match ms with
  | [] => ([], drop pos payload)
  | m :: ms' =>
      let '(l, rest) := outside (Z.to_nat (m_End m)) ms' payload in
      ((slice payload pos (Z.to_nat (m_Start m)), m_Kind m) :: l, rest)
  end.

Lemma outside_segments segs rest pre :
  outside (length pre) (matches_of (Z.of_nat (length pre)) segs) (pre ++ flatten segs rest)
  = ((fun s => (s_gap s, s_kind s)) <$> segs, rest).
Proof.
  revert pre. induction segs as [|s segs IH]; intros pre; cbn [matches_of outside].
  { by rewrite drop_app_length. }
  cbn [m_End m_Start m_Kind]. specialize (IH (pre ++ s_gap s ++ s_value s)).
  rewrite !length_app, !Nat2Z.inj_add, Z.add_assoc, <- !app_assoc in IH.
  rewrite flatten_cons, <- !Nat2Z.inj_add, !Nat2Z.id, !Nat2Z.inj_add, <- Nat.add_assoc, IH.
  cbn. unfold slice. rewrite drop_app_length.
  replace (length pre + length (s_gap s) - length pre)%nat with (length (s_gap s)) by lia.
  by rewrite take_app_length.
Qed.

Lemma numbered_outside counters segs1 segs2 :
  (fun s => (s_gap s, s_kind s)) <$> segs1 = (fun s => (s_gap s, s_kind s)) <$> segs2 ->
  (numbered counters segs1).*1 = (numbered counters segs2).*1.
Proof.
  revert counters segs2. induction segs1 as [|s1 segs1 IH]; intros counters [|s2 segs2] H; try done.
  cbn in H. injection H as Hg Hk Hr. cbn. rewrite Hg, Hk. f_equal. by apply IH.
Qed.

Lemma rewritten_outside l1 l2 rest : l1.*1 = l2.*1 -> rewritten l1 rest = rewritten l2 rest.
Proof.
  intros H. unfold rewritten. f_equal. revert l2 H.
  induction l1 as [|[[g p] v] l1 IH]; intros [|[[g2 p2] v2] l2] H; try done.
  cbn in H. injection H as -> -> H. cbn. by rewrite (IH l2 H).
Qed.

(** C12. Redaction lets nothing of a detected value through: two payloads that agree outside
    their matches, in text and in kinds, are redacted to the same bytes, whatever the values;
    and no original is kept. *)
Theorem redaction_noninterference hmac12 pepper payload1 payload2 ms1 ms2 :
  good_matches payload1 ms1 -> good_matches payload2 ms2 -> ms1 <> [] ->
  outside 0 ms1 payload1 = outside 0 ms2 payload2 ->
  exists r, TransformMatches hmac12 payload1 ms1 StrategyRedact pepper = Some r
    /\ TransformMatches hmac12 payload2 ms2 StrategyRedact pepper = Some r
    /\ t_Replacements r = ∅.
Proof.
  intros H1 H2 Hne Ho.
  destruct (segments _ _ H1) as (segs1 & rest1 & -> & ->), (segments _ _ H2) as (segs2 & rest2 & -> & ->).
  pose proof (outside_segments segs1 rest1 []) as E1. pose proof (outside_segments segs2 rest2 []) as E2.
  cbn [length app] in E1, E2. change (Z.of_nat 0) with 0 in E1, E2.
  rewrite E1, E2 in Ho. injection Ho as Hs <-.
  assert (Hl : length segs1 = length segs2) by (apply (f_equal length) in Hs; by rewrite !length_fmap in Hs).
  assert (Hn1 : segs1 <> []) by (by intros ->). assert (Hn2 : segs2 <> []) by (intros ->; by destruct segs1).
  eexists. split_and!; [apply TransformMatches_segments; [by left|done]| |done].
  rewrite TransformMatches_segments by (by left || done). unfold kept. rewrite Hl.
  by rewrite (rewritten_outside _ _ _ (numbered_outside ∅ _ _ Hs)).
Qed.

(** What detection reports is good input for the transform. *)
Lemma Detect_good payload : good_matches payload (Detect payload).
Proof.
  assert (Hw : Forall (fun m => 0 <= m_Start m < m_End m) (found payload)).
  { apply list.Forall_forall. intros m Hm%found_spec. by apply claims_bounds in Hm as [? _]. }
  destruct (withoutOverlaps_spec _ Hw) as (H1 & H2 & _). split; [exact H1|].
  apply list.Forall_forall. intros m Hm%H2%found_spec. apply claims_bounds in Hm as (? & ? & ?).
  split_and!; [lia..|done].
Qed.

Lemma Detect_kinds payload :
  Forall (fun m => kind_ok (m_Kind m)) (Detect payload) /\ Forall (fun m => kind_short (m_Kind m)) (Detect payload).
Proof.
  assert (Hd : Forall (fun d => kind_ok (d_kind d) /\ kind_short (d_kind d)) detectors).
  { unfold kind_ok, kind_short. repeat constructor; done || (vm_compute; lia). }
  rewrite list.Forall_forall in Hd.
  split; apply list.Forall_forall; intros m Hm; unfold Detect, withoutOverlaps in Hm;
    assert (Hf : m ∈ found payload);
    try (destruct (_ <? 2)%nat; [done|apply keep_disjoint_incl in Hm; by rewrite sortByStart_perm in Hm]);
    apply found_spec in Hf as (d & i & j & Hin & _ & -> & _); by apply Hd.
Qed.

(** ** Demonstrations *)
Definition demo_payload : bytes := str "mail a@b.co or c@d.org".

Lemma tokenize_restore_roundtrip_witness :
  exists r, TransformMatches (fun _ _ => []) demo_payload (Detect demo_payload) StrategyTokenize [] = Some r
    /\ t_Payload r = str "mail [[EMAIL_1]] or [[EMAIL_2]]"
    /\ Restore (t_Payload r) (t_Replacements r) = demo_payload
    /\ forall chunks, concat chunks = t_Payload r -> restore_stream chunks (t_Replacements r) = demo_payload.
Proof.
  destruct (tokenize_restore_roundtrip (fun _ _ => []) demo_payload (Detect demo_payload) [])
    as (r & Hr & Hb & Hst).
  - apply Detect_good.
  - apply Detect_kinds.
  - intros u p v Heq Hp. apply shape_body in Hp as (c & mid & -> & _).
    assert (Hin : "["%char ∈ demo_payload) by (rewrite Heq; cbn; set_solver).
    revert Hin. apply (bool_decide_unpack ("["%char ∉ demo_payload)). vm_compute. done.
  - vm_compute. discriminate.
  - exists r. split_and!; [exact Hr| |exact Hb|apply Hst, Detect_kinds]. revert Hr. vm_compute. by intros [= <-].
Defined.

(** A kind the entity detector made up, too long for the window the restorer holds back: whole, the
    value comes back; streamed with a cut inside the placeholder, it does not. *)
Definition long_kind : Kind := "ORGANISATIONAL_UNIT_OF_A_GOVERNMENT_DEPARTMENT_OR_AGENCY_OR_PUBLIC_BODY".
Lemma long_kind_defeats_the_stream :
  exists r a b, TransformMatches (fun _ _ => []) (str "ask ACME") [mkMatch long_kind 4 8 (str "ACME")] StrategyTokenize [] = Some r
    /\ t_Payload r = a ++ b
    /\ Restore (t_Payload r) (t_Replacements r) = str "ask ACME"
    /\ restore_stream [a; b] (t_Replacements r) = t_Payload r.
Proof.
  eexists _, _, _. split; [vm_compute; reflexivity|]. cbn [t_Payload t_Replacements].
  split; [symmetry; apply (take_drop 78)|]. vm_compute. split; reflexivity.
Qed.

Lemma redaction_noninterference_witness :
  exists r, TransformMatches (fun _ _ => []) demo_payload (Detect demo_payload) StrategyRedact [] = Some r
    /\ TransformMatches (fun _ _ => []) (str "mail zz@yy.xx or w@v.uu") (Detect (str "mail zz@yy.xx or w@v.uu"))
         StrategyRedact [] = Some r.
Proof.
  destruct (redaction_noninterference (fun _ _ => []) [] demo_payload (str "mail zz@yy.xx or w@v.uu")
              (Detect demo_payload) (Detect (str "mail zz@yy.xx or w@v.uu"))) as (r & H1 & H2 & _).
  - apply Detect_good.
  - apply Detect_good.
  - vm_compute. discriminate.
  - vm_compute. reflexivity.
  - exists r. split; [exact H1|exact H2].
Defined.

(** Without the condition on the payload the round trip fails: text that already looks like an
    issued placeholder comes back as the value that placeholder stands for. *)
Lemma forged_placeholder_is_restored :
  exists r, Transform (fun _ _ => []) (str "say [[EMAIL_1]] to a@b.co") StrategyTokenize [] = Some r
    /\ Restore (t_Payload r) (t_Replacements r) = str "say a@b.co to a@b.co".
Proof. eexists. split; vm_compute; reflexivity. Qed.

(** Of two overlapping matches the later is dropped whole, so the part of it beyond the earlier
    one stays: here the phone pattern claims the start of a valid card number, and the card's
    last digits go out as they are. *)
Lemma overlap_leaves_tail :
  let payload := str "pay +4111 1111 1111 1111 now" in
  claims payload (mkMatch KindCard 5 24 (str "4111 1111 1111 1111"))
  /\ exists r, Transform (fun _ _ => []) payload StrategyRedact [] = Some r
       /\ t_Payload r = str "pay [[PHONE_1]] 1111 now".
Proof.
  split; [|eexists; split; vm_compute; reflexivity].
  apply found_spec.
  assert (E : exists m, found (str "pay +4111 1111 1111 1111 now")
            = [mkMatch KindCard 5 24 (str "4111 1111 1111 1111"); m]).
  { eexists. vm_compute. reflexivity. }
  destruct E as [m ->]. left.
Qed.
