(* ===== verification/Guardrails.v ===== *)
(** * Guardrails (guardrails/chain.go, registry.go, composite.go)

    The chain runs the bindings of a tenant over a payload.  [Inspect], the guardrail itself, is
    a function of the caller over an external world [X]; a deadline it overruns is one of the
    errors it may return.  Work handed off the request path is a list of tasks, run by a
    separate operation. *)
From S2P Require Import Prelude Errors Core.
From Stdlib Require Import ZArith Lia Ascii.
From stdpp Require Import base gmap strings list.
Open Scope Z_scope.
Open Scope gw_scope.

Definition DefaultTimeout : duration := 50 * Millisecond.

Record Outcome := mkOutcome { out_Payload : bytes; out_Denied : bool; out_Reason : string }.

Record Stats := mkStats {
  Evaluated : Z; Denied : Z; Mutated : Z; FailedOpen : Z; FailedShut : Z; Skipped : Z }.
Definition no_stats : Stats := mkStats 0 0 0 0 0 0.

(** [atomic.Int64.Add(1)] on one of the counters. *)
Definition add_evaluated (s : Stats) := mkStats (wrap64 (Evaluated s + 1)) (Denied s) (Mutated s) (FailedOpen s) (FailedShut s) (Skipped s).
Definition add_denied (s : Stats) := mkStats (Evaluated s) (wrap64 (Denied s + 1)) (Mutated s) (FailedOpen s) (FailedShut s) (Skipped s).
Definition add_mutated (s : Stats) := mkStats (Evaluated s) (Denied s) (wrap64 (Mutated s + 1)) (FailedOpen s) (FailedShut s) (Skipped s).
Definition add_failedOpen (s : Stats) := mkStats (Evaluated s) (Denied s) (Mutated s) (wrap64 (FailedOpen s + 1)) (FailedShut s) (Skipped s).
Definition add_failedShut (s : Stats) := mkStats (Evaluated s) (Denied s) (Mutated s) (FailedOpen s) (wrap64 (FailedShut s + 1)) (Skipped s).
Definition add_skipped (s : Stats) := mkStats (Evaluated s) (Denied s) (Mutated s) (FailedOpen s) (FailedShut s) (wrap64 (Skipped s + 1)).

(** ** Registries *)

(** [NewStaticRegistry] over guardrails with the names they report. *)
Definition addGuardrail {G} (m : gmap string G) (g : string * G) : error + gmap string G :=
  if bool_decide (g.1 = "") then inl (New CodeInternal "a guardrail reported an empty name")
  else match m !! g.1 with
       | Some _ => inl (Newf CodeInternal "two guardrails named %q" [AStr g.1])
       | None => inr (<[g.1 := g.2]> m)
       end.
Definition NewStaticRegistry {G} (guardrails : list (string * G)) : error + gmap string G :=
  foldM addGuardrail ∅ guardrails.

Definition CompositeRegistry (G : Type) := list (string -> option G).

Definition NewCompositeRegistry {G} (registries : list (option (string -> option G)))
    : error + CompositeRegistry G :=
  match omap id registries with
  | [] => inl (New CodeInternal "a composite registry needs at least one registry")
  | kept => inr kept
  end.

Fixpoint Composite_Guardrail {G} (c : CompositeRegistry G) (name : string) : option G :=
  match c with
  | [] => None
  | registry :: rest =>
      match registry name with
      | Some g => Some g
      | None => Composite_Guardrail rest name
      end
  end.

(** ** The chain *)
Section chain.
Context {G X : Type} (registry : string -> option G).

(** One inspection under a timeout: an error, or a result, which may be nil. *)
Context (Inspect : G -> duration -> GuardrailInput -> X -> (error + option GuardrailResult) * X).

Record task := mkTask { task_binding : GuardrailBinding; task_guardrail : G; task_input : GuardrailInput }.

Record Chain := mkChain {
  ch_stats : Stats;
  ch_limit : nat;                 (* capacity of offPath *)
  ch_tasks : list task }.         (* running off the request path *)

Definition with_stats (f : Stats -> Stats) (c : Chain) : Chain :=
  mkChain (f (ch_stats c)) (ch_limit c) (ch_tasks c).

Definition budget_timeout (b : GuardrailBinding) : duration :=
  if bud_Timeout (bind_Budget b) <=? 0 then DefaultTimeout else bud_Timeout (bind_Budget b).

Definition evaluate (b : GuardrailBinding) (g : G) (inp : GuardrailInput) (c : Chain) (x : X)
    : (error + GuardrailResult) * Chain * X :=
  let c := with_stats add_evaluated c in
  let '(r, x) := Inspect g (budget_timeout b) inp x in
  let r :=
    match r with
    | inl err => inl err
    | inr None => inl (Newf CodeInternal "guardrail %q returned no result and no error"
                         [AStr (bind_Component b)])
    | inr (Some res) =>
        match res_Verdict res, res_Payload res with
        | VerdictMutate, None =>
            inl (Newf CodeInternal "guardrail %q asked to mutate but returned no payload"
                   [AStr (bind_Component b)])
        | _, _ => inr res
        end
    end in
  (r, c, x).

Definition with_payload (inp : GuardrailInput) (payload : bytes) : GuardrailInput :=
  mkGuardIn (in_Phase inp) (in_Meta inp) (in_Class inp) (in_Tier inp) payload.

Definition dispatch (b : GuardrailBinding) (g : G) (inp : GuardrailInput) (payload : bytes) (c : Chain) : Chain :=
  if (ch_limit c <=? length (ch_tasks c))%nat then with_stats add_skipped c
  else mkChain (ch_stats c) (ch_limit c) (ch_tasks c ++ [mkTask b g (with_payload inp payload)]).

(** The goroutine of task [i], run to its end. *)
Definition run_task (i : nat) (c : Chain) (x : X) : Chain * X :=
  match ch_tasks c !! i with
  | None => (c, x)
  | Some t =>
      let '(r, c, x) := evaluate (task_binding t) (task_guardrail t) (task_input t) c x in
      let c := match r with inl _ => with_stats add_failedOpen c | inr _ => c end in
      (mkChain (ch_stats c) (ch_limit c) (delete i (ch_tasks c)), x)
  end.

Definition fail_closed (b : GuardrailBinding) : bool := bool_decide (bud_Mode (bind_Budget b) = FailClosed).

(** The loop of [Run] from a payload on. *)
Fixpoint run_from (bindings : list GuardrailBinding) (inp : GuardrailInput) (payload : bytes)
    (c : Chain) (x : X) : Outcome * Chain * X :=
  match bindings with
  | [] => (mkOutcome payload false "", c, x)
  | b :: rest =>
      match registry (bind_Component b) with
      | None =>
          let c := with_stats add_skipped c in
          if fail_closed b && bud_Blocking (bind_Budget b)
          then (mkOutcome payload true (bind_Component b), with_stats add_failedShut c, x)
          else run_from rest inp payload c x
      | Some g =>
          if negb (bud_Blocking (bind_Budget b))
          then run_from rest inp payload (dispatch b g inp payload c) x
          else
            let '(r, c, x) := evaluate b g (with_payload inp payload) c x in
            match r with
            | inl _ =>
                if fail_closed b
                then (mkOutcome payload true (bind_Component b), with_stats add_failedShut c, x)
                else run_from rest inp payload (with_stats add_failedOpen c) x
            | inr res =>
                match res_Verdict res with
                | VerdictDeny => (mkOutcome payload true (bind_Component b), with_stats add_denied c, x)
                | VerdictMutate =>
                    run_from rest inp (default [] (res_Payload res)) (with_stats add_mutated c) x
                | VerdictAllow => run_from rest inp payload c x
                end
            end
      end
  end.

(** [Run] never returns an error of its own. *)
Definition Run (bindings : list GuardrailBinding) (inp : GuardrailInput) (c : Chain) (x : X)
    : (error + Outcome) * Chain * X :=
  let '(o, c, x) := run_from bindings inp (in_Payload inp) c x in (inr o, c, x).

(** ** What a chain is meant to decide *)

(** What one blocking binding makes of a payload. *)
Inductive ruling := Pass (payload : bytes) | Refuse.

Definition ruling_of (b : GuardrailBinding) (payload : bytes) (r : option (error + GuardrailResult)) : ruling :=
  match r with
  | Some (inr res) =>
      match res_Verdict res with
      | VerdictDeny => Refuse
      | VerdictMutate => Pass (default [] (res_Payload res))
      | VerdictAllow => Pass payload
      end
  | _ => if fail_closed b then Refuse else Pass payload
  end.

(** The specification: only blocking bindings have a say; each sees what the previous ones
    produced; a failed or missing one refuses or passes as its failure mode says; the first
    refusal wins. *)
Fixpoint decide_chain (bindings : list GuardrailBinding) (inp : GuardrailInput) (payload : bytes) (x : X)
    : Outcome * X :=
  match bindings with
  | [] => (mkOutcome payload false "", x)
  | b :: rest =>
      if negb (bud_Blocking (bind_Budget b)) then decide_chain rest inp payload x
      else
        let '(r, x) :=
          match registry (bind_Component b) with
          | None => (None, x)
          | Some g =>
              let '(r, _, x) := evaluate b g (with_payload inp payload) (mkChain no_stats 0 []) x in
              (Some r, x)
          end in
        match ruling_of b payload r with
        | Refuse => (mkOutcome payload true (bind_Component b), x)
        | Pass payload' => decide_chain rest inp payload' x
        end
  end.

Lemma evaluate_result b g inp c1 c2 x :
  (evaluate b g inp c1 x).1.1 = (evaluate b g inp c2 x).1.1
  /\ (evaluate b g inp c1 x).2 = (evaluate b g inp c2 x).2.
Proof. unfold evaluate. by destruct (Inspect _ _ _ _). Qed.

Lemma run_from_decides bindings inp payload c x :
  let '(o, _, x') := run_from bindings inp payload c x in
  (o, x') = decide_chain bindings inp payload x.
Proof.
  revert payload c x. induction bindings as [|b rest IH]; intros payload c x; cbn [run_from decide_chain]; [done|].
  destruct (bud_Blocking (bind_Budget b)) eqn:Eb; cbn [negb].
  - destruct (registry (bind_Component b)) as [g|].
    + destruct (evaluate_result b g (with_payload inp payload) c (mkChain no_stats 0 []) x) as [H1 H2].
      destruct (evaluate b g (with_payload inp payload) c x) as [[r c1] x1].
      destruct (evaluate b g (with_payload inp payload) (mkChain no_stats 0 []) x) as [[r2 c2] x2].
      simpl in H1, H2. subst r2 x2. cbn [ruling_of].
      destruct r as [err|res]; [destruct (fail_closed b); [done|apply IH]|].
      destruct (res_Verdict res); [apply IH|done|apply IH].
    + cbn [ruling_of]. rewrite andb_true_r. destruct (fail_closed b); [done|apply IH].
  - destruct (registry (bind_Component b)); [apply IH|]. rewrite andb_false_r. apply IH.
Qed.

Definition bounded (c : Chain) : Prop := (length (ch_tasks c) <= ch_limit c)%nat.

Lemma dispatch_bounded b g inp payload c : bounded c -> bounded (dispatch b g inp payload c).
Proof.
  unfold bounded, dispatch. intros H. destruct (_ <=? _)%nat eqn:E; [done|]. apply Nat.leb_gt in E.
  cbn. rewrite length_app. simpl. lia.
Qed.

Lemma evaluate_bounded b g inp c x : bounded c -> bounded (evaluate b g inp c x).1.2.
Proof. unfold evaluate. by destruct (Inspect _ _ _ _). Qed.

Lemma run_from_bounded bindings inp payload c x :
  bounded c -> bounded (run_from bindings inp payload c x).1.2.
Proof.
  revert payload c x. induction bindings as [|b rest IH]; intros payload c x Hc; cbn [run_from]; [done|].
  destruct (registry (bind_Component b)) as [g|].
  - destruct (bud_Blocking (bind_Budget b)); cbn [negb]; [|by apply IH, dispatch_bounded].
    apply (evaluate_bounded b g (with_payload inp payload) c x) in Hc.
    destruct (evaluate b g (with_payload inp payload) c x) as [[r c1] x1]. cbn [fst snd] in Hc.
    destruct r as [err|res]; [destruct (fail_closed b); [exact Hc|by apply IH]|].
    destruct (res_Verdict res); [by apply IH|exact Hc|by apply IH].
  - destruct (_ && _); [exact Hc|by apply IH].
Qed.

End chain.

Arguments Chain : clear implicits.
Arguments mkChain {G}.

(** A secret scanner that denies, an alerting guardrail that cannot, a missing fail-open one. *)
Definition demo_binding (name : string) (mode : FailureMode) (blocking : bool) : GuardrailBinding :=
  mkBinding name "" "" "" "" (mkGuardBudget 0 mode blocking []).
Definition demo_meta : RequestMeta := mkMeta "r1" "m" EndpointChatCompletions false 0 AddrInvalid "" 0 0.
Definition demo_inspect (g : bool) (_ : duration) (_ : GuardrailInput) (x : unit)
    : (error + option GuardrailResult) * unit :=
  (inr (Some (mkGuardOut (if g then VerdictDeny else VerdictAllow) "" None)), x).
Definition demo_registry (name : string) : option bool :=
  if bool_decide (name = "secrets") then Some true
  else if bool_decide (name = "alerts") then Some true else None.

