(* ===== verification/Construct.v ===== *)
(** * Putting parts together (gateway.New, guardrails.New, and their options)

    The constructors take what they are given and fill in the rest: a pipeline without a limiter
    limits nothing, one without a chain inspects nothing, one without telemetry tells nobody.  Parts
    are of any type; nil is [None]. *)
From S2P Require Import Prelude Errors Core Guardrails.
From Stdlib Require Import ZArith Lia.
From stdpp Require Import base gmap strings list.
Open Scope Z_scope.
Open Scope gw_scope.

(** ** gateway.New *)
Module gateway.

(** What stands in for a part nobody supplied. *)
Inductive or_default (A : Type) := Default | Given (a : A).
Arguments Default {A}.
Arguments Given {A}.

Section parts.
Context {Providers Credentials Telemetry Limiter Router_ Chain_ Vault_ Ner Mirror Logger Clock : Type}.
Context (router_New : Providers -> error + Router_).

(** [Telemetry] may be set to nil; the parts that may not keep their default. *)
Record Pipeline := mkPipeline {
  providers : Providers; credentials : Credentials; telemetry : or_default (option Telemetry);
  limiter : or_default Limiter; router : option Router_; guardrails : or_default Chain_; vault : option Vault_;
  ner : option Ner; shadows : option Mirror; logger : or_default Logger; region : string; pepper : bytes;
  now : or_default (option Clock) }.

Inductive Option_ :=
| WithClock (now : option Clock) | WithGuardrails (chain : option Chain_) | WithNERDetector (detector : option Ner)
| WithShadows (mirror : option Mirror) | WithLogger (logger : option Logger) | WithVault (vault : option Vault_)
| WithRegion (region : string) | WithRouter (rt : option Router_) | WithLimiter (l : option Limiter)
| WithTelemetry (t : option Telemetry).

Definition keep {A} (given : option A) (held : or_default A) : or_default A :=
  match given with Some a => Given a | None => held end.

Definition apply (p : Pipeline) (o : Option_) : Pipeline :=
  match p with
  | mkPipeline ps cs t l r g v n m lg rg pp nw =>
      match o with
      | WithClock now => mkPipeline ps cs t l r g v n m lg rg pp (Given now)
      | WithGuardrails c => mkPipeline ps cs t l r (keep c g) v n m lg rg pp nw
      | WithNERDetector d => mkPipeline ps cs t l r g v d m lg rg pp nw
      | WithShadows s => mkPipeline ps cs t l r g v n s lg rg pp nw
      | WithLogger x => mkPipeline ps cs t l r g v n m (keep x lg) rg pp nw
      | WithVault x => mkPipeline ps cs t l r g x n m lg rg pp nw
      | WithRegion x => mkPipeline ps cs t l r g v n m lg x pp nw
      | WithRouter x => mkPipeline ps cs t l (match x with Some _ => x | None => r end) g v n m lg rg pp nw
      | WithLimiter x => mkPipeline ps cs t (keep x l) r g v n m lg rg pp nw
      | WithTelemetry x => mkPipeline ps cs (Given x) l r g v n m lg rg pp nw
      end
  end.

Definition New_ (ps : option Providers) (cs : option Credentials) (pp : bytes) (opts : list Option_) : error + Pipeline :=
  match ps, cs with
  | None, _ => inl (New CodeInternal "the pipeline needs a provider registry")
  | _, None => inl (New CodeInternal "the pipeline needs a credential resolver")
  | Some ps, Some cs =>
      if bool_decide (pp = []) then inl (New CodeInternal "the pipeline needs a non-empty key pepper")
      else
        let p := foldl apply (mkPipeline ps cs Default Default None Default None None None Default "" pp Default) opts in
        match router p with
        | Some _ => inr p
        | None =>
            match router_New ps with
            | inl err => inl err
            | inr rt => inr (apply p (WithRouter (Some rt)))
            end
        end
  end.

Lemma apply_fixed p o : providers (apply p o) = providers p /\ credentials (apply p o) = credentials p /\ pepper (apply p o) = pepper p.
Proof. by destruct p, o. Qed.
Lemma apply_all_fixed opts p : let p' := foldl apply p opts in
  providers p' = providers p /\ credentials p' = credentials p /\ pepper p' = pepper p.
Proof.
  revert p. induction opts as [|o opts IH]; intros p; [done|]. cbn. destruct (IH (apply p o)) as (-> & -> & ->). apply apply_fixed.
Qed.
Lemma apply_router opts p : is_Some (router p) -> is_Some (router (foldl apply p opts)).
Proof.
  revert p. induction opts as [|o opts IH]; intros p Hr; [done|]. cbn. apply IH. destruct p, o; cbn in *; try done. by destruct rt.
Qed.

(** A pipeline that was built has a router, a pepper that is not empty, and the registry and the
    resolver it was given; no option can take them away. *)
Lemma New_complete ps cs pp opts p : New_ ps cs pp opts = inr p ->
  is_Some (router p) /\ pepper p = pp /\ pp <> [] /\ ps = Some (providers p) /\ cs = Some (credentials p).
Proof.
  unfold New_. destruct ps as [ps|], cs as [cs|]; try done. case_bool_decide as Hp; [done|].
  set (start := mkPipeline _ _ _ _ _ _ _ _ _ _ _ _ _). destruct (apply_all_fixed opts start) as (H1 & H2 & H3).
  cbv zeta. destruct (router (foldl apply start opts)) eqn:Er.
  - intros [= <-]. rewrite Er, H1, H2, H3. by split_and!.
  - destruct (router_New ps) as [e|rt]; [done|]. intros [= <-].
    destruct (apply_fixed (foldl apply start opts) (WithRouter (Some rt))) as (H4 & H5 & H6). rewrite H4, H5, H6, H1, H2, H3.
    split_and!; try done. by destruct (foldl apply start opts).
Qed.

(** It is refused exactly when one of the three is missing, or the router it needs cannot be made. *)
Lemma New_refuses ps cs pp opts : (forall r, exists rt, router_New r = inr rt) ->
  (exists e, New_ ps cs pp opts = inl e) <-> ps = None \/ cs = None \/ pp = [].
Proof.
  intros Hr. unfold New_. destruct ps as [ps|]; [|naive_solver]. destruct cs as [cs|]; [|naive_solver].
  case_bool_decide as Hp; [naive_solver|]. set (q := foldl _ _ _). cbv zeta.
  destruct (router q); [naive_solver|]. destruct (Hr ps) as [rt ->]. naive_solver.
Qed.
End parts.
Arguments Pipeline : clear implicits.
Arguments Option_ : clear implicits.
End gateway.

(** ** guardrails.New *)
Module guardrails.

Definition offPathDefault : nat := 64.
(** The capacity of the queue off the request path. *)
Definition WithOffPathLimit (n : Z) (limit : nat) : nat := if 0 <? n then Z.to_nat n else limit.

Definition New_ {G} (registry : bool) (opts : list (nat -> nat)) : error + Chain G :=
  if negb registry then inl (New CodeInternal "a guardrail chain needs a registry")
  else inr (mkChain no_stats (foldl (fun limit opt => opt limit) offPathDefault opts) []).

(** Whatever limits are asked for, the chain can run at least one inspection off the path. *)
Lemma New_has_room {G} limits (c : Chain G) : New_ true (WithOffPathLimit <$> limits) = inr c -> (0 < ch_limit c)%nat.
Proof.
  intros [= <-]. cbn. assert (H : (0 < offPathDefault)%nat) by (unfold offPathDefault; lia). revert H. generalize offPathDefault.
  induction limits as [|n limits IH]; intros start H; [done|]. cbn. apply IH. unfold WithOffPathLimit.
  destruct (0 <? n) eqn:E; [apply Z.ltb_lt in E; lia|done].
Qed.
End guardrails.
