(* ===== verification/Shadow.v ===== *)
(** * Mirroring to shadow adapters (shadow/shadow.go)

    A mirror samples served requests, queues a copy for each adapter shadowing the deployment that
    served, and runs the copies on a fixed pool of workers.  [Send] is the code the request path
    runs; the workers are a step relation in which sends, receives, completions and [Wait] come in
    any order.  Each draw of the sampler is a separate draw. *)
From S2P Require Import Prelude Errors Core Snapshot Float64.
From Stdlib Require Import ZArith Lia.
From stdpp Require Import base gmap strings list relations.
Open Scope Z_scope.
Open Scope gw_scope.

Definition DefaultTimeout : duration := 30 * Second.
Definition DefaultWorkers : nat := 8.
Definition DefaultQueue : nat := 64.

(** What a mirror is handed. *)
Record ShadowRequest := mkShadow {
  sh_Meta : RequestMeta; sh_Body : bytes; sh_Tenant : TenantID; sh_Principal : KeyID;
  sh_Tier : string; sh_SnapshotVersion : Z; sh_BudgetIDs : list BudgetID }.

Record job := mkJob { job_deployment : Deployment; job_request : ShadowRequest }.

(** The channel is its capacity, its contents oldest first and whether it is closed; [m_running]
    are the jobs workers have received and not finished. *)
Record Mirror := mkMirror {
  m_timeout : duration; m_workers : nat; m_queueSize : nat;
  m_queue : list job; m_closed : bool; m_running : list job;
  m_mirrored : Z; m_dropped : Z; m_failed : Z; m_draws : nat }.

Record MirrorStats := mkMirrorStats { Mirrored : Z; Dropped : Z; MirrorFailed : Z }.
Definition Stats (m : Mirror) : MirrorStats := mkMirrorStats (m_mirrored m) (m_dropped m) (m_failed m).

Definition MirrorOption := Mirror -> Mirror.
Definition WithTimeout (d : duration) : MirrorOption := fun m =>
  if 0 <? d then mkMirror d (m_workers m) (m_queueSize m) (m_queue m) (m_closed m) (m_running m)
                   (m_mirrored m) (m_dropped m) (m_failed m) (m_draws m)
  else m.
Definition WithCapacity (workers queue : Z) : MirrorOption := fun m =>
  mkMirror (m_timeout m) (if 0 <? workers then Z.to_nat workers else m_workers m)
    (if 0 <? queue then Z.to_nat queue else m_queueSize m) (m_queue m) (m_closed m) (m_running m)
    (m_mirrored m) (m_dropped m) (m_failed m) (m_draws m).

(** [New], given something to call. *)
Definition NewMirror (opts : list MirrorOption) : Mirror :=
  foldl (fun m opt => opt m) (mkMirror DefaultTimeout DefaultWorkers DefaultQueue [] false [] 0 0 0 0) opts.

Definition count_dropped (m : Mirror) : Mirror :=
  mkMirror (m_timeout m) (m_workers m) (m_queueSize m) (m_queue m) (m_closed m) (m_running m)
    (m_mirrored m) (wrap64 (m_dropped m + 1)) (m_failed m) (m_draws m).
Definition set_queue (q : list job) (m : Mirror) : Mirror :=
  mkMirror (m_timeout m) (m_workers m) (m_queueSize m) q (m_closed m) (m_running m)
    (m_mirrored m) (m_dropped m) (m_failed m) (m_draws m).

Section sending.
Context (draw : nat -> float64).

(** One draw, and whether it leaves the adapter out. *)
Definition skips (adapter : Deployment) (m : Mirror) : bool * Mirror :=
  (fle (of_int (dep_ShadowPercent adapter)) (fmul (draw (m_draws m)) (of_int 100)),
   mkMirror (m_timeout m) (m_workers m) (m_queueSize m) (m_queue m) (m_closed m) (m_running m)
     (m_mirrored m) (m_dropped m) (m_failed m) (m_draws m + 1)).

(** The [select]: sending on a closed channel panics whether or not there is a default; with room
    the job is queued, without it the job is dropped. *)
Definition offer (j : job) (m : Mirror) : option Mirror :=
  if m_closed m then None
  else if (length (m_queue m) <? m_queueSize m)%nat then Some (set_queue (m_queue m ++ [j]) m)
  else Some (count_dropped m).

Fixpoint send_to (adapters : list Deployment) (req : ShadowRequest) (m : Mirror) : option Mirror :=
  match adapters with
  | [] => Some m
  | adapter :: rest =>
      let '(skip, m) := skips adapter m in
      if skip then send_to rest req m
      else match offer (mkJob adapter req) m with
           | None => None
           | Some m => send_to rest req m
           end
  end.

(** [Send]; [None] is a panic. *)
Definition Send (snap : option Snapshot) (served : Deployment) (req : option ShadowRequest) (m : Mirror)
    : option Mirror :=
  match snap, req with
  | Some snap, Some req =>
      if IsAdapter (dep_Key served) then Some m
      else send_to (Shadows snap (BaseModel (dep_Key served))) req m
  | _, _ => Some m
  end.

(** Which adapters the draws pick. *)
Fixpoint sampled (adapters : list Deployment) (n : nat) : list Deployment :=
  match adapters with
  | [] => []
  | adapter :: rest =>
      (if fle (of_int (dep_ShadowPercent adapter)) (fmul (draw n) (of_int 100)) then [] else [adapter])
      ++ sampled rest (n + 1)
  end.
End sending.

(** ** Workers *)

(** A worker receives the oldest job. *)
Definition receive (m : Mirror) : option Mirror :=
  match m_queue m with
  | [] => None
  | j :: rest =>
      if (length (m_running m) <? m_workers m)%nat
      then Some (mkMirror (m_timeout m) (m_workers m) (m_queueSize m) rest (m_closed m) (m_running m ++ [j])
                   (m_mirrored m) (m_dropped m) (m_failed m) (m_draws m))
      else None
  end.

(** The end of [run] for the [i]-th running job, with what the call returned. *)
Definition run_done (i : nat) (err : option error) (m : Mirror) : Mirror :=
  mkMirror (m_timeout m) (m_workers m) (m_queueSize m) (m_queue m) (m_closed m) (delete i (m_running m))
    (match err with None => wrap64 (m_mirrored m + 1) | Some _ => m_mirrored m end) (m_dropped m)
    (match err with None => m_failed m | Some _ => wrap64 (m_failed m + 1) end) (m_draws m).

(** [Wait] closes the channel, once. *)
Definition close (m : Mirror) : Mirror :=
  mkMirror (m_timeout m) (m_workers m) (m_queueSize m) (m_queue m) true (m_running m)
    (m_mirrored m) (m_dropped m) (m_failed m) (m_draws m).

Definition idle (m : Mirror) : Prop := m_queue m = [] /\ m_running m = [].

(** ** Interleavings *)

(** What the workers do on their own. *)
Inductive work : Mirror -> Mirror -> Prop :=
| work_receive m m' : receive m = Some m' -> work m m'
| work_done m i err : (i < length (m_running m))%nat -> work m (run_done i err m).

(** Everything that happens to a mirror, with the number of copies offered to it so far. *)
Inductive step (draw : nat -> float64) : Mirror * Z -> Mirror * Z -> Prop :=
| step_draw m n adapter : step draw (m, n) ((skips draw adapter m).2, n)
| step_offer m n j m' : offer j m = Some m' -> step draw (m, n) (m', n + 1)
| step_work m n m' : work m m' -> step draw (m, n) (m', n)
| step_close m n : step draw (m, n) (close m, n).

Definition size_of (m : Mirror) : Z := Z.of_nat (length (m_queue m)) + Z.of_nat (length (m_running m)).

(** Bounded, and every copy offered is accounted for. *)
Record mirror_inv (m : Mirror) (n : Z) : Prop := {
  inv_queue : (length (m_queue m) <= m_queueSize m)%nat;
  inv_running : (length (m_running m) <= m_workers m)%nat;
  inv_mirrored : 0 <= m_mirrored m; inv_failed : 0 <= m_failed m; inv_dropped : 0 <= m_dropped m;
  inv_count : n = m_mirrored m + m_failed m + m_dropped m + size_of m }.

Lemma length_delete_lt {A} (l : list A) i :
  (i < length l)%nat -> (length (delete i l) + 1 = length l)%nat.
Proof.
  intros [x Hx]%lookup_lt_is_Some. pose proof (length_delete l i (ex_intro _ x Hx)).
  pose proof (lookup_lt_Some _ _ _ Hx). lia.
Qed.

Lemma receive_spec m m' :
  receive m = Some m' ->
  (length (m_running m) < m_workers m)%nat /\ m_workers m' = m_workers m /\ m_queueSize m' = m_queueSize m
  /\ (length (m_queue m) = length (m_queue m') + 1)%nat /\ (length (m_running m') = length (m_running m) + 1)%nat
  /\ m_mirrored m' = m_mirrored m /\ m_failed m' = m_failed m /\ m_dropped m' = m_dropped m.
Proof.
  unfold receive. destruct (m_queue m) as [|j rest]; [done|]. destruct (_ <? _)%nat eqn:E; [|done].
  intros [= <-]. cbn. rewrite length_app. cbn. apply Nat.ltb_lt in E. split_and!; done || lia.
Qed.

(** A worker's step shortens what is left: two for a queued job, one for a running one. *)
Definition left (m : Mirror) : nat := 2 * length (m_queue m) + length (m_running m).

Lemma work_left m m' : work m m' -> (left m' + 1 = left m)%nat /\ m_workers m' = m_workers m.
Proof.
  unfold left. destruct 1 as [m m' H|m i err H].
  - apply receive_spec in H. lia.
  - cbn. apply length_delete_lt in H. lia.
Qed.

Lemma mirror_step draw m n m' n' :
  n' <= int64_max -> mirror_inv m n -> step draw (m, n) (m', n') -> mirror_inv m' n'.
Proof.
  intros Hn [H1 H2 H3 H4 H5 H6] Hs. unfold size_of in *.
  inversion Hs as [? ? adapter|? ? j ? Ho|? ? ? Hw|]; simplify_eq; clear Hs.
  - by split.
  - unfold offer in Ho. destruct (m_closed m); [done|]. destruct (_ <? _)%nat eqn:E; simplify_eq.
    + apply Nat.ltb_lt in E. split; cbn; rewrite ?length_app; cbn; [lia|lia|done..|].
      unfold size_of. cbn. rewrite length_app. cbn. lia.
    + assert (wrap64 (m_dropped m + 1) = m_dropped m + 1) as Hw
        by (apply wrap64_id; unfold in_int64, int64_min; lia).
      split; cbn; rewrite ?Hw; unfold size_of; cbn; lia.
  - destruct Hw as [m m' Hr|m i err Hi].
    + apply receive_spec in Hr. split; unfold size_of; lia.
    + apply length_delete_lt in Hi.
      assert (wrap64 (m_mirrored m + 1) = m_mirrored m + 1 /\ wrap64 (m_failed m + 1) = m_failed m + 1) as [Hm Hf]
        by (split; apply wrap64_id; unfold in_int64, int64_min; lia).
      split; unfold size_of; cbn; destruct err; rewrite ?Hm, ?Hf; lia.
  - by split.
Qed.

Lemma step_offered draw x y : step draw x y -> x.2 <= y.2.
Proof. destruct 1; cbn; lia. Qed.

Lemma mirror_steps draw x y :
  rtc (step draw) x y -> y.2 <= int64_max -> mirror_inv x.1 x.2 -> mirror_inv y.1 y.2.
Proof.
  intros Hr Hn Hi. induction Hr as [|x z y Hs Hr IH]; [done|]. destruct x, z. cbn in *.
  apply IH; [done|]. eapply mirror_step; [|done|done].
  assert (forall a b, rtc (step draw) a b -> a.2 <= b.2) as Hle.
  { intros a b Hab. induction Hab as [|a c b Hac _ IHab]; [lia|]. apply step_offered in Hac. lia. }
  apply Hle in Hr. cbn in Hr. lia.
Qed.

(** C40. A mirror never holds more than its pool and queue: from a new mirror, through any
    interleaving of sends, receives, completions and shutdown, at most [queueSize] copies wait
    and at most [workers] run, and every copy ever offered is waiting, running, dropped, failed
    or mirrored: none is lost and none counted twice. *)
Theorem mirror_bounded_and_accounted draw d w q m n :
  n <= int64_max -> rtc (step draw) (NewMirror [WithTimeout d; WithCapacity w q], 0) (m, n) ->
  mirror_inv m n.
Proof.
  intros Hn Hr. apply (mirror_steps draw _ _ Hr Hn).
  assert (Hw : forall m0, m_queue m0 = [] -> m_running m0 = [] -> m_mirrored m0 = 0 -> m_failed m0 = 0 ->
            m_dropped m0 = 0 -> mirror_inv (WithCapacity w q m0) 0).
  { intros m0 K1 K2 K3 K4 K5. split; unfold size_of; cbn; rewrite ?K1, ?K2, ?K3, ?K4, ?K5; cbn; lia. }
  cbn [fst snd]. unfold NewMirror. cbn [foldl]. apply Hw; unfold WithTimeout; by destruct (0 <? d).
Qed.

(** ** Sending *)

Definition with_draws (n : nat) (m : Mirror) : Mirror :=
  mkMirror (m_timeout m) (m_workers m) (m_queueSize m) (m_queue m) (m_closed m) (m_running m)
    (m_mirrored m) (m_dropped m) (m_failed m) n.

(** What offering [js] in a row leaves: as many queued as fit, the rest dropped. *)
Definition offered (js : list job) (m m' : Mirror) : Prop :=
  m_queue m' = m_queue m ++ take (m_queueSize m - length (m_queue m)) js
  /\ m_dropped m' = wrap64 (m_dropped m + Z.of_nat (length (drop (m_queueSize m - length (m_queue m)) js)))
  /\ m_closed m' = m_closed m /\ m_running m' = m_running m /\ m_workers m' = m_workers m
  /\ m_queueSize m' = m_queueSize m /\ m_mirrored m' = m_mirrored m /\ m_failed m' = m_failed m.

Lemma wrap64_wrap64 a b : wrap64 (wrap64 a + b) = wrap64 (a + b).
Proof.
  unfold wrap64. set (M := 18446744073709551616).
  replace ((a + 9223372036854775808) mod M - 9223372036854775808 + b + 9223372036854775808)
    with ((a + 9223372036854775808) mod M + b) by lia.
  rewrite Zplus_mod_idemp_l. f_equal. f_equal. lia.
Qed.

Lemma offered_nil m : in_int64 (m_dropped m) -> offered [] m m.
Proof.
  intros H. unfold offered. rewrite take_nil, drop_nil, app_nil_r. cbn. rewrite Z.add_0_r, wrap64_id by done.
  by split_and!.
Qed.

Lemma offered_draws js n m m' : offered js (with_draws n m) m' -> offered js m m'.
Proof. exact id. Qed.

Lemma offered_cons j js m m1 m' :
  offer j m = Some m1 -> offered js m1 m' -> offered (j :: js) m m'.
Proof.
  unfold offer. destruct (m_closed m) eqn:Ec; [done|]. destruct (_ <? _)%nat eqn:E; intros [= <-];
    intros (H1 & H2 & H3 & H4 & H5 & H6 & H7 & H8); cbn in *; rewrite Ec in H3; unfold offered; rewrite Ec.
  - apply Nat.ltb_lt in E. rewrite length_app in H1, H2. cbn in H1, H2.
    replace (m_queueSize m - length (m_queue m))%nat
      with (S (m_queueSize m - (length (m_queue m) + 1))) by lia.
    cbn [take drop]. split_and!; try done. by rewrite H1, <- app_assoc.
  - apply Nat.ltb_ge in E. assert (E0 : (m_queueSize m - length (m_queue m) = 0)%nat) by lia. rewrite E0 in *.
    cbn [take drop length] in *. split_and!; try done. rewrite H2, wrap64_wrap64, drop_0. f_equal. lia.
Qed.

Lemma offer_open j m : m_closed m = false -> exists m1, offer j m = Some m1 /\ m_closed m1 = false
  /\ m_draws m1 = m_draws m /\ (in_int64 (m_dropped m) -> in_int64 (m_dropped m1)).
Proof.
  intros Hc. unfold offer. rewrite Hc. destruct (_ <? _)%nat; eexists; split_and!; try done.
  intros _. apply wrap64_range.
Qed.

Lemma send_to_spec draw adapters req m :
  m_closed m = false -> in_int64 (m_dropped m) ->
  exists m', send_to draw adapters req m = Some m'
    /\ offered ((fun d => mkJob d req) <$> sampled draw adapters (m_draws m)) m m'.
Proof.
  revert m. induction adapters as [|a rest IH]; intros m Hc Hd.
  { exists m. split; [done|]. by apply offered_nil. }
  cbn [send_to skips sampled]. destruct (fle _ _).
  - apply (IH (with_draws (m_draws m + 1) m) Hc Hd).
  - destruct (offer_open (mkJob a req) (with_draws (m_draws m + 1) m) Hc) as (m1 & Ho & Hc1 & Hd1 & Hi1).
    unfold with_draws in Ho. rewrite Ho. destruct (IH m1 Hc1 (Hi1 Hd)) as (m' & -> & Hm').
    exists m'. split; [done|]. rewrite Hd1 in Hm'. cbn in Hm' |- *.
    apply (offered_draws _ (m_draws m + 1)). by eapply offered_cons.
Qed.

(** What [Send] does to an open mirror: it always returns, having queued a copy for the
    adapters the draws picked, in catalog order and as far as the queue has room, and counted the
    rest as dropped.  Only adapters shadowing the base model that served are considered, and none
    when an adapter served; the workers, the running copies and the other counts are untouched. *)
Theorem Send_samples draw snap served req m :
  m_closed m = false -> in_int64 (m_dropped m) ->
  exists m', Send draw (Some snap) served (Some req) m = Some m'
    /\ offered ((fun d => mkJob d req) <$>
          (if IsAdapter (dep_Key served) then []
           else sampled draw (Shadows snap (BaseModel (dep_Key served))) (m_draws m))) m m'.
Proof.
  intros Hc Hd. unfold Send. destruct (IsAdapter _); [|by apply send_to_spec].
  exists m. split; [done|]. by apply offered_nil.
Qed.

(** Sending on a mirror that has been stopped panics as soon as an adapter is picked. *)
Lemma Send_after_Wait_panics draw adapter req m :
  fle (of_int (dep_ShadowPercent adapter)) (fmul (draw (m_draws m)) (of_int 100)) = false ->
  send_to draw [adapter] req (close m) = None.
Proof. intros H. unfold send_to, skips. cbn [m_draws close]. by rewrite H. Qed.

(** ** Stopping *)

(** [Wait] drains: once no more copies arrive, the workers take at most two steps per
    waiting copy and one per running copy, and whatever order they run in they only stop with
    nothing waiting or running and every one of those copies mirrored or failed. *)
Theorem Wait_drains m :
  (0 < m_workers m)%nat -> 0 <= m_mirrored m -> 0 <= m_failed m ->
  m_mirrored m + m_failed m + size_of m <= int64_max ->
  (forall k m', nsteps work k m m' -> (k <= left m)%nat)
  /\ forall m', rtc work m m' -> (forall m'', work m' m'' -> False) ->
       idle m' /\ m_mirrored m' + m_failed m' = m_mirrored m + m_failed m + size_of m.
Proof.
  intros Hw H0 H1 Hb. split.
  - intros k m' Hk. enough (left m' + k = left m)%nat by lia.
    clear Hw H0 H1 Hb. induction Hk as [|k m m1 m' Hs Hk IH]; [lia|]. apply work_left in Hs. lia.
  - intros m' Hr Hstop.
    assert (Hkept : m_workers m' = m_workers m /\ 0 <= m_mirrored m' /\ 0 <= m_failed m'
              /\ m_mirrored m' + m_failed m' + size_of m' = m_mirrored m + m_failed m + size_of m).
    { clear Hstop. induction Hr as [m|m m1 m' Hs Hr IH]; [done|].
      assert (Hone : m_workers m1 = m_workers m /\ 0 <= m_mirrored m1 /\ 0 <= m_failed m1
                /\ m_mirrored m1 + m_failed m1 + size_of m1 = m_mirrored m + m_failed m + size_of m).
      { unfold size_of in *. destruct Hs as [m m1 Hs|m i err Hs].
        - apply receive_spec in Hs. lia.
        - apply length_delete_lt in Hs. cbn.
          destruct err; rewrite wrap64_id by (unfold in_int64, int64_min; lia); lia. }
      destruct Hone as (K1 & K2 & K3 & K4). destruct IH as (L1 & L2 & L3 & L4); lia. }
    destruct Hkept as (K1 & _ & _ & K4).
    assert (Hrun : m_running m' = []).
    { destruct (m_running m') as [|j r] eqn:E; [done|]. exfalso.
      apply (Hstop (run_done 0 None m')), work_done. rewrite E. cbn. lia. }
    assert (Hq : m_queue m' = []).
    { destruct (m_queue m') as [|j q] eqn:E; [done|]. exfalso.
      eapply Hstop, work_receive. unfold receive. rewrite E, Hrun.
      rewrite (proj2 (Nat.ltb_lt (length (@nil job)) (m_workers m'))) by (cbn; lia). reflexivity. }
    split; [done|]. unfold size_of in K4 at 1. rewrite Hrun, Hq in K4. cbn in K4. lia.
Qed.

(** ** Demonstrations *)
Definition demo_adapter (id : DeploymentID) : Deployment :=
  mkDeployment id (mkRoutingKey "m" id) "echo" "" "" TrustInternal "" 0 50 NoCost [].
Definition demo_mirrored : ShadowRequest :=
  mkShadow (mkMeta "r1" "m" EndpointChatCompletions false 0 AddrInvalid "" 0 0) [] "acme" "k1" "free" 1 [].
Definition demo_job : job := mkJob (demo_adapter "a1") demo_mirrored.
Definition demo_mirror : Mirror := NewMirror [WithTimeout 0; WithCapacity 1 1].
Definition demo_layer : GlobalLayer :=
  match NewGlobalLayer (mkGlobalSpec (mkVersion 1 "g1") 0 [demo_adapter "a1"; demo_adapter "a2"] [] ∅ [] "" [] []) with
  | inr g => g
  | inl _ => mkGlobalLayer (mkVersion 0 "") 0 ∅ ∅ ∅ ∅ ∅ ∅ [] [] ""
  end.

(** Two copies offered to a mirror with room for one: one is queued and runs, one is dropped. *)
Lemma mirror_bounded_and_accounted_witness :
  exists m, rtc (step (fun _ => of_int 0)) (demo_mirror, 0) (m, 2)
    /\ length (m_running m) = 1%nat /\ m_dropped m = 1 /\ mirror_inv m 2.
Proof.
  assert (Hr : exists m, rtc (step (fun _ => of_int 0)) (demo_mirror, 0) (m, 2)
            /\ length (m_running m) = 1%nat /\ m_dropped m = 1).
  { eexists. split; [|split].
    - eapply rtc_l; [by apply (step_offer _ _ 0 demo_job); reflexivity|].
      eapply rtc_l; [by apply (step_offer _ _ 1 demo_job); reflexivity|].
      eapply rtc_l; [apply step_work, work_receive; reflexivity|]. apply rtc_refl.
    - reflexivity.
    - reflexivity. }
  destruct Hr as (m & Hr & H1 & H2). exists m. split_and!; [exact Hr|exact H1|exact H2|].
  apply (mirror_bounded_and_accounted (fun _ => of_int 0) 0 1 1 m 2); [unfold int64_max; lia|exact Hr].
Defined.

Lemma Send_samples_witness :
  exists m', Send (fun _ => of_int 0) (Some (mkSnapshot demo_layer ∅))
      (mkDeployment "d1" (mkRoutingKey "m" "") "echo" "" "" TrustExternal "" 100 0 NoCost [])
      (Some demo_mirrored) demo_mirror = Some m'
    /\ (job_deployment <$> m_queue m') = [demo_adapter "a1"] /\ m_dropped m' = 1.
Proof.
  destruct (Send_samples (fun _ => of_int 0) (mkSnapshot demo_layer ∅)
              (mkDeployment "d1" (mkRoutingKey "m" "") "echo" "" "" TrustExternal "" 100 0 NoCost [])
              demo_mirrored demo_mirror) as (m' & Hs & H1 & H2 & _);
    [reflexivity|unfold in_int64, int64_min, int64_max; cbn; lia|].
  exists m'. split; [exact Hs|]. rewrite H1, H2. split; vm_compute; reflexivity.
Defined.

Lemma Wait_drains_witness :
  let m := set_queue [demo_job] demo_mirror in
  (forall k m', nsteps work k m m' -> (k <= 2)%nat)
  /\ forall m', rtc work m m' -> (forall m'', work m' m'' -> False) ->
       idle m' /\ m_mirrored m' + m_failed m' = 1.
Proof.
  apply (Wait_drains (set_queue [demo_job] demo_mirror)); vm_compute; congruence || lia.
Defined.
