(* ===== verification/Telemetry.v ===== *)
(** * The event emitter (telemetry/emitter.go)

    A bounded channel between requests and the sinks.  [Emit] is three non-blocking channel
    operations per event, so several requests can be anywhere between them; the worker gathers
    events into batches.  Both are a step relation over one shared buffer.  What a sink answers is
    not relied on. *)
From S2P Require Import Prelude Errors Core.
From Stdlib Require Import ZArith Lia.
From stdpp Require Import base gmap strings list relations.
Open Scope Z_scope.
Open Scope gw_scope.

Definition DefaultBufferSize : nat := 4096.
Definition DefaultBatchSize : nat := 128.
Definition DefaultFlushTimeout : duration := 5 * Second.

(** Where an [Emit] call is with one event: counted but not yet sent, having found the buffer
    full, having tried to make room. *)
Inductive emitting := Counted (e : Event) | Full (e : Event) | Evicted (e : Event).
Definition event_of (x : emitting) : Event := match x with Counted e | Full e | Evicted e => e end.

(** The worker: in its loop, draining after [stop] was closed, returned. *)
Inductive phase := Running | Draining | Exited.

(** [e_written] are the batches handed to the sinks, oldest first. *)
Record Emitter := mkEmitter {
  e_sinks : nat; e_capacity : nat; e_batchSize : nat;
  e_buffer : list Event; e_batch : list Event; e_written : list (list Event);
  e_emitting : gmap nat emitting;
  e_received : Z; e_dropped : Z; e_failed : Z; e_phase : phase }.

Definition EmitterOption := Emitter -> Emitter.
Definition WithBufferSize (n : Z) : EmitterOption := fun e =>
  if 0 <? n then mkEmitter (e_sinks e) (Z.to_nat n) (e_batchSize e) [] (e_batch e) (e_written e) (e_emitting e)
                   (e_received e) (e_dropped e) (e_failed e) (e_phase e)
  else e.
Definition WithBatchSize (n : Z) : EmitterOption := fun e =>
  if 0 <? n then mkEmitter (e_sinks e) (e_capacity e) (Z.to_nat n) (e_buffer e) (e_batch e) (e_written e)
                   (e_emitting e) (e_received e) (e_dropped e) (e_failed e) (e_phase e)
  else e.

(** [NewEmitter] over a number of sinks, none of them nil. *)
Definition NewEmitter (sinks : nat) (opts : list EmitterOption) : error + Emitter :=
  match sinks with
  | O => inl (New CodeInternal "an emitter needs at least one sink")
  | _ => inr (foldl (fun e opt => opt e)
                (mkEmitter sinks DefaultBufferSize DefaultBatchSize [] [] [] ∅ 0 0 0 Running) opts)
  end.

Record EmitterStats := mkEmitterStats { Received : Z; EvDropped : Z; EvFailed : Z; Queued : Z }.
Definition Stats (e : Emitter) : EmitterStats :=
  mkEmitterStats (e_received e) (e_dropped e) (e_failed e) (Z.of_nat (length (e_buffer e))).

(** ** The pieces of [Emit] *)

Definition set_emitting (m : gmap nat emitting) (e : Emitter) : Emitter :=
  mkEmitter (e_sinks e) (e_capacity e) (e_batchSize e) (e_buffer e) (e_batch e) (e_written e) m
    (e_received e) (e_dropped e) (e_failed e) (e_phase e).
Definition set_buffer (b : list Event) (e : Emitter) : Emitter :=
  mkEmitter (e_sinks e) (e_capacity e) (e_batchSize e) b (e_batch e) (e_written e) (e_emitting e)
    (e_received e) (e_dropped e) (e_failed e) (e_phase e).
Definition add_received (e : Emitter) : Emitter :=
  mkEmitter (e_sinks e) (e_capacity e) (e_batchSize e) (e_buffer e) (e_batch e) (e_written e) (e_emitting e)
    (wrap64 (e_received e + 1)) (e_dropped e) (e_failed e) (e_phase e).
Definition add_dropped (e : Emitter) : Emitter :=
  mkEmitter (e_sinks e) (e_capacity e) (e_batchSize e) (e_buffer e) (e_batch e) (e_written e) (e_emitting e)
    (e_received e) (wrap64 (e_dropped e + 1)) (e_failed e) (e_phase e).

(** [case e.buffer <- event]: whether there was room. *)
Definition try_send (ev : Event) (e : Emitter) : option Emitter :=
  if (length (e_buffer e) <? e_capacity e)%nat then Some (set_buffer (e_buffer e ++ [ev]) e) else None.

(** [case <-e.buffer: e.dropped.Add(1)], or nothing. *)
Definition evict (e : Emitter) : Emitter :=
  match e_buffer e with
  | [] => e
  | _ :: rest => add_dropped (set_buffer rest e)
  end.

(** One operation of the call [c]. *)
Definition emit_step (c : nat) (x : emitting) (e : Emitter) : Emitter :=
  match x with
  | Counted ev =>
      match try_send ev e with
      | Some e => set_emitting (delete c (e_emitting e)) e
      | None => set_emitting (<[c := Full ev]> (e_emitting e)) e
      end
  | Full ev => let e := evict e in set_emitting (<[c := Evicted ev]> (e_emitting e)) e
  | Evicted ev =>
      let e := default (add_dropped e) (try_send ev e) in
      set_emitting (delete c (e_emitting e)) e
  end.

(** ** The worker *)

(** [write]: [bad] of the sinks refused the batch. *)
Definition write (bad : nat) (e : Emitter) : Emitter :=
  mkEmitter (e_sinks e) (e_capacity e) (e_batchSize e) (e_buffer e) [] (e_written e ++ [e_batch e])
    (e_emitting e) (e_received e) (e_dropped e)
    (wrap64 (e_failed e + Z.of_nat bad * Z.of_nat (length (e_batch e)))) (e_phase e).

Definition flush (bad : nat) (e : Emitter) : Emitter :=
  match e_batch e with [] => e | _ => write bad e end.

(** An event received from the buffer. *)
Definition gather (bad : nat) (ev : Event) (rest : list Event) (e : Emitter) : Emitter :=
  let e := mkEmitter (e_sinks e) (e_capacity e) (e_batchSize e) rest (e_batch e ++ [ev]) (e_written e)
             (e_emitting e) (e_received e) (e_dropped e) (e_failed e) (e_phase e) in
  if (e_batchSize e <=? length (e_batch e))%nat then flush bad e else e.

(** [Close] closes [stop]. *)
Definition set_phase (ph : phase) (e : Emitter) : Emitter :=
  mkEmitter (e_sinks e) (e_capacity e) (e_batchSize e) (e_buffer e) (e_batch e) (e_written e) (e_emitting e)
    (e_received e) (e_dropped e) (e_failed e) ph.

(** What [run] can do next: take an event, in the loop or in the drain; flush on a tick; see
    [stop]; find the buffer empty in the drain, flush and return. *)
Inductive work : Emitter -> Emitter -> Prop :=
| work_gather e bad ev rest : e_phase e <> Exited -> e_buffer e = ev :: rest -> work e (gather bad ev rest e)
| work_tick e bad : e_phase e = Running -> work e (flush bad e)
| work_exit e bad : e_phase e = Draining -> e_buffer e = [] -> work e (set_phase Exited (flush bad e)).

(** The events an operation of [Emit] puts in the buffer. *)
Definition entered (x : emitting) (e : Emitter) : list Event :=
  match x with
  | Counted ev | Evicted ev => match try_send ev e with Some _ => [ev] | None => [] end
  | Full _ => []
  end.

(** Everything that happens to an emitter, with the events that entered the buffer so far. *)
Inductive step : Emitter * list Event -> Emitter * list Event -> Prop :=
| step_receive e log c ev :
    e_emitting e !! c = None ->
    step (e, log) (set_emitting (<[c := Counted ev]> (e_emitting e)) (add_received e), log)
| step_emit e log c x :
    e_emitting e !! c = Some x -> step (e, log) (emit_step c x e, log ++ entered x e)
| step_work e log e' : work e e' -> step (e, log) (e', log)
| step_stop e log : e_phase e = Running -> step (e, log) (set_phase Draining e, log).

(** ** Accounting *)

(** What has not been dropped, oldest first. *)
Definition surviving (e : Emitter) : list Event := concat (e_written e) ++ e_batch e ++ e_buffer e.

Record emitter_inv (e : Emitter) (log : list Event) : Prop := {
  inv_buffer : (length (e_buffer e) <= e_capacity e)%nat;
  inv_batch : (length (e_batch e) < e_batchSize e)%nat;
  inv_batches : Forall (fun b => 0 < length b <= e_batchSize e)%nat (e_written e);
  inv_dropped : 0 <= e_dropped e;
  inv_order : surviving e `sublist_of` log;
  inv_received : e_received e = e_dropped e + Z.of_nat (size (e_emitting e)) + Z.of_nat (length (surviving e)) }.

Lemma length_surviving e :
  length (surviving e) = (length (concat (e_written e)) + length (e_batch e) + length (e_buffer e))%nat.
Proof. unfold surviving. rewrite !length_app. lia. Qed.

Lemma flush_spec bad e :
  e_batch (flush bad e) = []
  /\ concat (e_written (flush bad e)) = concat (e_written e) ++ e_batch e
  /\ (forall n, (length (e_batch e) <= n)%nat -> Forall (fun b => 0 < length b <= n)%nat (e_written e) ->
        Forall (fun b => 0 < length b <= n)%nat (e_written (flush bad e))).
Proof.
  unfold flush. destruct (e_batch e) as [|ev b] eqn:E.
  - by rewrite E, app_nil_r.
  - cbn. rewrite E, concat_app. cbn. rewrite app_nil_r. split_and!; [done..|].
    intros n Hn Hf. apply Forall_app. split; [done|]. constructor; [cbn in *; lia|constructor].
Qed.

Lemma flush_kept bad e :
  e_buffer (flush bad e) = e_buffer e /\ e_capacity (flush bad e) = e_capacity e
  /\ e_batchSize (flush bad e) = e_batchSize e /\ e_emitting (flush bad e) = e_emitting e
  /\ e_received (flush bad e) = e_received e /\ e_dropped (flush bad e) = e_dropped e
  /\ e_phase (flush bad e) = e_phase e.
Proof. unfold flush. by destruct (e_batch e). Qed.

Lemma flush_surviving bad e : surviving (flush bad e) = surviving e.
Proof.
  unfold surviving. destruct (flush_spec bad e) as (-> & -> & _). destruct (flush_kept bad e) as (-> & _).
  by rewrite <- app_assoc.
Qed.

Lemma flush_inv bad e log : emitter_inv e log -> emitter_inv (flush bad e) log.
Proof.
  intros [H1 H2 H3 H4 H5 H6].
  destruct (flush_kept bad e) as (K1 & K2 & K3 & K4 & K5 & K6 & _). destruct (flush_spec bad e) as (L1 & _ & L3).
  split; rewrite ?flush_surviving, ?K1, ?K2, ?K3, ?K4, ?K5, ?K6, ?L1; try done.
  - cbn. lia.
  - apply L3; [lia|done].
Qed.

Lemma gather_spec bad ev rest e :
  e_buffer e = ev :: rest ->
  surviving (gather bad ev rest e) = surviving e /\ e_buffer (gather bad ev rest e) = rest
  /\ e_phase (gather bad ev rest e) = e_phase e
  /\ forall log, emitter_inv e log -> emitter_inv (gather bad ev rest e) log.
Proof.
  intros Hb. unfold gather. set (e1 := mkEmitter _ _ _ _ _ _ _ _ _ _ _).
  assert (Hs : surviving e1 = surviving e).
  { unfold surviving. cbn. by rewrite Hb, <- app_assoc. }
  destruct (_ <=? _)%nat eqn:E.
  - apply Nat.leb_le in E. destruct (flush_kept bad e1) as (K1 & K2 & K3 & K4 & K5 & K6 & K7).
    destruct (flush_spec bad e1) as (L1 & _ & L3).
    rewrite flush_surviving, K1, K7. split_and!; [done..|]. intros log [H1 H2 H3 H4 H5 H6].
    split; rewrite ?flush_surviving, ?K1, ?K2, ?K3, ?K4, ?K5, ?K6, ?L1, ?Hs; try done.
    + rewrite Hb in H1. cbn in *. lia.
    + cbn in *. lia.
    + apply L3; [|done]. cbn. rewrite length_app. cbn. lia.
  - apply Nat.leb_gt in E. split_and!; [done..|]. intros log [H1 H2 H3 H4 H5 H6].
    split; rewrite ?Hs; try done. rewrite Hb in H1. cbn in *. lia.
Qed.

Lemma work_inv e e' log : work e e' -> emitter_inv e log -> emitter_inv e' log.
Proof.
  destruct 1 as [e bad ev rest _ Hb|e bad _|e bad _ _]; intros Hi.
  - by apply (gather_spec bad ev rest e Hb).
  - by apply flush_inv.
  - destruct (flush_inv bad e log Hi). by split.
Qed.

Lemma try_send_spec ev e :
  match try_send ev e with
  | Some e' => e' = set_buffer (e_buffer e ++ [ev]) e /\ (length (e_buffer e) < e_capacity e)%nat
  | None => (e_capacity e <= length (e_buffer e))%nat
  end.
Proof.
  unfold try_send. destruct (_ <? _)%nat eqn:E.
  - by apply Nat.ltb_lt in E.
  - by apply Nat.ltb_ge in E.
Qed.

Lemma size_delete (m : gmap nat emitting) c x :
  m !! c = Some x -> (size (delete c m) + 1 = size m)%nat.
Proof.
  intros H. rewrite <- (insert_delete_id m c x H) at 2. rewrite map_size_insert_None; [lia|].
  apply lookup_delete_eq.
Qed.

(** Putting an event in the buffer. *)
Lemma send_inv e log c x ev :
  e_emitting e !! c = Some x -> (length (e_buffer e) < e_capacity e)%nat -> emitter_inv e log ->
  emitter_inv (set_emitting (delete c (e_emitting e)) (set_buffer (e_buffer e ++ [ev]) e)) (log ++ [ev]).
Proof.
  intros Hc Hlt [H1 H2 H3 H4 H5 H6].
  assert (Hs : surviving (set_emitting (delete c (e_emitting e)) (set_buffer (e_buffer e ++ [ev]) e))
             = surviving e ++ [ev]).
  { unfold surviving. cbn. by rewrite <- !app_assoc. }
  pose proof (size_delete _ _ _ Hc). split; rewrite ?Hs; cbn; try done.
  - rewrite length_app. cbn. lia.
  - by apply sublist_app.
  - rewrite length_app. cbn. lia.
Qed.

(** Moving a call on to its next operation. *)
Lemma move_inv e log c x x' :
  e_emitting e !! c = Some x -> emitter_inv e log ->
  emitter_inv (set_emitting (<[c := x']> (e_emitting e)) e) log.
Proof.
  intros Hc [H1 H2 H3 H4 H5 H6]. split; try done. cbn. rewrite map_size_insert_Some by eauto. exact H6.
Qed.

Lemma evict_inv e log :
  e_dropped e < int64_max -> emitter_inv e log ->
  emitter_inv (evict e) log /\ e_emitting (evict e) = e_emitting e /\ e_received (evict e) = e_received e.
Proof.
  intros Hd Hi. unfold evict. destruct (e_buffer e) as [|ev rest] eqn:Eb; [done|]. destruct Hi as [H1 H2 H3 H4 H5 H6].
  assert (Hw : wrap64 (e_dropped e + 1) = e_dropped e + 1) by (apply wrap64_id; unfold in_int64, int64_min; lia).
  assert (Hl : length (surviving e) = (length (surviving (add_dropped (set_buffer rest e))) + 1)%nat).
  { rewrite !length_surviving, Eb. cbn. lia. }
  split_and!; [|done..]. split; cbn [e_buffer e_capacity e_batch e_batchSize e_written e_dropped e_emitting
    e_received add_dropped set_buffer]; rewrite ?Hw; try done; [rewrite Eb in H1; cbn in H1; lia|lia| |lia].
  etransitivity; [|exact H5]. unfold surviving. cbn. rewrite Eb.
  apply sublist_app; [done|]. apply sublist_app; [done|]. by apply sublist_cons.
Qed.

Lemma emit_step_inv e log c x :
  e_received e <= int64_max -> e_emitting e !! c = Some x -> emitter_inv e log ->
  emitter_inv (emit_step c x e) (log ++ entered x e) /\ e_received (emit_step c x e) = e_received e.
Proof.
  intros Hr Hc Hi.
  assert (Hlt : e_dropped e < int64_max).
  { destruct Hi. pose proof (size_delete _ _ _ Hc). lia. }
  destruct x as [ev|ev|ev]; cbn [emit_step entered].
  - pose proof (try_send_spec ev e) as Ht. destruct (try_send ev e) as [e1|].
    + destruct Ht as [-> Ht]. split; [exact (send_inv e log c _ ev Hc Ht Hi)|done].
    + rewrite app_nil_r. split; [|done]. by eapply move_inv.
  - rewrite app_nil_r. destruct (evict_inv e log Hlt Hi) as (H1 & H2 & H3). split; [|exact H3].
    eapply move_inv; [by rewrite H2|done].
  - pose proof (try_send_spec ev e) as Ht. destruct (try_send ev e) as [e1|]; cbn [default].
    + destruct Ht as [-> Ht]. split; [exact (send_inv e log c _ ev Hc Ht Hi)|done].
    + rewrite app_nil_r. split; [|done]. destruct Hi as [H1 H2 H3 H4 H5 H6].
      assert (Hw : wrap64 (e_dropped e + 1) = e_dropped e + 1) by (apply wrap64_id; unfold in_int64, int64_min; lia).
      pose proof (size_delete _ _ _ Hc).
      split; try done; cbn; rewrite ?Hw; [lia|]. change (length _) with (length (surviving e)) at 1. lia.
Qed.

Lemma emitter_step_inv k e log e' log' :
  Z.of_nat k < int64_max -> step (e, log) (e', log') ->
  emitter_inv e log /\ e_received e <= Z.of_nat k -> emitter_inv e' log' /\ e_received e' <= Z.of_nat k + 1.
Proof.
  intros Hk Hs [Hi Hr]. inversion Hs as [? ? c ev Hc|? ? c x Hc|? ? ? Hw|? ? Hp]; simplify_eq; clear Hs.
  - destruct Hi as [H1 H2 H3 H4 H5 H6].
    assert (Hw : wrap64 (e_received e + 1) = e_received e + 1) by (apply wrap64_id; unfold in_int64, int64_min; lia).
    split; [|cbn; lia]. split; try done. cbn. rewrite Hw, map_size_insert_None by done.
    change (length _) with (length (surviving e)). lia.
  - destruct (emit_step_inv e log c x ltac:(lia) Hc Hi) as [H1 H2]. split; [done|lia].
  - split; [by eapply work_inv|]. assert (e_received e' = e_received e); [|lia].
    destruct Hw as [e bad ev rest _ Hb|e bad _|e bad _ _]; [|apply flush_kept|cbn; apply flush_kept].
    unfold gather. destruct (_ <=? _)%nat; [|done]. by destruct (flush_kept bad (mkEmitter (e_sinks e) (e_capacity e)
      (e_batchSize e) rest (e_batch e ++ [ev]) (e_written e) (e_emitting e) (e_received e) (e_dropped e) (e_failed e)
      (e_phase e))) as (_ & _ & _ & _ & -> & _).
  - split; [|cbn; lia]. by destruct Hi.
Qed.

Lemma NewEmitter_inv sinks n b e :
  NewEmitter sinks [WithBufferSize n; WithBatchSize b] = inr e -> emitter_inv e [] /\ e_received e = 0.
Proof.
  unfold NewEmitter, WithBufferSize, WithBatchSize. destruct sinks; [done|]. intros [= <-]. cbn [foldl].
  destruct (0 <? n) eqn:En, (0 <? b) eqn:Eb; zify_bools; (split; [|done]); split; cbn; try done; try lia;
    unfold DefaultBatchSize; lia.
Qed.

(** C39. Nothing is lost uncounted.  From a new emitter, through any interleaving of concurrent
    [Emit] calls, of the worker and of [Close]: the buffer keeps within its capacity and every
    batch within its size; every event received is dropped and counted, or still being emitted,
    buffered, batched or written; and the events that survive are written in the order they
    entered the buffer. *)
Theorem emitter_accounts sinks n b e0 k e log :
  NewEmitter sinks [WithBufferSize n; WithBatchSize b] = inr e0 -> Z.of_nat k <= int64_max ->
  nsteps step k (e0, []) (e, log) -> emitter_inv e log.
Proof.
  intros H0 Hk Hs. apply NewEmitter_inv in H0 as [H0 Hr0].
  enough (emitter_inv e log /\ e_received e <= Z.of_nat k) by tauto. revert e log Hs.
  induction k as [|k IH]; intros e log Hs.
  - inversion Hs; simplify_eq. split; [done|lia].
  - apply nsteps_inv_r in Hs as ([e1 log1] & Hs & Hl).
    destruct (emitter_step_inv k e1 log1 e log) as [H1 H2]; [lia|done|apply IH; [lia|done]|]. split; [done|lia].
Qed.

(** The worker's steps left after [stop]. *)
Definition todo (e : Emitter) : nat :=
  match e_phase e with Exited => 0 | _ => length (e_buffer e) + 1 end.

Lemma drain_step e e' :
  work e e' -> e_phase e <> Running ->
  e_phase e' <> Running /\ (todo e' + 1 = todo e)%nat /\ surviving e' = surviving e
  /\ (e_phase e' = Exited -> e_batch e' = [] /\ e_buffer e' = []).
Proof.
  destruct 1 as [e bad ev rest Hx Hb|e bad Hx|e bad Hx Hb]; intros Hp; [|done|].
  - destruct (gather_spec bad ev rest e Hb) as (H1 & H2 & H3 & _). unfold todo. rewrite H1, H2, H3, Hb. cbn.
    destruct (e_phase e) eqn:E; split_and!; done || lia.
  - destruct (flush_kept bad e) as (K1 & _). destruct (flush_spec bad e) as (L1 & _).
    unfold todo. split_and!; [done|by rewrite Hx, Hb|exact (flush_surviving bad e)|].
    intros _. cbn. by rewrite L1, K1.
Qed.

Lemma drain_steps e e' :
  rtc work e e' -> e_phase e <> Running -> (e_phase e = Exited -> e_batch e = [] /\ e_buffer e = []) ->
  e_phase e' <> Running /\ surviving e' = surviving e
  /\ (e_phase e' = Exited -> e_batch e' = [] /\ e_buffer e' = []).
Proof.
  induction 1 as [e|e e1 e' Hs Hr IH]; intros Hp Hx; [done|].
  destruct (drain_step _ _ Hs Hp) as (H1 & _ & H3 & H4). destruct (IH H1 H4) as (I1 & I2 & I3).
  split_and!; [done|congruence|done].
Qed.

(** [Close] delivers: once the worker has seen [stop] and no more events arrive, it takes at
    most one step per buffered event and one more, and only ever stops having returned, with
    the buffer and the batch empty and everything they held written after what was written before,
    in order. *)
Theorem Close_drains e :
  e_phase e = Draining ->
  (forall k e', nsteps work k e e' -> (k <= length (e_buffer e) + 1)%nat)
  /\ forall e', rtc work e e' -> (forall e'', work e' e'' -> False) ->
       e_phase e' = Exited /\ e_buffer e' = [] /\ concat (e_written e') = concat (e_written e) ++ e_batch e ++ e_buffer e.
Proof.
  intros Hp. assert (Hp' : e_phase e <> Running) by congruence. split.
  - intros k e' Hk. enough (todo e' + k = todo e)%nat by (unfold todo in *; rewrite Hp in *; lia).
    clear Hp. induction Hk as [|k e e1 e' Hs Hk IH]; [lia|].
    destruct (drain_step _ _ Hs Hp') as (H1 & H2 & _). apply IH in H1. lia.
  - intros e' Hr Hstop. destruct (drain_steps _ _ Hr Hp') as (H1 & H2 & H3); [congruence|].
    assert (Hex : e_phase e' = Exited).
    { destruct (e_phase e') eqn:E; [done| |done]. exfalso. destruct (e_buffer e') as [|ev rest] eqn:Eb.
      - by eapply Hstop, (work_exit _ 0).
      - eapply Hstop, (work_gather _ 0); [congruence|done]. }
    destruct (H3 Hex) as [H5 H6]. split_and!; [done..|].
    unfold surviving in H2. rewrite H5, H6, !app_nil_r in H2. exact H2.
Qed.

(** ** Demonstrations *)
Definition demo_event (id : string) : Event :=
  EvAudit (mkAuditEvent id id 0 "acme" "k1" "a" "r" "" "" AddrInvalid 1).
Definition demo_emitter : Emitter :=
  match NewEmitter 1 [WithBufferSize 1; WithBatchSize 2] with
  | inr e => e
  | inl _ => mkEmitter 0 0 0 [] [] [] ∅ 0 0 0 Running
  end.

(** Two events through a buffer of one: the second evicts the first. *)
Lemma emitter_accounts_witness :
  exists e, nsteps step 6 (demo_emitter, []) (e, [demo_event "1"; demo_event "2"])
    /\ e_buffer e = [demo_event "2"] /\ e_dropped e = 1
    /\ emitter_inv e [demo_event "1"; demo_event "2"].
Proof.
  assert (Hr : exists e, nsteps step 6 (demo_emitter, []) (e, [demo_event "1"; demo_event "2"])
            /\ e_buffer e = [demo_event "2"] /\ e_dropped e = 1).
  { eexists. split; [|split].
    - eapply nsteps_l; [apply (step_receive _ _ 0 (demo_event "1")); reflexivity|].
      eapply nsteps_l; [apply (step_emit _ _ 0 (Counted (demo_event "1"))); reflexivity|].
      eapply nsteps_l; [apply (step_receive _ _ 1 (demo_event "2")); reflexivity|].
      eapply nsteps_l; [apply (step_emit _ _ 1 (Counted (demo_event "2"))); reflexivity|].
      eapply nsteps_l; [apply (step_emit _ _ 1 (Full (demo_event "2"))); reflexivity|].
      eapply nsteps_l; [apply (step_emit _ _ 1 (Evicted (demo_event "2"))); reflexivity|].
      apply nsteps_O.
    - reflexivity.
    - reflexivity. }
  destruct Hr as (e & Hr & H1 & H2). exists e. split_and!; [exact Hr|exact H1|exact H2|].
  apply (emitter_accounts 1 1 2 demo_emitter 6 e); [reflexivity|vm_compute; congruence|exact Hr].
Defined.

Lemma Close_drains_witness :
  let e := set_phase Draining (set_buffer [demo_event "1"; demo_event "2"] demo_emitter) in
  (forall k e', nsteps work k e e' -> (k <= 3)%nat)
  /\ forall e', rtc work e e' -> (forall e'', work e' e'' -> False) ->
       e_phase e' = Exited /\ e_buffer e' = [] /\ concat (e_written e') = [demo_event "1"; demo_event "2"].
Proof.
  apply (Close_drains (set_phase Draining (set_buffer [demo_event "1"; demo_event "2"] demo_emitter))).
  reflexivity.
Defined.

(** An event emitted after the worker has returned is received and not dropped, and no step of
    the worker ever writes it. *)
Lemma emitted_after_Close_is_stranded ev e :
  e_phase e = Exited -> try_send ev e = Some (set_buffer (e_buffer e ++ [ev]) e) ->
  let e' := emit_step 0 (Counted ev) e in
  ev ∈ e_buffer e' /\ e_dropped e' = e_dropped e /\ forall e'', work e' e'' -> False.
Proof.
  intros Hp Ht. cbn. rewrite Ht. split_and!; [cbn; set_solver|done|].
  intros e'' Hw. inversion Hw; cbn in *; congruence.
Qed.
