(* ===== verification/Secrets.v ===== *)
(** * Credential resolution (secrets/secrets.go, secrets/env.go)

    A cache with an expiry in front of a store.  The fetch happens outside the lock, so two calls
    may both fetch and an invalidation may fall between a fetch and the write that follows it: the
    locked read and the locked write of [Resolve] are separate steps.  The store is a function of
    the caller over an external world. *)
From S2P Require Import Prelude Errors Core.
From Stdlib Require Import ZArith Lia Ascii.
From stdpp Require Import base gmap strings list relations.
Open Scope Z_scope.
Open Scope gw_scope.

Definition DefaultTTL : duration := 5 * Minute.

Record entry := mkEntry { secret : bytes; expiresAt : time }.
Record Resolver := mkResolver { r_ttl : duration; r_cached : gmap string entry }.

Definition ResolverOption := Resolver -> Resolver.
Definition WithTTL (ttl : duration) : ResolverOption := fun r => mkResolver ttl (r_cached r).

(** [NewResolver], given a store. *)
Definition NewResolver (opts : list ResolverOption) : error + Resolver :=
  let r := foldl (fun r opt => opt r) (mkResolver DefaultTTL ∅) opts in
  if r_ttl r <=? 0 then inl (New CodeInternal "credential cache TTL must be positive") else inr r.

(** The locked read. *)
Definition lookup_cached (now : time) (ref : string) (r : Resolver) : option bytes :=
  match r_cached r !! ref with
  | Some e => if Before now (expiresAt e) then Some (secret e) else None
  | None => None
  end.

(** The locked write after a fetch. *)
Definition store_secret (now : time) (ref : string) (s : bytes) (r : Resolver) : Resolver :=
  mkResolver (r_ttl r) (<[ref := mkEntry s (now + r_ttl r)]> (r_cached r)).

Definition Invalidate (ref : string) (r : Resolver) : Resolver :=
  mkResolver (r_ttl r) (delete ref (r_cached r)).
Definition InvalidateAll (r : Resolver) : Resolver := mkResolver (r_ttl r) ∅.

Section resolve.
Context {X : Type} (Fetch : string -> X -> (error + bytes) * X) (clk : nat -> time).

(** [Resolve] run without interference; the state counts the clock readings. *)
Definition Resolve (ref : string) (st : Resolver * nat * X) : (error + Credential) * (Resolver * nat * X) :=
  let '(r, t, x) := st in
  if bool_decide (ref = "") then (inr NoCredential, st)
  else
    (* the clock is read only when the reference is cached *)
    let t' := match r_cached r !! ref with Some _ => (t + 1)%nat | None => t end in
    match lookup_cached (clk t) ref r with
    | Some s => (inr (mkCredential ref s), (r, t', x))
    | None =>
        let '(res, x) := Fetch ref x in
        match res with
        | inl err => (inl err, (r, t', x))
        | inr s => (inr (mkCredential ref s), (store_secret (clk t') ref s r, (t' + 1)%nat, x))
        end
    end.
End resolve.

(** ** The environment store *)
Definition EnvScheme : string := "env:".

Definition EnvStore_Fetch (lookup : string -> option string) (ref : string) : error + bytes :=
  match cut_prefix EnvScheme ref with
  | None => inl (Newf CodeInvalidRequest "credential reference %q is not an %s reference"
                   [AStr ref; AStr EnvScheme])
  | Some name =>
      if bool_decide (name = "")
      then inl (New CodeInvalidRequest "credential reference names no variable")
      else
        match lookup name with
        | None => inl (Newf CodeUnavailable "environment variable %s is not set" [AStr name])
        | Some value =>
            if bool_decide (value = "")
            then inl (Newf CodeUnavailable "environment variable %s is not set" [AStr name])
            else inr (String.list_ascii_of_string value)
        end
  end.

(** ** Interleavings *)

(** A fetch that succeeded: which reference, what the store answered and when it was asked. *)
Record fetched := mkFetched { f_ref : string; f_secret : bytes; f_time : time }.

(** [pending] are calls between their fetch and their write; [fetches] everything the store has
    answered; [answers] the credentials returned, each with the time of its return. *)
Record state := mkState {
  st_resolver : Resolver; st_now : time; st_pending : list fetched; st_fetches : list fetched;
  st_answers : list (time * Credential) }.

Inductive step : state -> state -> Prop :=
(** Time passes. *)
| step_time r now now' pending fetches answers :
    now <= now' -> step (mkState r now pending fetches answers) (mkState r now' pending fetches answers)
(** A cached credential is returned. *)
| step_hit r now pending fetches answers ref s :
    lookup_cached now ref r = Some s ->
    step (mkState r now pending fetches answers)
      (mkState r now pending fetches (answers ++ [(now, mkCredential ref s)]))
(** The cache has nothing and the store answers. *)
| step_fetch r now pending fetches answers ref s :
    lookup_cached now ref r = None ->
    step (mkState r now pending fetches answers)
      (mkState r now (pending ++ [mkFetched ref s now]) (fetches ++ [mkFetched ref s now]) answers)
(** The call writes what it fetched and returns it. *)
| step_store r now pending fetches answers i f :
    pending !! i = Some f ->
    step (mkState r now pending fetches answers)
      (mkState (store_secret now (f_ref f) (f_secret f) r) now (delete i pending) fetches
         (answers ++ [(now, mkCredential (f_ref f) (f_secret f))]))
| step_invalidate r now pending fetches answers ref :
    step (mkState r now pending fetches answers) (mkState (Invalidate ref r) now pending fetches answers)
| step_invalidate_all r now pending fetches answers :
    step (mkState r now pending fetches answers) (mkState (InvalidateAll r) now pending fetches answers).

(** [s] is what the store gave for [ref], asked no later than [w]. *)
Definition genuine (fetches : list fetched) (ref : string) (s : bytes) (w : time) : Prop :=
  exists f, f ∈ fetches /\ f_ref f = ref /\ f_secret f = s /\ f_time f <= w.

(** Every secret in the cache, on its way there or handed out is genuine; a cached one expires a
    lifetime after it was written, and one handed out was written less than a lifetime before. *)
Record resolver_inv (ttl : duration) (st : state) : Prop := {
  inv_ttl : r_ttl (st_resolver st) = ttl;
  inv_cached : forall ref e, r_cached (st_resolver st) !! ref = Some e ->
    expiresAt e - ttl <= st_now st /\ genuine (st_fetches st) ref (secret e) (expiresAt e - ttl);
  inv_pending : forall f, f ∈ st_pending st -> genuine (st_fetches st) (f_ref f) (f_secret f) (st_now st);
  inv_answers : forall t c, (t, c) ∈ st_answers st ->
    exists w, w <= t < w + ttl /\ genuine (st_fetches st) (cred_Ref c) (cred_Secret c) w }.

Lemma lookup_cached_Some now ref r s :
  lookup_cached now ref r = Some s ->
  exists e, r_cached r !! ref = Some e /\ secret e = s /\ now < expiresAt e.
Proof.
  unfold lookup_cached. destruct (r_cached r !! ref) as [e|]; [|done].
  unfold Before. destruct (_ <? _) eqn:E; [|done]. zify_bools. intros [= <-]. by exists e.
Qed.

Lemma genuine_mono fetches fetches' ref s w w' :
  (forall f, f ∈ fetches -> f ∈ fetches') -> w <= w' -> genuine fetches ref s w -> genuine fetches' ref s w'.
Proof. intros Hf Hw (f & H1 & H2 & H3 & H4). exists f. split_and!; [auto|done|done|lia]. Qed.

Lemma step_resolver_inv ttl st st' : 0 < ttl -> step st st' -> resolver_inv ttl st -> resolver_inv ttl st'.
Proof.
  intros Ht Hs. destruct Hs as [r now now' pending fetches answers Hn|r now pending fetches answers ref s Hl
    |r now pending fetches answers ref s Hl|r now pending fetches answers i f Hi|r now pending fetches answers ref
    |r now pending fetches answers]; intros [H1 H2 H3 H4]; cbn in *; subst ttl.
  - split; cbn; [done| | |done].
    + intros ref e He. destruct (H2 ref e He). split; [lia|done].
    + intros f Hf. eapply genuine_mono; [| |by apply H3]; [done|lia].
  - split; cbn; [done..|]. intros t c [Hin|Hin]%elem_of_app; [by apply H4|].
    apply list_elem_of_singleton in Hin. simplify_eq. cbn.
    apply lookup_cached_Some in Hl as (e & He & <- & Hx). destruct (H2 ref e He) as [H5 H6].
    exists (expiresAt e - r_ttl r). split; [lia|done].
  - assert (Hsub : forall f, f ∈ fetches -> f ∈ fetches ++ [mkFetched ref s now]) by (intros; apply elem_of_app; by left).
    split; cbn; [done| | |].
    + intros ref' e He. destruct (H2 ref' e He). split; [done|]. by eapply genuine_mono.
    + intros f [Hf|Hf]%elem_of_app; [by eapply genuine_mono; [| |by apply H3]|].
      apply list_elem_of_singleton in Hf as ->. exists (mkFetched ref s now). split_and!; [|done..].
      apply elem_of_app. right. by apply list_elem_of_singleton.
    + intros t c Hc. destruct (H4 t c Hc) as (w & Hw & Hg). exists w. split; [done|]. by eapply genuine_mono.
  - pose proof (H3 f (list_elem_of_lookup_2 _ _ _ Hi)) as Hg. split; cbn; [done| | |].
    + intros ref e He. destruct (decide (ref = f_ref f)) as [->|Hne].
      * rewrite lookup_insert_eq in He. simplify_eq. cbn. split; [lia|]. by replace (now + r_ttl r - r_ttl r) with now by lia.
      * rewrite lookup_insert_ne in He by done. by apply H2.
    + intros g Hg'. apply H3. apply list_elem_of_lookup in Hg' as [k Hk].
      destruct (decide (k < i)%nat); [rewrite list_lookup_delete_lt in Hk by lia|
        rewrite list_lookup_delete_ge in Hk by lia]; by apply list_elem_of_lookup_2 in Hk.
    + intros t c [Hin|Hin]%elem_of_app; [by apply H4|].
      apply list_elem_of_singleton in Hin. simplify_eq. cbn. exists now. split; [lia|done].
  - split; cbn; [done| |done..]. intros ref' e [_ He]%lookup_delete_Some. by apply H2.
  - split; cbn; [done| |done..]. intros ref' e He. by rewrite lookup_empty in He.
Qed.

Lemma steps_resolver_inv ttl st st' :
  0 < ttl -> rtc step st st' -> resolver_inv ttl st -> resolver_inv ttl st'.
Proof. intros Ht. induction 1 as [|st st1 st' Hs _ IH]; eauto using step_resolver_inv. Qed.

(** Credentials are never mixed up and never outlive the cache's lifetime: whatever calls
    and invalidations interleave, every credential [Resolve] returns for a reference carries the
    secret the store gave for that same reference, fetched no later than it was cached, and it
    was cached less than one TTL before it is returned. *)
Theorem resolved_credentials_genuine ttl r now st t c :
  NewResolver [WithTTL ttl] = inr r -> rtc step (mkState r now [] [] []) st ->
  (t, c) ∈ st_answers st ->
  exists w, w <= t < w + ttl /\ genuine (st_fetches st) (cred_Ref c) (cred_Secret c) w.
Proof.
  unfold NewResolver. cbn [foldl WithTTL r_ttl r_cached]. destruct (ttl <=? 0) eqn:E; [done|]. zify_bools.
  intros [= <-] Hr. enough (resolver_inv ttl st) as [_ _ _ H] by exact (H t c).
  assert (H0 : resolver_inv ttl (mkState (mkResolver ttl ∅) now [] [] [])).
  { split; cbn; [done| | |].
    - intros ref e He. by rewrite lookup_empty in He.
    - set_solver.
    - set_solver. }
  by eapply steps_resolver_inv.
Qed.

(** ** Demonstrations *)
Definition demo_resolver : Resolver := mkResolver Minute ∅.
Definition demo_credential (s : string) : Credential := mkCredential "env:K" (String.list_ascii_of_string s).

(** A credential fetched and cached at one time and returned from the cache half a lifetime later. *)
Lemma resolved_credentials_genuine_witness :
  exists st, rtc step (mkState demo_resolver 0 [] [] []) st
    /\ (30 * Second, demo_credential "a") ∈ st_answers st
    /\ exists w, w <= 30 * Second < w + Minute
         /\ genuine (st_fetches st) "env:K" (String.list_ascii_of_string "a") w.
Proof.
  set (f := mkFetched "env:K" (String.list_ascii_of_string "a") 0).
  set (st := mkState (store_secret 0 "env:K" (f_secret f) demo_resolver) (30 * Second) [] [f]
               [(0, demo_credential "a"); (30 * Second, demo_credential "a")]).
  assert (Hr : rtc step (mkState demo_resolver 0 [] [] []) st).
  { eapply rtc_l; [apply (step_fetch _ _ _ _ _ "env:K" (f_secret f)); reflexivity|].
    eapply rtc_l; [apply (step_store _ _ _ _ _ 0 f); reflexivity|].
    eapply rtc_l; [apply (step_time _ _ (30 * Second)); vm_compute; congruence|].
    eapply rtc_l; [apply (step_hit _ _ _ _ _ "env:K" (f_secret f)); reflexivity|]. apply rtc_refl. }
  assert (Hin : (30 * Second, demo_credential "a") ∈ st_answers st) by (cbn; set_solver).
  exists st. split; [exact Hr|]. split; [exact Hin|].
  apply (resolved_credentials_genuine Minute demo_resolver 0 st (30 * Second) (demo_credential "a"));
    [reflexivity|exact Hr|exact Hin].
Defined.

(** An invalidation between a fetch and the write that follows it is undone: the secret fetched
    before it is cached for a whole lifetime after it. *)
Lemma invalidation_can_be_lost :
  exists st, rtc step (mkState demo_resolver 0 [] [] []) st
    /\ lookup_cached (59 * Second) "env:K" (st_resolver st) = Some (String.list_ascii_of_string "old").
Proof.
  set (f := mkFetched "env:K" (String.list_ascii_of_string "old") 0).
  eexists. split.
  - eapply rtc_l; [apply (step_fetch _ _ _ _ _ "env:K" (f_secret f)); reflexivity|].
    eapply rtc_l; [apply (step_invalidate _ _ _ _ _ "env:K")|].
    eapply rtc_l; [apply (step_store _ _ _ _ _ 0 f); reflexivity|]. apply rtc_refl.
  - vm_compute. reflexivity.
Qed.

(** [Resolve] run alone takes the steps above. *)
Lemma Resolve_steps {X} (Fetch : string -> X -> (error + bytes) * X) clk ref r t x c r' t' x' :
  Resolve Fetch clk ref (r, t, x) = (inr c, (r', t', x')) -> ref <> "" ->
  (lookup_cached (clk t) ref r = Some (cred_Secret c) /\ r' = r)
  \/ (lookup_cached (clk t) ref r = None /\ (Fetch ref x).1 = inr (cred_Secret c)
      /\ exists n, r' = store_secret (clk n) ref (cred_Secret c) r).
Proof.
  unfold Resolve. intros H Hne. rewrite bool_decide_false in H by done.
  destruct (lookup_cached (clk t) ref r) as [s|] eqn:El; [by left; simplify_eq|].
  destruct (Fetch ref x) as [[err|s] x1]; simplify_eq. right. split_and!; [done..|]. by eexists.
Qed.
