(* ===== verification/Pipeline.v ===== *)
(** * The request path (gateway/pipeline.go, gateway/audit.go, gateway/registry.go)

    Authenticate, admit, guard, route, adapt.  The limiter and the guardrail chain are the
    source's interfaces, here classes of operations; the laws a limiter keeps are a class of
    their own.  Providers, the credential resolver and the statistical detector are functions of
    the caller over an external world [X].  [World] gathers what one worker's pipeline reads and
    writes, with the events emitted and the provider calls sent kept as lists.  Each reading of
    the clock is a separate reading. *)
From S2P Require Import Prelude Errors Core Snapshot Policy Float64 Breaker Kv Strconv.
From Stdlib Require Import ZArith Lia Ascii.
From stdpp Require Import base gmap strings list.
From S2P Require Import Placeholder Restorer Detect Transform Limits Guardrails Router Shadow.
Open Scope Z_scope.
Open Scope gw_scope.

(** ** Interfaces *)
Class RateLimiter (L : Type) := {
  rl_Admit : Principal -> L -> Limits.Decision * L;
  rl_Release : Principal -> L -> L;
  rl_RecordTokens : Principal -> Z -> L -> L }.

Class GuardrailChain (C : Type) := {
  gc_Run : list GuardrailBinding -> GuardrailInput -> C -> (error + Outcome) * C }.

(** The default implementations. *)
#[export] Instance unlimited : RateLimiter unit :=
  {| rl_Admit _ l := (Limits.allowed, l); rl_Release _ l := l; rl_RecordTokens _ _ l := l |}.
#[export] Instance inspectNothing : GuardrailChain unit :=
  {| gc_Run _ inp c := (inr (mkOutcome (in_Payload inp) false ""), c) |}.

(** ** Data *)
Record Request := mkRequest {
  req_Meta : RequestMeta; req_APIKey : string; req_Body : bytes; deepInspection : bool }.

Record GResult := mkGResult {
  res_StatusCode : Z; res_Body : bytes; res_Principal : Principal; res_Deployment : DeploymentID;
  res_Route : RoutingKey; res_Usage : TokenUsage; res_Latency : duration;
  res_Stages : list StageTiming; res_TTFB : duration }.
Definition no_result : GResult :=
  mkGResult 0 [] NoPrincipal "" (mkRoutingKey "" "") NoUsage 0 [] 0.

Definition budgetIDs (refs : list BudgetRef) : list BudgetID := ref_ID <$> refs.

(** [Duration.Milliseconds]. *)
Definition Milliseconds (d : duration) : Z := Z.quot d Millisecond.

(** [Duration.Round]: half away from zero, saturating. *)
Definition Round (d m : duration) : duration :=
  if m <=? 0 then d
  else
    let r := Z.rem d m in
    if d <? 0 then
      if (- r) + (- r) <? m then wrap64 (d - r)
      else let d1 := wrap64 (wrap64 (d - m) - r) in if d1 <? d then d1 else int64_min
    else if r + r <? m then d - r
    else let d1 := wrap64 (wrap64 (d + m) - r) in if d <? d1 then d1 else int64_max.

Definition payloadBytes (n : Z) : Z := if n <? 0 then 0 else n.

Definition strategyFor (class : DataClass) (tier : TrustTier) : Strategy :=
  if TrustInternal <=? tier then StrategyNone
  else if bool_decide (class = DataClassRestricted) || bool_decide (class = DataClassConfidential)
  then StrategyTokenize
  else if bool_decide (class = DataClassInternal) then StrategyRedact
  else StrategyNone.

(** [auditable]: the action, empty when nothing is to be recorded, and the reason. *)
Definition auditable (req : Request) (principal : Principal) (redactions : Z) (err : option error)
    : string * string :=
  match err with
  | Some _ => (meta_Endpoint (req_Meta req), "")
  | None =>
      if 0 <? redactions then ("pii.redact", "redacted " +:+ String.string_of_list_ascii (FormatInt redactions)
                                         +:+ " values before sending")
      else if negb (bool_decide (p_DefaultClass principal = ""))
              && negb (bool_decide (p_DefaultClass principal = DataClassPublic))
      then (meta_Endpoint (req_Meta req), "data classified " +:+ p_DefaultClass principal)
      else ("", "")
  end.

(** ** Registries (gateway/registry.go) *)
Definition addProvider {P} (m : gmap string P) (p : string * P) : error + gmap string P :=
  if bool_decide (p.1 = "") then inl (New CodeInternal "a provider reported an empty name")
  else match m !! p.1 with
       | Some _ => inl (Newf CodeInternal "two providers named %q" [AStr p.1])
       | None => inr (<[p.1 := p.2]> m)
       end.
Definition NewStaticProviders {P} (providers : list (string * P)) : error + gmap string P :=
  foldM addProvider ∅ providers.

Definition NoCredentials_Resolve (ref : string) : error + Credential :=
  if negb (bool_decide (ref = ""))
  then inl (Newf CodeUnavailable "deployment needs credential %q but no secret store is configured" [AStr ref])
  else inr NoCredential.

Section pipeline.
Context {L C S P Strm X : Type} `{!RateLimiter L} `{!GuardrailChain C} `{!KVStore S}.

(** What the pipeline is built from. *)
Record Pipeline := mkPipeline {
  (* providers *)
  providers : string -> option P;
  Endpoints : P -> list Endpoint;
  invoke : duration -> P -> ProviderCall -> X -> (error + ProviderResponse) * X;
  stream : duration -> P -> ProviderCall -> X -> (error + Strm) * X;
  (* credentials, statistical detector *)
  resolve : string -> X -> (error + Credential) * X;
  ner : option (bytes -> X -> (error + list detectedEntity) * X);
  (* waiting between attempts, whether the context survived it *)
  sleep : duration -> X -> bool * X;
  (* configuration *)
  router : Router; observed : bool; vault : option Vault; shadows : bool; region : string; pepper : bytes;
  (* libraries: HMAC, protobuf, netip, math, randomness, the clock *)
  ComputeKeyLookup : bytes -> string -> KeyLookup;
  hmac12 : bytes -> bytes -> bytes;
  unmarshal : bytes -> error + PbBundle;
  ParsePrefix : string -> error + Prefix;
  Exp2 : float64 -> float64;
  draw : nat -> float64;
  clk : nat -> time;
  ctxDeadline : option time }.

Record World := mkW {
  w_limiter : L; w_chain : C; w_cache : Cache; w_store : S;
  w_events : list Event;                           (* emitted, oldest first *)
  w_sent : list ProviderCall;                      (* provider calls made *)
  w_shadowed : list (Deployment * ShadowRequest);  (* handed to the mirror *)
  w_out : replacements;                            (* the variable each attempt assigns *)
  w_ext : X; w_tick : nat }.

Definition set_limiter (l : L) (w : World) : World :=
  mkW l (w_chain w) (w_cache w) (w_store w) (w_events w) (w_sent w) (w_shadowed w) (w_out w) (w_ext w) (w_tick w).
Definition set_chain (c : C) (w : World) : World :=
  mkW (w_limiter w) c (w_cache w) (w_store w) (w_events w) (w_sent w) (w_shadowed w) (w_out w) (w_ext w) (w_tick w).
Definition set_cache (c : Cache) (w : World) : World :=
  mkW (w_limiter w) (w_chain w) c (w_store w) (w_events w) (w_sent w) (w_shadowed w) (w_out w) (w_ext w) (w_tick w).
Definition set_store (s : S) (w : World) : World :=
  mkW (w_limiter w) (w_chain w) (w_cache w) s (w_events w) (w_sent w) (w_shadowed w) (w_out w) (w_ext w) (w_tick w).
Definition Emit (e : Event) (w : World) : World :=
  mkW (w_limiter w) (w_chain w) (w_cache w) (w_store w) (w_events w ++ [e]) (w_sent w) (w_shadowed w) (w_out w) (w_ext w) (w_tick w).
Definition note_sent (call : ProviderCall) (w : World) : World :=
  mkW (w_limiter w) (w_chain w) (w_cache w) (w_store w) (w_events w) (w_sent w ++ [call]) (w_shadowed w) (w_out w) (w_ext w) (w_tick w).
Definition note_shadow (s : Deployment * ShadowRequest) (w : World) : World :=
  mkW (w_limiter w) (w_chain w) (w_cache w) (w_store w) (w_events w) (w_sent w) (w_shadowed w ++ [s]) (w_out w) (w_ext w) (w_tick w).
Definition set_out (m : replacements) (w : World) : World :=
  mkW (w_limiter w) (w_chain w) (w_cache w) (w_store w) (w_events w) (w_sent w) (w_shadowed w) m (w_ext w) (w_tick w).
Definition set_ext (x : X) (w : World) : World :=
  mkW (w_limiter w) (w_chain w) (w_cache w) (w_store w) (w_events w) (w_sent w) (w_shadowed w) (w_out w) x (w_tick w).

Context (p : Pipeline).

Definition now (w : World) : time * World :=
  (clk p (w_tick w),
   mkW (w_limiter w) (w_chain w) (w_cache w) (w_store w) (w_events w) (w_sent w) (w_shadowed w) (w_out w)
     (w_ext w) (w_tick w + 1)).

(** ** Stages *)

Definition authenticate (snap : Snapshot) (req : Request) (w : World) : (error + Principal) * World :=
  match ParseAPIKey (req_APIKey req) with
  | inl err => (inl err, w)
  | inr (prefix, secret) =>
      match TenantForPrefix snap prefix with
      | None => (inl (New CodeUnauthenticated "unknown api key"), w)
      | Some tenant =>
          match lookupPrincipal snap tenant (ComputeKeyLookup p (pepper p) secret) with
          | None => (inl (New CodeUnauthenticated "unknown api key"), w)
          | Some principal =>
              let '(t, w) := now w in
              match Validate principal t with
              | Some err => (inl err, w)
              | None => (inr principal, w)
              end
          end
      end
  end.

(** The principal with what a policy decision stamps on it. *)
Definition stamp (principal : Principal) (d : PolicyDecision) : Principal :=
  mkPrincipal (p_KeyID principal) (p_Tenant principal) (p_Org principal) (p_Team principal)
    (p_User principal) (p_App principal) (p_Roles principal) (p_Models principal) (p_Budgets principal)
    (if negb (bool_decide (dec_DataClass d = "")) then dec_DataClass d else p_DefaultClass principal)
    (if p_MinTrustTier principal <? dec_MinTrustTier d then dec_MinTrustTier d else p_MinTrustTier principal)
    (p_Limits principal) (p_Deprecated principal) (p_NotAfter principal).

Definition applyPolicy (snap : Snapshot) (principal : Principal) (req : Request) (w : World)
    : (error + (Principal * Request)) * World :=
  match PolicyBytes snap (p_Tenant principal) with
  | [] => (inr (principal, req), w)
  | raw =>
      let '(cache, r) := Cache_For (unmarshal p) (ParsePrefix p) (w_cache w) (p_Tenant principal)
                           (Digest (GlobalVersion snap)) raw in
      let w := set_cache cache w in
      match r with
      | inl err => (inl (GwError CodeForbidden (Msg "policy could not be evaluated" []) false (Some err)), w)
      | inr bundle =>
          let d := Evaluate bundle
                     (mkInput (Model (req_Meta req)) (meta_Endpoint (req_Meta req)) (p_Roles principal)
                        (region p) (SourceIP (req_Meta req)) (payloadBytes (PayloadBytes (req_Meta req)))) in
          if negb (Policy.Allowed d) then
            let reason := if bool_decide (Policy.Reason d = "") then "refused by policy" else Policy.Reason d in
            (inl (Newf CodeForbidden "%s (rule %s)" [AStr reason; AStr (RuleID d)]), w)
          else
            (inr (stamp principal d,
                  mkRequest (req_Meta req) (req_APIKey req) (req_Body req) (DeepInspection d)), w)
      end
  end.

(** [admit_]: the principal and the request as policy left them. *)
Definition admit_ (snap : Snapshot) (principal : Principal) (req : Request) (w : World)
    : (error + (Principal * Request)) * World :=
  if negb (Permits (p_Models principal) (Model (req_Meta req)))
  then (inl (Newf CodeForbidden "this key may not call %q" [AStr (Model (req_Meta req))]), w)
  else
    let '(r, w) := applyPolicy snap principal req w in
    match r with
    | inl err => (inl err, w)
    | inr (principal, req) =>
        match DeniedBudget snap principal with
        | Some b => (inl (Newf CodeBudgetExhausted "budget %q is exhausted" [AStr (bud_ID b)]), w)
        | None =>
            let '(d, l) := rl_Admit principal (w_limiter w) in
            let w := set_limiter l w in
            if negb (Limits.Allowed d)
            then (inl (Newf (Limits.Reason d) "rate limit exceeded; retry in %s"
                             [ADur (Round (Limits.RetryAfter d) Second)]), w)
            else (inr (principal, req), w)
        end
    end.

Definition guard (snap : Snapshot) (principal : Principal) (req : Request) (w : World)
    : (error + bytes) * World :=
  match Guardrails snap (p_Tenant principal) PhaseRequest with
  | [] => (inr (req_Body req), w)
  | bindings =>
      let '(r, c) := gc_Run bindings
                       (mkGuardIn PhaseRequest (req_Meta req) (p_DefaultClass principal) TrustUnset (req_Body req))
                       (w_chain w) in
      let w := set_chain c w in
      match r with
      | inl err => (inl err, w)
      | inr o =>
          if out_Denied o
          then (inl (Newf CodeGuardrailDenied "request refused by the %s guardrail" [AStr (out_Reason o)]), w)
          else (inr (out_Payload o), w)
      end
  end.

(** What the detectors answered, and what is known to have gone wrong with the deep tier. *)
Definition detect_all (req : Request) (w : World) : (list Match * option error) * World :=
  if deepInspection req then
    match ner p with
    | None => (((DetectAll [inr (Detect (req_Body req))]).1,
                Some (New CodeUnavailable "this worker has no NER sidecar")), w)
    | Some detect =>
        let '(r, x) := detect (req_Body req) (w_ext w) in
        let answer := match r with inl err => inl err | inr es => inr (toMatches (req_Body req) es) end in
        let '(found, errs) := DetectAll [inr (Detect (req_Body req)); answer] in
        ((found, head errs), set_ext x w)
    end
  else (((DetectAll [inr (Detect (req_Body req))]).1, None), w).

(** The rest of [protect], from the matches on; [None] is a panic while slicing the payload. *)
Definition protect_with (strategy : Strategy) (found : list Match) (principal : Principal) (req : Request)
    (w : World) : option (error + (bytes * replacements)) * World :=
  match TransformMatches (hmac12 p) (req_Body req) found strategy (pepper p) with
  | None => (None, w)
  | Some r =>
      if t_Count r =? 0 then (Some (inr (req_Body req, ∅)), w)
      else
        match bool_decide (strategy = StrategyTokenize), vault p with
        | true, Some v =>
            let '(t, w) := now w in
            let '(err, s) := Put v t (p_Tenant principal) (RequestID (req_Meta req))
                               (map_to_list (t_Replacements r)) (w_store w) in
            let w := set_store s w in
            match err with
            | Some e => (Some (inl e), w)
            | None => (Some (inr (t_Payload r, t_Replacements r)), w)
            end
        | _, _ => (Some (inr (t_Payload r, t_Replacements r)), w)
        end
  end.

Definition protect (principal : Principal) (req : Request) (d : Deployment) (w : World)
    : option (error + (bytes * replacements)) * World :=
  let strategy := strategyFor (p_DefaultClass principal) (dep_TrustTier d) in
  if bool_decide (strategy = StrategyNone) then (Some (inr (req_Body req, ∅)), w)
  else
    let '((found, deepErr), w) := detect_all req w in
    match deepErr with
    | Some err =>
        if bool_decide (strategy = StrategyTokenize)
        then (Some (inl (GwError CodeUnavailable
                           (Msg "deep inspection was required and is unavailable" []) false (Some err))), w)
        else protect_with strategy found principal req w
    | None => protect_with strategy found principal req w
    end.

(** ** Routing and execution *)

Definition St : Type := RouterState * World.

Definition lift {A} (f : World -> A * World) (st : St) : A * St :=
  let '(a, w) := f st.2 in (a, (st.1, w)).
Definition on_world (f : World -> World) (st : St) : St := (st.1, f st.2).

(** The floor of the whole candidate list. *)
Definition minTier (snap : Snapshot) (principal : Principal) : TrustTier :=
  if MinTrustTier snap (p_Tenant principal) <? p_MinTrustTier principal
  then p_MinTrustTier principal else MinTrustTier snap (p_Tenant principal).

Definition selection (snap : Snapshot) (principal : Principal) (req : Request) : SelectionInput :=
  mkSelection snap (p_Tenant principal) (Model (req_Meta req)) (meta_Endpoint (req_Meta req))
    (minTier snap principal) [] ObjectiveBalanced (region p) (Z.quot (PayloadBytes (req_Meta req)) 4).

Definition route (snap : Snapshot) (principal : Principal) (req : Request) (st : St)
    : (error + list Candidate) * St :=
  let '(r, rs) := Select (Exp2 p) (clk p) (Endpoints p) (router p) (providers p) (draw p (w_tick st.2))
                    (selection snap principal req) st.1 in
  (r, (rs, st.2)).

(** A slice out of range, which [protect_spec] shows cannot happen. *)
Definition panicked : error := Foreign "runtime error: slice bounds out of range" None.

(** One attempt: the closure [adapt] hands to [Execute]. *)
Definition attempt (principal : Principal) (req : Request) (streaming : bool)
    (timeout : duration) (provider : P) (d : Deployment) (st : St)
    : (option ProviderResponse * option Strm * option error) * St :=
  let w := st.2 in
  let '(credential, x) := resolve p (dep_CredentialRef d) (w_ext w) in
  let w := set_ext x w in
  match credential with
  | inl err => ((None, None, Some err), (st.1, w))
  | inr credential =>
      let '(protected, w) := protect principal req d w in
      match protected with
      | None => ((None, None, Some panicked), (st.1, w))
      | Some (inl err) => ((None, None, Some err), (st.1, w))
      | Some (inr (body, repl)) =>
          let w := set_out repl w in
          let call := mkCall d (req_Meta req) body credential in
          let w := note_sent call w in
          if streaming then
            let '(r, x) := stream p timeout provider call (w_ext w) in
            let w := set_ext x w in
            match r with
            | inl err => ((None, None, Some err), (st.1, w))
            | inr chunks => ((None, Some chunks, None), (st.1, w))
            end
          else
            let '(r, x) := invoke p timeout provider call (w_ext w) in
            let w := set_ext x w in
            match r with
            | inl err => ((None, None, Some err), (st.1, w))
            | inr response => ((Some response, None, None), (st.1, w))
            end
      end
  end.

Definition attempt_env (principal : Principal) (req : Request) (streaming : bool) : Env P Strm World :=
  mkEnv (fun name st => (providers p name, st))
    (fun d st => lift (fun w => let '(live, x) := sleep p d (w_ext w) in (live, set_ext x w)) st)
    (attempt principal req streaming).

(** [adapt]: nothing has been replaced before the first attempt. *)
Definition adapt (candidates : list Candidate) (req : Request) (principal : Principal) (streaming : bool)
    (st : St) : (Router.Result Strm * option error) * St :=
  Execute (Exp2 p) (clk p) (router p) (attempt_env principal req streaming) (observed p)
    (ctxDeadline p) candidates (Deadline (req_Meta req)) (on_world (set_out ∅) st).

(** ** Accounting *)

Definition outcome_of (err : option error) : Code :=
  match err with None => "" | Some _ => CodeOf err end.

Definition emitUsage (snap : Snapshot) (req : Request) (r : GResult) (d : Deployment) (streaming : bool)
    (err : option error) (w : World) : World :=
  let cost := For (dep_Cost d) (res_Usage r) in
  let '(t, w) := now w in
  Emit (EvUsage (mkUsageEvent (RequestID (req_Meta req)) t (p_Tenant (res_Principal r))
          (p_KeyID (res_Principal r)) (Tier snap (p_Tenant (res_Principal r))) (res_Deployment r)
          (res_Route r) (dep_Provider d) streaming false (res_Stages r)
          (Input (res_Usage r)) (Output (res_Usage r)) (CachedInput (res_Usage r)) (CacheWrite (res_Usage r))
          cost cost (Milliseconds (res_Latency r)) (res_TTFB r) (outcome_of err)
          (Number (GlobalVersion snap)) (budgetIDs (p_Budgets (res_Principal r))))) w.

Definition emitAudit (snap : Snapshot) (req : Request) (r : GResult) (redactions : Z)
    (err : option error) (w : World) : World :=
  let '(action, reason) := auditable req (res_Principal r) redactions err in
  if bool_decide (action = "") then w
  else
    let resource := if negb (bool_decide (res_Deployment r = "")) then res_Deployment r
                    else Model (req_Meta req) in
    let '(t, w) := now w in
    Emit (EvAudit (mkAuditEvent (RequestID (req_Meta req) +:+ ":" +:+ action) (RequestID (req_Meta req)) t
            (p_Tenant (res_Principal r)) (p_KeyID (res_Principal r)) action resource (CodeOf err)
            reason (SourceIP (req_Meta req)) (Number (GlobalVersion snap)))) w.

(** The [emit] closure of both handlers: the latency so far, then the two records. *)
Definition emit (snap : Snapshot) (req : Request) (started : time) (streaming : bool) (r : GResult)
    (d : Deployment) (stages : list StageTiming) (redactions : Z) (err : option error) (w : World)
    : GResult * World :=
  let '(t, w) := now w in
  let r := mkGResult (res_StatusCode r) (res_Body r) (res_Principal r) (res_Deployment r) (res_Route r)
             (res_Usage r) (Sub t started) stages (res_TTFB r) in
  let w := emitUsage snap req r d streaming err w in
  (r, emitAudit snap req r redactions err w).

(** [runStage]: run a stage between two clock readings and note what it cost. *)
Definition runStage {A} (stages : list StageTiming) (name : string) (f : St -> (error + A) * St) (st : St)
    : (error + A) * list StageTiming * St :=
  let '(t1, st) := lift now st in
  let '(r, st) := f st in
  let '(t2, st) := lift now st in
  let outcome := match r with inl err => CodeOf (Some err) | inr _ => "" end in
  (r, stages ++ [mkStage name (Sub t2 t1) outcome], st).

Definition Release (principal : Principal) (w : World) : World :=
  set_limiter (rl_Release principal (w_limiter w)) w.
Definition RecordTokens (principal : Principal) (tokens : Z) (w : World) : World :=
  set_limiter (rl_RecordTokens principal tokens (w_limiter w)) w.

(** [vault.Forget] when there is a vault and something to forget. *)
Definition forget (principal : Principal) (req : Request) (m : replacements) (w : World) : World :=
  match vault p with
  | Some v =>
      if bool_decide (m = ∅) then w
      else
        let '(t, w) := now w in
        set_store (Forget v t (p_Tenant principal) (RequestID (req_Meta req)) (map_to_list m).*1 (w_store w)) w
  | None => w
  end.

Definition mirror (snap : Snapshot) (served : Deployment) (req : Request) (principal : Principal) (w : World)
    : World :=
  if shadows p then
    note_shadow (served,
      mkShadow (req_Meta req) (req_Body req) (p_Tenant principal) (p_KeyID principal)
        (Tier snap (p_Tenant principal)) (Number (GlobalVersion snap)) (budgetIDs (p_Budgets principal))) w
  else w.

Definition with_principal (r : GResult) (principal : Principal) : GResult :=
  mkGResult (res_StatusCode r) (res_Body r) principal (res_Deployment r) (res_Route r) (res_Usage r)
    (res_Latency r) (res_Stages r) (res_TTFB r).
Definition with_deployment (r : GResult) (d : Deployment) : GResult :=
  mkGResult (res_StatusCode r) (res_Body r) (res_Principal r) (dep_ID d) (dep_Key d) (res_Usage r)
    (res_Latency r) (res_Stages r) (res_TTFB r).
Definition with_body (req : Request) (body : bytes) : Request :=
  mkRequest (req_Meta req) (req_APIKey req) body (deepInspection req).

(** A failing exit: the records, then the result so far with the error. *)
Definition fail_with (snap : Snapshot) (req : Request) (started : time) (streaming : bool) (r : GResult)
    (d : Deployment) (stages : list StageTiming) (err : error) (st : St) : (GResult * option error) * St :=
  let '(r, st) := lift (emit snap req started streaming r d stages 0 (Some err)) st in
  ((r, Some err), st).

(** ** Handle *)

(** A served request: from the response to the mirror. *)
Definition complete (snap : Snapshot) (req : Request) (principal : Principal) (started : time)
    (r : GResult) (executed : Router.Result Strm) (stages : list StageTiming) (w : World) : GResult * World :=
  let d := r_Deployment executed in
  let resp := default (mkResponse 0 [] NoUsage) (r_Response executed) in
  let repl := w_out w in
  let r := with_deployment r d in
  let r := mkGResult (StatusCode resp) (Restore (resp_Body resp) repl) (res_Principal r) (res_Deployment r)
             (res_Route r) (resp_Usage resp) (res_Latency r) (res_Stages r) (res_TTFB r) in
  let w := forget principal req repl w in
  let w := RecordTokens principal (Core.Total (resp_Usage resp)) w in
  let '(r, w) := emit snap req started false r d stages (Z.of_nat (size repl)) None w in
  (r, mirror snap d req principal w).

(** From the candidates on. *)
Definition serve_candidates (snap : Snapshot) (req : Request) (principal : Principal) (started : time)
    (r : GResult) (cands : list Candidate) (stages : list StageTiming) (st : St)
    : (GResult * option error) * St :=
  let d := from_option cand_Deployment NoDeployment (head cands) in
  let r := with_deployment r d in
  let '(executed, stages, st) :=
    runStage stages "adapt"
      (fun st => let '((res, err), st) := adapt cands req principal false st in
                 (match err with Some e => inl e | None => inr res end, st)) st in
  match executed with
  | inl err => fail_with snap req started false r d stages err st
  | inr executed =>
      let '(r, st) := lift (complete snap req principal started r executed stages) st in
      ((r, None), st)
  end.

(** Everything after admission. *)
Definition serve (snap : Snapshot) (req : Request) (principal : Principal) (started : time)
    (r : GResult) (stages : list StageTiming) (st : St) : (GResult * option error) * St :=
  let '(body, stages, st) := runStage stages "guard" (lift (guard snap principal req)) st in
  match body with
  | inl err => fail_with snap req started false r NoDeployment stages err st
  | inr body =>
      let req := with_body req body in
      let '(cands, stages, st) := runStage stages "route" (route snap principal req) st in
      match cands with
      | inl err => fail_with snap req started false r NoDeployment stages err st
      | inr cands => serve_candidates snap req principal started r cands stages st
      end
  end.

Definition Handle (snap : Snapshot) (req : Request) (st : St) : (GResult * option error) * St :=
  let '(started, st) := lift now st in
  let '(principal, stages, st) := runStage [] "authenticate" (lift (authenticate snap req)) st in
  match principal with
  | inl err => fail_with snap req started false no_result NoDeployment stages err st
  | inr principal =>
      let r := with_principal no_result principal in
      let '(admitted, stages, st) := runStage stages "admit" (lift (admit_ snap principal req)) st in
      match admitted with
      | inl err => fail_with snap req started false r NoDeployment stages err st
      | inr (principal, req) =>
          let '(out, st) := serve snap req principal started r stages st in
          (out, on_world (Release principal) st)
      end
  end.

(** ** HandleStream *)

(** What the closures of a stream result capture. *)
Record Finishing := mkFinishing {
  fin_snap : Snapshot; fin_req : Request; fin_started : time; fin_principal : Principal;
  fin_redactions : Z }.

Record StreamResult := mkStream {
  str_Chunks : option Strm;
  str_Principal : Principal;
  str_Deployment : DeploymentID;
  str_Route : RoutingKey;
  str_Restorer : option Restorer;
  str_deployment : Deployment;
  str_finish : option Finishing;
  str_releaseLimit : option Principal;
  str_forget : option (Principal * Request * replacements);
  str_finished : bool }.
Definition no_stream : StreamResult :=
  mkStream None NoPrincipal "" (mkRoutingKey "" "") None NoDeployment None None None false.

(** What the [emit] closure and [finish] report of a stream. *)
Definition stream_report (r : StreamResult) : GResult :=
  mkGResult 0 [] (str_Principal r) (str_Deployment r) (str_Route r) NoUsage 0 [] 0.

Definition stream_fail (snap : Snapshot) (req : Request) (started : time) (r : StreamResult)
    (stages : list StageTiming) (err : error) (st : St) : (StreamResult * option error) * St :=
  let '(_, st) := lift (emit snap req started true (stream_report r) (str_deployment r) stages 0 (Some err)) st in
  ((r, Some err), st).

(** From the candidates on. *)
Definition stream_candidates (snap : Snapshot) (req : Request) (principal : Principal) (started : time)
    (r : StreamResult) (cands : list Candidate) (stages : list StageTiming) (st : St)
    : (StreamResult * option error) * St :=
  let '(t1, st) := lift now st in
  let '((executed, err), st) := adapt cands req principal true st in
  let '(t2, st) := lift now st in
  let stages := stages ++ [mkStage "adapt" (Sub t2 t1) (outcome_of err)] in
  match err with
  | Some err =>
      let r :=
        match last (r_Attempts executed) with
        | Some a => mkStream None (str_Principal r) (at_Deployment a) (str_Route r) None
                      (str_deployment r) None (str_releaseLimit r) None false
        | None => r
        end in
      stream_fail snap req started r stages err st
  | None =>
      let d := r_Deployment executed in
      let repl := w_out st.2 in
      ((mkStream (r_Stream executed) (str_Principal r) (dep_ID d) (dep_Key d)
          (Some (NewRestorer repl)) d
          (Some (mkFinishing snap req started principal (Z.of_nat (size repl))))
          (str_releaseLimit r)
          (match vault p with
           | Some _ => if bool_decide (repl = ∅) then None else Some (principal, req, repl)
           | None => None
           end) false, None), st)
  end.

Definition serve_stream (snap : Snapshot) (req : Request) (principal : Principal) (started : time)
    (r : StreamResult) (stages : list StageTiming) (st : St) : (StreamResult * option error) * St :=
  let '(body, stages, st) := runStage stages "guard" (lift (guard snap principal req)) st in
  match body with
  | inl err => stream_fail snap req started r stages err st
  | inr body =>
      let req := with_body req body in
      let '(cands, stages, st) := runStage stages "route" (route snap principal req) st in
      match cands with
      | inl err => stream_fail snap req started r stages err st
      | inr cands => stream_candidates snap req principal started r cands stages st
      end
  end.

Definition HandleStream (snap : Snapshot) (req : Request) (st : St) : (StreamResult * option error) * St :=
  let '(started, st) := lift now st in
  let '(principal, stages, st) := runStage [] "authenticate" (lift (authenticate snap req)) st in
  match principal with
  | inl err => stream_fail snap req started no_stream stages err st
  | inr principal =>
      let r := mkStream None principal "" (mkRoutingKey "" "") None NoDeployment None None None false in
      let '(admitted, stages, st) := runStage stages "admit" (lift (admit_ snap principal req)) st in
      match admitted with
      | inl err => stream_fail snap req started r stages err st
      | inr (principal, req) =>
          let r := mkStream None (str_Principal r) "" (mkRoutingKey "" "") None NoDeployment None
                     (Some principal) None false in
          serve_stream snap req principal started r stages st
      end
  end.

(** The [finish] closure. *)
Definition finish (f : Finishing) (r : StreamResult) (usage : TokenUsage) (ttfb : duration)
    (err : option error) (w : World) : World :=
  let w := RecordTokens (fin_principal f) (Core.Total usage) w in
  let '(t, w) := now w in
  let rep := mkGResult 0 [] (str_Principal r) (str_Deployment r) (str_Route r) usage
               (Sub t (fin_started f)) [] ttfb in
  let w := emitUsage (fin_snap f) (fin_req f) rep (str_deployment r) true err w in
  emitAudit (fin_snap f) (fin_req f) rep (fin_redactions f) err w.

(** [Finish], once: the vault entries, the slot, then the records. *)
Definition Finish (r : StreamResult) (usage : TokenUsage) (ttfb : duration) (err : option error) (w : World)
    : StreamResult * World :=
  if str_finished r then (r, w)
  else
    let w := match str_forget r with
             | Some (principal, req, m) => forget principal req m w
             | None => w
             end in
    let w := match str_releaseLimit r with Some principal => Release principal w | None => w end in
    let w := match str_finish r with Some f => finish f r usage ttfb err w | None => w end in
    (mkStream (str_Chunks r) (str_Principal r) (str_Deployment r) (str_Route r) (str_Restorer r)
       (str_deployment r) (str_finish r) (str_releaseLimit r) (str_forget r) true, w).

(** ** ShadowCall *)

Definition emitShadowUsage (d : Deployment) (req : ShadowRequest) (usage : TokenUsage) (latency : duration)
    (err : option error) (w : World) : World :=
  let cost := For (dep_Cost d) usage in
  let '(t, w) := now w in
  Emit (EvUsage (mkUsageEvent (RequestID (sh_Meta req) +:+ ":shadow:" +:+ dep_ID d) t (sh_Tenant req)
          (sh_Principal req) (sh_Tier req) (dep_ID d) (dep_Key d) (dep_Provider d) false true []
          (Input usage) (Output usage) (CachedInput usage) (CacheWrite usage) cost 0
          (Milliseconds latency) 0 (outcome_of err) (sh_SnapshotVersion req) (sh_BudgetIDs req))) w.

(** The principal shaped for the transform. *)
Definition shadow_principal (req : ShadowRequest) : Principal :=
  mkPrincipal (sh_Principal req) (sh_Tenant req) "" "" "" "" [] (mkAllowlist false []) [] "" TrustUnset
    NoLimits false 0.

Definition ShadowCall (timeout : duration) (d : Deployment) (req : ShadowRequest) (w : World)
    : option error * World :=
  let '(started, w) := now w in
  match providers p (dep_Provider d) with
  | None => (Some (Newf CodeInternal "no provider %q for shadow %s" [AStr (dep_Provider d); AStr (dep_ID d)]), w)
  | Some provider =>
      let '(credential, x) := resolve p (dep_CredentialRef d) (w_ext w) in
      let w := set_ext x w in
      match credential with
      | inl err => (Some err, w)
      | inr credential =>
          let '(protected, w) := protect (shadow_principal req) (mkRequest (sh_Meta req) "" (sh_Body req) false) d w in
          match protected with
          | None => (Some panicked, w)
          | Some (inl err) => (Some err, w)
          | Some (inr (body, _)) =>
              let call := mkCall d (sh_Meta req) body credential in
              let w := note_sent call w in
              let '(r, x) := invoke p timeout provider call (w_ext w) in
              let w := set_ext x w in
              let '(ended, w) := now w in
              match r with
              | inl err => (Some err, emitShadowUsage d req NoUsage (Sub ended started) (Some err) w)
              | inr resp => (None, emitShadowUsage d req (resp_Usage resp) (Sub ended started) None w)
              end
          end
      end
  end.
End pipeline.

Arguments Pipeline : clear implicits.
Arguments World : clear implicits.
Arguments mkW {L C S X}.
Arguments St : clear implicits.
