(* ===== verification/PipelineFacts.v ===== *)
(** * What the request path guarantees

    One lemma per stage says what it may change and what its success means; [Handle_effect]
    composes them into everything a request does to the world.  From it: nothing reaches a
    provider without every check having passed and the payload having been prepared for that
    destination; one usage record per request on every path; the concurrency slot is returned on
    every path, against any limiter that keeps its laws, and the gateway's own does. *)
From S2P Require Import Prelude Errors Core Snapshot SnapshotFacts Policy Float64 Breaker Kv Strconv.
From Stdlib Require Import ZArith Lia Ascii Sorted.
From stdpp Require Import base gmap strings list.
From S2P Require Import Placeholder Restorer Detect Transform Limits LimitsFacts Guardrails Router RouterFacts Shadow Pipeline.
Open Scope Z_scope.
Open Scope gw_scope.

(** ** Preparing a payload *)

(** Matches in bounds as every detector hands them over. *)
Definition in_bounds (payload : bytes) (m : Match) : Prop :=
  0 <= m_Start m < m_End m /\ m_End m <= Z.of_nat (length payload)
  /\ m_Value m = slice payload (Z.to_nat (m_Start m)) (Z.to_nat (m_End m)).

(** Matches the transform can use, with every match the deterministic tier reports among them or
    starting inside one of them. *)
Definition covering (payload : bytes) (ms : list Match) : Prop :=
  good_matches payload ms
  /\ forall m, m ∈ Detect payload -> exists k, k ∈ ms /\ m_Start k <= m_Start m < m_End k.

Lemma toMatches_bounds payload es : Forall (in_bounds payload) (toMatches payload es).
Proof.
  apply list.Forall_forall. intros m Hm. apply list_elem_of_omap in Hm as (e & _ & He).
  destruct (_ || _) eqn:E; [done|]. case_bool_decide as Hv; [|done]. cbn in He. simplify_eq.
  zify_bools. unfold in_bounds. cbn. split_and!; [lia..|done].
Qed.

Lemma Detect_bounds payload : Forall (in_bounds payload) (Detect payload).
Proof.
  apply list.Forall_forall. intros m Hm. apply claims_bounds, found_spec.
  unfold Detect, withoutOverlaps in Hm. destruct (_ <? 2)%nat; [done|].
  apply keep_disjoint_incl in Hm. by rewrite sortByStart_perm in Hm.
Qed.

Lemma merged_covering payload extra :
  Forall (in_bounds payload) extra -> covering payload (withoutOverlaps (Detect payload ++ extra)).
Proof.
  intros Hx. assert (Hall : Forall (in_bounds payload) (Detect payload ++ extra)).
  { apply Forall_app. split; [apply Detect_bounds|done]. }
  destruct (withoutOverlaps_spec (Detect payload ++ extra)) as (H1 & H2 & H3).
  { eapply Forall_impl; [exact Hall|]. unfold in_bounds. tauto. }
  split; [split; [exact H1|]|].
  - rewrite list.Forall_forall in *. intros m Hm%H2%Hall. destruct Hm as (? & ? & ?). split_and!; [lia..|done].
  - intros m Hm. apply H3, elem_of_app. by left.
Qed.

(** ** Worlds up to the clock *)
Section facts.
Context {L C S P Strm X : Type} `{!RateLimiter L} `{!GuardrailChain C} `{!KVStore S}.
Context (p : Pipeline P Strm X).
Implicit Types (w : World L C S X) (st : St L C S X).

(** What a stage that only thinks leaves alone. *)
Definition logs w := (w_events w, w_sent w, w_shadowed w).

(** What a payload must be turned into for a destination. *)
Definition prepared (principal : Principal) (body : bytes) (d : Deployment) (sent : bytes) : Prop :=
  let strategy := strategyFor (p_DefaultClass principal) (dep_TrustTier d) in
  if bool_decide (strategy = StrategyNone) then sent = body
  else exists ms r, covering body ms
    /\ TransformMatches (hmac12 p) body ms strategy (pepper p) = Some r /\ sent = t_Payload r.

Lemma detect_all_spec req w :
  let '((ms, err), w') := detect_all p req w in
  covering (req_Body req) ms /\ logs w' = logs w /\ w_limiter w' = w_limiter w.
Proof.
  unfold detect_all.
  assert (H0 : covering (req_Body req) (DetectAll [inr (Detect (req_Body req))]).1).
  { apply merged_covering. constructor. }
  destruct (deepInspection req); [|done]. destruct (ner p) as [detect|]; [|done].
  destruct (detect _ _) as [[err|es] x]; cbn; (split_and!; [|done|done]).
  - exact H0.
  - rewrite app_nil_r. apply merged_covering, toMatches_bounds.
Qed.

Lemma TransformMatches_total payload ms strategy :
  good_matches payload ms -> replacing strategy ->
  exists r, TransformMatches (hmac12 p) payload ms strategy (pepper p) = Some r
    /\ (t_Count r = 0 -> t_Payload r = payload).
Proof.
  intros Hg Hst. destruct (segments _ _ Hg) as (segs & rest & -> & ->).
  destruct segs as [|s segs].
  - exists (mkTransformed (flatten [] rest) ∅ 0). split; [|done].
    unfold TransformMatches. by destruct (_ || _).
  - eexists. split; [apply TransformMatches_segments; done|]. cbn. lia.
Qed.

Lemma strategyFor_cases class tier :
  strategyFor class tier = StrategyNone \/ replacing (strategyFor class tier).
Proof.
  unfold strategyFor, replacing. destruct (_ <=? _); [by left|]. destruct (_ || _); [by right; right|].
  destruct (bool_decide _); [by right; left|by left].
Qed.

Lemma protect_with_spec strategy ms principal req w :
  covering (req_Body req) ms -> replacing strategy ->
  let '(r, w') := protect_with p strategy ms principal req w in
  logs w' = logs w /\ w_limiter w' = w_limiter w
  /\ match r with
     | None => False
     | Some (inl _) => True
     | Some (inr (body, repl)) =>
         exists t, TransformMatches (hmac12 p) (req_Body req) ms strategy (pepper p) = Some t
           /\ body = t_Payload t
     end.
Proof.
  intros [Hg _] Hst. unfold protect_with.
  destruct (TransformMatches_total _ _ _ Hg Hst) as (t & -> & H0).
  destruct (t_Count t =? 0) eqn:E; zify_bools.
  { split_and!; [done..|]. exists t. split; [done|]. symmetry. auto. }
  destruct (bool_decide _); [|split_and!; [done..|by exists t]].
  destruct (vault p); [|split_and!; [done..|by exists t]].
  cbn [now]. destruct (Put _ _ _ _ _ _) as [[e|] s]; (split_and!; [done..|]); [done|by exists t].
Qed.

(** Preparing a payload never panics, touches neither the records nor the limiter, and yields
    what the destination requires or an error. *)
Lemma protect_spec principal req d w :
  let '(r, w') := protect p principal req d w in
  logs w' = logs w /\ w_limiter w' = w_limiter w
  /\ match r with
     | None => False
     | Some (inl _) => True
     | Some (inr (body, repl)) => prepared principal (req_Body req) d body
     end.
Proof.
  unfold protect, prepared.
  pose proof (strategyFor_cases (p_DefaultClass principal) (dep_TrustTier d)) as Hcases.
  revert Hcases. generalize (strategyFor (p_DefaultClass principal) (dep_TrustTier d)).
  intros strategy [Hn|Hst].
  { rewrite Hn. done. }
  rewrite bool_decide_false by (by destruct Hst as [-> | ->]).
  pose proof (detect_all_spec req w) as Hd. destruct (detect_all p req w) as [[ms err] w1].
  destruct Hd as (Hcov & Hl & Hlim).
  pose proof (protect_with_spec strategy ms principal req w1 Hcov Hst) as Hp.
  assert (Hfin : let '(r, w') := protect_with p strategy ms principal req w1 in
    logs w' = logs w /\ w_limiter w' = w_limiter w
    /\ match r with
       | None => False
       | Some (inl _) => True
       | Some (inr (body, _)) => exists ms r, covering (req_Body req) ms
           /\ TransformMatches (hmac12 p) (req_Body req) ms strategy (pepper p) = Some r /\ body = t_Payload r
       end).
  { destruct (protect_with p strategy ms principal req w1) as [r w2]. destruct Hp as (Hl2 & Hlim2 & Hr).
    split_and!; [congruence..|]. destruct r as [[e|[body repl]]|]; [done| |done].
    destruct Hr as (t & Ht & Hb). by exists ms, t. }
  destruct err as [e|]; [|exact Hfin]. destruct (bool_decide _); [by split_and!|exact Hfin].
Qed.

(** ** The stages *)

(** The principal is the one the snapshot has for the presented key, and not expired at time [t]. *)
Definition authentic_at (t : time) (snap : Snapshot) (req : Request) (principal : Principal) : Prop :=
  exists prefix secret tenant, ParseAPIKey (req_APIKey req) = inr (prefix, secret)
    /\ TenantForPrefix snap prefix = Some tenant
    /\ lookupPrincipal snap tenant (ComputeKeyLookup p (pepper p) secret) = Some principal
    /\ Validate principal t = None.
(** For a request that found the world [w0]: the check is its third reading of the clock, after the
    start of the request and the start of the stage. *)
Definition authentic (w0 : World L C S X) : Snapshot -> Request -> Principal -> Prop := authentic_at (clk p (w_tick w0 + 2)).

(** What the stages before the limiter leave alone. *)
Definition settings w : Cache * C := (w_cache w, w_chain w).

Lemma authenticate_spec snap req w :
  let '(r, w') := authenticate p snap req w in
  logs w' = logs w /\ w_limiter w' = w_limiter w /\ settings w' = settings w
  /\ match r with inl _ => True | inr principal => authentic_at (clk p (w_tick w)) snap req principal end.
Proof.
  unfold authenticate, authentic_at. destruct (ParseAPIKey _) as [e|[prefix secret]] eqn:E1; [done|].
  destruct (TenantForPrefix snap prefix) as [tenant|] eqn:E2; [|done].
  destruct (lookupPrincipal snap tenant _) as [principal|] eqn:E3; [|done]. cbn [now].
  destruct (Validate principal _) eqn:E4; [done|]. split_and!; [done..|]. by eexists prefix, secret, tenant.
Qed.

(** Policy may only tighten: same identity, limits, budgets and models; a floor no lower. *)
Definition tightened (principal principal' : Principal) : Prop :=
  p_KeyID principal' = p_KeyID principal /\ p_Tenant principal' = p_Tenant principal
  /\ p_Limits principal' = p_Limits principal /\ p_Budgets principal' = p_Budgets principal
  /\ p_Models principal' = p_Models principal
  /\ p_MinTrustTier principal <= p_MinTrustTier principal'.

(** The policy stage let the request through: there is no policy, or the bundle the cache of [w0]
    gives for it allowed it and the decision is stamped on the principal and the request. *)
Definition permitted (w0 : World L C S X) (snap : Snapshot) (principal : Principal) (req : Request)
    (principal' : Principal) (req' : Request) : Prop :=
  match PolicyBytes snap (p_Tenant principal) with
  | [] => principal' = principal /\ req' = req
  | raw =>
      exists bundle,
        (Cache_For (unmarshal p) (ParsePrefix p) (w_cache w0) (p_Tenant principal) (Digest (GlobalVersion snap)) raw).2
          = inr bundle
        /\ let d := Evaluate bundle
                    (mkInput (Model (req_Meta req)) (meta_Endpoint (req_Meta req)) (p_Roles principal)
                       (region p) (SourceIP (req_Meta req)) (payloadBytes (PayloadBytes (req_Meta req)))) in
           Policy.Allowed d = true /\ principal' = stamp principal d
           /\ req' = mkRequest (req_Meta req) (req_APIKey req) (req_Body req) (DeepInspection d)
  end.

Lemma permitted_tightens w0 snap principal req principal' req' :
  permitted w0 snap principal req principal' req' ->
  tightened principal principal' /\ req_Meta req' = req_Meta req /\ req_Body req' = req_Body req.
Proof.
  unfold permitted, tightened. destruct (PolicyBytes _ _).
  - intros [-> ->]. split_and!; done || lia.
  - intros (? & _ & _ & -> & ->). split_and!; try done. cbn. destruct (_ <? _) eqn:E; zify_bools; lia.
Qed.

Lemma applyPolicy_spec snap principal req w :
  let '(r, w') := applyPolicy p snap principal req w in
  logs w' = logs w /\ w_limiter w' = w_limiter w /\ w_chain w' = w_chain w
  /\ match r with
     | inl _ => True
     | inr (principal', req') => permitted w snap principal req principal' req'
     end.
Proof.
  unfold applyPolicy, permitted. destruct (PolicyBytes _ _) as [|b raw]; [done|].
  destruct (Cache_For _ _ _ _ _ _) as [cache [e|bundle]] eqn:Ec; [done|].
  destruct (negb _) eqn:Ea; [done|]. split_and!; [done..|].
  exists bundle. cbv zeta. apply negb_false_iff in Ea. by split_and!.
Qed.

(** Everything admission establishes. *)
Definition admissible (w0 : World L C S X) (snap : Snapshot) (req : Request) (principal0 principal : Principal) (req' : Request) : Prop :=
  Permits (p_Models principal0) (Model (req_Meta req)) = true
  /\ permitted w0 snap principal0 req principal req' /\ DeniedBudget snap principal = None.

(** What admission does to the limiter, and what an admitted request has passed. *)
Lemma admit_spec snap principal req w :
  let '(r, w') := admit_ p snap principal req w in
  (logs w' = logs w /\ w_chain w' = w_chain w)
  /\ match r with
     | inl _ => w_limiter w' = w_limiter w
         \/ exists principal' req' d, admissible w snap req principal principal' req'
              /\ rl_Admit principal' (w_limiter w) = (d, w_limiter w') /\ Limits.Allowed d = false
     | inr (principal', req') =>
         admissible w snap req principal principal' req'
         /\ exists d, rl_Admit principal' (w_limiter w) = (d, w_limiter w') /\ Limits.Allowed d = true
     end.
Proof.
  unfold admit_, admissible. destruct (Permits _ _) eqn:Ep; cbn [negb]; [|split; [done|by left]].
  pose proof (applyPolicy_spec snap principal req w) as Ha.
  destruct (applyPolicy p snap principal req w) as [[e|[principal' req']] w1];
    destruct Ha as (Hl & Hlim & Hch & Hr); [split; [done|by left]|].
  destruct (DeniedBudget snap principal') eqn:Ed; [split; [done|by left]|].
  rewrite <- Hlim. destruct (rl_Admit principal' (w_limiter w1)) as [d l] eqn:Er.
  destruct (Limits.Allowed d) eqn:Eal; cbn [negb]; (split; [done|]).
  - split; [done|]. by exists d.
  - right. by exists principal', req', d.
Qed.

(** The payload is what the guardrails, as [w0] has them, passed on. *)
Definition passed_guardrails (w0 : World L C S X) (snap : Snapshot) (principal : Principal) (req : Request) (body : bytes) : Prop :=
  match Guardrails snap (p_Tenant principal) PhaseRequest with
  | [] => body = req_Body req
  | bindings =>
      exists o,
        (gc_Run bindings
          (mkGuardIn PhaseRequest (req_Meta req) (p_DefaultClass principal) TrustUnset (req_Body req)) (w_chain w0)).1
          = inr o
        /\ out_Denied o = false /\ body = out_Payload o
  end.

Lemma guard_spec snap principal req w :
  let '(r, w') := guard snap principal req w in
  logs w' = logs w /\ w_limiter w' = w_limiter w
  /\ match r with inl _ => True | inr body => passed_guardrails w snap principal req body end.
Proof.
  unfold guard, passed_guardrails. destruct (Guardrails _ _ _) as [|b bs]; [done|].
  destruct (gc_Run _ _ _) as [[e|o] c] eqn:Eg; [done|].
  destruct (out_Denied o) eqn:Ed; [done|]. split_and!; [done..|]. by exists o.
Qed.

(** ** Execution *)

(** A call the request was cleared to make, with the payload its destination requires. *)
Definition cleared (snap : Snapshot) (principal : Principal) (req : Request) (c : ProviderCall) : Prop :=
  call_Deployment c ∈ reachable_deployments (selection p snap principal req)
  /\ Serving (call_Deployment c) = true
  /\ MinTrustTier snap (p_Tenant principal) <= dep_TrustTier (call_Deployment c)
  /\ p_MinTrustTier principal <= dep_TrustTier (call_Deployment c)
  /\ call_Meta c = req_Meta req
  /\ prepared principal (req_Body req) (call_Deployment c) (call_Body c).

Definition candidate_ok (snap : Snapshot) (principal : Principal) (req : Request) (c : Candidate) : Prop :=
  cand_Deployment c ∈ reachable_deployments (selection p snap principal req)
  /\ Serving (cand_Deployment c) = true
  /\ minTier snap principal <= dep_TrustTier (cand_Deployment c).

Lemma route_spec snap principal req st :
  let '(r, st') := route p snap principal req st in
  st'.2 = st.2
  /\ match r with
     | inl _ => True
     | inr cands => Forall (candidate_ok snap principal req) cands /\ cands <> []
     end.
Proof.
  unfold route. pose proof (Select_spec (Exp2 p) (clk p) (Endpoints p) (router p) (providers p)
    (draw p (w_tick st.2)) (selection p snap principal req) st.1) as Hs. cbv zeta in Hs.
  destruct (Select _ _ _ _ _ _ _ _) as [[e|cands] rs]; cbn [fst snd] in *; [done|]. split; [done|].
  destruct Hs as (raw & Hne & Hraw & ->). split.
  - apply list.Forall_forall. intros c Hc.
    assert (Hd : cand_Deployment c ∈ cand_Deployment <$> raw).
    { rewrite <- (applyObjective_deployments raw (selection p snap principal req)), <- sort_best_perm,
        <- (promote_perm _ (draw p (w_tick st.2))). by apply list_elem_of_fmap_2. }
    rewrite Hraw in Hd. apply list_elem_of_filter in Hd as [He Hd]. unfold eligible, meets_tier in He.
    zify_bools. split_and!; [done..|]. by apply AtLeast_spec.
  - intros H. apply (f_equal length) in H. rewrite promote_perm, sort_best_perm in H.
    rewrite <- (length_fmap cand_Deployment), applyObjective_deployments, length_fmap in H. by destruct raw.
Qed.

Lemma minTier_spec snap principal t :
  minTier snap principal <= t -> MinTrustTier snap (p_Tenant principal) <= t /\ p_MinTrustTier principal <= t.
Proof. unfold minTier. destruct (_ <? _) eqn:E; zify_bools; lia. Qed.

(** One attempt sends at most one call, and only a cleared one. *)
Lemma attempt_spec snap principal req streaming t provider c st :
  candidate_ok snap principal req c ->
  let st' := (attempt p principal req streaming t provider (cand_Deployment c) st).2 in
  w_events st'.2 = w_events st.2 /\ w_shadowed st'.2 = w_shadowed st.2 /\ w_limiter st'.2 = w_limiter st.2
  /\ exists new, w_sent st'.2 = w_sent st.2 ++ new /\ Forall (cleared snap principal req) new.
Proof.
  intros (Hin & Hserv & Htier). unfold attempt.
  destruct (resolve p _ _) as [[e|cred] x]; cbn [snd].
  { split_and!; [done..|]. exists []. by rewrite app_nil_r. }
  pose proof (protect_spec principal req (cand_Deployment c) (set_ext x st.2)) as Hp.
  destruct (protect p principal req (cand_Deployment c) (set_ext x st.2)) as [r w1].
  destruct Hp as (Hl & Hlim & Hr). unfold logs in Hl. cbn in Hl, Hlim. injection Hl as He Hs Hsh.
  destruct r as [[e|[body repl]]|]; [| |done].
  { cbn. rewrite He, Hs, Hsh, Hlim. split_and!; [done..|]. exists []. by rewrite app_nil_r. }
  set (call := mkCall _ _ body cred).
  assert (Hc : Forall (cleared snap principal req) [call]).
  { repeat constructor; try done. all: destruct (minTier_spec _ _ _ Htier); done. }
  destruct streaming; [destruct (stream p _ _ _ _) as [[e|a] x2]|destruct (invoke p _ _ _ _) as [[e|a] x2]];
    cbn; rewrite He, Hs, Hsh, Hlim; (split_and!; [done..|by exists [call]]).
Qed.

(** All of execution. *)
Lemma adapt_spec snap principal req streaming cands st :
  Forall (candidate_ok snap principal req) cands ->
  let st' := (adapt p cands req principal streaming st).2 in
  w_events st'.2 = w_events st.2 /\ w_shadowed st'.2 = w_shadowed st.2 /\ w_limiter st'.2 = w_limiter st.2
  /\ exists new, w_sent st'.2 = w_sent st.2 ++ new /\ Forall (cleared snap principal req) new.
Proof.
  intros Hc st'. rewrite list.Forall_forall in Hc.
  set (J := fun (w : World L C S X) (_ : list DeploymentID) =>
    w_events w = w_events st.2 /\ w_shadowed w = w_shadowed st.2 /\ w_limiter w = w_limiter st.2
    /\ exists new, w_sent w = w_sent st.2 ++ new /\ Forall (cleared snap principal req) new).
  pose proof (walk_invariant (Exp2 p) (clk p) (router p) (attempt_env p principal req streaming) (observed p)
    (ctxDeadline p) (Deadline (req_Meta req)) J) as HJ.
  specialize (HJ ltac:(done)
    ltac:(intros d x l Hx; cbn; unfold lift; destruct (sleep p _ _); exact Hx)
    0 cands [] None (on_world (set_out ∅) st)).
  subst st'. unfold adapt, Execute.
  destruct (walk _ _ _ _ _ _ _ _ _ _ _ _) as [[res err] st'] eqn:E. cbn [snd].
  apply HJ.
  - intros t pr c x l Hin (H1 & H2 & H3 & new & H4 & H5).
    destruct (attempt_spec snap principal req streaming t pr c x (Hc c Hin)) as (K1 & K2 & K3 & new' & K4 & K5).
    cbn [call attempt_env].
    split_and!; [exact (eq_trans K1 H1)|exact (eq_trans K2 H2)|exact (eq_trans K3 H3)|].
    exists (new ++ new'). split; [|by apply Forall_app].
    etransitivity; [exact K4|]. by rewrite H4, <- app_assoc.
  - split_and!; [done..|]. exists []. by rewrite app_nil_r.
Qed.

(** ** Records *)

(** One usage record, and at most one audit record after it: always one for a refusal. *)
Definition recorded (req : Request) (principal : Principal) (err : option error) (recs : list Event) : Prop :=
  exists u audit, recs = EvUsage u :: (match audit with Some a => [EvAudit a] | None => [] end)
    /\ ev_RequestID u = RequestID (req_Meta req) /\ ev_Outcome u = outcome_of err /\ ev_Shadow u = false
    /\ ev_Tenant u = p_Tenant principal /\ ev_KeyID u = p_KeyID principal
    /\ (err <> None -> meta_Endpoint (req_Meta req) <> "" ->
          exists a, audit = Some a /\ au_Outcome a = CodeOf err /\ au_Actor a = p_KeyID principal).

Lemma emitAudit_spec snap req r redactions err w :
  let w' := emitAudit p snap req r redactions err w in
  w_sent w' = w_sent w /\ w_shadowed w' = w_shadowed w /\ w_limiter w' = w_limiter w
  /\ exists audit, w_events w' = w_events w ++ (match audit with Some a => [EvAudit a] | None => [] end)
     /\ (err <> None -> meta_Endpoint (req_Meta req) <> "" ->
           exists a, audit = Some a /\ au_Outcome a = CodeOf err /\ au_Actor a = p_KeyID (res_Principal r)).
Proof.
  unfold emitAudit. destruct (auditable req (res_Principal r) redactions err) as [action reason] eqn:E.
  case_bool_decide as Ha; cbn.
  - split_and!; [done..|]. exists None. rewrite app_nil_r. split; [done|]. intros He Hne.
    destruct err; [|done]. cbn in E. by simplify_eq.
  - split_and!; [done..|]. eexists (Some _). split; [done|]. intros _ _. by eexists.
Qed.

Lemma emit_spec snap req started streaming r d stages redactions err w :
  let w' := (emit p snap req started streaming r d stages redactions err w).2 in
  w_sent w' = w_sent w /\ w_shadowed w' = w_shadowed w /\ w_limiter w' = w_limiter w
  /\ exists recs, w_events w' = w_events w ++ recs /\ recorded req (res_Principal r) err recs.
Proof.
  unfold emit. cbn [now snd].
  match goal with |- context [emitAudit p snap req ?r' redactions err ?w1] =>
    pose proof (emitAudit_spec snap req r' redactions err w1) as Ha end.
  cbn in Ha. destruct Ha as (H1 & H2 & H3 & audit & H4 & H5).
  split_and!; [exact H1|exact H2|exact H3|].
  eexists. split; [etransitivity; [exact H4|]; rewrite <- app_assoc; reflexivity|].
  eexists _, audit. by split_and!.
Qed.

Lemma forget_spec principal req m w :
  logs (forget p principal req m w) = logs w /\ w_limiter (forget p principal req m w) = w_limiter w.
Proof. unfold forget. destruct (vault p); [|done]. by destruct (bool_decide _). Qed.

(** The stage wrapper only reads the clock around the stage. *)
Lemma runStage_spec {A} stages name (f : St L C S X -> (error + A) * St L C S X) st :
  exists st1, logs st1.2 = logs st.2 /\ w_limiter st1.2 = w_limiter st.2
    /\ (settings st1.2 = settings st.2 /\ w_tick st1.2 = (w_tick st.2 + 1)%nat)
    /\ let '(r, _, st') := runStage p stages name f st in
       r = (f st1).1 /\ logs st'.2 = logs (f st1).2.2 /\ w_limiter st'.2 = w_limiter (f st1).2.2
       /\ settings st'.2 = settings (f st1).2.2.
Proof.
  unfold runStage. cbn [lift now].
  match goal with |- context [f ?x] => exists x; destruct (f x) as [r st2] end. done.
Qed.

(** Each stage as the handlers run it. *)
Definition quiet st st' : Prop := logs st'.2 = logs st.2 /\ w_limiter st'.2 = w_limiter st.2.

Lemma quiet_unfold st st' :
  quiet st st' -> w_events st'.2 = w_events st.2 /\ w_sent st'.2 = w_sent st.2 /\ w_limiter st'.2 = w_limiter st.2.
Proof. intros [Hl Hm]. unfold logs in Hl. by injection Hl as -> -> _. Qed.

Lemma authenticate_stage snap req stages st :
  let '(r, _, st') := runStage p stages "authenticate" (lift (authenticate p snap req)) st in
  quiet st st' /\ settings st'.2 = settings st.2
  /\ match r with inl _ => True | inr principal => authentic_at (clk p (w_tick st.2 + 1)) snap req principal end.
Proof.
  destruct (runStage_spec stages "authenticate" (lift (authenticate p snap req)) st) as (st1 & Hl1 & Hm1 & [Hs1 Ht1] & Hr1).
  destruct (runStage p stages "authenticate" _ st) as [[r stages1] st2]. destruct Hr1 as (-> & Hl2 & Hm2 & Hs2).
  unfold lift in *. pose proof (authenticate_spec snap req st1.2) as Ha.
  destruct (authenticate p snap req st1.2) as [ar aw]. cbn in *. destruct Ha as (Hal & Ham & Has & Hau).
  rewrite Ht1 in Hau. split; [split; congruence|]. split; [congruence|done].
Qed.

(** Admission looks at the cache alone. *)
Lemma admissible_cache w w' snap req principal principal' req' :
  w_cache w' = w_cache w -> admissible w snap req principal principal' req' -> admissible w' snap req principal principal' req'.
Proof. unfold admissible, permitted. by intros ->. Qed.

Lemma admit_stage w0 snap principal req stages st :
  w_cache st.2 = w_cache w0 ->
  let '(r, _, st') := runStage p stages "admit" (lift (admit_ p snap principal req)) st in
  logs st'.2 = logs st.2 /\ w_chain st'.2 = w_chain st.2
  /\ match r with
     | inl _ => w_limiter st'.2 = w_limiter st.2
         \/ exists principal' req' d, admissible w0 snap req principal principal' req'
              /\ rl_Admit principal' (w_limiter st.2) = (d, w_limiter st'.2) /\ Limits.Allowed d = false
     | inr (principal', req') =>
         admissible w0 snap req principal principal' req'
         /\ exists d, rl_Admit principal' (w_limiter st.2) = (d, w_limiter st'.2) /\ Limits.Allowed d = true
     end.
Proof.
  intros Hc. destruct (runStage_spec stages "admit" (lift (admit_ p snap principal req)) st) as (st1 & Hl1 & Hm1 & [Hs1 _] & Hr1).
  destruct (runStage p stages "admit" _ st) as [[r stages1] st2]. destruct Hr1 as (-> & Hl2 & Hm2 & Hs2).
  unfold lift in *. pose proof (admit_spec snap principal req st1.2) as Ha.
  destruct (admit_ p snap principal req st1.2) as [ar aw]. cbn in *. destruct Ha as ([Hal Hach] & Ha).
  unfold settings in Hs1, Hs2. injection Hs1 as Hs1 Hch1. injection Hs2 as _ Hch2.
  split_and!; [congruence..|]. rewrite Hm2, <- Hm1. assert (Hw : w_cache w0 = w_cache st1.2) by congruence.
  destruct ar as [e|[principal' req']].
  - destruct Ha as [Ha|(principal' & req' & d & H1 & H2)]; [by left|right]. exists principal', req', d.
    split; [by eapply admissible_cache|done].
  - destruct Ha as [H1 H2]. split; [by eapply admissible_cache|done].
Qed.

Lemma guard_stage w0 snap principal req stages st :
  w_chain st.2 = w_chain w0 ->
  let '(r, _, st') := runStage p stages "guard" (lift (guard snap principal req)) st in
  quiet st st' /\ match r with inl _ => True | inr body => passed_guardrails w0 snap principal req body end.
Proof.
  intros Hc. destruct (runStage_spec stages "guard" (lift (guard snap principal req)) st) as (st1 & Hl1 & Hm1 & [Hs1 _] & Hr1).
  destruct (runStage p stages "guard" _ st) as [[r stages1] st2]. destruct Hr1 as (-> & Hl2 & Hm2 & _).
  unfold lift in *. pose proof (guard_spec snap principal req st1.2) as Ha. unfold settings in Hs1. injection Hs1 as _ Hch.
  destruct (guard snap principal req st1.2) as [ar aw]. cbn in *. destruct Ha as (Hal & Ham & Hau).
  split; [split; congruence|]. unfold passed_guardrails in *. by rewrite <- Hc, <- Hch.
Qed.

Lemma route_stage snap principal req stages st :
  let '(r, _, st') := runStage p stages "route" (route p snap principal req) st in
  quiet st st'
  /\ match r with inl _ => True | inr cands => Forall (candidate_ok snap principal req) cands /\ cands <> [] end.
Proof.
  destruct (runStage_spec stages "route" (route p snap principal req) st) as (st1 & Hl1 & Hm1 & _ & Hr1).
  destruct (runStage p stages "route" _ st) as [[r stages1] st2]. destruct Hr1 as (-> & Hl2 & Hm2 & _).
  pose proof (route_spec snap principal req st1) as Ha.
  destruct (route p snap principal req st1) as [rr rst]. cbn in *. destruct Ha as (Hw & Hc).
  rewrite Hw in Hl2, Hm2. split; [split; congruence|done].
Qed.

Lemma complete_spec snap req principal started r executed stages w :
  let w' := (complete p snap req principal started r executed stages w).2 in
  w_sent w' = w_sent w
  /\ (exists n, w_limiter w' = rl_RecordTokens principal n (w_limiter w))
  /\ exists recs, w_events w' = w_events w ++ recs /\ recorded req (res_Principal r) None recs.
Proof.
  unfold complete. destruct (forget_spec principal req (w_out w) w) as [Hl Hlim].
  unfold logs in Hl. injection Hl as He Hs _.
  match goal with |- context [emit p ?a ?b ?c ?d ?r' ?e ?f ?g ?h ?w1] =>
    pose proof (emit_spec a b c d r' e f g h w1) as Hem;
    destruct (emit p a b c d r' e f g h w1) as [r2 w2] end.
  cbn in Hem. destruct Hem as (H1 & _ & H3 & recs & H4 & H5). cbn [snd].
  assert (Hm : forall d, w_sent (mirror p snap d req principal w2) = w_sent w2
            /\ w_limiter (mirror p snap d req principal w2) = w_limiter w2
            /\ w_events (mirror p snap d req principal w2) = w_events w2).
  { intros d. unfold mirror. by destruct (shadows p). }
  destruct (Hm (r_Deployment executed)) as (-> & -> & ->). rewrite H1, H3, Hs, Hlim. split_and!; [done|by eexists|].
  exists recs. split; [by rewrite H4, He|exact H5].
Qed.

Lemma fail_with_spec snap req started streaming r d stages err st :
  let out := fail_with p snap req started streaming r d stages err st in
  out.1.2 = Some err /\ w_sent out.2.2 = w_sent st.2 /\ w_limiter out.2.2 = w_limiter st.2
  /\ exists recs, w_events out.2.2 = w_events st.2 ++ recs /\ recorded req (res_Principal r) (Some err) recs.
Proof.
  unfold fail_with, lift.
  pose proof (emit_spec snap req started streaming r d stages 0 (Some err) st.2) as H.
  destruct (emit _ _ _ _ _ _ _ _ _ _ _) as [r' w']. cbn in *. tauto.
Qed.

(** The request as the guardrails passed it on. *)
Definition guarded (w0 : World L C S X) (snap : Snapshot) (principal : Principal) (req req' : Request) : Prop :=
  req' = with_body req (req_Body req') /\ passed_guardrails w0 snap principal req (req_Body req').

(** What everything after admission does. *)
Definition served (w0 : World L C S X) (snap : Snapshot) (req : Request) (principal reported : Principal) st
    (err : option error) st' : Prop :=
  (exists recs, w_events st'.2 = w_events st.2 ++ recs /\ recorded req reported err recs)
  /\ (exists new, w_sent st'.2 = w_sent st.2 ++ new
        /\ (new = [] \/ exists req', guarded w0 snap principal req req' /\ Forall (cleared snap principal req') new))
  /\ (w_limiter st'.2 = w_limiter st.2
      \/ exists n, w_limiter st'.2 = rl_RecordTokens principal n (w_limiter st.2)).

(** A failing exit from a state that differs from [st] only in what was sent. *)
Lemma served_fail w0 snap req req' principal reported started r d stages err st st1 new :
  req_Meta req' = req_Meta req -> res_Principal r = reported ->
  w_events st1.2 = w_events st.2 -> w_sent st1.2 = w_sent st.2 ++ new -> w_limiter st1.2 = w_limiter st.2 ->
  (new = [] \/ exists req', guarded w0 snap principal req req' /\ Forall (cleared snap principal req') new) ->
  let out := fail_with p snap req' started false r d stages err st1 in
  served w0 snap req principal reported st out.1.2 out.2.
Proof.
  intros Hm <- He Hs Hl Hn out. destruct (fail_with_spec snap req' started false r d stages err st1)
    as (H0 & H1 & H2 & recs & H3 & H4). subst out. unfold served. rewrite H0. split_and!.
  - exists recs. rewrite H3, He. split; [done|]. unfold recorded in *. by rewrite <- Hm.
  - exists new. by rewrite H1, Hs.
  - left. congruence.
Qed.

Lemma serve_candidates_spec w0 snap req req1 principal started r cands stages st st0 :
  guarded w0 snap principal req req1 -> Forall (candidate_ok snap principal req1) cands ->
  logs st.2 = logs st0.2 -> w_limiter st.2 = w_limiter st0.2 ->
  let out := serve_candidates p snap req1 principal started r cands stages st in
  served w0 snap req principal (res_Principal r) st0 out.1.2 out.2.
Proof.
  intros Hgd Hcands Hl0 Hm0. unfold serve_candidates.
  match goal with |- context [runStage p stages "adapt" ?f st] =>
    destruct (runStage_spec stages "adapt" f st) as (st5 & Hl5 & Hm5 & _ & Hr5);
    destruct (runStage p stages "adapt" f st) as [[executed stages3] st6] end.
  destruct Hr5 as (Hex & Hl6 & Hm6 & _).
  pose proof (adapt_spec snap principal req1 false cands st5 Hcands) as (K1 & K2 & K3 & new & K4 & K5).
  destruct (adapt p cands req1 principal false st5) as [[ares aerr] ast]. cbn in Hex, Hl6, Hm6, K1, K2, K3, K4.
  unfold logs in Hl0, Hl5, Hl6. injection Hl0 as HE0 HS0 _. injection Hl5 as HE5 HS5 _. injection Hl6 as HE6 HS6 _.
  assert (Hnew : w_sent st6.2 = w_sent st0.2 ++ new) by congruence.
  assert (Hcl : new = [] \/ exists req', guarded w0 snap principal req req' /\ Forall (cleared snap principal req') new)
    by (right; by exists req1).
  destruct executed as [err|executed].
  { apply (served_fail _ _ _ _ _ _ _ _ _ _ _ _ _ new); [by destruct Hgd as [-> _]|done|congruence|done|congruence|done]. }
  unfold lift.
  match goal with |- context [complete p snap req1 principal started ?r' executed stages3 st6.2] =>
    pose proof (complete_spec snap req1 principal started r' executed stages3 st6.2) as Hco;
    destruct (complete p snap req1 principal started r' executed stages3 st6.2) as [r6 w6] end.
  cbn in Hco. destruct Hco as (H1 & [n H2] & recs & H3 & H4). cbn. split_and!; cbn [snd].
  - exists recs. split; [congruence|]. destruct Hgd as [Hme _]. rewrite Hme in H4. exact H4.
  - exists new. split; [congruence|done].
  - right. exists n. congruence.
Qed.

Lemma serve_spec w0 snap req principal started r stages st :
  w_chain st.2 = w_chain w0 ->
  let out := serve p snap req principal started r stages st in
  served w0 snap req principal (res_Principal r) st out.1.2 out.2.
Proof.
  intros Hch. unfold serve. pose proof (guard_stage w0 snap principal req stages st Hch) as Hg.
  destruct (runStage p stages "guard" _ st) as [[body stages1] st1]. destruct Hg as [Hq1 Hg].
  destruct (quiet_unfold _ _ Hq1) as (He1 & Hs1 & Hl1).
  destruct body as [err|body].
  { apply (served_fail _ _ _ _ _ _ _ _ _ _ _ _ _ []); [done..| |done|by left]. by rewrite app_nil_r. }
  pose proof (route_stage snap principal (with_body req body) stages1 st1) as Hr.
  destruct (runStage p stages1 "route" _ st1) as [[cands stages2] st2]. destruct Hr as [[Hl2 Hm2] Hr].
  destruct Hq1 as [Hq1 _]. rewrite Hq1 in Hl2. rewrite Hl1 in Hm2.
  destruct cands as [err|cands]; [|destruct Hr; by apply serve_candidates_spec].
  destruct (quiet_unfold st st2) as (He2 & Hs2 & _); [done|].
  apply (served_fail _ _ _ _ _ _ _ _ _ _ _ _ _ []); [done..| |done|by left]. by rewrite app_nil_r.
Qed.

(** ** Handle *)

(** How one request moves the limiter. *)
Inductive limiter_path (w0 : World L C S X) (snap : Snapshot) (req : Request) (l l' : L) : Prop :=
| path_untouched : l' = l -> limiter_path w0 snap req l l'
| path_refused principal0 principal req' d :
    authentic w0 snap req principal0 -> admissible w0 snap req principal0 principal req' ->
    rl_Admit principal l = (d, l') -> Limits.Allowed d = false -> limiter_path w0 snap req l l'
| path_settled principal0 principal req' d l1 :
    authentic w0 snap req principal0 -> admissible w0 snap req principal0 principal req' ->
    rl_Admit principal l = (d, l1) -> Limits.Allowed d = true ->
    (l' = rl_Release principal l1
     \/ exists n, l' = rl_Release principal (rl_RecordTokens principal n l1)
              \/ l' = rl_RecordTokens principal n (rl_Release principal l1)) ->
    limiter_path w0 snap req l l'.

(** Every check a request must pass before a provider sees [c]. *)
Definition entitled (w0 : World L C S X) (snap : Snapshot) (req : Request) (c : ProviderCall) : Prop :=
  exists principal0 principal req1 req2,
    authentic w0 snap req principal0 /\ admissible w0 snap req principal0 principal req1
    /\ guarded w0 snap principal req1 req2 /\ cleared snap principal req2 c.

(** What a request did, from [st] to [st'], when it answered [err]. *)
Definition effect (snap : Snapshot) (req : Request) st (err : option error) st' : Prop :=
  exists reported recs new,
    (reported = NoPrincipal \/ authentic st.2 snap req reported)
    /\ w_events st'.2 = w_events st.2 ++ recs /\ recorded req reported err recs
    /\ w_sent st'.2 = w_sent st.2 ++ new /\ Forall (entitled st.2 snap req) new
    /\ limiter_path st.2 snap req (w_limiter st.2) (w_limiter st'.2).

Lemma effect_fail snap req started r stages err st st1 :
  (res_Principal r = NoPrincipal \/ authentic st.2 snap req (res_Principal r)) ->
  logs st1.2 = logs st.2 -> limiter_path st.2 snap req (w_limiter st.2) (w_limiter st1.2) ->
  let out := fail_with p snap req started false r NoDeployment stages err st1 in
  effect snap req st out.1.2 out.2.
Proof.
  intros Hr Hl Hp out. unfold logs in Hl. injection Hl as He Hs _.
  destruct (fail_with_spec snap req started false r NoDeployment stages err st1) as (H0 & H1 & H2 & recs & H3 & H4).
  subst out. exists (res_Principal r), recs, []. rewrite H0, H1, H2, H3, He, Hs, app_nil_r. by split_and!.
Qed.

Lemma effect_served snap req req1 principal0 principal started r stages d st st1 :
  authentic st.2 snap req principal0 -> admissible st.2 snap req principal0 principal req1 ->
  res_Principal r = principal0 -> logs st1.2 = logs st.2 -> w_chain st1.2 = w_chain st.2 ->
  rl_Admit principal (w_limiter st.2) = (d, w_limiter st1.2) -> Limits.Allowed d = true ->
  let out := serve p snap req1 principal started r stages st1 in
  effect snap req st out.1.2 (on_world (Release principal) out.2).
Proof.
  intros Hau Had <- Hl Hch Hrl Hall out. unfold logs in Hl. injection Hl as He Hs _.
  destruct (serve_spec st.2 snap req1 principal started r stages st1 Hch) as ((recs & H1 & H2) & (new & H3 & H4) & H5).
  assert (Hm : req_Meta req1 = req_Meta req) by (destruct Had as (_ & Hp & _); apply permitted_tightens in Hp; tauto).
  exists (res_Principal r), recs, new. split_and!; [by right|by rewrite <- He| |by rewrite <- Hs| |].
  - unfold recorded in *. by rewrite <- Hm.
  - destruct H4 as [->|(req2 & Hg & Hc)]; [done|]. eapply Forall_impl; [exact Hc|].
    intros c Hcc. by exists (res_Principal r), principal, req1, req2.
  - eapply path_settled; [done..|]. destruct H5 as [H5|[n H5]]; [left|right; exists n; left];
      exact (f_equal (rl_Release principal) H5).
Qed.

(** Everything a request does to the world. *)
Lemma Handle_effect snap req st :
  let out := Handle p snap req st in effect snap req st out.1.2 out.2.
Proof.
  unfold Handle. cbn [lift now].
  match goal with |- context [runStage p [] "authenticate" ?f ?x] => set (st0 := x) end.
  assert (H0 : quiet st st0 /\ settings st0.2 = settings st.2 /\ (w_tick st0.2 + 1 = w_tick st.2 + 2)%nat) by (split_and!; cbn; done || lia).
  clearbody st0. destruct H0 as ([Hl0 Hm0] & Hs0 & Ht0).
  pose proof (authenticate_stage snap req [] st0) as Ha.
  destruct (runStage p [] "authenticate" _ st0) as [[who stages1] st1]. destruct Ha as ([Hl1 Hm1] & Hs1 & Hau).
  rewrite Hl0 in Hl1. rewrite Hm0 in Hm1. rewrite Ht0 in Hau. rewrite Hs0 in Hs1. injection Hs1 as Hca1 Hch1.
  destruct who as [err|principal0].
  { apply effect_fail; [by left|done|by apply path_untouched]. }
  pose proof (admit_stage st.2 snap principal0 req stages1 st1 Hca1) as Had.
  destruct (runStage p stages1 "admit" _ st1) as [[admitted stages2] st2]. destruct Had as (Hl2 & Hch2 & Hd).
  rewrite Hl1 in Hl2. rewrite Hm1 in Hd. rewrite Hch1 in Hch2.
  destruct admitted as [err|[principal req1]].
  - apply effect_fail; [by right|done|]. destruct Hd as [Hd|(principal & req1 & d & H1 & H2 & H3)].
    + by apply path_untouched.
    + by eapply path_refused.
  - destruct Hd as (H1 & d & H2 & H3).
    pose proof (effect_served snap req req1 principal0 principal
      (clk p (w_tick st.2)) (with_principal no_result principal0) stages2 d st st2 Hau H1 eq_refl Hl2 Hch2 H2 H3) as He.
    destruct (serve _ _ _ _ _ _ _ _) as [out st3]. exact He.
Qed.

(** ** HandleStream and Finish *)

(** What everything after admission does when streaming: a failure is recorded at once, a success
    is recorded when the stream is finished, and either way the slot is for [Finish] to return. *)
Definition streamed (w0 : World L C S X) (snap : Snapshot) (req : Request) (principal reported : Principal) st
    (r : StreamResult (Strm:=Strm)) (err : option error) st' : Prop :=
  str_Principal r = reported /\ str_finished r = false /\ str_releaseLimit r = Some principal
  /\ w_limiter st'.2 = w_limiter st.2
  /\ (exists new, w_sent st'.2 = w_sent st.2 ++ new
        /\ (new = [] \/ exists req', guarded w0 snap principal req req' /\ Forall (cleared snap principal req') new))
  /\ match err with
     | Some _ => str_finish r = None
         /\ exists recs, w_events st'.2 = w_events st.2 ++ recs /\ recorded req reported err recs
     | None => w_events st'.2 = w_events st.2
         /\ exists f, str_finish r = Some f /\ fin_principal f = principal /\ req_Meta (fin_req f) = req_Meta req
     end.

Lemma stream_fail_spec snap req started r stages err st :
  let out := stream_fail p snap req started r stages err st in
  out.1 = (r, Some err) /\ w_sent out.2.2 = w_sent st.2 /\ w_limiter out.2.2 = w_limiter st.2
  /\ exists recs, w_events out.2.2 = w_events st.2 ++ recs /\ recorded req (str_Principal r) (Some err) recs.
Proof.
  unfold stream_fail, lift.
  pose proof (emit_spec snap req started true (stream_report r) (str_deployment r) stages 0 (Some err) st.2) as H.
  destruct (emit _ _ _ _ _ _ _ _ _ _ _) as [r' w']. cbn in *. tauto.
Qed.

Lemma streamed_fail w0 snap req req' principal reported started r stages err st st1 new :
  req_Meta req' = req_Meta req -> str_Principal r = reported -> str_finished r = false -> str_releaseLimit r = Some principal ->
  str_finish r = None ->
  w_events st1.2 = w_events st.2 -> w_sent st1.2 = w_sent st.2 ++ new -> w_limiter st1.2 = w_limiter st.2 ->
  (new = [] \/ exists req', guarded w0 snap principal req req' /\ Forall (cleared snap principal req') new) ->
  let out := stream_fail p snap req' started r stages err st1 in
  streamed w0 snap req principal reported st out.1.1 out.1.2 out.2.
Proof.
  intros Hm <- Hf Hr Hn He Hs Hl Hnew out.
  destruct (stream_fail_spec snap req' started r stages err st1) as (H0 & H1 & H2 & recs & H3 & H4).
  subst out. unfold streamed. rewrite H0. cbn [fst snd]. split_and!; try done; [congruence| |].
  - exists new. by rewrite H1, Hs.
  - exists recs. rewrite H3, He. split; [done|]. unfold recorded in *. by rewrite <- Hm.
Qed.

Lemma stream_candidates_spec w0 snap req req1 principal started r cands stages st st0 :
  guarded w0 snap principal req req1 -> Forall (candidate_ok snap principal req1) cands ->
  str_finished r = false -> str_releaseLimit r = Some principal -> str_finish r = None ->
  logs st.2 = logs st0.2 -> w_limiter st.2 = w_limiter st0.2 ->
  let out := stream_candidates p snap req1 principal started r cands stages st in
  streamed w0 snap req principal (str_Principal r) st0 out.1.1 out.1.2 out.2.
Proof.
  intros Hgd Hcands Hfd Hrl Hfn Hl0 Hm0. unfold stream_candidates. cbn [lift now].
  match goal with |- context [adapt p cands req1 principal true ?x] => set (st5 := x) end.
  assert (H5 : logs st5.2 = logs st0.2 /\ w_limiter st5.2 = w_limiter st0.2) by done.
  clearbody st5. destruct H5 as [Hl5 Hm5].
  pose proof (adapt_spec snap principal req1 true cands st5 Hcands) as (K1 & K2 & K3 & new & K4 & K5).
  destruct (adapt p cands req1 principal true st5) as [[ares aerr] ast]. cbn in K1, K2, K3, K4.
  unfold logs in Hl5. injection Hl5 as HE5 HS5 _. clear Hl0 Hm0.
  assert (Hcl : new = [] \/ exists req', guarded w0 snap principal req req' /\ Forall (cleared snap principal req') new)
    by (right; by exists req1).
  assert (Hme : req_Meta req1 = req_Meta req) by (by destruct Hgd as [-> _]).
  destruct aerr as [err|].
  - destruct (last (r_Attempts ares)) as [a|].
    all: apply (streamed_fail _ _ _ _ _ _ _ _ _ _ _ _ new); try done;
      [exact (eq_trans K1 HE5)|exact (eq_trans K4 (f_equal (fun l => l ++ new) HS5))|exact (eq_trans K3 Hm5)].
  - cbn. unfold streamed. cbn. split_and!; [done..|exact (eq_trans K3 Hm5)| |exact (eq_trans K1 HE5)|].
    + exists new. split; [exact (eq_trans K4 (f_equal (fun l => l ++ new) HS5))|done].
    + eexists. split_and!; [reflexivity|done|done].
Qed.

Lemma serve_stream_spec w0 snap req principal started r stages st :
  w_chain st.2 = w_chain w0 ->
  str_finished r = false -> str_releaseLimit r = Some principal -> str_finish r = None ->
  let out := serve_stream p snap req principal started r stages st in
  streamed w0 snap req principal (str_Principal r) st out.1.1 out.1.2 out.2.
Proof.
  intros Hch Hfd Hrl Hfn. unfold serve_stream. pose proof (guard_stage w0 snap principal req stages st Hch) as Hg.
  destruct (runStage p stages "guard" _ st) as [[body stages1] st1]. destruct Hg as [Hq1 Hg].
  destruct (quiet_unfold _ _ Hq1) as (He1 & Hs1 & Hl1).
  destruct body as [err|body].
  { apply (streamed_fail _ _ _ _ _ _ _ _ _ _ _ _ []); [done..| |done|by left]. by rewrite app_nil_r. }
  pose proof (route_stage snap principal (with_body req body) stages1 st1) as Hr.
  destruct (runStage p stages1 "route" _ st1) as [[cands stages2] st2]. destruct Hr as [[Hl2 Hm2] Hr].
  destruct Hq1 as [Hq1 _]. rewrite Hq1 in Hl2. rewrite Hl1 in Hm2.
  destruct cands as [err|cands]; [|destruct Hr; by apply stream_candidates_spec].
  destruct (quiet_unfold st st2) as (He2 & Hs2 & _); [done|].
  apply (streamed_fail _ _ _ _ _ _ _ _ _ _ _ _ []); [done..| |done|by left]. by rewrite app_nil_r.
Qed.

(** What finishing a stream does. *)
Lemma Finish_spec r usage ttfb err w :
  str_finished r = false ->
  let w' := (Finish p r usage ttfb err w).2 in
  let l := match str_releaseLimit r with
           | Some principal => rl_Release principal (w_limiter w) | None => w_limiter w end in
  w_sent w' = w_sent w
  /\ match str_finish r with
     | None => w_events w' = w_events w /\ w_limiter w' = l
     | Some f => w_limiter w' = rl_RecordTokens (fin_principal f) (Core.Total usage) l
         /\ exists recs, w_events w' = w_events w ++ recs /\ recorded (fin_req f) (str_Principal r) err recs
     end.
Proof.
  intros Hf. unfold Finish. rewrite Hf.
  match goal with |- context [match str_forget r with Some _ => _ | None => _ end] =>
    set (w1 := match str_forget r with Some _ => _ | None => _ end) end.
  assert (H1 : logs w1 = logs w /\ w_limiter w1 = w_limiter w).
  { subst w1. destruct (str_forget r) as [[[who what] m]|]; [apply forget_spec|done]. }
  clearbody w1. destruct H1 as [Hl1 Hm1]. unfold logs in Hl1. injection Hl1 as He1 Hs1 _.
  rewrite <- He1, <- Hs1, <- Hm1. clear He1 Hs1 Hm1.
  match goal with |- context [match str_releaseLimit r with Some principal => Release principal w1 | None => _ end] =>
    set (w2 := match str_releaseLimit r with Some principal => Release principal w1 | None => _ end) end.
  cbv zeta. cbn [snd]. destruct (str_finish r) as [f|]; cbn [snd].
  - unfold finish. cbn [now]. set (rep := mkGResult _ _ _ _ _ _ _ _ _).
    set (w3 := emitUsage _ _ _ rep _ _ _ _). pose proof (emitAudit_spec (fin_snap f) (fin_req f) rep (fin_redactions f) err w3)
      as (H1 & _ & H3 & audit & H4 & H5). cbv zeta in *.
    split_and!; [rewrite H1; subst w2; by destruct (str_releaseLimit r)|
                 rewrite H3; subst w2; by destruct (str_releaseLimit r)|].
    assert (He : w_events w2 = w_events w1) by (subst w2; by destruct (str_releaseLimit r)).
    eexists. split; [rewrite H4; subst w3; cbn; rewrite He, <- app_assoc; reflexivity|].
    eexists _, audit. by split_and!.
  - subst w2. by destruct (str_releaseLimit r).
Qed.

(** A stream from start to finish; the outcome is the error that stopped it from starting, or
    the one it ended with. *)
Definition stream_session (snap : Snapshot) (req : Request) (usage : TokenUsage) (ttfb : duration)
    (ended : option error) st : option error * St L C S X :=
  let '((r, err), st1) := HandleStream p snap req st in
  (match err with Some e => Some e | None => ended end, on_world (fun w => (Finish p r usage ttfb ended w).2) st1).

Definition closed (r : StreamResult (Strm:=Strm)) : Prop :=
  str_finished r = false /\ str_finish r = None /\ str_releaseLimit r = None.

Lemma effect_stream_fail snap req started r stages err usage ttfb ended st st1 :
  closed r -> (str_Principal r = NoPrincipal \/ authentic st.2 snap req (str_Principal r)) ->
  logs st1.2 = logs st.2 -> limiter_path st.2 snap req (w_limiter st.2) (w_limiter st1.2) ->
  let out := stream_fail p snap req started r stages err st1 in
  out.1.2 = Some err
  /\ effect snap req st (Some err) (on_world (fun w => (Finish p out.1.1 usage ttfb ended w).2) out.2).
Proof.
  intros (Hc1 & Hc2 & Hc3) Hr Hl Hp out. unfold logs in Hl. injection Hl as He Hs _.
  destruct (stream_fail_spec snap req started r stages err st1) as (H0 & H1 & H2 & recs & H3 & H4).
  subst out. rewrite H0. cbn [fst snd]. split; [done|].
  destruct (Finish_spec r usage ttfb ended (stream_fail p snap req started r stages err st1).2.2 Hc1) as [K1 K2].
  rewrite Hc2, Hc3 in K2. destruct K2 as [K2 K3].
  exists (str_Principal r), recs, []. cbn [on_world snd].
  rewrite K1, K2, K3, H1, H2, H3, He, Hs, app_nil_r. by split_and!.
Qed.

Lemma effect_streamed snap req req1 principal0 principal d r err usage ttfb ended st st1 st2 :
  authentic st.2 snap req principal0 -> admissible st.2 snap req principal0 principal req1 ->
  logs st1.2 = logs st.2 ->
  rl_Admit principal (w_limiter st.2) = (d, w_limiter st1.2) -> Limits.Allowed d = true ->
  streamed st.2 snap req1 principal principal0 st1 r err st2 ->
  effect snap req st (match err with Some e => Some e | None => ended end)
    (on_world (fun w => (Finish p r usage ttfb ended w).2) st2).
Proof.
  intros Hau Had Hl Hrl Hall (H1 & H2 & H3 & H4 & (new & H5 & H6) & H7). unfold logs in Hl. injection Hl as He Hs _.
  assert (Hm : req_Meta req1 = req_Meta req)
    by (destruct Had as (_ & Hp & _); apply permitted_tightens in Hp; tauto).
  destruct (Finish_spec r usage ttfb ended st2.2 H2) as [K1 K2]. rewrite H3, H4 in K2.
  assert (Hent : Forall (entitled st.2 snap req) new).
  { destruct H6 as [->|(req2 & Hg & Hc)]; [done|]. eapply Forall_impl; [exact Hc|].
    intros c Hcc. by exists principal0, principal, req1, req2. }
  destruct err as [e|].
  - destruct H7 as [H7 (recs & H8 & H9)]. rewrite H7 in K2. destruct K2 as [K2 K3].
    exists principal0, recs, new. cbn [on_world snd]. rewrite K1, K2, H5, H8, He, Hs.
    split_and!; [by right|done|unfold recorded in *; by rewrite <- Hm|done|done|].
    eapply path_settled; [done..|]. by left.
  - destruct H7 as [H7 (f & Hf & Hfp & Hfm)]. rewrite Hf in K2. destruct K2 as [K2 (recs & K3 & K4)].
    exists principal0, recs, new. cbn [on_world snd]. rewrite K1, K3, H5, H7, He, Hs.
    split_and!; [by right|done|unfold recorded in *; by rewrite <- Hm, <- Hfm, <- H1|done|done|].
    eapply path_settled; [done..|]. rewrite Hfp in K2. right. eexists. right. exact K2.
Qed.

(** Everything a stream does to the world, from [HandleStream] to [Finish]. *)
Lemma stream_effect snap req usage ttfb ended st :
  let out := stream_session snap req usage ttfb ended st in effect snap req st out.1 out.2.
Proof.
  unfold stream_session, HandleStream. cbn [lift now].
  match goal with |- context [runStage p [] "authenticate" ?f ?x] => set (st0 := x) end.
  assert (H0 : quiet st st0 /\ settings st0.2 = settings st.2 /\ (w_tick st0.2 + 1 = w_tick st.2 + 2)%nat) by (split_and!; cbn; done || lia).
  clearbody st0. destruct H0 as ([Hl0 Hm0] & Hs0 & Ht0).
  pose proof (authenticate_stage snap req [] st0) as Ha.
  destruct (runStage p [] "authenticate" _ st0) as [[who stages1] st1]. destruct Ha as ([Hl1 Hm1] & Hs1 & Hau).
  rewrite Hl0 in Hl1. rewrite Hm0 in Hm1. rewrite Ht0 in Hau. rewrite Hs0 in Hs1. injection Hs1 as Hca1 Hch1.
  destruct who as [err|principal0].
  { destruct (effect_stream_fail snap req (clk p (w_tick st.2)) no_stream stages1 err usage ttfb ended st st1) as [E He];
      [done|by left|done|by apply path_untouched|].
    destruct (stream_fail _ _ _ _ _ _ _ _) as [[r e] st2]. cbn in E, He. subst e. exact He. }
  pose proof (admit_stage st.2 snap principal0 req stages1 st1 Hca1) as Had.
  destruct (runStage p stages1 "admit" _ st1) as [[admitted stages2] st2]. destruct Had as (Hl2 & Hch2 & Hd).
  rewrite Hl1 in Hl2. rewrite Hm1 in Hd. rewrite Hch1 in Hch2.
  destruct admitted as [err|[principal req1]].
  - set (r0 := mkStream _ _ _ _ _ _ _ _ _ _).
    destruct (effect_stream_fail snap req (clk p (w_tick st.2)) r0 stages2 err usage ttfb ended st st2) as [E He];
      [done|by right|done| |].
    { destruct Hd as [Hd|(principal & req1 & d & H1 & H2 & H3)];
        [by apply path_untouched|by eapply path_refused]. }
    destruct (stream_fail _ _ _ _ _ _ _ _) as [[r e] st3]. cbn in E, He. subst e. exact He.
  - destruct Hd as (H1 & d & H2 & H3). set (r0 := mkStream _ _ _ _ _ _ _ _ _ _).
    pose proof (serve_stream_spec st.2 snap req1 principal (clk p (w_tick st.2)) r0 stages2 st2 Hch2 eq_refl eq_refl eq_refl) as Hs.
    destruct (serve_stream _ _ _ _ _ _ _ _) as [[r err] st3].
    exact (effect_streamed _ _ _ _ _ _ _ _ _ _ _ _ _ _ Hau H1 Hl2 H2 H3 Hs).
Qed.
End facts.
