(* ===== verification/Gateway.v ===== *)
(** * The gateway end to end

    The request path put together with the limiter and the guardrail chain of the other files,
    and the promises of the whole: what may reach a provider, what is recorded, and that no
    request keeps a slot.  What one component promises the other is a class; the limiter of
    [Limits] discharges it. *)
From S2P Require Import Prelude Errors Core Snapshot SnapshotFacts Policy Float64 Breaker Kv Strconv.
From Stdlib Require Import ZArith Lia Ascii.
From stdpp Require Import base gmap strings list.
From S2P Require Import Placeholder Restorer Detect Transform Limits LimitsFacts Guardrails Router RouterFacts Shadow Pipeline PipelineFacts.
Open Scope Z_scope.
Open Scope gw_scope.

(** ** What the request path needs of a limiter *)

(** [slots k l] is the number of requests of key [k] in flight. *)
Class SlotLaws (L : Type) `{!RateLimiter L} (slots : KeyID -> L -> Z) := {
  admit_bounded p l d l' :
    0 < MaxConcurrent (p_Limits p) -> 0 <= slots (p_KeyID p) l < int64_max -> rl_Admit p l = (d, l') ->
    forall k, slots k l' = slots k l + (if Limits.Allowed d then at_key p k else 0);
  admit_unbounded p l d l' :
    MaxConcurrent (p_Limits p) <= 0 -> 0 <= slots (p_KeyID p) l < int64_max -> rl_Admit p l = (d, l') ->
    forall k, if Limits.Allowed d then slots k l' = slots k l else slots k l' <= slots k l;
  release_bounded p l :
    0 < MaxConcurrent (p_Limits p) -> 0 < slots (p_KeyID p) l <= int64_max ->
    forall k, slots k (rl_Release p l) = slots k l - at_key p k;
  release_unbounded p l : MaxConcurrent (p_Limits p) <= 0 -> forall k, slots k (rl_Release p l) = slots k l;
  record_slots p n l : forall k, slots k (rl_RecordTokens p n l) = slots k l }.

(** The gateway's limiter is one such. *)
Section limits.
Context {S : Type} `{!KVStore S} (clk : nat -> time).

#[global] Instance limits_limiter : RateLimiter (Limits.World S) :=
  {| rl_Admit := Limits.Admit clk;
     rl_Release p := on_lim (Limits.Release p);
     rl_RecordTokens := Limits.RecordTokens clk |}.

#[global] Instance limits_laws : SlotLaws (Limits.World S) (fun k w => slots_of k (w_lim w)).
Proof.
  split; cbn.
  - intros p l d l' Hm Hs H. by destruct (Admit_bounded clk p l d l' Hm Hs H).
  - intros p l d l' Hm Hs H. apply (Admit_unbounded clk p l d l'); [done|lia|done].
  - intros p l Hm Hs k. by apply Release_slots.
  - intros p l Hm k. unfold Limits.Release. by rewrite (proj2 (Z.ltb_ge _ _)).
  - intros p n l k. apply (RecordTokens_slots clk).
Qed.
End limits.

(** The guardrail chain behind the interface, with the world its guardrails run in. *)
#[global] Instance chain_runner {G X : Type} (registry : string -> option G)
    (inspect : G -> duration -> GuardrailInput -> X -> (error + option GuardrailResult) * X)
    : GuardrailChain (Chain G * X) :=
  {| gc_Run bindings inp cx :=
       let '(r, c, x) := Run registry inspect bindings inp cx.1 cx.2 in (r, (c, x)) |}.

Section promises.
Context {L C S P Strm X : Type} `{!RateLimiter L} `{!GuardrailChain C} `{!KVStore S}.
Context (p : Pipeline P Strm X).
Implicit Types (st : St L C S X).

Section slots.
Context (slots : KeyID -> L -> Z) `{!SlotLaws L slots}.

Lemma settled_slots principal l d l1 l' :
  (forall k, 0 <= slots k l < int64_max) ->
  rl_Admit principal l = (d, l1) -> Limits.Allowed d = true ->
  (l' = rl_Release principal l1
   \/ exists n, l' = rl_Release principal (rl_RecordTokens principal n l1)
            \/ l' = rl_RecordTokens principal n (rl_Release principal l1)) ->
  forall k, slots k l' = slots k l.
Proof.
  intros Hs Ha Hd Hl k. pose proof (Hs (p_KeyID principal)) as Hk.
  assert (Hrel : forall l2, (forall k, slots k l2 = slots k l1) -> slots k (rl_Release principal l2) = slots k l).
  { intros l2 H2. destruct (decide (0 < MaxConcurrent (p_Limits principal))) as [Hm|Hm].
    - pose proof (admit_bounded _ _ _ _ Hm Hk Ha) as H1. rewrite Hd in H1. cbv iota in H1.
      rewrite release_bounded, H2, H1; [lia|done|]. rewrite H2, H1. unfold at_key.
      rewrite bool_decide_true by done. lia.
    - pose proof (admit_unbounded _ _ _ _ (proj1 (Z.nlt_ge _ _) Hm) Hk Ha k) as H1. rewrite Hd in H1.
      rewrite release_unbounded, H2 by lia. done. }
  destruct Hl as [-> | (n & [-> | ->])]; [by apply Hrel|apply Hrel; intros; apply record_slots|].
  rewrite record_slots. by apply Hrel.
Qed.

Lemma path_slots (w0 : World L C S X) snap req l l' :
  (forall k, 0 <= slots k l < int64_max) -> limiter_path p w0 snap req l l' ->
  forall k, slots k l' <= slots k l
    /\ ((forall principal, authentic p w0 snap req principal -> 0 < MaxConcurrent (p_Limits principal)) ->
        slots k l' = slots k l).
Proof.
  intros Hs Hp k. destruct Hp as [->|principal0 principal req' d Hau Had Ha Hd|principal0 principal req' d l1 Hau Had Ha Hd Hl].
  - split; [lia|done].
  - destruct Had as (_ & Hp & _). apply permitted_tightens in Hp as ((_ & _ & Hlim & _) & _).
    pose proof (Hs (p_KeyID principal)) as Hk. split.
    + destruct (decide (0 < MaxConcurrent (p_Limits principal))) as [Hm|Hm].
      * rewrite (admit_bounded _ _ _ _ Hm Hk Ha), Hd. lia.
      * pose proof (admit_unbounded _ _ _ _ (proj1 (Z.nlt_ge _ _) Hm) Hk Ha k) as H1. by rewrite Hd in H1.
    + intros Hall. specialize (Hall _ Hau). rewrite <- Hlim in Hall.
      rewrite (admit_bounded _ _ _ _ Hall Hk Ha), Hd. lia.
  - rewrite (settled_slots _ _ _ _ _ Hs Ha Hd Hl k). split; [lia|done].
Qed.

(** C3. No request keeps a slot.  Whatever happens to a request, buffered or streamed to its
    [Finish], the in-flight count of no key is higher afterwards than before; and when the key
    presented has a concurrency limit, every count is exactly what it was.  Proved against the
    laws of [SlotLaws] for any limiter. *)
Theorem slots_returned snap req usage ttfb ended st :
  (forall k, 0 <= slots k (w_limiter st.2) < int64_max) ->
  let returned st' :=
    forall k, slots k (w_limiter st'.2) <= slots k (w_limiter st.2)
      /\ ((forall principal, authentic p st.2 snap req principal -> 0 < MaxConcurrent (p_Limits principal)) ->
          slots k (w_limiter st'.2) = slots k (w_limiter st.2)) in
  returned (Handle p snap req st).2 /\ returned (stream_session p snap req usage ttfb ended st).2.
Proof.
  intros Hs returned. split; intros k.
  - destruct (Handle_effect p snap req st) as (? & ? & ? & _ & _ & _ & _ & _ & Hp).
    exact (path_slots _ snap req _ _ Hs Hp k).
  - destruct (stream_effect p snap req usage ttfb ended st) as (? & ? & ? & _ & _ & _ & _ & _ & Hp).
    exact (path_slots _ snap req _ _ Hs Hp k).
Qed.
End slots.


(** C2. Every request is recorded exactly once: whichever path it takes, it leaves one usage
    record with its identifier and outcome and at most one audit record, and a request that
    fails at a named endpoint always leaves the audit record.  A stream is recorded once whether
    it never started or was finished. *)
Theorem recorded_exactly_once snap req usage ttfb ended st :
  let whole err st' := exists reported recs,
    (reported = NoPrincipal \/ authentic p st.2 snap req reported)
    /\ w_events st'.2 = w_events st.2 ++ recs /\ recorded req reported err recs in
  let out := Handle p snap req st in
  let out' := stream_session p snap req usage ttfb ended st in
  whole out.1.2 out.2 /\ whole out'.1 out'.2.
Proof.
  split.
  - destruct (Handle_effect p snap req st) as (who & recs & ? & H1 & H2 & H3 & _). by exists who, recs.
  - destruct (stream_effect p snap req usage ttfb ended st) as (who & recs & ? & H1 & H2 & H3 & _).
    by exists who, recs.
Qed.

(** [Finish] is safe to call more than once: after the first call further ones change
    nothing, so a slot is released and a stream recorded at most once. *)
Theorem Finish_idempotent r u1 t1 e1 u2 t2 e2 (w : World L C S X) :
  let '(r1, w1) := Finish p r u1 t1 e1 w in Finish p r1 u2 t2 e2 w1 = (r1, w1).
Proof.
  unfold Finish at 1. destruct (str_finished r) eqn:E; [|done]. unfold Finish. by rewrite E.
Qed.

(** A shadow call stands apart from the request it mirrors: it touches no limiter, no slot
    and no other mirror, makes at most one provider call and leaves at most one record, marked
    as shadow, priced at zero and with an identifier of its own.  The body it sends is the
    caller's, as it is: the principal it is given carries no data class, so the transform never
    applies, whatever the class of the request and the trust tier of the shadow. *)
Theorem ShadowCall_apart timeout d req (w : World L C S X) :
  let '(_, w') := ShadowCall p timeout d req w in
  w_limiter w' = w_limiter w /\ w_shadowed w' = w_shadowed w
  /\ (w_sent w' = w_sent w \/ exists cred, w_sent w' = w_sent w ++ [mkCall d (sh_Meta req) (sh_Body req) cred])
  /\ (w_events w' = w_events w
      \/ exists u, w_events w' = w_events w ++ [EvUsage u] /\ ev_Shadow u = true /\ ev_PriceMicroUSD u = 0
           /\ ev_RequestID u = RequestID (sh_Meta req) +:+ ":shadow:" +:+ dep_ID d).
Proof.
  assert (Hs : strategyFor (p_DefaultClass (shadow_principal req)) (dep_TrustTier d) = StrategyNone).
  { unfold strategyFor. by destruct (_ <=? _). }
  unfold ShadowCall. cbn [now]. destruct (providers p _) as [provider|]; [|split_and!; [done..|by left|by left]].
  destruct (resolve p _ _) as [[err|cred] x]; [split_and!; [done..|by left|by left]|].
  unfold protect. rewrite Hs, bool_decide_true by done.
  destruct (invoke p _ _ _ _) as [[err|resp] x2]; cbn; (split_and!; [done..|by right; exists cred|right]);
    eexists; split_and!; reflexivity.
Qed.
End promises.

(** ** A gateway to run *)
Definition slotted_principal : Principal :=
  mkPrincipal "k1" "acme" "" "" "" "" [] (mkAllowlist true []) [] DataClassInternal TrustUnset
    (mkRateLimit 10 0 2) false 0.
Definition slotted_tenant : TenantLayer :=
  match NewTenantLayer (mkTenantSpec "acme" (mkVersion 1 "t1") 0 "free" [slotted_principal]
          {[ demo_lookup := "k1" ]} [] [] [] [] [] TrustExternal) with
  | inr t => t
  | inl _ => demo_tenant "acme"
  end.
Definition slotted_snapshot : Snapshot := mkSnapshot demo_global {[ "acme" := slotted_tenant ]}.

(** Providers answer with [answer]; nothing else is configured. *)
Definition demo_pipeline (answer : error + ProviderResponse) : Pipeline unit unit unit :=
  mkPipeline (fun name => if bool_decide (name = "echo") then Some tt else None)
    (fun _ => [EndpointChatCompletions])
    (fun _ _ _ x => (answer, x)) (fun _ _ _ x => (match answer with inl e => inl e | inr _ => inr tt end, x))
    (fun ref x => (NoCredentials_Resolve ref, x)) None (fun _ x => (true, x))
    (NewRouter []) false None false "" []
    (fun _ _ => demo_lookup) (fun _ _ => []) demo_unmarshal demo_ParsePrefix (fun f => f)
    (fun _ => of_int 0) (fun _ => Hour) None.

Definition demo_request (body : string) : Request :=
  mkRequest (mkMeta "r1" "m" EndpointChatCompletions false 0 AddrInvalid "" 0 0) "gw_demo_s3cret" (str body) false.

Definition demo_state : St (Limits.World memkv.Store) unit memkv.Store unit :=
  (idle_router, mkW fresh_limiter tt NewCache memkv.New [] [] [] ∅ tt 0).

(** The limiter of the demonstration, on a fixed clock. *)
#[local] Instance demo_limiter : RateLimiter (Limits.World memkv.Store) := limits_limiter (fun _ => Hour).
#[local] Instance demo_laws : SlotLaws (Limits.World memkv.Store) (fun k w => slots_of k (w_lim w)) :=
  limits_laws (fun _ => Hour).

Definition demo_answer : error + ProviderResponse := inr (mkResponse 200 (str "ok") NoUsage).
Definition demo_refusal : error + ProviderResponse := inl (New CodeInvalidRequest "bad request").

Lemma slots_returned_witness :
  let out := Handle (demo_pipeline demo_answer) slotted_snapshot (demo_request "mail a@b.co") demo_state in
  out.1.2 = None /\ (call_Body <$> w_sent out.2.2) = [str "mail [[EMAIL_1]]"]
  /\ slots_of "k1" (w_lim (w_limiter out.2.2)) = 0.
Proof.
  split; [vm_compute; reflexivity|split; [vm_compute; reflexivity|]].
  destruct (slots_returned (demo_pipeline demo_answer) (fun k w => slots_of k (w_lim w)) slotted_snapshot
              (demo_request "mail a@b.co") NoUsage 0 None demo_state) as [H _].
  { intros k. unfold slots_of. cbn. rewrite lookup_empty. cbn. split; [lia|reflexivity]. }
  destruct (H "k1") as [_ Hk]. etransitivity; [apply Hk|vm_compute; reflexivity].
  intros principal (prefix & secret & tenant & H1 & H2 & H3 & _).
  vm_compute in H1. injection H1 as <- <-. vm_compute in H2. injection H2 as <-.
  vm_compute in H3. injection H3 as <-. reflexivity.
Defined.

(** A stream refused after admission still holds its slot when [HandleStream] returns: only
    [Finish] gives it back, although the stream never started. *)
Lemma failed_stream_keeps_slot :
  let out := HandleStream (demo_pipeline demo_refusal) slotted_snapshot (demo_request "hi") demo_state in
  is_Some out.1.2 /\ str_finish out.1.1 = None
  /\ slots_of "k1" (w_lim (w_limiter out.2.2)) = 1
  /\ slots_of "k1" (w_lim (w_limiter (Finish (demo_pipeline demo_refusal) out.1.1 NoUsage 0 None out.2.2).2)) = 0.
Proof. vm_compute. split; [by eexists|done]. Qed.

(** The same request through both paths: the serving provider sees the address masked, the
    shadow sees it as the caller wrote it. *)
Lemma shadow_sees_the_original :
  let p := demo_pipeline demo_answer in
  let out := Handle p slotted_snapshot (demo_request "mail a@b.co") demo_state in
  let sh := mkShadow (req_Meta (demo_request "mail a@b.co")) (str "mail a@b.co") "acme" "k1" "free" 1 [] in
  let w := (ShadowCall p Second demo_dep sh out.2.2).2 in
  (call_Body <$> w_sent w) = [str "mail [[EMAIL_1]]"; str "mail a@b.co"].
Proof. vm_compute. reflexivity. Qed.

(** Two snapshots with the same global layer and different policies for the tenant: a worker that
    served under the first goes on applying its policy under the second, which refuses. *)
Definition policy_snapshot (policy : bytes) : Snapshot :=
  mkSnapshot demo_global
    {[ "acme" := match NewTenantLayer (mkTenantSpec "acme" (mkVersion 1 "t1") 0 "free" [slotted_principal]
                         {[ demo_lookup := "k1" ]} [] [] [] [] policy TrustExternal) with
                 | inr t => t
                 | inl _ => demo_tenant "acme"
                 end ]}.
Lemma tenant_policy_change_ignored :
  let p := demo_pipeline demo_answer in
  let req := mkRequest (mkMeta "r1" "m" EndpointChatCompletions false 0 (Addr4 167772161) "" 0 0)
               "gw_demo_s3cret" (str "hi") false in
  let warm := (Handle p (policy_snapshot (str "a")) req demo_state).2 in
  CodeOf (Handle p (policy_snapshot (str "d")) req demo_state).1.2 = CodeForbidden
  /\ (Handle p (policy_snapshot (str "d")) req warm).1.2 = None.
Proof. vm_compute. split; reflexivity. Qed.
