(* ===== verification/Keys.v ===== *)
(** * Keys (core/identity.go, gateway/pipeline.go)

    What holding a key means, with the keyed hash the program uses: the control plane files every
    secret it issues under [ComputeKeyLookup], and a worker admits a request by the same function. *)
From S2P Require Import Prelude Errors Core Snapshot SnapshotFacts Policy Format Sha256 Kv Limits Float64 Router Guardrails Pipeline PipelineFacts.
From Stdlib Require Import ZArith Lia Ascii.
From stdpp Require Import base gmap strings list.
Open Scope Z_scope.
Open Scope gw_scope.

Section keys.
Context {L C S P Strm X : Type} (p : Pipeline P Strm X) (issued : TenantID -> KeyID -> string -> Prop).

(** Every entry of the snapshot's key tables is a secret that was issued for its key. *)
Definition filed (snap : Snapshot) : Prop :=
  forall tenant layer lookup id, s_tenants snap !! tenant = Some layer -> t_keys layer !! lookup = Some id ->
    exists secret, issued tenant id secret /\ lookup = Sha256.ComputeKeyLookup (pepper p) secret.

Lemma lookupPrincipal_filed snap tenant lookup principal :
  snapshot_wf snap -> filed snap -> lookupPrincipal snap tenant lookup = Some principal ->
  p_Tenant principal = tenant
  /\ exists secret, issued tenant (p_KeyID principal) secret /\ lookup = Sha256.ComputeKeyLookup (pepper p) secret.
Proof.
  intros Hwf Hf Hl. pose proof (lookupPrincipal_wf _ _ _ _ Hwf Hl) as [Ht _]. split; [done|].
  unfold lookupPrincipal in Hl. destruct (s_tenants snap !! tenant) as [layer|] eqn:El; [|done]. cbn in Hl.
  destruct (t_keys layer !! lookup) as [id|] eqn:Ek; [|done]. cbn in Hl.
  destruct Hwf as [_ Hwf]. destruct (Hwf _ _ El) as (_ & Hp & _). destruct (Hp _ _ Hl) as (-> & _ & _).
  by eapply Hf.
Qed.

(** C4. Only an issued secret opens the door, and it does.  When a request is admitted as some
    principal, the key it presented names a prefix of the principal's tenant and a secret, and that
    secret is one that was issued for this very principal, or else it, the issued secret and the pepper
    spell out two different byte strings with the same SHA-256.  Conversely a key with a known prefix and a filed secret of a
    principal that has not expired is admitted as that principal. *)
Theorem only_issued_secrets_authenticate snap req (w : World L C S X) :
  built snap -> filed snap -> Pipeline.ComputeKeyLookup p = Sha256.ComputeKeyLookup ->
  (forall principal, (authenticate p snap req w).1 = inr principal ->
     exists prefix secret issuedSecret, req_APIKey req = ("gw_" +:+ prefix +:+ "_" +:+ secret)
       /\ TenantForPrefix snap prefix = Some (p_Tenant principal)
       /\ issued (p_Tenant principal) (p_KeyID principal) issuedSecret
       /\ (secret = issuedSecret \/ collide (suspects (pepper p) (text secret) (text issuedSecret))))
  /\ (forall prefix secret tenant principal, ParseAPIKey (req_APIKey req) = inr (prefix, secret) ->
        TenantForPrefix snap prefix = Some tenant ->
        lookupPrincipal snap tenant (Sha256.ComputeKeyLookup (pepper p) secret) = Some principal ->
        Validate principal (clk p (w_tick w)) = None -> (authenticate p snap req w).1 = inr principal).
Proof.
  intros Hb%built_wf Hf Hh. unfold authenticate. rewrite Hh. split.
  - intros principal. destruct (ParseAPIKey (req_APIKey req)) as [e|[prefix secret]] eqn:Ek; [done|].
    destruct (TenantForPrefix snap prefix) as [tenant|] eqn:Et; [|done].
    destruct (lookupPrincipal snap tenant _) as [principal'|] eqn:El; [|done]. cbn [now].
    destruct (Validate principal' _); [done|]. intros [= ->].
    destruct (lookupPrincipal_filed _ _ _ _ Hb Hf El) as (Htn & issuedSecret & Hi & Heq).
    exists prefix, secret, issuedSecret. apply ParseAPIKey_spec in Ek as (Ek & _). subst tenant.
    split_and!; [done|done|done|]. destruct (HMAC_separates _ _ _ Heq) as [E|E]; [left|by right].
    apply (f_equal String.string_of_list_ascii) in E. unfold text in E. by rewrite !String.string_of_list_ascii_of_string in E.
  - intros prefix secret tenant principal -> -> -> Hv. cbn [now]. by rewrite Hv.
Qed.
End keys.

(** ** A key that was issued *)

Definition key_pepper : string := "a pepper of thirty-two bytes, yes".
Definition key_lookup : KeyLookup := Sha256.ComputeKeyLookup (text key_pepper) "s3cret".
Definition key_tspec : TenantSpec :=
  mkTenantSpec "acme" (mkVersion 1 "t1") 0 "free" [demo_principal] {[ key_lookup := "k1" ]} [] [demo_budget] [] [] [] TrustExternal.
Definition key_tenant : TenantLayer :=
  mkTenantLayer "acme" (mkVersion 1 "t1") 0 "free" {[ "k1" := demo_principal ]} {[ key_lookup := "k1" ]} ∅
    {[ "b1" := demo_budget ]} ∅ [] [] TrustExternal.
Definition key_snapshot : Snapshot := mkSnapshot demo_global {[ "acme" := key_tenant ]}.
Definition key_pipeline : Pipeline unit unit unit :=
  mkPipeline (fun _ => None) (fun _ => []) (fun _ _ _ x => (inl (Foreign "" None), x)) (fun _ _ _ x => (inr tt, x))
    (fun ref x => (NoCredentials_Resolve ref, x)) None (fun _ x => (true, x)) (NewRouter []) false None false ""
    (text key_pepper) Sha256.ComputeKeyLookup Sha256.short_hash (fun _ => inl (Foreign "" None)) (fun _ => inl (Foreign "" None))
    (fun f => f) (fun _ => of_int 0) (fun _ => Hour) None.
Definition key_world : World unit unit unit unit := mkW tt tt NewCache tt [] [] [] ∅ tt 0.
Definition key_request : Request :=
  mkRequest (mkMeta "r1" "m" EndpointChatCompletions false 0 AddrInvalid "" 0 0) "gw_demo_s3cret" [] false.

Lemma key_built : built key_snapshot.
Proof.
  apply (built_compose demo_gspec demo_global [key_tspec] [key_tenant]); [vm_compute; reflexivity| |vm_compute; reflexivity].
  constructor; [vm_compute; reflexivity|constructor].
Qed.

Definition key_issued (tenant : TenantID) (id : KeyID) (secret : string) : Prop := tenant = "acme" /\ id = "k1" /\ secret = "s3cret".

Lemma key_filed : filed key_pipeline key_issued key_snapshot.
Proof.
  intros tenant layer lookup id Ht Hk. cbn [key_snapshot s_tenants] in Ht. apply lookup_singleton_Some in Ht as [<- <-].
  cbn [key_tenant t_keys] in Hk. apply lookup_singleton_Some in Hk as [<- <-]. exists "s3cret". split; [done|reflexivity].
Qed.

Lemma key_found : TenantForPrefix key_snapshot "demo" = Some "acme"
  /\ lookupPrincipal key_snapshot "acme" (Sha256.ComputeKeyLookup (pepper key_pipeline) "s3cret") = Some demo_principal.
Proof. split; vm_compute; reflexivity. Qed.

Lemma only_issued_secrets_authenticate_witness : (authenticate key_pipeline key_snapshot key_request key_world).1 = inr demo_principal.
Proof.
  destruct key_found as [Ht Hl].
  destruct (only_issued_secrets_authenticate key_pipeline key_issued key_snapshot key_request key_world key_built key_filed eq_refl) as [_ H].
  exact (H "demo" "s3cret" "acme" demo_principal eq_refl Ht Hl eq_refl).
Defined.
