(* ===== verification/Adapters.v ===== *)
(** * Provider adapters (adapters/openaicompat, adapters/anthropic, adapters/echo)

    Rewriting the payload for a deployment, calling it, classifying what comes back, and reading a
    stream of server-sent events.  The HTTP client and the parsing of addresses are arguments; a
    response carries what can be read of its body and the error that ends the reading.  A scanner
    is the list of lines it is going to return. *)
From S2P Require Import Prelude Errors Core Strconv Text Json Format Source.
From Stdlib Require Import ZArith Lia Ascii.
From stdpp Require Import base gmap strings list.
Open Scope Z_scope.
Open Scope gw_scope.

(** ** What both HTTP adapters share *)

Definition maxErrorBodyBytes : nat := Z.to_nat (Z.shiftl 8 10).
Definition maxSSELineBytes : Z := Z.shiftl 1 20.

Record HttpRequest := mkHttpRequest {
  hq_Method : string; hq_URL : string; hq_Header : gmap string (list ascii); hq_Body : bytes }.
Record HttpResponse := mkHttpResponse {
  hp_StatusCode : Z; hp_Status : string; hp_Body : bytes; hp_ReadError : option error }.

Definition DeadlineExceeded : string := "context deadline exceeded".
Definition Canceled : string := "context canceled".

(** [http.NewRequestWithContext] and [client.Do]. *)
Record Client (X : Type) := mkClient {
  badURL : string -> option error;
  Do : HttpRequest -> X -> (error + HttpResponse) * X }.
Arguments badURL {X} _.
Arguments Do {X} _.

(** The error of a call that got no response. *)
Definition callError (err : error) : error :=
  if wraps DeadlineExceeded err
  then GwError CodeUpstreamTimeout (Msg "provider did not respond in time" []) true (Some err)
  else if wraps Canceled err then err
  else GwError CodeUpstreamError (Msg "calling the provider" []) true (Some err).

Definition upstreamError (resp : HttpResponse) : error :=
  let detail := TrimSpace (take maxErrorBodyBytes (hp_Body resp)) in
  let detail := if bool_decide (detail = []) then hp_Status resp else String.string_of_list_ascii detail in
  let err := Newf CodeUpstreamError "provider returned %d: %s" [AInt (hp_StatusCode resp); AStr detail] in
  if (hp_StatusCode resp =? 429) || (500 <=? hp_StatusCode resp) then AsRetryable err else err.

(** [Invoke] once the call has been sent, by how usage is read from the body. *)
Definition received (usageOf : bytes -> TokenUsage) (resp : HttpResponse) : error + ProviderResponse :=
  if 400 <=? hp_StatusCode resp then inl (upstreamError resp)
  else match hp_ReadError resp with
       | Some e => inl (GwError CodeUpstreamError (Msg "reading the provider response" []) false (Some e))
       | None => inr (mkResponse (hp_StatusCode resp) (hp_Body resp) (usageOf (hp_Body resp)))
       end.

(** [Probe] once the listing was asked for. *)
Definition probed (r : error + HttpResponse) : option error :=
  match r with
  | inl err => Some (GwError CodeUnavailable (Msg "probing the provider" []) true (Some err))
  | inr resp =>
      if (hp_StatusCode resp <? 400) || (hp_StatusCode resp =? 404) || (hp_StatusCode resp =? 405) then None
      else Some (Newf CodeUnavailable "probe returned %d" [AInt (hp_StatusCode resp)])
  end.

Definition with_secret (k : string) (prefix : string) (secret : bytes) (h : gmap string (list ascii))
    : gmap string (list ascii) :=
  match secret with [] => h | _ => <[k := text prefix ++ secret]> h end.

(** ** Server-sent events: bufio.Scanner with ScanLines *)

(** [ScanLines] drops one carriage return at the end of a line. *)
Definition dropCR (line : list ascii) : list ascii :=
  match rev line with c :: r => if bz c =? 13 then rev r else line | [] => [] end.

(** The lines the scanner returns, and whether a line too long for its buffer stops it: [acc] is
    the line so far, reversed. *)
Fixpoint scan_lines (acc : list ascii) (s : list ascii) : list (list ascii) * bool :=
  if maxSSELineBytes <=? Z.of_nat (length acc) then ([], true)
  else match s with
       | [] => match acc with [] => ([], false) | _ => ([dropCR (rev acc)], false) end
       | c :: s' =>
           if bz c =? 10 then let '(ls, long) := scan_lines [] s' in (dropCR (rev acc) :: ls, long)
           else scan_lines (c :: acc) s'
       end.

Definition ErrTooLong : error := Foreign "bufio.Scanner: token too long" None.

(** A stream: the lines to come, the scanner's error after them, and the adapter's own fields. *)
Record stream := mkStream {
  sm_lines : list (list ascii); sm_scanErr : option error;
  sm_closed : bool; sm_finished : bool; sm_usage : TokenUsage }.

Definition newStream (resp : HttpResponse) : stream :=
  let '(ls, long) := scan_lines [] (hp_Body resp) in
  mkStream ls (if long then Some ErrTooLong else hp_ReadError resp) false false NoUsage.

Definition NoChunk : Chunk := mkChunk [] NoUsage false.
Definition io_EOF : error := Foreign "EOF" None.

(** What one line of the stream makes [Next] do. *)
Inductive reaction :=
| Skip
| Give (c : Chunk) (usage : TokenUsage) (finished : bool)
| Refuse (e : error).

(** The loop of [Next]; [react] is the body of the loop, [truncated] the error of an end without a
    terminator. *)
Fixpoint next_line (react : list ascii -> TokenUsage -> reaction) (truncated : error) (scanErr : option error)
    (closed : bool) (lines : list (list ascii)) (usage : TokenUsage) : (Chunk * option error) * stream :=
  match lines with
  | [] =>
      ((NoChunk, Some (match scanErr with
                       | Some e => GwError CodeUpstreamError (Msg "reading the provider stream" []) false (Some e)
                       | None => truncated
                       end)), mkStream [] scanErr closed false usage)
  | line :: rest =>
      match react (TrimSpace line) usage with
      | Skip => next_line react truncated scanErr closed rest usage
      | Give c u fin => ((c, None), mkStream rest scanErr closed fin u)
      | Refuse e => ((NoChunk, Some e), mkStream rest scanErr closed false usage)
      end
  end.

(** [Next]: [ctxErr] is the context's error. *)
Definition Next_with (react : list ascii -> TokenUsage -> reaction) (truncated : error) (ctxErr : option error)
    (s : stream) : (Chunk * option error) * stream :=
  match ctxErr with
  | Some e => ((NoChunk, Some e), s)
  | None =>
      if sm_closed s || sm_finished s then ((NoChunk, Some io_EOF), s)
      else next_line react truncated (sm_scanErr s) (sm_closed s) (sm_lines s) (sm_usage s)
  end.

(** [Close]; [closeErr] is what closing the body says. *)
Definition Close_stream (closeErr : option error) (s : stream) : option error * stream :=
  if sm_closed s then (None, s)
  else (match closeErr with
        | Some e => Some (GwError CodeUpstreamError (Msg "closing the provider stream" []) false (Some e))
        | None => None
        end, mkStream (sm_lines s) (sm_scanErr s) true (sm_finished s) (sm_usage s)).

Definition notAnObject : error :=
  GwError CodeInvalidRequest (Msg "the request body is not a JSON object" []) false (Some (Foreign "encoding/json" None)).

(** ** The OpenAI-compatible adapter *)
Module openai.

Definition Name : string := "openai-compatible".
Definition Endpoints : list Endpoint := [EndpointChatCompletions].

(** The name the deployment is served under. *)
Definition served (d : Deployment) : string :=
  if IsAdapter (dep_Key d) then AdapterID (dep_Key d) else BaseModel (dep_Key d).

Definition include_usage : json := JObj [(text "include_usage", JBool true)].

(** The members set over the caller's. *)
Definition rewrite (d : Deployment) (streaming : bool) (payload : raw_map) : raw_map :=
  let payload := <[text "model" := MarshalString (text (served d))]> payload in
  let payload := <[text "stream" := JBool false]> payload in
  if streaming
  then <[text "stream_options" := include_usage]> (<[text "stream" := JBool true]> payload)
  else payload.

(** [prepareBody]; the outer [None] is the panic of writing to the map [null] decodes to. *)
Definition prepareBody (call : ProviderCall) (streaming : bool) : option (error + bytes) :=
  match UnmarshalMap (call_Body call) with
  | None => Some (inl notAnObject)
  | Some None => None
  | Some (Some payload) => Some (inr (print (MarshalMap (rewrite (call_Deployment call) streaming payload))))
  end.

Definition request (call : ProviderCall) (streaming : bool) (body : bytes) : HttpRequest :=
  let h := with_secret "Authorization" "Bearer " (cred_Secret (call_Credential call)) {[ "Content-Type" := text "application/json" ]} in
  mkHttpRequest "POST" (trimSlash (dep_Endpoint (call_Deployment call)) +:+ "/chat/completions")
    (if streaming then <["Accept" := text "text/event-stream"]> h else h) body.

Record usage := mkOpenAIUsage { PromptTokens : Z; CompletionTokens : Z; CachedTokens : Z }.
Definition dec_usage : decoder usage :=
  dec_struct [(text "usage", dec_struct
    [(text "prompt_tokens", at_field PromptTokens (fun n u => mkOpenAIUsage n (CompletionTokens u) (CachedTokens u)) dec_int64);
     (text "completion_tokens", at_field CompletionTokens (fun n u => mkOpenAIUsage (PromptTokens u) n (CachedTokens u)) dec_int64);
     (text "prompt_tokens_details", dec_struct
        [(text "cached_tokens", at_field CachedTokens (fun n u => mkOpenAIUsage (PromptTokens u) (CompletionTokens u) n) dec_int64)])])].

Definition usageFrom (body : bytes) : TokenUsage :=
  match Json.Unmarshal dec_usage (mkOpenAIUsage 0 0 0) body with
  | None => NoUsage
  | Some u => mkUsage (Z.max (wrap64 (PromptTokens u - CachedTokens u)) 0) (CachedTokens u) 0 (CompletionTokens u)
  end.

Definition ssePrefix : list ascii := text "data: ".
Definition sseDone : list ascii := text "[DONE]".

(** The body of the loop of [Next]. *)
Definition react (line : list ascii) (usage : TokenUsage) : reaction :=
  if bool_decide (line = []) || HasPrefix line (text ":") then Skip
  else match CutPrefix line ssePrefix with
       | None => Skip
       | Some payload =>
           if bool_decide (payload = sseDone) then Give (mkChunk [] usage true) usage true
           else
             let u := usageFrom payload in
             Give (mkChunk payload NoUsage false)
               (if negb (Input u =? 0) || negb (Output u =? 0) then u else usage) false
       end.
Definition truncated : error := New CodeUpstreamError "provider stream ended without a terminator".

Definition Next : option error -> stream -> (Chunk * option error) * stream := Next_with react truncated.

Section calls.
Context {X : Type} (client : Client X).

Definition send (call : ProviderCall) (streaming : bool) (x : X) : option ((error + HttpResponse) * X) :=
  match prepareBody call streaming with
  | None => None
  | Some (inl err) => Some (inl err, x)
  | Some (inr body) =>
      let req := request call streaming body in
      Some match badURL client (hq_URL req) with
           | Some e => (inl (GwError CodeInvalidRequest (Msg "building the upstream request" []) false (Some e)), x)
           | None => let '(r, x) := Do client req x in
                     (match r with inl err => inl (callError err) | inr resp => inr resp end, x)
           end
  end.

Definition Invoke (call : ProviderCall) (x : X) : option ((error + ProviderResponse) * X) :=
  match send call false x with
  | None => None
  | Some (inl err, x) => Some (inl err, x)
  | Some (inr resp, x) => Some (received usageFrom resp, x)
  end.

Definition Stream (call : ProviderCall) (x : X) : option ((error + stream) * X) :=
  match send call true x with
  | None => None
  | Some (inl err, x) => Some (inl err, x)
  | Some (inr resp, x) =>
      Some (if 400 <=? hp_StatusCode resp then inl (upstreamError resp) else inr (newStream resp), x)
  end.

Definition Probe (d : Deployment) (cred : Credential) (x : X) : option error * X :=
  let url := trimSlash (dep_Endpoint d) +:+ "/models" in
  match badURL client url with
  | Some e => (Some (GwError CodeInvalidRequest (Msg "building the probe request" []) false (Some e)), x)
  | None =>
      let '(r, x) := Do client (mkHttpRequest "GET" url (with_secret "Authorization" "Bearer " (cred_Secret cred) ∅) []) x in
      (probed r, x)
  end.
End calls.
End openai.

(** ** The Anthropic adapter *)
Module anthropic.

Definition Name : string := "anthropic".
Definition APIVersion : list ascii := text "2023-06-01".
Definition defaultMaxTokens : Z := 4096.
Definition Endpoints : list Endpoint := [EndpointMessages].

Definition rewrite (d : Deployment) (streaming : bool) (payload : raw_map) : raw_map :=
  let payload := <[text "model" := MarshalString (text (BaseModel (dep_Key d)))]> payload in
  let payload := <[text "stream" := JBool streaming]> payload in
  match payload !! text "max_tokens" with
  | Some _ => payload
  | None => <[text "max_tokens" := JNum (FormatInt defaultMaxTokens)]> payload
  end.

Definition prepareBody (call : ProviderCall) (streaming : bool) : option (error + bytes) :=
  match UnmarshalMap (call_Body call) with
  | None => Some (inl notAnObject)
  | Some None => None
  | Some (Some payload) => Some (inr (print (MarshalMap (rewrite (call_Deployment call) streaming payload))))
  end.

Definition request (call : ProviderCall) (streaming : bool) (body : bytes) : HttpRequest :=
  let h := with_secret "x-api-key" "" (cred_Secret (call_Credential call))
             {[ "Content-Type" := text "application/json"; "anthropic-version" := APIVersion ]} in
  mkHttpRequest "POST" (trimSlash (dep_Endpoint (call_Deployment call)) +:+ "/messages")
    (if streaming then <["Accept" := text "text/event-stream"]> h else h) body.

Record anthropicUsage := mkAnthropicUsage {
  InputTokens : Z; OutputTokens : Z; CacheReadInputTokens : Z; CacheCreationInputTokens : Z }.
Definition no_tokens : anthropicUsage := mkAnthropicUsage 0 0 0 0.

Definition dec_anthropicUsage : decoder anthropicUsage :=
  dec_struct
    [(text "input_tokens", at_field InputTokens (fun n u =>
        mkAnthropicUsage n (OutputTokens u) (CacheReadInputTokens u) (CacheCreationInputTokens u)) dec_int64);
     (text "output_tokens", at_field OutputTokens (fun n u =>
        mkAnthropicUsage (InputTokens u) n (CacheReadInputTokens u) (CacheCreationInputTokens u)) dec_int64);
     (text "cache_read_input_tokens", at_field CacheReadInputTokens (fun n u =>
        mkAnthropicUsage (InputTokens u) (OutputTokens u) n (CacheCreationInputTokens u)) dec_int64);
     (text "cache_creation_input_tokens", at_field CacheCreationInputTokens (fun n u =>
        mkAnthropicUsage (InputTokens u) (OutputTokens u) (CacheReadInputTokens u) n) dec_int64)].

Definition normalized (u : anthropicUsage) : TokenUsage :=
  mkUsage (InputTokens u) (CacheReadInputTokens u) (CacheCreationInputTokens u) (OutputTokens u).

Definition usageFromMessage (body : bytes) : TokenUsage :=
  match Json.Unmarshal (dec_struct [(text "usage", dec_anthropicUsage)]) no_tokens body with
  | None => NoUsage
  | Some u => normalized u
  end.

Record streamEvent := mkEvent {
  ev_Type : list ascii; ev_Message : option anthropicUsage; ev_Usage : option anthropicUsage;
  ev_Error : option (list ascii * list ascii) }.
Definition dec_event : decoder streamEvent :=
  dec_struct
    [(text "type", at_field ev_Type (fun t e => mkEvent t (ev_Message e) (ev_Usage e) (ev_Error e)) dec_string);
     (text "message", at_field ev_Message (fun m e => mkEvent (ev_Type e) m (ev_Usage e) (ev_Error e))
        (dec_ptr no_tokens (dec_struct [(text "usage", dec_anthropicUsage)])));
     (text "usage", at_field ev_Usage (fun u e => mkEvent (ev_Type e) (ev_Message e) u (ev_Error e))
        (dec_ptr no_tokens dec_anthropicUsage));
     (text "error", at_field ev_Error (fun r e => mkEvent (ev_Type e) (ev_Message e) (ev_Usage e) r)
        (dec_ptr ([], []) (dec_struct [(text "type", at_field fst (fun t p => (t, p.2)) dec_string);
                                       (text "message", at_field snd (fun m p => (p.1, m)) dec_string)])))].

(** The running usage after a [message_delta]: counts it reports replace, those it omits stay. *)
Definition delta_usage (usage reported : TokenUsage) : TokenUsage :=
  let over new old := if 0 <? new then new else old in
  mkUsage (over (Input reported) (Input usage)) (over (CachedInput reported) (CachedInput usage))
    (over (CacheWrite reported) (CacheWrite usage)) (over (Output reported) (Output usage)).

Definition event_usage (e : streamEvent) (usage : TokenUsage) : TokenUsage :=
  if bool_decide (ev_Type e = text "message_start") then from_option normalized usage (ev_Message e)
  else if bool_decide (ev_Type e = text "message_delta")
  then from_option (fun u => delta_usage usage (normalized u)) usage (ev_Usage e)
  else usage.

Definition stream_event_error (e : streamEvent) : error :=
  New CodeUpstreamError
    (String.string_of_list_ascii
       match ev_Error e with
       | Some (t, m) => t ++ text ": " ++ m
       | None => text "provider reported a stream error"
       end).

(** The body of the loop of [Next]. *)
Definition react (line : list ascii) (usage : TokenUsage) : reaction :=
  if bool_decide (line = []) || HasPrefix line (text ":") || HasPrefix line (text "event:") then Skip
  else match CutPrefix line (text "data: ") with
       | None => Skip
       | Some payload =>
           match Json.Unmarshal dec_event (mkEvent [] None None None) payload with
           | None => Give (mkChunk payload NoUsage false) usage false
           | Some e =>
               if bool_decide (ev_Type e = text "error") then Refuse (stream_event_error e)
               else if bool_decide (ev_Type e = text "message_stop") then Give (mkChunk payload usage true) usage true
               else Give (mkChunk payload NoUsage false) (event_usage e usage) false
           end
       end.
Definition truncated : error := New CodeUpstreamError "provider stream ended without message_stop".

Definition Next : option error -> stream -> (Chunk * option error) * stream := Next_with react truncated.

Section calls.
Context {X : Type} (client : Client X).

Definition send (call : ProviderCall) (streaming : bool) (x : X) : option ((error + HttpResponse) * X) :=
  match prepareBody call streaming with
  | None => None
  | Some (inl err) => Some (inl err, x)
  | Some (inr body) =>
      let req := request call streaming body in
      Some match badURL client (hq_URL req) with
           | Some e => (inl (GwError CodeInvalidRequest (Msg "building the upstream request" []) false (Some e)), x)
           | None => let '(r, x) := Do client req x in
                     (match r with inl err => inl (callError err) | inr resp => inr resp end, x)
           end
  end.

Definition Invoke (call : ProviderCall) (x : X) : option ((error + ProviderResponse) * X) :=
  match send call false x with
  | None => None
  | Some (inl err, x) => Some (inl err, x)
  | Some (inr resp, x) => Some (received usageFromMessage resp, x)
  end.

Definition Stream (call : ProviderCall) (x : X) : option ((error + stream) * X) :=
  match send call true x with
  | None => None
  | Some (inl err, x) => Some (inl err, x)
  | Some (inr resp, x) =>
      Some (if 400 <=? hp_StatusCode resp then inl (upstreamError resp) else inr (newStream resp), x)
  end.

Definition Probe (d : Deployment) (cred : Credential) (x : X) : option error * X :=
  let url := trimSlash (dep_Endpoint d) +:+ "/models" in
  match badURL client url with
  | Some e => (Some (GwError CodeInvalidRequest (Msg "building the probe request" []) false (Some e)), x)
  | None =>
      let '(r, x) := Do client (mkHttpRequest "GET" url
                       (with_secret "x-api-key" "" (cred_Secret cred) {[ "anthropic-version" := APIVersion ]}) []) x in
      (probed r, x)
  end.
End calls.
End anthropic.

(** ** The echo adapter *)
Module echo.

Definition ChunkSize : nat := 16.
Definition Name : string := "echo".
Definition Endpoints : list Endpoint := [EndpointChatCompletions; EndpointMessages; EndpointEmbeddings].

Definition estimateUsage (body : bytes) : TokenUsage :=
  let tokens := Z.quot (Z.of_nat (length body) + 3) 4 in mkUsage tokens 0 0 tokens.

Definition Probe (ctxErr : option error) : option error := ctxErr.

Definition Invoke (ctxErr : option error) (call : ProviderCall) : error + ProviderResponse :=
  match ctxErr with
  | Some e => inl e
  | None => inr (mkResponse 200 (call_Body call) (estimateUsage (call_Body call)))
  end.

Record stream := mkEcho { e_body : bytes; e_offset : nat; e_usage : TokenUsage; e_closed : bool }.

Definition Stream (ctxErr : option error) (call : ProviderCall) : error + stream :=
  match ctxErr with
  | Some e => inl e
  | None => inr (mkEcho (call_Body call) 0 (estimateUsage (call_Body call)) false)
  end.

Definition Next (ctxErr : option error) (s : stream) : (Chunk * option error) * stream :=
  match ctxErr with
  | Some e => ((NoChunk, Some e), s)
  | None =>
      if e_closed s || (length (e_body s) <=? e_offset s)%nat then ((NoChunk, Some io_EOF), s)
      else
        let stop := Nat.min (e_offset s + ChunkSize) (length (e_body s)) in
        let body := take (stop - e_offset s) (drop (e_offset s) (e_body s)) in
        let final := (length (e_body s) <=? stop)%nat in
        ((mkChunk body (if final then e_usage s else NoUsage) final, None),
         mkEcho (e_body s) stop (e_usage s) (e_closed s))
  end.

Definition Close (s : stream) : stream := mkEcho (e_body s) (e_offset s) (e_usage s) true.
End echo.
