(* ===== verification/AdaptersFacts.v ===== *)
(** * What the provider adapters promise

    The payload a provider receives is the caller's but for the members the gateway owns; failures
    are retried elsewhere exactly when that can help; a stream ends cleanly only with its
    terminator, which carries the usage, and what the transport writes can be read back. *)
From S2P Require Import Prelude Errors Core Strconv Text Json JsonFacts Format HttpText Source Adapters.
From Stdlib Require Import ZArith Lia Ascii.
From stdpp Require Import base gmap strings list.
Open Scope Z_scope.
Open Scope gw_scope.

(** ** Keys are valid text *)

Definition encoded (s : list ascii) : Prop :=
  exists rs, Forall (fun r => scalar r = true) rs /\ s = concat (map EncodeRune rs).

Lemma encoded_nil : encoded [].
Proof. by exists []. Qed.
Lemma encoded_app a b : encoded a -> encoded b -> encoded (a ++ b).
Proof.
  intros (ra & Ha & ->) (rb & Hb & ->). exists (ra ++ rb). rewrite map_app, concat_app.
  split; [by apply list.Forall_app_2|done].
Qed.
Lemma encoded_rune r : encoded (EncodeRune r).
Proof.
  destruct (scalar r) eqn:E.
  - exists [r]. split; [by constructor|]. cbn. by rewrite app_nil_r.
  - exists [RuneError]. split; [by constructor|]. unfold EncodeRune at 1. by rewrite E.
Qed.
Lemma encoded_ascii c : bz c < 128 -> encoded [c].
Proof.
  intros Hc. pose proof (bz_range c). exists [bz c].
  assert (scalar (bz c) = true) as Hs by (unfold scalar; rewrite orb_true_iff, !within_spec; lia).
  split; [by constructor|]. cbn. unfold EncodeRune. by rewrite Hs, (proj2 (Z.ltb_lt _ _)), zb_bz by lia.
Qed.

Lemma encoded_valid s : encoded s -> ValidString s = true.
Proof.
  intros (rs & Hrs & ->). unfold ValidString. rewrite runes_encode by done.
  apply forallb_forall. intros p Hp. apply in_map_iff in Hp as (r & <- & _). simpl.
  destruct (r =? RuneError) eqn:E; [|done]. zify_bools. by subst.
Qed.

(** The rest of a literal after a code unit. *)
Lemma raw_ok_getu4 x v : raw_ok x -> getu4 x = Some v -> raw_ok (drop 6 x).
Proof.
  intros Hr E. destruct Hr as [|c r Hc Hq Hb Hr|e r He Hr|g1 g2 g3 g4 r G1 G2 G3 G4 Hr].
  - done.
  - exfalso. unfold getu4 in E. repeat case_match; try done.
    repeat match goal with H : (_ && _)%bool = true |- _ => apply andb_true_iff in H as [H ?] end.
    match goal with H : Ascii.eqb _ backslash = true |- _ => apply Ascii.eqb_eq in H end. done.
  - exfalso. unfold getu4 in E. repeat case_match; try done.
    repeat match goal with H : (_ && _)%bool = true |- _ => apply andb_true_iff in H as [H ?] end.
    match goal with H : Ascii.eqb e "u" = true |- _ => apply Ascii.eqb_eq in H; subst end.
    by vm_compute in He.
  - cbn [drop]. by rewrite drop_0.
Qed.

Lemma unquote_simple_encoded e y :
  simple_escape e = true -> exists out, encoded out /\ unquote (backslash :: e :: y) = out ++ unquote y.
Proof.
  intros He. unfold simple_escape in He. rewrite !orb_true_iff, bool_decide_eq_true in He.
  rewrite !elem_of_cons in He.
  destruct He as [[[-> | [-> | [-> | [-> | [-> | [-> | He]]]]]] | ->%Ascii.eqb_eq] | ->%Ascii.eqb_eq];
    try (eexists; split; [|reflexivity]; apply encoded_ascii; by vm_compute).
  by apply elem_of_nil in He.
Qed.

Lemma unquote_encoded raw : raw_ok raw -> encoded (unquote raw).
Proof.
  induction raw as [raw IH] using (well_founded_induction (well_founded_ltof _ (@length ascii))).
  unfold ltof in IH. intros Hr. destruct Hr as [|c r Hc Hq Hb Hr|e r He Hr|h1 h2 h3 h4 r H1 H2 H3 H4 Hr].
  - apply encoded_nil.
  - destruct (Z.lt_ge_cases (bz c) 128) as [Hlt|Hge].
    { rewrite unquote_cons_ascii by done. apply (encoded_app [c]); [by apply encoded_ascii|].
      apply IH; [simpl; lia|done]. }
    destruct (cont_prefix r) as (a & r1 & -> & Ha & Hr1). rewrite unquote_cons by done.
    destruct (DecodeRune_local c a r1 r1 Ha Hr1 Hr1 Hge) as [_ Hn].
    destruct (DecodeRune (c :: a ++ r1)) as [r n]. simpl in Hn. apply encoded_app; [apply encoded_rune|].
    rewrite drop_app_le by lia. apply IH; [|by apply raw_ok_drop_cont].
    rewrite !length_app, length_drop. simpl. rewrite length_app. lia.
  - destruct (unquote_simple_encoded e r He) as (out & Ho & ->). apply encoded_app; [done|].
    apply IH; [simpl; lia|done].
  - rewrite unquote_u by done. cbv zeta. destruct (surrogate _).
    + destruct (getu4 r) as [v|] eqn:E; cbn [mbind option_bind].
      * destruct (utf16_pair _ v); (apply encoded_app; [apply encoded_rune|apply IH]);
          [simpl; rewrite length_drop; lia|by eapply raw_ok_getu4|simpl; lia|done].
      * apply encoded_app; [apply encoded_rune|]. apply IH; [simpl; lia|done].
    + apply encoded_app; [apply encoded_rune|]. apply IH; [simpl; lia|done].
Qed.

(** ** Encoding a map and decoding it again *)

Lemma foldl_insert_pairs {A} (l : list (list ascii * A)) (m : gmap (list ascii) A) :
  NoDup l.*1 -> foldl (fun m kv => <[kv.1 := kv.2]> m) m l = list_to_map l ∪ m.
Proof.
  revert m. induction l as [|[k v] l IH]; intros m Hd; cbn [foldl fmap list_fmap] in *.
  - by rewrite list_to_map_nil, map_empty_union.
  - apply list.NoDup_cons in Hd as [Hn Hd]. rewrite IH by done. rewrite list_to_map_cons. cbn [fst snd].
    rewrite <- insert_union_r by (by apply not_elem_of_list_to_map_1). by rewrite insert_union_l.
Qed.

Definition map_ok (m : raw_map) : Prop :=
  forall k v, m !! k = Some v -> ValidString k = true /\ jwf v /\ Z.of_nat (jdepth v) < maxNestingDepth.

Lemma map_ok_insert k v m :
  ValidString k = true -> jwf v -> Z.of_nat (jdepth v) < maxNestingDepth -> map_ok m -> map_ok (<[k := v]> m).
Proof. intros H1 H2 H3 Hm k' v' [[<- <-]|[_ H]]%lookup_insert_Some; [done|by apply Hm]. Qed.

Lemma UnmarshalMap_ok s m : UnmarshalMap s = Some (Some m) -> map_ok m.
Proof.
  unfold UnmarshalMap. destruct (parse s) as [[| | | | |members]|] eqn:E; try done. intros [= <-].
  apply parse_ok in E as [Hw Hd]. simpl in Hw. apply foldr_and in Hw.
  assert (Hdep : Forall (fun kv => Z.of_nat (jdepth kv.2) < maxNestingDepth) members).
  { simpl in Hd. rewrite list.Forall_forall. intros kv Hin.
    assert (foldr Nat.max 0%nat (map (fun kv => jdepth kv.2) members) <= foldr Nat.max 0%nat (map (fun kv => jdepth kv.2) members))%nat
      as Hm by done. rewrite foldr_max, list.Forall_forall in Hm. specialize (Hm _ Hin). cbn in Hm. lia. }
  clear Hd. assert (Hok : map_ok ∅) by done. revert Hok. generalize (∅ : raw_map).
  induction members as [|[k v] members IH]; intros m Hm; cbn [foldl]; [done|].
  apply list.Forall_cons in Hw as [[Hk Hv] Hw]. apply list.Forall_cons in Hdep as [Hd Hdep].
  apply IH; [done..|]. apply map_ok_insert; [by apply encoded_valid, unquote_encoded|done..].
Qed.

Lemma foldl_quoted (l : list (list ascii * json)) (m : raw_map) :
  Forall (fun kv => ValidString kv.1 = true) l ->
  foldl (fun m kv => <[unquote kv.1 := kv.2]> m) m (map (fun kv => (quote kv.1, compact kv.2)) l)
  = foldl (fun m kv => <[kv.1 := kv.2]> m) m (prod_map id compact <$> l).
Proof.
  intros Hl. revert m. induction Hl as [|[k v] l Hk Hl IH]; intros m; [done|].
  cbn [map foldl fmap list_fmap prod_map fst snd]. rewrite quote_roundtrip by done. apply IH.
Qed.

(** What is written for a map reads back as the map, its values re-encoded. *)
Lemma UnmarshalMap_MarshalMap m :
  map_ok m -> UnmarshalMap (print (MarshalMap m)) = Some (Some (compact <$> m)).
Proof.
  intros Hm. unfold UnmarshalMap, MarshalMap. set (l := sort_keys (map_to_list m)).
  assert (Hperm : l ≡ₚ map_to_list m) by apply sort_keys_perm.
  assert (Hin : Forall (fun kv => ValidString kv.1 = true /\ jwf kv.2 /\ Z.of_nat (jdepth kv.2) < maxNestingDepth) l).
  { rewrite list.Forall_forall. intros [k v]. rewrite Hperm. intros H%elem_of_map_to_list. by apply Hm. }
  assert (Hd : NoDup l.*1) by (rewrite Hperm; apply NoDup_fst_map_to_list).
  rewrite parse_print.
  - do 2 f_equal. rewrite foldl_quoted by (eapply list.Forall_impl; [exact Hin|]; naive_solver).
    rewrite foldl_insert_pairs.
    + rewrite map_union_empty, list_to_map_fmap. f_equal.
      etrans; [by apply (list_to_map_proper l (map_to_list m))|apply list_to_map_to_list].
    + rewrite <- list_fmap_compose. erewrite list_fmap_ext; [exact Hd|done].
  - cbn [jwf]. rewrite foldr_and. apply Forall_fmap. eapply list.Forall_impl; [exact Hin|].
    intros kv (_ & Hw & _). cbn. split; [apply quote_ok|by apply compact_facts].
  - cbn [jdepth]. rewrite map_map. cbn [snd]. rewrite Nat2Z.inj_succ.
    enough (foldr Nat.max 0 (map (fun kv => jdepth (compact kv.2)) l) <= Z.to_nat (maxNestingDepth - 1))%nat
      by (unfold maxNestingDepth in *; lia).
    apply foldr_max. eapply list.Forall_impl; [exact Hin|]. intros kv (_ & Hw & Hdep). cbn.
    destruct (compact_facts _ Hw) as (_ & _ & ->). lia.
Qed.

(** ** The payload *)

Lemma openai_rewrite_ok d streaming m : map_ok m -> map_ok (openai.rewrite d streaming m).
Proof.
  intros Hm. unfold openai.rewrite. destruct streaming; repeat (apply map_ok_insert; [done| |done|]); try done;
    try apply quote_ok. cbn. split; [split; [|done]|done]. repeat (apply raw_char; [by vm_compute|done..|]). constructor.
Qed.

Lemma anthropic_rewrite_ok d streaming m : map_ok m -> map_ok (anthropic.rewrite d streaming m).
Proof.
  intros Hm. unfold anthropic.rewrite.
  assert (map_ok (<[text "stream" := JBool streaming]> (<[text "model" := MarshalString (text (BaseModel (dep_Key d)))]> m))) as H
    by (repeat (apply map_ok_insert; [done| |done|]); try done; apply quote_ok).
  destruct (_ !! text "max_tokens"); [done|]. apply map_ok_insert; [done| |done|done].
  cbn. by eexists _, _, _, _.
Qed.

(** What a map rewritten and encoded gives its reader. *)
Lemma reread m :
  map_ok m -> exists m', UnmarshalMap (print (MarshalMap m)) = Some (Some m')
    /\ forall k, meaning <$> m' !! k = meaning <$> m !! k.
Proof.
  intros Hm. exists (compact <$> m). split; [by apply UnmarshalMap_MarshalMap|]. intros k. rewrite lookup_fmap.
  destruct (m !! k) as [v|] eqn:E; [|done]. cbn. f_equal. apply compact_facts. by apply (Hm k v).
Qed.


(** The one object-less payload that is not refused: assigning to the nil map it leaves panics. *)
Lemma null_payload_panics call streaming :
  call_Body call = text "null" ->
  openai.prepareBody call streaming = None /\ anthropic.prepareBody call streaming = None.
Proof. intros H. unfold openai.prepareBody, anthropic.prepareBody. rewrite H. done. Qed.

(** ** Failures *)

(** A failed call is tried elsewhere exactly when that can help.  A response that refuses is
    retryable for 429 and the 5xx, and final otherwise; a call that got no response is retryable
    unless the caller's own context was cancelled; only a response below 400 counts as an answer,
    and then its body is passed on as it came. *)
Theorem failures_are_classified resp err usageOf :
  (IsRetryable (Some (upstreamError resp)) = true <-> hp_StatusCode resp = 429 \/ 500 <= hp_StatusCode resp)
  /\ CodeOf (Some (upstreamError resp)) = CodeUpstreamError
  /\ (wraps Canceled err = false -> IsRetryable (Some (callError err)) = true)
  /\ (wraps DeadlineExceeded err = true -> CodeOf (Some (callError err)) = CodeUpstreamTimeout)
  /\ (wraps DeadlineExceeded err = false -> wraps Canceled err = true -> callError err = err)
  /\ match received usageOf resp with
     | inr r => hp_StatusCode resp < 400 /\ hp_ReadError resp = None
                /\ r = mkResponse (hp_StatusCode resp) (hp_Body resp) (usageOf (hp_Body resp))
     | inl e => CodeOf (Some e) = CodeUpstreamError
     end.
Proof.
  assert (Hu : CodeOf (Some (upstreamError resp)) = CodeUpstreamError) by (unfold upstreamError; by destruct (_ || _)).
  split_and!; [|done|unfold callError; intros ->; by destruct (wraps DeadlineExceeded err)|by unfold callError; intros ->|
               by unfold callError; intros -> ->|].
  - unfold upstreamError. destruct (_ || _) eqn:E; cbn; (split; [|]); try done; intros H.
    + apply orb_true_iff in E. rewrite Z.eqb_eq, Z.leb_le in E. tauto.
    + zify_bools. lia.
  - unfold received. destruct (400 <=? hp_StatusCode resp) eqn:E; [done|]. zify_bools.
    destruct (hp_ReadError resp); [done|]. by split_and!.
Qed.

(** ** Usage *)

Lemma usageFrom_classes body u :
  Json.Unmarshal openai.dec_usage (openai.mkOpenAIUsage 0 0 0) body = Some u ->
  0 <= openai.CachedTokens u <= openai.PromptTokens u -> in_int64 (openai.PromptTokens u) ->
  TotalInput (openai.usageFrom body) = openai.PromptTokens u /\ 0 <= Input (openai.usageFrom body)
  /\ CachedInput (openai.usageFrom body) = openai.CachedTokens u /\ Output (openai.usageFrom body) = openai.CompletionTokens u.
Proof.
  intros Hu Hc Hi. unfold openai.usageFrom. rewrite Hu. unfold in_int64, int64_min, int64_max in Hi.
  rewrite (wrap64_id (_ - _)) by (unfold in_int64, int64_min, int64_max; lia). cbn.
  rewrite Z.max_l by lia. unfold TotalInput. cbn [Input CachedInput CacheWrite].
  rewrite Z.sub_add, (wrap64_id (openai.PromptTokens u)), Z.add_0_r, wrap64_id by done. lia.
Qed.

(** The clamp covers the standard count; a negative cached count passes. *)
Definition negative_cached : bytes :=
  text "{" ++ quoted (text "usage") ++ text ":{" ++ quoted (text "prompt_tokens") ++ text ":10,"
  ++ quoted (text "prompt_tokens_details") ++ text ":{" ++ quoted (text "cached_tokens") ++ text ":-1000}}}".
Lemma negative_cached_count_is_a_credit : openai.usageFrom negative_cached = mkUsage 1010 (-1000) 0 0.
Proof. vm_compute. reflexivity. Qed.

(** ** Witnesses *)

Definition demo_members : bytes :=
  text "{" ++ quoted (text "model") ++ text ":" ++ quoted (text "fast") ++ text "," ++ quoted (text "x") ++ text ":[1, 2]}".
Definition demo_call : ProviderCall :=
  mkCall NoDeployment (mkMeta "r1" "fast" EndpointChatCompletions false 0 AddrInvalid "" 0 0) demo_members NoCredential.


Lemma failures_are_classified_witness :
  IsRetryable (Some (upstreamError (mkHttpResponse 503 "503" [] None))) = true
  /\ IsRetryable (Some (callError (Foreign "connection refused" None))) = true.
Proof.
  destruct (failures_are_classified (mkHttpResponse 503 "503" [] None) (Foreign "connection refused" None) (fun _ => NoUsage))
    as (H1 & _ & H2 & _).
  split; [apply H1; right; vm_compute; discriminate|apply H2; reflexivity].
Defined.
