(* ===== verification/Sidecars.v ===== *)
(** * Components outside the worker (adapters/guardrailsidecar, wasmguardrail, nersidecar)

    The protocol a guardrail component speaks: a JSON request with the payload in base64, one of
    three verdicts back.  It is the same over a Unix socket and to a WebAssembly module; the HTTP
    client and the module are arguments.  The entity detector speaks a similar protocol. *)
From S2P Require Import Prelude Errors Core Strconv Text Json JsonFacts Base64 Format Detect Adapters Guardrails.
From Stdlib Require Import ZArith Lia Ascii.
From stdpp Require Import base gmap strings list.
Open Scope Z_scope.
Open Scope gw_scope.

(** ** The guardrail protocol *)

Definition phaseName (p : Phase) : string :=
  match p with PhaseResponse => "response" | PhaseRequest => "request" end.

(** A nil payload is [None]; the request path never has one. *)
Record inspectRequest := mkInspectRequest {
  iq_Phase : list ascii; iq_Payload : option bytes; iq_Class : list ascii; iq_Model : list ascii }.

Definition marshal_request (r : inspectRequest) : json :=
  JObj [(text "phase", MarshalString (iq_Phase r)); (text "payload", MarshalBytes (iq_Payload r));
        (text "class", MarshalString (iq_Class r)); (text "model", MarshalString (iq_Model r))].

(** The request about an input whose payload may be nil, and the one the request path makes. *)
Definition request_for (isnil : bool) (inp : GuardrailInput) : inspectRequest :=
  mkInspectRequest (text (phaseName (in_Phase inp))) (if isnil then None else Some (in_Payload inp)) (text (in_Class inp))
    (text (Model (in_Meta inp))).
Definition request_of : GuardrailInput -> inspectRequest := request_for false.

Record inspectResponse := mkInspectResponse {
  ir_Verdict : list ascii; ir_Reason : list ascii; ir_Payload : option bytes }.
Definition no_response : inspectResponse := mkInspectResponse [] [] None.

Definition dec_response : decoder inspectResponse :=
  dec_struct
    [(text "verdict", at_field ir_Verdict (fun v r => mkInspectResponse v (ir_Reason r) (ir_Payload r)) dec_string);
     (text "reason", at_field ir_Reason (fun v r => mkInspectResponse (ir_Verdict r) v (ir_Payload r)) dec_string);
     (text "payload", at_field ir_Payload (fun v r => mkInspectResponse (ir_Verdict r) (ir_Reason r) v) dec_bytes)].

Definition astr (s : list ascii) : fmt_arg := AStr (String.string_of_list_ascii s).

(** The errors of a verdict, by how the component is named in them. *)
Record protocol := mkProtocol {
  no_payload : error;
  unknown_verdict : list ascii -> error;
  stray_payload : list ascii -> error }.

(** [toResult]. *)
Definition toResult (e : protocol) (r : inspectResponse) : error + GuardrailResult :=
  let reason := String.string_of_list_ascii (ir_Reason r) in
  let without v :=
    match ir_Payload r with
    | Some _ => inl (stray_payload e (ir_Verdict r))
    | None => inr (mkGuardOut v reason None)
    end in
  if bool_decide (ir_Verdict r = text "allow") then without VerdictAllow
  else if bool_decide (ir_Verdict r = text "deny") then without VerdictDeny
  else if bool_decide (ir_Verdict r = text "mutate") then
    match ir_Payload r with
    | None => inl (no_payload e)
    | Some p => inr (mkGuardOut VerdictMutate reason (Some p))
    end
  else inl (unknown_verdict e (ir_Verdict r)).

(** ** guardrailsidecar *)
Module guardrailsidecar.

Definition DefaultTimeout : duration := 5 * Second.
Definition MaxResponseBytes : nat := Z.to_nat (Z.shiftl 8 20).

Record Guardrail := mkSidecar { g_name : string; g_socket : string; g_timeout : duration }.
Definition WithTimeout (d : duration) (g : Guardrail) : Guardrail :=
  if 0 <? d then mkSidecar (g_name g) (g_socket g) d else g.

Definition New_ (name socketPath : string) (opts : list (Guardrail -> Guardrail)) : error + Guardrail :=
  if bool_decide (name = "") then inl (New CodeInvalidRequest "a guardrail sidecar needs a name")
  else if bool_decide (socketPath = "") then inl (New CodeInvalidRequest "a guardrail sidecar needs a socket path")
  else inr (foldl (fun g opt => opt g) (mkSidecar name socketPath DefaultTimeout) opts).

Definition errors : protocol := mkProtocol
  (New CodeUnavailable "the guardrail returned mutate with no payload")
  (fun v => Newf CodeUnavailable "unknown verdict %q" [astr v])
  (fun v => Newf CodeUnavailable "the guardrail returned a payload with a %s verdict" [astr v]).

Definition json_error : error := Foreign "encoding/json" None.

(** What comes back, once the call was made. *)
Definition answer (r : error + HttpResponse) : error + GuardrailResult :=
  match r with
  | inl err => inl (GwError CodeUnavailable (Msg "calling the guardrail sidecar" []) false (Some err))
  | inr resp =>
      if negb (hp_StatusCode resp =? 200)
      then inl (Newf CodeUnavailable "the guardrail sidecar reported %d" [AInt (hp_StatusCode resp)])
      else
        let '(body, readErr) := limited MaxResponseBytes (hp_Body resp) (bool_decide (hp_ReadError resp <> None)) in
        match DecodeValue dec_response no_response readErr body with
        | None => inl (GwError CodeUnavailable (Msg "decoding the guardrail response" []) false (Some json_error))
        | Some decoded => toResult errors decoded
        end
  end.

Section calls.
Context {X : Type} (client : Client X).

Definition Inspect_with (req : inspectRequest) (x : X) : (error + GuardrailResult) * X :=
  let '(r, x) := Do client (mkHttpRequest "POST" "http://guardrail/v1/inspect"
                   {[ "Content-Type" := text "application/json" ]} (print (marshal_request req))) x in
  (answer r, x).
Definition Inspect (inp : GuardrailInput) (x : X) : (error + GuardrailResult) * X := Inspect_with (request_of inp) x.

Definition Ping (x : X) : option error * X :=
  let '(r, x) := Do client (mkHttpRequest "GET" "http://guardrail/healthz" ∅ []) x in
  (match r with
   | inl err => Some (GwError CodeUnavailable (Msg "the guardrail sidecar is not answering" []) false (Some err))
   | inr resp => if negb (hp_StatusCode resp =? 200)
                 then Some (Newf CodeUnavailable "the guardrail sidecar reported %d" [AInt (hp_StatusCode resp)])
                 else None
   end, x).
End calls.
End guardrailsidecar.

(** ** wasmguardrail *)
Module wasmguardrail.

Definition errors (name : string) : protocol := mkProtocol
  (Newf CodeUnavailable "module %s returned mutate with no payload" [AStr name])
  (fun v => Newf CodeUnavailable "module %s returned unknown verdict %q" [AStr name; astr v])
  (fun v => Newf CodeUnavailable "module %s returned a payload with a %s verdict" [AStr name; astr v]).

(** A guardrail over a module [M] compiled elsewhere. *)
Record Guardrail (M : Type) := mkWasm { g_module : M; g_name : string }.
Arguments mkWasm {M}.
Arguments g_module {M}.
Arguments g_name {M}.

Definition New_ {M} (name : string) (module : option M) : error + Guardrail M :=
  if bool_decide (name = "") then inl (New CodeInvalidRequest "a WASM guardrail needs a name")
  else match module with
       | None => inl (New CodeInvalidRequest "a WASM guardrail needs a module")
       | Some m => inr (mkWasm m name)
       end.

Definition answer (name : string) (r : error + bytes) : error + GuardrailResult :=
  match r with
  | inl err => inl err
  | inr output =>
      match Json.Unmarshal dec_response no_response output with
      | None => inl (GwError CodeUnavailable (Msg "decoding the response from module %s" [AStr name]) false
                       (Some (Foreign "encoding/json" None)))
      | Some decoded => toResult (errors name) decoded
      end
  end.

(** [module.Call] is an argument; where it panics ([None]), so does [Inspect]. *)
Definition Inspect_with {M X} (Call : M -> bytes -> X -> option (error + bytes) * X) (g : Guardrail M) (req : inspectRequest)
    (x : X) : option (error + GuardrailResult) * X :=
  let '(r, x) := Call (g_module g) (print (marshal_request req)) x in (answer (g_name g) <$> r, x).
Definition Inspect {M X} (Call : M -> bytes -> X -> option (error + bytes) * X) (g : Guardrail M) (inp : GuardrailInput)
    (x : X) : option (error + GuardrailResult) * X := Inspect_with Call g (request_of inp) x.
End wasmguardrail.

(** ** nersidecar *)
Module nersidecar.

Definition DefaultTimeout : duration := 250 * Millisecond.

Record Detector := mkNer { d_socket : string; d_url : string; d_timeout : duration }.
Definition WithTimeout (d : duration) (det : Detector) : Detector :=
  if 0 <? d then mkNer (d_socket det) (d_url det) d else det.
Definition New_ (socketPath : string) (opts : list (Detector -> Detector)) : error + Detector :=
  if bool_decide (socketPath = "") then inl (New CodeInternal "a NER sidecar needs a socket path")
  else inr (foldl (fun d opt => opt d) (mkNer socketPath "http://pii-ner" DefaultTimeout) opts).
Definition Name : string := "ner-sidecar".

(** [strconv.ParseFloat] of a JSON number fails when the nearest binary64 is infinite: from half a
    unit beyond the largest finite value on. *)
Fixpoint cut_at (p : ascii -> bool) (s : list ascii) : list ascii * option (list ascii) :=
  match s with
  | [] => ([], None)
  | c :: s' => if p c then ([], Some s') else let '(a, b) := cut_at p s' in (c :: a, b)
  end.
Definition digits_value (s : list ascii) : Z := foldl (fun n c => n * 10 + (bz c - 48)) 0 s.
Definition exponent (s : list ascii) : Z :=
  match s with
  | c :: s' => if Ascii.eqb c "-" then - digits_value s' else if Ascii.eqb c "+" then digits_value s' else digits_value s
  | [] => 0
  end.
Definition overflows (lit : list ascii) : bool :=
  let '(mantissa, e) := cut_at is_e lit in
  let '(int, frac) := cut_at (Ascii.eqb ".") mantissa in
  let int := match int with c :: s => if Ascii.eqb c "-" then s else int | [] => int end in
  let d := digits_value (int ++ default [] frac) in
  let e := from_option exponent 0 e - Z.of_nat (length (default [] frac)) in
  let bound := 2 ^ 1024 - 2 ^ 970 in
  if d =? 0 then false
  else if 0 <=? e then bound <=? d * 10 ^ e else bound * 10 ^ (- e) <=? d.

(** A [float64] whose value is not used. *)
Definition dec_score : decoder unit := fun v cur =>
  match v with JNum lit => (cur, overflows lit) | JNull => (cur, false) | _ => (cur, true) end.

Definition no_entity : detectedEntity := mkEntity "" 0 0 [].
Definition dec_entity : decoder detectedEntity :=
  dec_struct
    [(text "kind", at_field (fun e => text (ent_Kind e))
        (fun k e => mkEntity (String.string_of_list_ascii k) (ent_Start e) (ent_End e) (ent_Value e)) dec_string);
     (text "start", at_field ent_Start (fun n e => mkEntity (ent_Kind e) n (ent_End e) (ent_Value e)) dec_int64);
     (text "end", at_field ent_End (fun n e => mkEntity (ent_Kind e) (ent_Start e) n (ent_Value e)) dec_int64);
     (text "value", at_field ent_Value (fun v e => mkEntity (ent_Kind e) (ent_Start e) (ent_End e) v) dec_string);
     (text "score", at_field (fun _ => tt) (fun _ e => e) dec_score)].

Record detectResponse := mkDetected { dr_Entities : list detectedEntity; dr_Backend : list ascii; dr_Truncated : bool }.
Definition dec_detected : decoder detectResponse :=
  dec_struct
    [(text "entities", at_field dr_Entities (fun l r => mkDetected l (dr_Backend r) (dr_Truncated r))
        (dec_slice no_entity dec_entity));
     (text "backend", at_field dr_Backend (fun b r => mkDetected (dr_Entities r) b (dr_Truncated r)) dec_string);
     (text "truncated", at_field dr_Truncated (fun b r => mkDetected (dr_Entities r) (dr_Backend r) b) dec_bool)].

(** The language is left out when it is empty, as it always is. *)
Definition detectRequest (payload : bytes) : json := JObj [(text "text", MarshalString payload)].

Definition answer (payload : bytes) (r : error + HttpResponse) : error + list Match :=
  match r with
  | inl err => inl (GwError CodeUnavailable (Msg "calling the NER sidecar" []) false (Some err))
  | inr resp =>
      if negb (hp_StatusCode resp =? 200)
      then inl (Newf CodeUnavailable "NER sidecar returned %d" [AInt (hp_StatusCode resp)])
      else match DecodeValue dec_detected (mkDetected [] [] false) (bool_decide (hp_ReadError resp <> None))
                   (hp_Body resp) with
           | None => inl (GwError CodeUnavailable (Msg "decoding the detection response" []) false
                            (Some (Foreign "encoding/json" None)))
           | Some decoded => inr (toMatches payload (dr_Entities decoded))
           end
  end.

Section calls.
Context {X : Type} (client : Client X).

Definition Detect (d : Detector) (payload : bytes) (x : X) : (error + list Match) * X :=
  match badURL client (d_url d +:+ "/v1/detect") with
  | Some err => (inl (GwError CodeInternal (Msg "building the detection request" []) false (Some err)), x)
  | None =>
      let '(r, x) := Do client (mkHttpRequest "POST" (d_url d +:+ "/v1/detect")
                       {[ "Content-Type" := text "application/json" ]} (print (detectRequest payload))) x in
      (answer payload r, x)
  end.

Definition Ping (d : Detector) (x : X) : option error * X :=
  match badURL client (d_url d +:+ "/healthz") with
  | Some err => (Some (GwError CodeInternal (Msg "building the health request" []) false (Some err)), x)
  | None =>
      let '(r, x) := Do client (mkHttpRequest "GET" (d_url d +:+ "/healthz") ∅ []) x in
      (match r with
       | inl err => Some (GwError CodeUnavailable (Msg "reaching the NER sidecar" []) false (Some err))
       | inr resp => if negb (hp_StatusCode resp =? 200)
                     then Some (Newf CodeUnavailable "NER sidecar health returned %d" [AInt (hp_StatusCode resp)])
                     else None
       end, x)
  end.
End calls.
End nersidecar.

(** ** Facts *)

Definition dec_request : decoder inspectRequest :=
  dec_struct
    [(text "phase", at_field iq_Phase (fun v r => mkInspectRequest v (iq_Payload r) (iq_Class r) (iq_Model r)) dec_string);
     (text "payload", at_field iq_Payload (fun v r => mkInspectRequest (iq_Phase r) v (iq_Class r) (iq_Model r)) dec_bytes);
     (text "class", at_field iq_Class (fun v r => mkInspectRequest (iq_Phase r) (iq_Payload r) v (iq_Model r)) dec_string);
     (text "model", at_field iq_Model (fun v r => mkInspectRequest (iq_Phase r) (iq_Payload r) (iq_Class r) v) dec_string)].

Lemma marshal_request_jwf r : jwf (marshal_request r) /\ jdepth (marshal_request r) = 1%nat.
Proof.
  split; [|by destruct r as [? [] ? ?]]. unfold marshal_request. cbn [jwf map foldr fst snd MarshalString].
  split_and!; try apply quote_ok; try apply MarshalBytes_jwf; try done; apply plain_raw_ok; repeat constructor.
Qed.

Lemma dec_members_step {A} (fields : list (field A)) k v rest st dec :
  find_field fields (unquote k) = Some dec ->
  dec_members fields ((k, v) :: rest) st = dec_members fields rest ((dec v st.1).1, st.2 || (dec v st.1).2).
Proof. intros H. cbn [dec_members]. rewrite H. by destruct (dec v st.1). Qed.

(** A component sees the payload as it is.  Whatever bytes a payload is made of, the request a
    component is sent, read back as JSON, holds exactly those bytes and nothing it does not name;
    text fields arrive as they are when they are valid UTF-8, with replacement characters where
    they are not. *)
Theorem component_sees_the_payload r :
  Json.Unmarshal dec_request (mkInspectRequest [] None [] []) (print (marshal_request r))
  = Some (mkInspectRequest (to_valid (iq_Phase r)) (iq_Payload r) (to_valid (iq_Class r)) (to_valid (iq_Model r))).
Proof.
  destruct (marshal_request_jwf r) as [Hw Hd]. unfold Json.Unmarshal.
  rewrite parse_print; [|done|rewrite Hd; vm_compute; congruence].
  unfold marshal_request, dec_request. cbn [dec_struct].
  do 4 (erewrite dec_members_step by reflexivity). cbn [dec_members].
  cbn -[dec_bytes MarshalBytes unquote quote to_valid]. unfold at_field. rewrite !dec_bytes_Marshal. cbn -[unquote quote to_valid]. by rewrite !unquote_quote.
Qed.

(** What a component may answer for a payload to go on, and as what. *)
Definition lets_through (r : inspectResponse) (payload payload' : bytes) : Prop :=
  (ir_Verdict r = text "allow" /\ ir_Payload r = None /\ payload' = payload)
  \/ (ir_Verdict r = text "mutate" /\ ir_Payload r = Some payload').

Lemma toResult_spec e r res :
  toResult e r = inr res ->
  match res_Verdict res with
  | VerdictAllow => ir_Verdict r = text "allow" /\ ir_Payload r = None /\ res_Payload res = None
  | VerdictDeny => ir_Verdict r = text "deny" /\ ir_Payload r = None /\ res_Payload res = None
  | VerdictMutate => ir_Verdict r = text "mutate" /\ exists p, ir_Payload r = Some p /\ res_Payload res = Some p
  end.
Proof.
  unfold toResult. repeat case_bool_decide; try done; destruct (ir_Payload r); intros [= <-]; try done. cbn. eauto.
Qed.

(** A guardrail of the chain that asks a sidecar. *)
Definition ask_sidecar {X} (client : duration -> Client X) (g : unit) (timeout : duration) (inp : GuardrailInput) (x : X)
    : (error + option GuardrailResult) * X :=
  let '(r, x) := guardrailsidecar.Inspect (client timeout) inp x in
  (match r with inl e => inl e | inr res => inr (Some res) end, x).

(** The request a component is asked with. *)
Definition inspect_call (inp : GuardrailInput) : HttpRequest :=
  mkHttpRequest "POST" "http://guardrail/v1/inspect" {[ "Content-Type" := text "application/json" ]}
    (print (marshal_request (request_of inp))).

(** The answer to the call lets the payload through, as [payload']. *)
Definition said_so (resp : HttpResponse) (payload payload' : bytes) : Prop :=
  hp_StatusCode resp = 200
  /\ exists body readErr r,
       limited guardrailsidecar.MaxResponseBytes (hp_Body resp) (bool_decide (hp_ReadError resp <> None)) = (body, readErr)
       /\ DecodeValue dec_response no_response readErr body = Some r /\ lets_through r payload payload'.

Lemma toResult_lets_through e r payload payload' : lets_through r payload payload' ->
  exists res, toResult e r = inr res
    /\ ((res_Verdict res = VerdictAllow /\ payload' = payload) \/ (res_Verdict res = VerdictMutate /\ res_Payload res = Some payload')).
Proof.
  unfold toResult. intros [(-> & -> & ->)|(-> & ->)]; vm_compute; eexists; (split; [reflexivity|]); auto.
Qed.

Lemma answer_said_so resp payload payload' :
  said_so resp payload payload' <->
  exists res, guardrailsidecar.answer (inr resp) = inr res
    /\ ((res_Verdict res = VerdictAllow /\ payload' = payload) \/ (res_Verdict res = VerdictMutate /\ res_Payload res = Some payload')).
Proof.
  unfold said_so. cbn [guardrailsidecar.answer]. destruct (limited _ _ _) as [body readErr]. split.
  - intros (-> & ? & ? & r & [= <- <-] & Hd & Hl). change (negb (200 =? 200)) with false. cbv iota. rewrite Hd.
    by apply toResult_lets_through.
  - intros (res & H & Hres). destruct (hp_StatusCode resp =? 200) eqn:ES; [|done]. apply Z.eqb_eq in ES. cbn [negb] in H.
    split; [done|]. destruct (DecodeValue _ _ _ _) as [r|] eqn:EV; [|done]. exists body, readErr, r. split_and!; [done..|].
    apply toResult_spec in H. destruct Hres as [[Hv ->]|[Hv Hp]]; rewrite Hv in H; [left; tauto|right].
    destruct H as (? & p & ? & ?). split; [done|congruence].
Qed.

(** C22. A component that must say so.  Behind a blocking, fail-closed binding a payload goes on, as
    [payload'], exactly when the call the chain makes of the sidecar, with the input as its body,
    reaches it, is answered with status 200, and the answer decodes to an explicit allow that
    carries no payload ([payload'] is then the payload as it was) or to a mutate that carries
    [payload'].  Silence, a timeout, another status, text that is not the protocol's, an unknown
    verdict or a payload beside an allow all refuse. *)
Theorem fail_closed_component_must_say_so {X} (client : duration -> Client X) b inp c x o c' x' payload' :
  bud_Blocking (bind_Budget b) = true -> bud_Mode (bind_Budget b) = FailClosed ->
  Run (fun _ => Some tt) (ask_sidecar client) [b] inp c x = (inr o, c', x') ->
  (out_Denied o = false /\ out_Payload o = payload')
  <-> exists resp x1, Do (client (budget_timeout b)) (inspect_call inp) x = (inr resp, x1)
        /\ said_so resp (in_Payload inp) payload'.
Proof.
  intros Hb Hm. unfold Run. cbn [run_from]. rewrite Hb. cbn [negb]. unfold evaluate, ask_sidecar.
  assert (Hi : with_payload inp (in_Payload inp) = inp) by by destruct inp. rewrite Hi.
  assert (Hf : fail_closed b = true) by by apply bool_decide_eq_true. rewrite Hf.
  unfold guardrailsidecar.Inspect, guardrailsidecar.Inspect_with. fold (inspect_call inp).
  destruct (Do _ (inspect_call inp) x) as [[err|resp] x1]; cbn [fst].
  { intros [= <- <- <-]. split; [by intros [[=] _]|by intros (? & ? & [=] & _)]. }
  intros H. transitivity (said_so resp (in_Payload inp) payload').
  2: { split; [intros Hs; by exists resp, x1|by intros (? & ? & [= <- <-] & ?)]. }
  rewrite answer_said_so. revert H. destruct (guardrailsidecar.answer (inr resp)) as [err|res] eqn:EA.
  { intros [= <- <- <-]. split; [by intros [[=] _]|by intros (? & [=] & _)]. }
  intros H. transitivity ((res_Verdict res = VerdictAllow /\ payload' = in_Payload inp)
                          \/ (res_Verdict res = VerdictMutate /\ res_Payload res = Some payload')).
  2: { split; [intros Hs; by exists res|by intros (? & [= <-] & ?)]. }
  revert H. destruct (res_Verdict res) eqn:EVd; [| |destruct (res_Payload res) as [p|] eqn:EP];
    cbn; rewrite ?EVd, ?EP; intros [= <- <- <-]; cbn; intuition congruence.
Qed.

Definition demo_client (resp : HttpResponse) (timeout : duration) : Client unit :=
  mkClient unit (fun _ => None) (fun _ x => (inr resp, x)).
Definition demo_binding : GuardrailBinding :=
  mkBinding "policy" "1" "" "sidecar" "" (mkGuardBudget 0 FailClosed true []).
Definition demo_input : GuardrailInput :=
  mkGuardIn PhaseRequest (mkMeta "r" "m" EndpointChatCompletions false 0 AddrInvalid "" 0 0) DataClassInternal
    TrustExternal (text "hello").
Definition demo_mutate : HttpResponse :=
  mkHttpResponse 200 "200 OK"
    (text "{" ++ quoted (text "verdict") ++ text ":" ++ quoted (text "mutate") ++ text ","
     ++ quoted (text "payload") ++ text ":" ++ quoted (EncodeToString (text "bye")) ++ text "}") None.

Lemma fail_closed_component_must_say_so_witness : said_so demo_mutate (text "hello") (text "bye").
Proof.
  assert (Hr : Run (fun _ => Some tt) (ask_sidecar (demo_client demo_mutate)) [demo_binding] demo_input (mkChain no_stats 0 []) tt
               = (inr (mkOutcome (text "bye") false ""), mkChain (add_mutated (add_evaluated no_stats)) 0 [], tt)).
  { unfold Run. cbn [run_from]. unfold evaluate, ask_sidecar, guardrailsidecar.Inspect, guardrailsidecar.Inspect_with.
    assert (E : guardrailsidecar.answer (inr demo_mutate) = inr (mkGuardOut VerdictMutate "" (Some (text "bye"))))
      by (vm_compute; reflexivity).
    cbn [Do demo_client]. cbn -[guardrailsidecar.answer demo_mutate text]. rewrite E. reflexivity. }
  destruct (proj1 (fail_closed_component_must_say_so (demo_client demo_mutate) demo_binding demo_input
    (mkChain no_stats 0 []) tt _ _ _ (text "bye") eq_refl eq_refl Hr) (conj eq_refl eq_refl)) as (resp & x1 & E & H).
  cbn [Do demo_client] in E. injection E as <- _. exact H.
Defined.
