(* ===== verification/Modules.v ===== *)
(** * In-process components (wasm/wasm.go, wasm/store.go, adapters/wasmguardrail/registry.go)

    A component compiled to WebAssembly is found by the digest a snapshot binds, proved to be the
    bytes that digest names, compiled, and called on a fresh instance each time.  The runtime that
    compiles and executes modules, the file system and SHA-256 are arguments; a guest's memory,
    when its module exports one, is the list of its bytes.  [Registry] is what the chain looks components up in: [Sync] runs beside
    requests and other [Sync]s, so loading is three steps, a read, the work, and a write. *)
From S2P Require Import Prelude Errors Core Text Codec Format Sidecars.
From Stdlib Require Import ZArith Lia Ascii.
From stdpp Require Import base gmap strings list.
Open Scope Z_scope.
Open Scope gw_scope.

(** ** The runtime *)

Definition AllocFunc : string := "alloc".
Definition HandleFunc : string := "handle".
Definition InitFunc : string := "_initialize".
Definition DefaultMemoryPages : Z := 1024.
Definition DefaultMaxOutputBytes : Z := Z.shiftl 8 20.
Definition DefaultCallTimeout : duration := 5 * Second.

Record Limits := mkLimits { MemoryPages : Z; MaxOutputBytes : Z; CallTimeout : duration }.
Definition withDefaults (l : Limits) : Limits :=
  mkLimits (if MemoryPages l =? 0 then DefaultMemoryPages else MemoryPages l)
    (if MaxOutputBytes l =? 0 then DefaultMaxOutputBytes else MaxOutputBytes l)
    (if CallTimeout l <=? 0 then DefaultCallTimeout else CallTimeout l).

(** What the third-party engine offers: compiled code [C], instances [I]. *)
Class Engine (C I X : Type) := {
  CompileModule : bytes -> error + C;
  ExportedFunctions : C -> list string;
  Instantiate : C -> list string -> X -> (error + I) * X;
  Invoke : string -> list Z -> I -> X -> (error + list Z) * I * X;  (* an exported function *)
  memory : I -> option bytes;    (* a module need not export one *)
  set_memory : bytes -> I -> I }.

(** [Memory.Write] and [Memory.Read] are checked against the memory's size. *)
Definition mem_write (p : Z) (data m : bytes) : option bytes :=
  if (Z.of_nat (length m) <? p + Z.of_nat (length data)) then None
  else Some (take (Z.to_nat p) m ++ data ++ drop (Z.to_nat p + length data) m).
Definition mem_read (p n : Z) (m : bytes) : option bytes :=
  if (Z.of_nat (length m) <? p + n) then None else Some (take (Z.to_nat n) (drop (Z.to_nat p) m)).

Definition two32 : Z := 4294967296.

Section runtime.
Context {C I X : Type} `{!Engine C I X} (isPrint : Z -> bool).

Record Module_ := mkModule { m_limits : Limits; m_compiled : C; m_name : string; needsWASI : bool }.

Definition missing_exports (exports : list string) : list string :=
  filter (fun f => f ∉ exports) [AllocFunc; HandleFunc].

Fixpoint join_or (l : list (list ascii)) : list ascii :=
  match l with
  | [] => []
  | [x] => x
  | x :: l' => x ++ text " or " ++ join_or l'
  end.

Definition Compile (limits : Limits) (name : string) (wasm : bytes) : error + Module_ :=
  if bool_decide (name = "") then inl (New CodeInvalidRequest "a module needs a name")
  else if bool_decide (wasm = []) then inl (New CodeInvalidRequest "a module needs bytes")
  else match CompileModule wasm with
       | inl err => inl (GwError CodeInvalidRequest (Msg "compiling %s" [AStr name]) false (Some err))
       | inr compiled =>
           let exports := ExportedFunctions compiled in
           match missing_exports exports with
           | [] => inr (mkModule limits compiled name (bool_decide (InitFunc ∈ exports)))
           | missing =>
               inl (Newf CodeInvalidRequest "module %s does not export %s, so it cannot implement the component ABI"
                      [AStr name; AStr (String.string_of_list_ascii (join_or ((fun f => Quote isPrint (text f)) <$> missing)))])
           end
       end.

Definition startFunctions (needsWASI : bool) : list string := if needsWASI then [InitFunc] else [].

(** [ctxErr] is what [ctx.Err()] says when the guest has failed. *)
Definition wrapGuestError (ctxErr : option error) (err : error) (name doing : string) : error :=
  match ctxErr with
  | Some e => GwError CodeUpstreamTimeout (Msg "module %s exceeded its deadline while %s it" [AStr name; AStr doing]) false (Some e)
  | None => GwError CodeUnavailable (Msg "%s module %s" [AStr doing; AStr name]) false (Some err)
  end.

Definition wrong_arity (m : Module_) (n : nat) (f : string) : error :=
  Newf CodeInternal "module %s returned %d values from %s, want one" [AStr (m_name m); AInt (Z.of_nat n); AStr f].

(** [Memory] is nil for a module that exports none, and reading or writing it panics.  A result of
    [None] is that panic. *)
Definition writeInput (ctxErr : option error) (m : Module_) (inst : I) (input : bytes) (x : X)
    : option (error + Z) * I * X :=
  match input with
  | [] => (Some (inr 0), inst, x)
  | _ =>
      let '(r, inst, x) := Invoke AllocFunc [Z.of_nat (length input)] inst x in
      match r with
      | inl err => (Some (inl (wrapGuestError ctxErr err (m_name m) "allocating in")), inst, x)
      | inr [v] =>
          let pointer := v mod two32 in
          match memory inst with
          | None => (None, inst, x)
          | Some held =>
              match mem_write pointer input held with
              | None => (Some (inl (Newf CodeInvalidRequest "module %s allocated %d bytes at an address outside its memory"
                                      [AStr (m_name m); AInt (Z.of_nat (length input))])), inst, x)
              | Some mem => (Some (inr pointer), set_memory mem inst, x)
              end
          end
      | inr results => (Some (inl (wrong_arity m (length results) AllocFunc)), inst, x)
      end
  end.

Definition readOutput (m : Module_) (inst : I) (packed : Z) : option (error + bytes) :=
  let pointer := Z.shiftr packed 32 mod two32 in
  let length := packed mod two32 in
  if MaxOutputBytes (m_limits m) <? length
  then Some (inl (Newf CodeInvalidRequest "module %s returned %d bytes, over the %d-byte limit"
                    [AStr (m_name m); AInt length; AInt (MaxOutputBytes (m_limits m))]))
  else match memory inst with
       | None => None
       | Some held =>
           match mem_read pointer length held with
           | None => Some (inl (Newf CodeInvalidRequest "module %s returned a response outside its memory" [AStr (m_name m)]))
           | Some output => Some (inr output)
           end
       end.

(** [Call]: a fresh instance for the one call. *)
Definition Call (ctxErr : option error) (m : Module_) (input : bytes) (x : X) : option (error + bytes) * X :=
  let '(r, x) := Instantiate (m_compiled m) (startFunctions (needsWASI m)) x in
  match r with
  | inl err =>
      (Some (inl (GwError CodeUnavailable
              (Msg "the module failed to start; %d pages (%d MiB) may not be enough for it"
                 [AInt (MemoryPages (m_limits m)); AInt (MemoryPages (m_limits m) / 16)]) false
              (Some (wrapGuestError ctxErr err (m_name m) "instantiating")))), x)
  | inr inst =>
      let '(w, inst, x) := writeInput ctxErr m inst input x in
      match w with
      | None => (None, x)
      | Some (inl err) => (Some (inl err), x)
      | Some (inr pointer) =>
          let '(r, inst, x) := Invoke HandleFunc [pointer; Z.of_nat (length input)] inst x in
          match r with
          | inl err => (Some (inl (wrapGuestError ctxErr err (m_name m) "calling")), x)
          | inr [packed] => (readOutput m inst packed, x)
          | inr results => (Some (inl (wrong_arity m (length results) HandleFunc)), x)
          end
      end
  end.
End runtime.
Arguments Module_ : clear implicits.
Arguments mkModule {C}.
Arguments m_limits {C}.
Arguments m_compiled {C}.
Arguments m_name {C}.
Arguments needsWASI {C}.

(** ** The module store *)

(** [hex.DecodeString] accepts an even number of digits of either case. *)
Definition is_hex_digit (c : ascii) : bool := Json.is_hex c.

Definition parseDigest (digest : string) : error + string :=
  match cut ":" digest with
  | Some (algorithm, hexDigest) =>
      if bool_decide (algorithm = "sha256") && (Z.of_nat (String.length hexDigest) =? 64)
      then if forallb is_hex_digit (text hexDigest) then inr hexDigest
           else inl (Newf CodeInvalidRequest "module reference %q is not hexadecimal" [AStr digest])
      else inl (Newf CodeInvalidRequest "module reference %q is not a sha256 digest" [AStr digest])
  | None => inl (Newf CodeInvalidRequest "module reference %q is not a sha256 digest" [AStr digest])
  end.

(** The file system: joining a path, reading a file. *)
Record Files := mkFiles { PathJoin : string -> string -> string; ReadFile : string -> error + bytes }.

Definition NewModuleStore (dir : string) : error + string :=
  if bool_decide (dir = "") then inl (New CodeInvalidRequest "a module store needs a directory") else inr dir.

Section store.
Context (sha256 : bytes -> bytes).

Definition Load (fs : Files) (dir digest : string) : error + bytes :=
  let! expected := parseDigest digest in
  let path := PathJoin fs dir (expected +:+ ".wasm") in
  match ReadFile fs path with
  | inl err => inl (GwError CodeUnavailable (Msg "reading module %s" [AStr digest]) false (Some err))
  | inr module =>
      let actual := hexEncode (sha256 module) in
      if negb (bool_decide (actual = expected))
      then inl (Newf CodeInvalidRequest "module at %s hashes to sha256:%s, not the admitted %s"
                  [AStr path; AStr actual; AStr digest])
      else inr module
  end.
End store.

(** ** The registry *)

Definition ExecutionInProcess : string := "in_process".

Section registry.
Context {C I X : Type} `{!Engine C I X} (isPrint : Z -> bool) (sha256 : bytes -> bytes).

(** A compiled module the runtime holds: its address, and the bytes it was compiled from. *)
Record Ptr := mkPtr { p_id : nat; p_from : bytes; p_module : Module_ C }.

Record Registry := mkRegistry {
  byDigest : gmap string Ptr;
  byName : gmap string (wasmguardrail.Guardrail Ptr);
  r_next : nat }.                                       (* the next address *)

Definition NewRegistry (runtime store : bool) : error + Registry :=
  if negb runtime then inl (New CodeInternal "a WASM registry needs a runtime")
  else if negb store then inl (New CodeInternal "a WASM registry needs a module store")
  else inr (mkRegistry ∅ ∅ 0).

Definition Guardrail (r : Registry) (name : string) : option (wasmguardrail.Guardrail Ptr) := byName r !! name.

Context (limits : Limits) (fs : Files) (dir : string).

(** What [ensure] has when it has read the maps and done the work. *)
Inductive prepared :=
| Bound                                                 (* nothing to do *)
| Failed (err : error)
| Ready (g : wasmguardrail.Guardrail Ptr).

Definition same_module (g : wasmguardrail.Guardrail Ptr) (m : Ptr) : bool :=
  bool_decide (p_id (wasmguardrail.g_module g) = p_id m).

Definition prepare (r : Registry) (b : GuardrailBinding) : prepared :=
  let existing := byName r !! bind_Component b in
  match byDigest r !! bind_Module b with
  | Some module =>
      if from_option (fun g => same_module g module) false existing then Bound
      else match wasmguardrail.New_ (bind_Component b) (Some module) with
           | inl err => Failed err
           | inr g => Ready g
           end
  | None =>
      match Load sha256 fs dir (bind_Module b) with
      | inl err => Failed err
      | inr wasm =>
          match Compile isPrint limits (bind_Component b) wasm with
          | inl err => Failed err
          | inr m =>
              match wasmguardrail.New_ (bind_Component b) (Some (mkPtr (r_next r) wasm m)) with
              | inl err => Failed err
              | inr g => Ready g
              end
          end
      end
  end.

(** The write, over whatever the maps hold by then. *)
Definition commit (b : GuardrailBinding) (g : wasmguardrail.Guardrail Ptr) (r : Registry) : Registry :=
  match byDigest r !! bind_Module b with
  | Some kept =>
      match wasmguardrail.New_ (bind_Component b) (Some kept) with
      | inl _ => r
      | inr g => mkRegistry (byDigest r) (<[bind_Component b := g]> (byName r)) (r_next r)
      end
  | None =>
      mkRegistry (<[bind_Module b := wasmguardrail.g_module g]> (byDigest r))
        (<[bind_Component b := g]> (byName r)) (r_next r)
  end.

(** Compiling takes an address, whether or not the module is kept. *)
Definition allocate (r : Registry) : Registry := mkRegistry (byDigest r) (byName r) (Datatypes.S (r_next r)).

Definition ensure (b : GuardrailBinding) (r : Registry) : option error * Registry :=
  match prepare r b with
  | Bound => (None, r)
  | Failed err => (Some err, r)
  | Ready g => (None, commit b g (allocate r))
  end.

Definition Sync (bindings : list GuardrailBinding) (r : Registry) : Registry :=
  foldl (fun r b => if bool_decide (bind_Execution b = ExecutionInProcess) then (ensure b r).2 else r) r bindings.

(** [Close] releases every module and empties the maps. *)
Definition Close_registry (r : Registry) : list Ptr * Registry :=
  ((map_to_list (byDigest r)).*2, mkRegistry ∅ ∅ (r_next r)).

(** *** Overlapping [Sync]s *)

Record RState := mkRState { rs_registry : Registry; rs_pending : list (GuardrailBinding * wasmguardrail.Guardrail Ptr) }.

(** [bound] is what the snapshots applied so far bind. *)
Inductive rstep (bound : GuardrailBinding -> Prop) : RState -> RState -> Prop :=
| RPrepare r pend b g :
    bound b -> bind_Execution b = ExecutionInProcess -> prepare r b = Ready g ->
    rstep bound (mkRState r pend) (mkRState (allocate r) ((b, g) :: pend))
| RCommit r before b g after :
    rstep bound (mkRState r (before ++ (b, g) :: after)) (mkRState (commit b g r) (before ++ after))
| RClose r pend :
    rstep bound (mkRState r pend) (mkRState (Close_registry r).2 pend).

Inductive rreachable (bound : GuardrailBinding -> Prop) : RState -> Prop :=
| rr_init : rreachable bound (mkRState (mkRegistry ∅ ∅ 0) [])
| rr_step s s' : rreachable bound s -> rstep bound s s' -> rreachable bound s'.

(** The bytes a digest vouches for. *)
Definition admitted (digest : string) (wasm : bytes) : Prop :=
  exists hex, parseDigest digest = inr hex /\ hexEncode (sha256 wasm) = hex.

(** A module compiled from bytes its digest vouches for. *)
Definition vouched (digest : string) (p : Ptr) : Prop :=
  admitted digest (p_from p) /\ exists name, Compile isPrint limits name (p_from p) = inr (p_module p).

Definition serves (bound : GuardrailBinding -> Prop) (name : string) (g : wasmguardrail.Guardrail Ptr) : Prop :=
  wasmguardrail.g_name g = name
  /\ exists b, bound b /\ bind_Component b = name /\ bind_Execution b = ExecutionInProcess
       /\ vouched (bind_Module b) (wasmguardrail.g_module g).

Definition registry_ok (bound : GuardrailBinding -> Prop) (s : RState) : Prop :=
  map_Forall vouched (byDigest (rs_registry s))
  /\ map_Forall (serves bound) (byName (rs_registry s))
  /\ Forall (fun bg => bound bg.1 /\ bind_Execution bg.1 = ExecutionInProcess
               /\ wasmguardrail.g_name bg.2 = bind_Component bg.1
               /\ vouched (bind_Module bg.1) (wasmguardrail.g_module bg.2)) (rs_pending s).

Lemma Load_admitted digest wasm : Load sha256 fs dir digest = inr wasm -> admitted digest wasm.
Proof.
  unfold Load, admitted. destruct (parseDigest digest) as [?|hex]; [done|]. cbn.
  destruct (ReadFile fs _) as [?|m]; [done|]. case_bool_decide; [|done]. intros [= <-]. by exists hex.
Qed.

Lemma New_inv {M} name (m : M) g :
  wasmguardrail.New_ name (Some m) = inr g -> g = wasmguardrail.mkWasm m name.
Proof. unfold wasmguardrail.New_. case_bool_decide; [done|]. by intros [= <-]. Qed.

Lemma prepare_vouched r b g :
  map_Forall vouched (byDigest r) -> prepare r b = Ready g ->
  wasmguardrail.g_name g = bind_Component b /\ vouched (bind_Module b) (wasmguardrail.g_module g).
Proof.
  intros Hd. unfold prepare. destruct (byDigest r !! bind_Module b) as [m|] eqn:Em.
  - destruct (from_option _ _ _); [done|]. destruct (wasmguardrail.New_ _ _) eqn:E; [done|].
    apply New_inv in E as ->. intros [= <-]. split; [done|]. by apply (Hd _ _ Em).
  - destruct (Load _ _ _ _) as [|wasm] eqn:EL; [done|]. destruct (Compile _ _ _ _) as [|c] eqn:EC; [done|].
    destruct (wasmguardrail.New_ _ _) eqn:E; [done|]. apply New_inv in E as ->. intros [= <-]. cbn.
    split; [done|]. split; [by apply Load_admitted|by eexists].
Qed.

Lemma rstep_ok bound s s' : registry_ok bound s -> rstep bound s s' -> registry_ok bound s'.
Proof.
  intros (Hd & Hn & Hp) Hs. destruct Hs as [r pend b g Hb He Hr|r before b g after|r pend]; cbn in *.
  - destruct (prepare_vouched _ _ _ Hd Hr). split_and!; [done|done|]. by constructor.
  - apply list.Forall_app in Hp as [Hp1 Hp2]. apply list.Forall_cons in Hp2 as [(Hb & He & Hg & Hv) Hp2].
    assert (Hpend : Forall (fun bg => bound bg.1 /\ bind_Execution bg.1 = ExecutionInProcess
               /\ wasmguardrail.g_name bg.2 = bind_Component bg.1
               /\ vouched (bind_Module bg.1) (wasmguardrail.g_module bg.2)) (before ++ after)) by by apply list.Forall_app.
    cbn in *. unfold commit, registry_ok. destruct (byDigest r !! bind_Module b) as [kept|] eqn:Ek; cbn.
    + destruct (wasmguardrail.New_ _ _) as [|g'] eqn:E; [done|]. apply New_inv in E as ->. cbn.
      split_and!; [done| |done]. apply map_Forall_insert_2; [|done]. split; [done|].
      exists b. split_and!; [done|done|done|]. by apply (Hd _ _ Ek).
    + split_and!; [by apply map_Forall_insert_2| |done].
      apply map_Forall_insert_2; [|done]. split; [done|]. by exists b.
  - split_and!; [apply map_Forall_empty|apply map_Forall_empty|done].
Qed.

Lemma rreachable_ok bound s : rreachable bound s -> registry_ok bound s.
Proof.
  intros Hr. induction Hr as [|s s' Hr IH Hs]; [|by eapply rstep_ok].
  split_and!; [apply map_Forall_empty|apply map_Forall_empty|constructor].
Qed.
End registry.

(** C21. Only admitted code runs.  However [Sync]s overlap, fail and are cut short by [Close], a
    component the registry hands out under a name was bound under that name, as an in-process
    component, by a snapshot that was applied, and its module was compiled from bytes whose
    SHA-256 is the digest of that binding: a file that was put in the module's place is never run. *)
Theorem only_admitted_code_runs {C I X} `{!Engine C I X} isPrint sha256 limits fs dir bound s name g :
  rreachable isPrint sha256 limits fs dir bound s -> Guardrail (rs_registry s) name = Some g ->
  wasmguardrail.g_name g = name
  /\ exists b wasm other hex,
       bound b /\ bind_Component b = name /\ bind_Execution b = ExecutionInProcess
       /\ Compile isPrint limits other wasm = inr (p_module (wasmguardrail.g_module g))
       /\ parseDigest (bind_Module b) = inr hex /\ hexEncode (sha256 wasm) = hex.
Proof.
  intros Hr Hg. destruct (rreachable_ok _ _ _ _ _ _ _ Hr) as (_ & Hn & _). destruct (Hn _ _ Hg) as (Hname & b & Hb & Hc & He & (hex & Hp & Hh) & other & Hm).
  split; [done|]. by exists b, (p_from (wasmguardrail.g_module g)), other, hex.
Qed.

Lemma mem_read_length p n m out : 0 <= p -> 0 <= n -> mem_read p n m = Some out -> Z.of_nat (length out) = n.
Proof.
  unfold mem_read. intros Hp Hn. case_match eqn:E; [done|]. apply Z.ltb_ge in E. intros [= <-].
  rewrite length_take, length_drop. lia.
Qed.

Lemma mem_read_part p n m out : mem_read p n m = Some out -> exists before after, m = before ++ out ++ after.
Proof.
  unfold mem_read. case_match; [done|]. intros [= <-].
  exists (take (Z.to_nat p) m), (drop (Z.to_nat n) (drop (Z.to_nat p) m)). by rewrite take_drop, take_drop.
Qed.

Lemma mem_read_exact p n m out : 0 <= p -> 0 <= n -> mem_read p n m = Some out ->
  exists before after, m = before ++ out ++ after /\ Z.of_nat (length before) = p /\ Z.of_nat (length out) = n.
Proof.
  intros Hp Hn E. pose proof (mem_read_length _ _ _ _ Hp Hn E) as HL. revert E. unfold mem_read.
  case_match eqn:E; [done|]. apply Z.ltb_ge in E. intros [= <-].
  exists (take (Z.to_nat p) m), (drop (Z.to_nat n) (drop (Z.to_nat p) m)). rewrite !take_drop.
  split_and!; [done| |done]. rewrite length_take. lia.
Qed.

Lemma mem_write_exact p data m m' : 0 <= p -> mem_write p data m = Some m' ->
  exists before old after, m = before ++ old ++ after /\ m' = before ++ data ++ after
    /\ Z.of_nat (length before) = p /\ length old = length data.
Proof.
  unfold mem_write. intros Hp. case_match eqn:E; [done|]. apply Z.ltb_ge in E. intros [= <-].
  exists (take (Z.to_nat p) m), (take (length data) (drop (Z.to_nat p) m)), (drop (Z.to_nat p + length data) m).
  rewrite <- drop_drop, !take_drop. split_and!; [done|done|..]; rewrite length_take, ?length_drop; lia.
Qed.

Lemma mem_outside p n m : mem_read p n m = None <-> Z.of_nat (length m) < p + n.
Proof. unfold mem_read. case_match eqn:E; [apply Z.ltb_lt in E|apply Z.ltb_ge in E]; split; done || lia. Qed.
Lemma mem_write_outside p data m : mem_write p data m = None <-> Z.of_nat (length m) < p + Z.of_nat (length data).
Proof. unfold mem_write. case_match eqn:E; [apply Z.ltb_lt in E|apply Z.ltb_ge in E]; split; done || lia. Qed.

(** *** What a module can make of a call *)
Section guest.
Context {C I X : Type} `{!Engine C I X} (ctxErr : option error) (m : Module_ C) (input : bytes).

Abbreviation start := (Instantiate (m_compiled m) (startFunctions (needsWASI m))).
Abbreviation alloc := (Invoke AllocFunc [Z.of_nat (length input)]).
Abbreviation pointer_of packed := (Z.shiftr packed 32 mod two32).
Abbreviation length_of packed := (packed mod two32).

(** A fresh instance of the module that [p] was given for the input: the input is in its memory at
    that address, over as many bytes of its own, and nothing else of the memory has changed. *)
Inductive handed (x : X) : I -> Z -> X -> Prop :=
| handed_nothing inst x1 : input = [] -> start x = (inr inst, x1) -> handed x inst 0 x1
| handed_input inst x1 v inst1 x2 before old after :
    input <> [] -> start x = (inr inst, x1) -> alloc inst x1 = (inr [v], inst1, x2) ->
    memory inst1 = Some (before ++ old ++ after) ->
    Z.of_nat (length before) = v mod two32 -> length old = length input ->
    handed x (set_memory (before ++ input ++ after) inst1) (v mod two32) x2.

(** The instance's [handle], given the input, came back with these results. *)
Definition handled (x : X) (results : error + list Z) (inst : I) (x' : X) : Prop :=
  exists inst0 p x2, handed x inst0 p x2
    /\ Invoke HandleFunc [p; Z.of_nat (length input)] inst0 x2 = (results, inst, x').

(** The answer is what the one result points at, in the memory the instance was left with. *)
Definition replied (x : X) (out : bytes) (x' : X) : Prop :=
  exists packed inst before after, handled x (inr [packed]) inst x'
    /\ memory inst = Some (before ++ out ++ after)
    /\ Z.of_nat (length before) = pointer_of packed /\ Z.of_nat (length out) = length_of packed
    /\ Z.of_nat (length out) <= MaxOutputBytes (m_limits m).

(** What a call that was stopped, or whose guest trapped, is reported as. *)
Definition guest_code : Code := match ctxErr with Some _ => CodeUpstreamTimeout | None => CodeUnavailable end.

(** Why a call failed, and the code it fails with. *)
Inductive faulted (x : X) : Code -> X -> Prop :=
| fault_start e x' : start x = (inl e, x') -> faulted x CodeUnavailable x'
| fault_alloc inst x1 e inst1 x' :
    input <> [] -> start x = (inr inst, x1) -> alloc inst x1 = (inl e, inst1, x') -> faulted x guest_code x'
| fault_alloc_arity inst x1 results inst1 x' :
    input <> [] -> start x = (inr inst, x1) -> alloc inst x1 = (inr results, inst1, x') ->
    length results <> 1%nat -> faulted x CodeInternal x'
| fault_alloc_outside inst x1 v inst1 x' mem :
    input <> [] -> start x = (inr inst, x1) -> alloc inst x1 = (inr [v], inst1, x') -> memory inst1 = Some mem ->
    Z.of_nat (length mem) < v mod two32 + Z.of_nat (length input) -> faulted x CodeInvalidRequest x'
| fault_handle e inst x' : handled x (inl e) inst x' -> faulted x guest_code x'
| fault_handle_arity results inst x' :
    handled x (inr results) inst x' -> length results <> 1%nat -> faulted x CodeInternal x'
| fault_too_long packed inst x' :
    handled x (inr [packed]) inst x' -> MaxOutputBytes (m_limits m) < length_of packed -> faulted x CodeInvalidRequest x'
| fault_outside packed inst x' mem :
    handled x (inr [packed]) inst x' -> memory inst = Some mem ->
    length_of packed <= MaxOutputBytes (m_limits m) ->
    Z.of_nat (length mem) < pointer_of packed + length_of packed -> faulted x CodeInvalidRequest x'.

(** The host goes to a memory the instance does not have. *)
Definition memoryless (x x' : X) : Prop :=
  (exists inst x1 v inst1, input <> [] /\ start x = (inr inst, x1) /\ alloc inst x1 = (inr [v], inst1, x')
     /\ memory inst1 = None)
  \/ (exists packed inst, handled x (inr [packed]) inst x' /\ length_of packed <= MaxOutputBytes (m_limits m)
     /\ memory inst = None).

Lemma guest_code_ok err name doing : CodeOf (Some (wrapGuestError ctxErr err name doing)) = guest_code.
Proof. unfold guest_code. by destruct ctxErr. Qed.

Lemma readOutput_spec x packed inst x' :
  handled x (inr [packed]) inst x' ->
  match readOutput m inst packed with
  | Some (inr out) => replied x out x'
  | Some (inl err) => faulted x (CodeOf (Some err)) x'
  | None => memoryless x x'
  end.
Proof.
  intros Hh. unfold readOutput. destruct (_ <? _) eqn:E; [apply Z.ltb_lt in E; by eapply fault_too_long|].
  apply Z.ltb_ge in E. destruct (memory inst) as [mem|] eqn:EM; [|right; by exists packed, inst].
  destruct (mem_read _ _ mem) as [out|] eqn:ER.
  - apply mem_read_exact in ER as (before & after & -> & Hb & Ho); [|by apply Z.mod_pos_bound..].
    exists packed, inst, before, after. split_and!; [done..|lia].
  - apply mem_outside in ER. by eapply fault_outside.
Qed.

Lemma writeInput_spec x inst x1 :
  start x = (inr inst, x1) ->
  match writeInput ctxErr m inst input x1 with
  | (Some (inr p), inst', x2) => handed x inst' p x2
  | (Some (inl err), _, x2) => faulted x (CodeOf (Some err)) x2
  | (None, _, x2) => memoryless x x2
  end.
Proof.
  intros Hs. unfold writeInput. destruct input as [|c inp] eqn:Ei; [by constructor|]. rewrite <- Ei in *.
  assert (Hne : input <> []) by (by rewrite Ei). clear Ei.
  destruct (alloc inst x1) as [[[e|[|v [|? ?]]] inst1] x2] eqn:EA.
  - rewrite guest_code_ok. by eapply fault_alloc.
  - by eapply fault_alloc_arity.
  - destruct (memory inst1) as [mem|] eqn:EM; [|left; by exists inst, x1, v, inst1].
    destruct (mem_write _ _ mem) as [mem'|] eqn:EW.
    + apply mem_write_exact in EW as (before & old & after & -> & -> & Hb & Ho); [|by apply Z.mod_pos_bound].
      by eapply handed_input.
    + apply mem_write_outside in EW. by eapply fault_alloc_outside.
  - by eapply fault_alloc_arity.
Qed.
End guest.

(** How a call ends, in terms of what the guest did in it. *)
Lemma call_ending {C I X} `{!Engine C I X} ctxErr (m : Module_ C) input (x : X) r x' :
  Call ctxErr m input x = (r, x') ->
  match r with
  | Some (inr out) => replied m input x out x'
  | Some (inl err) => faulted ctxErr m input x (CodeOf (Some err)) x'
  | None => memoryless m input x x'
  end.
Proof.
  unfold Call. destruct (Instantiate _ _ x) as [[e|inst] x1] eqn:ES; [intros [= <- <-]; by eapply fault_start|].
  pose proof (writeInput_spec ctxErr m input x inst x1 ES) as HW.
  destruct (writeInput ctxErr m inst input x1) as [[[[e|p]|] inst1] x2]; [by intros [= <- <-]| |by intros [= <- <-]].
  destruct (Invoke HandleFunc _ _ _) as [[res inst2] x3] eqn:EH.
  assert (Hh : handled m input x res inst2 x3) by (by exists inst1, p, x2).
  destruct res as [e|[|v [|? ?]]]; intros [= <- <-].
  - rewrite guest_code_ok. by eapply fault_handle.
  - by eapply fault_handle_arity.
  - exact (readOutput_spec ctxErr m input x v inst2 x3 Hh).
  - by eapply fault_handle_arity.
Qed.

(** C24. A call is contained: it has one of the endings below and no other.  It answers exactly with the bytes the
    module's one result points at, in the memory of the instance made for this call as [handle] left
    it, at most the configured limit of them; what that instance was handed is the input, at the
    address its own allocator gave, with the rest of its memory untouched.  Or it fails, and the code
    says why: the module did not start (unavailable), a trap (unavailable) or an overrun deadline
    (timeout) in either export, a number of results other than one (internal), an allocation or a
    result outside the module's memory or an answer over the limit (invalid request).  Or, and only
    then, the module has no memory where the host goes to it: the host panics. *)
Theorem call_is_contained {C I X} `{!Engine C I X} ctxErr (m : Module_ C) input (x : X) r x' :
  Call ctxErr m input x = (r, x') ->
  match r with
  | Some (inr out) => replied m input x out x'
  | Some (inl err) => faulted ctxErr m input x (CodeOf (Some err)) x'
  | None => memoryless m input x x'
  end.
Proof. apply call_ending. Qed.

(** A module every instance of which has a memory never makes the host panic. *)
Lemma memory_prevents_the_panic {C I X} `{!Engine C I X} ctxErr (m : Module_ C) input (x : X) :
  (forall inst, memory inst <> None) -> (Call ctxErr m input x).1 <> None.
Proof.
  intros Hm Hp. unfold Call in Hp. destruct (Instantiate _ _ x) as [[e|inst] x1]; [done|].
  unfold writeInput, readOutput in Hp. destruct input as [|c inp].
  - destruct (Invoke _ _ _ _) as [[[e|[|v [|? ?]]] inst2] x3]; try done. cbn in Hp. destruct (_ <? _); [done|].
    specialize (Hm inst2). destruct (memory inst2); [|done]. by destruct (mem_read _ _ _).
  - destruct (Invoke AllocFunc _ _ _) as [[[e|[|v [|? ?]]] inst1] x2]; try done.
    specialize (Hm inst1) as Hm1. destruct (memory inst1); [|done]. destruct (mem_write _ _ _); [|done].
    destruct (Invoke HandleFunc _ _ _) as [[[e|[|w [|? ?]]] inst2] x3]; try done. cbn in Hp. destruct (_ <? _); [done|].
    specialize (Hm inst2). destruct (memory inst2); [|done]. by destruct (mem_read _ _ _).
Qed.

(** *** A small engine *)

(** Modules whose code is the answer they give: [alloc] answers 0, [handle] points at the answer. *)
#[export] Instance demo_engine : Engine bytes bytes unit := {|
  CompileModule wasm := inr wasm;
  ExportedFunctions _ := [AllocFunc; HandleFunc];
  Instantiate code _ x := (inr (code ++ repeat (ascii_of_nat 0) 64), x);
  Invoke f _ inst x := (inr [if bool_decide (f = HandleFunc) then 2 else 0], inst, x);
  memory inst := Some inst;
  set_memory m _ := m |}.

Definition demo_sha (w : bytes) : bytes := take 32 (w ++ repeat (ascii_of_nat 0) 32).
Definition demo_digest (w : bytes) : string := "sha256:" +:+ hexEncode (demo_sha w).
Definition demo_files (held : list bytes) : Files :=
  mkFiles (fun dir name => name) (fun name =>
    match List.find (fun w => bool_decide (name = hexEncode (demo_sha w) +:+ ".wasm")) held with
    | Some w => inr w
    | None => inl (Foreign "file does not exist" None)
    end).
Definition demo_wasm_binding (w : bytes) : GuardrailBinding :=
  mkBinding "policy" "1" "" ExecutionInProcess (demo_digest w) (mkGuardBudget 0 FailClosed true []).
Definition demo_limits : Limits := withDefaults (mkLimits 0 0 0).
Definition demo_sync (held : list bytes) := Sync (fun _ => true) demo_sha demo_limits (demo_files held) "/modules".
Definition v1 : bytes := text "old".
Definition v2 : bytes := text "new".

Lemma only_admitted_code_runs_witness :
  exists b wasm, bind_Component b = "policy" /\ hexEncode (demo_sha wasm) = hexEncode (demo_sha v1).
Proof.
  pose (bound := fun b => b = demo_wasm_binding v1).
  pose (r0 := mkRegistry (C:=bytes) ∅ ∅ 0).
  pose (g := wasmguardrail.mkWasm (mkPtr 0 v1 (mkModule demo_limits v1 "policy" false)) "policy").
  assert (Hp : prepare (fun _ => true) demo_sha demo_limits (demo_files [v1]) "/modules" r0 (demo_wasm_binding v1) = Ready g)
    by (vm_compute; reflexivity).
  destruct (only_admitted_code_runs (fun _ => true) demo_sha demo_limits (demo_files [v1]) "/modules" bound
    (mkRState (commit (demo_wasm_binding v1) g (allocate r0)) []) "policy" g)
    as (_ & b & wasm & other & hex & Hb & Hc & _ & _ & Hd & Hh).
  - eapply rr_step; [eapply rr_step; [apply rr_init|]|].
    + exact (RPrepare _ _ _ _ _ bound r0 [] _ _ eq_refl eq_refl Hp).
    + exact (RCommit _ _ _ _ _ bound (allocate r0) [] _ g []).
  - vm_compute. reflexivity.
  - exists b, wasm. split; [exact Hc|]. rewrite Hb in Hd.
    assert (He : parseDigest (bind_Module (demo_wasm_binding v1)) = inr (hexEncode (demo_sha v1)))
      by (vm_compute; reflexivity).
    rewrite He in Hd. injection Hd as <-. exact Hh.
Defined.

Lemma call_is_contained_witness :
  replied (mkModule demo_limits v1 "policy" false) [] tt (text "ol") tt
  /\ Call None (mkModule demo_limits v1 "policy" false) [] tt = (Some (inr (text "ol")), tt).
Proof.
  assert (E : Call None (mkModule demo_limits v1 "policy" false) [] tt = (Some (inr (text "ol")), tt)) by (vm_compute; reflexivity).
  split; [|exact E]. exact (call_is_contained None (mkModule demo_limits v1 "policy" false) [] tt (Some (inr (text "ol"))) tt E).
Defined.

(** A module with the two exports the ABI asks for and no memory: [Compile] accepts it and every call
    of it with an input panics in the host. *)
Definition memoryless_engine : Engine bytes unit unit := {|
  CompileModule wasm := inr wasm;
  ExportedFunctions _ := [AllocFunc; HandleFunc];
  Instantiate _ _ x := (inr tt, x);
  Invoke _ _ inst x := (inr [0], inst, x);
  memory _ := None;
  set_memory _ inst := inst |}.

Lemma module_without_memory_panics_the_host ctxErr input :
  exists m, @Compile _ _ _ memoryless_engine (fun _ => true) demo_limits "policy" v1 = inr m
    /\ (@Call _ _ _ memoryless_engine ctxErr m input tt).1 = None.
Proof. eexists. split; [vm_compute; reflexivity|]. by destruct input. Qed.

(** A snapshot binds a new module whose file has not arrived.  The component stays bound, to the
    module of the snapshot before: the worker enforces code its configuration no longer names. *)
Lemma failed_upgrade_keeps_the_old_module :
  let r := demo_sync [v1] [demo_wasm_binding v1] (mkRegistry ∅ ∅ 0) in
  let r' := demo_sync [v1] [demo_wasm_binding v2] r in
  (fun g => p_from (wasmguardrail.g_module g)) <$> Guardrail r' "policy" = Some v1
  /\ demo_digest v1 <> demo_digest v2.
Proof. vm_compute. split; [reflexivity|congruence]. Qed.

(** A module stopped by its deadline while it starts is reported as unavailable, not as late. *)
Lemma late_start_is_reported_unavailable {C I X} `{!Engine C I X} (m : Module_ C) late err input (x x' : X) :
  Instantiate (m_compiled m) (startFunctions (needsWASI m)) x = (inl err, x') ->
  exists e, Call (Some late) m input x = (Some (inl e), x') /\ CodeOf (Some e) = CodeUnavailable.
Proof. intros Hi. unfold Call. rewrite Hi. by eexists. Qed.
