(* ===== verification/Example.v ===== *)
(** * The example component (examples/wasm-guardrail/main.go)

    The guardrail a publisher would write, compiled to WebAssembly: two exports, [alloc] and
    [handle], and the buffers they keep alive.  The Go runtime inside the module is an argument: what
    it leaves of memory when an export is entered, and where it puts a new slice.  The module is run
    by the host of [Modules], asked through the protocol of [Sidecars], behind the chain of
    [Guardrails]; the theorem goes through all of them. *)
From S2P Require Import Prelude Errors Core Strconv Text Json JsonFacts Base64 Format Detect Adapters Guardrails Sidecars Modules.
From Stdlib Require Import ZArith Lia Ascii.
From stdpp Require Import base gmap strings list.
Open Scope Z_scope.
Open Scope gw_scope.

(** ** The module's own code *)

(** The Go runtime.  [settle m live] is the memory [m] when an export starts to run: the collector may
    have reused everything but the buffers [live]; [place] finds room for a new slice, growing the
    memory if it must. *)
Definition region : Type := Z * nat.
Class Heap := {
  initial : bytes;
  room : Z;   (* bytes of live buffers it can surely hold *)
  settle : bytes -> list region -> bytes;
  place : bytes -> list region -> nat -> option (Z * bytes) }.

Definition held (live : list region) : Z := foldr (fun r n => Z.of_nat r.2 + n) 0 live.

(** What the language promises of it: what is referenced is not touched, a slice is in memory, memory
    is addressed with 32 bits, and there is room while there is room. *)
Class HeapLaws `{Heap} : Prop := {
  settle_keeps m live p n data : 0 <= p -> (p, n) ∈ live -> mem_read p (Z.of_nat n) m = Some data ->
    mem_read p (Z.of_nat n) (settle m live) = Some data;
  place_inside m live n p m' : place m live n = Some (p, m') ->
    0 <= p /\ p + Z.of_nat n <= Z.of_nat (length m') <= two32;
  place_room m live n : held live + Z.of_nat n <= room -> place m live n <> None }.

(** The prefixes refused, with the reasons given. *)
Definition denied : list (string * string) :=
  [("AKIA", "aws-access-key"); ("ghp_", "github-token"); ("-----BEGIN", "private-key"); ("sk-ant-api03-", "anthropic-key")].

Record response := mkResponse { rs_Verdict : string; rs_Reason : string; rs_Payload : option bytes }.

(** [omitempty] leaves an empty field out. *)
Definition marshal_response (r : response) : json :=
  JObj ((text "verdict", MarshalString (text (rs_Verdict r)))
        :: (if bool_decide (rs_Reason r = "") then [] else [(text "reason", MarshalString (text (rs_Reason r)))])
        ++ (match rs_Payload r with None | Some [] => [] | Some p => [(text "payload", MarshalBytes (Some p))] end)).

(** [strings.Contains]. *)
Fixpoint Contains (s sub : bytes) : bool :=
  bool_decide (sub `prefix_of` s) || match s with [] => false | _ :: s' => Contains s' sub end.

Section module.
Context `{Heap} (order : list (string * string)).   (* [denied], in the order the map is walked *)

Record guest := mkGuest { linear : bytes; keepAlive : list region }.

(** [None]: there is no room, and the module traps. *)
Definition alloc (size : Z) (g : guest) : option (Z * guest) :=
  match place (linear g) (keepAlive g) (Z.to_nat size) with
  | None => None
  | Some (p, m) =>
      match mem_write p (repeat (ascii_of_nat 0) (Z.to_nat size)) m with
      | None => None
      | Some m => Some (p, mkGuest m (keepAlive g ++ [(p, Z.to_nat size)]))
      end
  end.

Definition reply (r : response) (g : guest) : option (Z * guest) :=
  let encoded := print (marshal_response r) in
  match place (linear g) (keepAlive g) (length encoded) with
  | None => None
  | Some (p, m) =>
      match mem_write p encoded m with
      | None => None
      | Some m => Some (Z.lor (Z.shiftl p 32) (Z.of_nat (length encoded)), mkGuest m (keepAlive g ++ [(p, length encoded)]))
      end
  end.

Definition handle (pointer length : Z) (g : guest) : option (Z * guest) :=
  match mem_read pointer length (linear g) with
  | None => None
  | Some input =>
      match Json.Unmarshal dec_request (mkInspectRequest [] None [] []) input with
      | None => reply (mkResponse "deny" "unreadable request" None) g
      | Some decoded =>
          let payload := default [] (iq_Payload decoded) in
          match List.find (fun d => Contains payload (text d.1)) order with
          | Some (_, reason) => reply (mkResponse "deny" reason None) g
          | None => reply (mkResponse "allow" "" None) g
          end
      end
  end.

(** The module under an engine that may stop it at each call, as a deadline does; a parameter
    declared 32 bits wide takes the low 32 bits of what it is passed. *)
Context {X : Type} (Interrupted : X -> option error * X).

Definition trap : error := Foreign "wasm error: unreachable" None.
Definition exported (f : string) (args : list Z) (g : guest) : option (Z * guest) :=
  match args with
  | [size] => if bool_decide (f = AllocFunc) then alloc (size mod two32) g else None
  | [pointer; length] => if bool_decide (f = HandleFunc) then handle (pointer mod two32) (length mod two32) g else None
  | _ => None
  end.
Definition example_engine : Engine unit guest X := {|
  CompileModule _ := inr tt;
  ExportedFunctions _ := [InitFunc; AllocFunc; HandleFunc];
  Instantiate _ start x := (if bool_decide (InitFunc ∈ start) then inr (mkGuest initial []) else inl trap, x);
  Invoke f args g x :=
    match Interrupted x with
    | (Some err, x) => (inl err, g, x)
    | (None, x) =>
        match exported f args (mkGuest (settle (linear g) (keepAlive g)) (keepAlive g)) with
        | None => (inl trap, g, x)
        | Some (v, g) => (inr [v], g, x)
        end
    end;
  memory g := Some (linear g);
  set_memory m g := mkGuest m (keepAlive g) |}.
End module.

(** ** Facts *)

Lemma Contains_spec s sub : Contains s sub = true <-> exists before after, s = before ++ sub ++ after.
Proof.
  induction s as [|c s IH]; cbn; rewrite orb_true_iff, bool_decide_eq_true.
  - split; [intros [[k Hk]|]; [by exists [], k|done]|]. intros ([|? ?] & after & E); [|done]. left. by exists after.
  - rewrite IH. split.
    + intros [[k Hk]|(before & after & E)]; [by exists [], k|]. exists (c :: before), after. by rewrite E.
    + intros ([|c' before] & after & E); [left; by exists after|]. right. injection E as _ E. by exists before, after.
Qed.

Lemma mem_write_reads p data m m' : 0 <= p -> mem_write p data m = Some m' ->
  mem_read p (Z.of_nat (length data)) m' = Some data /\ length m' = length m.
Proof.
  unfold mem_write, mem_read. intros Hp. destruct (_ <? _) eqn:E; [done|]. apply Z.ltb_ge in E. intros [= <-].
  assert (Hl : length (take (Z.to_nat p) m ++ data ++ drop (Z.to_nat p + length data) m) = length m)
    by (rewrite !length_app, length_take, length_drop; lia).
  rewrite Hl. split; [|done]. destruct (_ <? _) eqn:E'; [apply Z.ltb_lt in E'; lia|].
  rewrite Nat2Z.id, drop_app_length' by (rewrite length_take; lia). by rewrite take_app_length.
Qed.
Lemma mem_write_room p data m : p + Z.of_nat (length data) <= Z.of_nat (length m) -> exists m', mem_write p data m = Some m'.
Proof. intros Hl. unfold mem_write. destruct (_ <? _) eqn:E; [apply Z.ltb_lt in E; lia|by eexists]. Qed.

(** A pointer and a length in one word. *)
Lemma packed_parts p n : 0 <= p < two32 -> 0 <= n < two32 ->
  let packed := Z.lor (Z.shiftl p 32) n in Z.shiftr packed 32 mod two32 = p /\ packed mod two32 = n.
Proof.
  intros Hp Hn packed. subst packed. change two32 with (2 ^ 32) in *. split.
  - rewrite Z.shiftr_lor, Z.shiftr_shiftl_l, Z.sub_diag, Z.shiftl_0_r, (Z.shiftr_div_pow2 n), (Z.div_small n), Z.lor_0_r by lia.
    apply Z.mod_small; lia.
  - rewrite <- Z.land_ones, Z.land_lor_distr_l, !Z.land_ones, Z.shiftl_mul_pow2, Z_mod_mult by lia.
    rewrite Z.lor_0_l. apply Z.mod_small; lia.
Qed.

(** What the module may say, and that the host understands it. *)
Definition refusal (d : string * string) : response := mkResponse "deny" d.2 None.
Definition approval : response := mkResponse "allow" "" None.
Definition result_of (r : response) : GuardrailResult :=
  mkGuardOut (if bool_decide (rs_Verdict r = "allow") then VerdictAllow else VerdictDeny) (rs_Reason r) None.
Definition sayings : list response := approval :: (refusal <$> denied).

Lemma saying_short r : r ∈ sayings -> 0 < Z.of_nat (length (print (marshal_response r))) <= 64.
Proof.
  intros Hr. assert (HF : Forall (fun r => 0 < Z.of_nat (length (print (marshal_response r))) <= 64) sayings)
    by (repeat constructor; vm_compute; congruence). by eapply list.Forall_forall in HF.
Qed.
Lemma saying_understood name r : r ∈ sayings ->
  wasmguardrail.answer name (inr (print (marshal_response r))) = inr (result_of r).
Proof.
  intros Hr. assert (HF : Forall (fun r => Json.Unmarshal dec_response no_response (print (marshal_response r))
      = Some (mkInspectResponse (text (rs_Verdict r)) (text (rs_Reason r)) None) /\ (rs_Verdict r = "allow" \/ rs_Verdict r = "deny")) sayings)
    by (repeat constructor; vm_compute; eauto). eapply list.Forall_forall in HF as [HU HV]; [|exact Hr].
  unfold wasmguardrail.answer. rewrite HU. unfold toResult. cbn [ir_Verdict ir_Reason ir_Payload].
  rewrite String.string_of_list_ascii_of_string. destruct HV as [HV|HV]; unfold result_of; rewrite HV; vm_compute; reflexivity.
Qed.

Section runs.
Context `{HeapLaws} (order : list (string * string)) (Horder : order ≡ₚ denied) {X : Type} (Interrupted : X -> option error * X).
#[local] Instance engine : Engine unit guest X := example_engine order Interrupted.

(** The engine stops the module, or there is no room in it for the [n] bytes of a request. *)
Definition stopped (n : Z) : Prop := (exists x e, (Interrupted x).1 = Some e) \/ room < n + 64.
(** What the module is to say of a payload. *)
Definition saying (payload : bytes) : response :=
  match List.find (fun d => Contains payload (text d.1)) order with Some d => refusal d | None => approval end.

Lemma saying_said payload : saying payload ∈ sayings.
Proof.
  unfold saying, sayings. destruct (List.find _ order) as [d|] eqn:E; [|by left].
  apply List.find_some in E as [Hin _]. right. apply list_elem_of_fmap. exists d. split; [done|].
  rewrite <- Horder. by apply list_elem_of_In.
Qed.

Lemma place_refuses m live n : place m live n = None -> room < held live + Z.of_nat n.
Proof. intros E. destruct (Z.le_gt_cases (held live + Z.of_nat n) room); [|lia]. by apply place_room in E. Qed.

Lemma reply_said r g : r ∈ sayings ->
  reply r g = None /\ stopped (held (keepAlive g)) \/
  exists p g', reply r g = Some (Z.lor (Z.shiftl p 32) (Z.of_nat (length (print (marshal_response r)))), g')
    /\ 0 <= p < two32 /\ mem_read p (Z.of_nat (length (print (marshal_response r)))) (linear g') = Some (print (marshal_response r)).
Proof.
  intros Hr. apply saying_short in Hr. unfold reply. set (encoded := print _) in *. clearbody encoded.
  destruct (place _ _ _) as [[p m]|] eqn:E; [right|left; split; [done|right; apply place_refuses in E; lia]].
  apply place_inside in E as (Hp & Hl & Hm). destruct (mem_write_room p encoded m) as [m' Hw]; [lia|]. rewrite Hw.
  eexists p, _. split; [done|]. split; [lia|]. by apply (mem_write_reads p encoded m).
Qed.

(** The module's answer to a request it can read, when the host has written it where [alloc] said. *)
Lemma handle_said pointer input g payload decoded :
  mem_read pointer (Z.of_nat (length input)) (linear g) = Some input ->
  Json.Unmarshal dec_request (mkInspectRequest [] None [] []) input = Some decoded -> default [] (iq_Payload decoded) = payload ->
  handle order pointer (Z.of_nat (length input)) g = reply (saying payload) g.
Proof.
  intros Hr Hd <-. unfold handle, saying. rewrite Hr, Hd. by destruct (List.find _ order) as [[prefix reason]|].
Qed.

(** [alloc] and the host's write: the request is in memory, in a buffer the module keeps. *)
Lemma alloc_written size g : 0 <= size < two32 -> keepAlive g = [] ->
  alloc size g = None /\ stopped size \/
  exists p g', alloc size g = Some (p, g') /\ 0 <= p /\ p + size <= Z.of_nat (length (linear g')) <= two32
    /\ keepAlive g' = [(p, Z.to_nat size)].
Proof.
  intros Hs Hg. unfold alloc. rewrite Hg.
  destruct (place _ _ _) as [[p m]|] eqn:E; [right|left; split; [done|right; apply place_refuses in E; cbn in E; lia]].
  apply place_inside in E as (Hp & Hl & Hm).
  destruct (mem_write_room p (repeat (ascii_of_nat 0) (Z.to_nat size)) m) as [m' Hw]; [rewrite repeat_length; lia|]. rewrite Hw.
  eexists p, _. split; [done|]. apply mem_write_reads in Hw as [_ Hl']; [|done]. cbn. rewrite Hl'.
  by split_and!; try lia.
Qed.

Definition interruptions : list Code := [CodeUnavailable; CodeUpstreamTimeout].
Lemma wrapped_interruption ctxErr err name doing : CodeOf (Some (wrapGuestError ctxErr err name doing)) ∈ interruptions.
Proof. destruct ctxErr; apply (bool_decide_unpack _); done. Qed.

Lemma invoke_cases f args (g : guest) (x : X) :
  (exists e x', Invoke f args g x = (inl e, g, x') /\ forall n, stopped n)
  \/ (exists x', Invoke f args g x =
       match exported order f args (mkGuest (settle (linear g) (keepAlive g)) (keepAlive g)) with
       | None => (inl trap, g, x') | Some (v, g') => (inr [v], g', x') end).
Proof.
  cbn. destruct (Interrupted x) as [[e|] x'] eqn:E; [left|right; by eexists].
  eexists _, _. split; [done|]. left. exists x, e. by rewrite E.
Qed.

Lemma example_call ctxErr isPrint limits name wasm m input decoded x r x' :
  Compile isPrint limits name wasm = inr m -> 64 <= MaxOutputBytes limits ->
  0 < Z.of_nat (length input) < two32 ->
  Json.Unmarshal dec_request (mkInspectRequest [] None [] []) input = Some decoded ->
  Call ctxErr m input x = (r, x') ->
  r = Some (inr (print (marshal_response (saying (default [] (iq_Payload decoded))))))
  \/ stopped (Z.of_nat (length input)) /\ exists e, r = Some (inl e) /\ CodeOf (Some e) ∈ interruptions.
Proof.
  unfold Compile. do 2 (case_bool_decide; [done|]). intros [= <-] Hm Hi Hd. unfold Call. set (m := mkModule _ _ _ _).
  assert (HI : Instantiate (m_compiled m) (startFunctions (needsWASI m)) x = (inr (mkGuest initial []), x)) by reflexivity.
  rewrite HI. clear HI. pose proof (saying_said (default [] (iq_Payload decoded))) as Hs.
  pose proof (fun g p Hr => handle_said p input g _ decoded Hr Hd eq_refl) as Hh. set (said := saying _) in *. clearbody said.
  assert (HL : MaxOutputBytes (m_limits m) = MaxOutputBytes limits) by done. clearbody m.
  unfold writeInput. destruct input as [|c input]; [cbn in Hi; lia|]. set (inp := c :: input) in *. clearbody inp. clear c input.
  destruct (invoke_cases AllocFunc [Z.of_nat (length inp)] (mkGuest initial []) x) as [(e & x1 & -> & HS)|[x1 ->]].
  { intros [= <- _]. right. split; [done|]. eexists. split; [done|apply wrapped_interruption]. }
  unfold exported at 1. rewrite bool_decide_true, Z.mod_small by (done || lia).
  destruct (alloc_written (Z.of_nat (length inp)) (mkGuest (settle initial []) [])) as [[Ha HS]|(p & g & Ha & Hp & Hl & Hk)]; [lia|done| |].
  { cbn [linear keepAlive]. rewrite Ha. intros [= <- _]. right. split; [done|]. eexists. split; [done|apply wrapped_interruption]. }
  cbn [linear keepAlive]. rewrite Ha. rewrite Nat2Z.id in Hk. rewrite Z.mod_small by lia.
  destruct (mem_write_room p inp (linear g)) as [m' Hw]; [lia|]. change (memory g) with (Some (linear g)). cbv iota. rewrite Hw.
  apply mem_write_reads in Hw as [Hr Hlen]; [|done]. change (set_memory m' g) with (mkGuest m' (keepAlive g)).
  destruct (invoke_cases HandleFunc [p; Z.of_nat (length inp)] (mkGuest m' (keepAlive g)) x1) as [(e & x2 & -> & HS)|[x2 ->]].
  { intros [= <- _]. right. split; [done|]. eexists. split; [done|apply wrapped_interruption]. }
  unfold exported. rewrite bool_decide_true, !Z.mod_small by (done || lia). cbn [linear keepAlive].
  rewrite (Hh (mkGuest (settle m' (keepAlive g)) (keepAlive g)) p) by (rewrite Hk; apply settle_keeps; [done|by left|done]).
  destruct (reply_said said (mkGuest (settle m' (keepAlive g)) (keepAlive g)) Hs) as [[-> HS]|(q & g' & -> & Hq & Hread)].
  { intros [= <- _]. right. cbn [keepAlive] in HS. rewrite Hk in HS. cbn in HS. rewrite Z.add_0_r in HS. split; [done|].
    eexists. split; [done|apply wrapped_interruption]. }
  apply saying_short in Hs. set (out := print (marshal_response said)) in *. clearbody out.
  intros [= <- _]. left. unfold readOutput. destruct (packed_parts q (Z.of_nat (length out))) as [E1 E2]; [done|unfold two32; lia|].
  cbv zeta. rewrite E1, E2. destruct (_ <? _) eqn:E; [apply Z.ltb_lt in E; lia|]. change (memory g') with (Some (linear g')). cbv iota. by rewrite Hread.
Qed.

Lemma saying_exact payload :
  (res_Verdict (result_of (saying payload)) = VerdictDeny
   <-> exists d, d ∈ denied /\ exists before after, payload = before ++ text d.1 ++ after)
  /\ (res_Verdict (result_of (saying payload)) <> VerdictDeny -> res_Verdict (result_of (saying payload)) = VerdictAllow).
Proof.
  unfold saying. destruct (List.find _ order) as [d|] eqn:E.
  - apply List.find_some in E as [Hin HC]. apply Contains_spec in HC. split; [|done]. split; [|done]. intros _. exists d.
    split; [|done]. rewrite <- Horder. by apply list_elem_of_In.
  - split; [|done]. split; [done|]. intros (d & Hin & HC). apply Contains_spec in HC.
    rewrite <- Horder in Hin. apply list_elem_of_In in Hin. pose proof (List.find_none _ _ E d Hin) as HN. cbn in HN. congruence.
Qed.

(** The module exports a memory, so a call of it does not panic. *)
Lemma example_never_panics ctxErr m input (x : X) : (Call ctxErr m input x).1 <> None.
Proof. by apply memory_prevents_the_panic. Qed.

(** The module as a guardrail of the chain; the last case does not arise, by the lemma before. *)
Definition ask_module (ctxErr : option error) (g : wasmguardrail.Guardrail (Module_ unit)) (timeout : duration)
    (inp : GuardrailInput) (x : X) : (error + option GuardrailResult) * X :=
  let '(r, x) := wasmguardrail.Inspect (Call ctxErr) g inp x in
  (match r with Some (inl e) => inl e | Some (inr res) => inr (Some res) | None => inl trap end, x).

Lemma print_request_nonempty r : 0 < Z.of_nat (length (print (marshal_request r))).
Proof. unfold marshal_request. cbn. lia. Qed.

Lemma example_asked ctxErr isPrint limits name wasm m timeout inp x :
  Compile isPrint limits name wasm = inr m -> 64 <= MaxOutputBytes limits ->
  Z.of_nat (length (print (marshal_request (request_of inp)))) < two32 ->
  let r := (ask_module ctxErr (wasmguardrail.mkWasm m name) timeout inp x).1 in
  r = inr (Some (result_of (saying (in_Payload inp)))) \/ stopped (Z.of_nat (length (print (marshal_request (request_of inp))))) /\ exists e, r = inl e /\ CodeOf (Some e) ∈ interruptions.
Proof.
  intros Hc Hm Hl r. subst r. unfold ask_module, wasmguardrail.Inspect, wasmguardrail.Inspect_with.
  cbn [wasmguardrail.g_module wasmguardrail.g_name]. pose proof (print_request_nonempty (request_of inp)) as Hpos.
  pose proof (component_sees_the_payload (request_of inp)) as Hd. set (input := print _) in *. clearbody input.
  destruct (Call ctxErr m input x) as [r x'] eqn:E.
  destruct (example_call _ _ _ _ _ _ _ _ _ _ _ Hc Hm (conj Hpos Hl) Hd E) as [->|(HS & e & -> & He)].
  - left. cbn [iq_Payload request_of request_for default fmap option_fmap option_map]. rewrite saying_understood by apply saying_said. done.
  - right. split; [done|]. by exists e.
Qed.
End runs.

(** C25. The example component does what its publisher says, through everything that carries it.  Bound
    to block, the module decides on the payload and leaves it as it is: it refuses exactly the
    payloads in which one of its four prefixes occurs, wherever it occurs, whatever else the payload
    is made of, in whatever order the map of prefixes is walked and wherever the Go runtime in the
    module puts its buffers.  Only the engine stopping it or a request its memory has no room for comes between
    (the limit on outputs being at least the 64 bytes its longest answer needs, as the default is),
    and when the binding fails closed a payload with a prefix is refused even then. *)
Theorem example_component_is_exact `{HeapLaws} order {X} (Interrupted : X -> option error * X)
    ctxErr isPrint limits name wasm m b inp c x o c' x' :
  order ≡ₚ denied ->
  @Compile _ _ _ (example_engine order Interrupted) isPrint limits name wasm = inr m -> 64 <= MaxOutputBytes limits ->
  Z.of_nat (length (print (marshal_request (request_of inp)))) < two32 -> bud_Blocking (bind_Budget b) = true ->
  Run (fun _ => Some (wasmguardrail.mkWasm m name)) (ask_module order Interrupted ctxErr) [b] inp c x = (inr o, c', x') ->
  let holds := exists d, d ∈ denied /\ exists before after, in_Payload inp = before ++ text d.1 ++ after in
  out_Payload o = in_Payload inp
  /\ (fail_closed b = true -> holds -> out_Denied o = true)
  /\ (~ stopped Interrupted (Z.of_nat (length (print (marshal_request (request_of inp))))) -> out_Denied o = true <-> holds).
Proof.
  intros Ho Hc Hm Hl Hb. unfold Run. cbn [run_from]. rewrite Hb. cbn [negb]. unfold evaluate.
  assert (Hi : with_payload inp (in_Payload inp) = inp) by by destruct inp. rewrite Hi.
  pose proof (example_asked order Ho Interrupted ctxErr isPrint limits name wasm m (budget_timeout b) inp x Hc Hm Hl) as HA.
  destruct (saying_exact order Ho (in_Payload inp)) as [HD HN]. set (res := result_of _) in *.
  destruct (ask_module _ _ _ _ _ _ _) as [r x1]. destruct HA as [E|(HS & e & E & He)]; cbn [fst] in E; subst r.
  - assert (HP : res_Payload res = None) by done. clearbody res. rewrite HP.
    destruct (res_Verdict res) eqn:EV; [| |by specialize (HN ltac:(discriminate))]; cbn; rewrite EV; intros [= <- <- <-]; cbn;
      (split_and!; [done| |]); intuition congruence.
  - cbn [run_from]; destruct (fail_closed b); intros [= <- <- <-]; cbn; (split_and!; [done|done|tauto]).
Qed.

(** *** A runtime that is hard on what is not kept *)

(** Memory outside the live buffers is wiped whenever an export is entered; a slice goes above the
    highest live buffer. *)
Definition lives (live : list region) (i : nat) : bool :=
  existsb (fun r => (r.1 <=? Z.of_nat i) && (Z.of_nat i <? r.1 + Z.of_nat r.2)) live.
Definition top (live : list region) : Z := foldr (fun r t => Z.max (r.1 + Z.of_nat r.2) t) 0 live.
Definition grow (m : bytes) (n : Z) : bytes :=
  let m := if Z.of_nat (length m) <=? two32 then m else [] in m ++ repeat (ascii_of_nat 0) (Z.to_nat n - length m).
#[local] Instance wiping : Heap := {|
  initial := repeat "x"%char 32;
  room := 4096;
  settle m live := imap (fun i c => if lives live i then c else "x"%char) m;
  place m live n :=
    let p := if top live + Z.of_nat n <=? two32 then top live else 0 in
    if two32 <? Z.of_nat n then None else Some (p, grow m (p + Z.of_nat n)) |}.

Lemma top_nonneg live : 0 <= top live.
Proof. unfold top. induction live as [|r live IH]; cbn [foldr]; lia. Qed.
Lemma held_nonneg live : 0 <= held live.
Proof. unfold held. induction live as [|r live IH]; cbn [foldr]; lia. Qed.
Lemma grow_length m n : 0 <= n <= two32 -> n <= Z.of_nat (length (grow m n)) <= two32.
Proof. unfold grow. intros Hn. destruct (_ <=? _) eqn:E; rewrite length_app, repeat_length; [apply Z.leb_le in E|cbn]; lia. Qed.

Lemma wiping_keeps live p n m i : (p, n) ∈ live -> (i < n)%nat -> 0 <= p ->
  settle m live !! (Z.to_nat p + i)%nat = m !! (Z.to_nat p + i)%nat.
Proof.
  intros Hin Hi Hp. cbn. rewrite list_lookup_imap.
  assert (HL : lives live (Z.to_nat p + i) = true).
  { apply existsb_exists. exists (p, n). split; [by apply list_elem_of_In|]. cbn. apply andb_true_iff.
    split; [apply Z.leb_le|apply Z.ltb_lt]; lia. }
  rewrite HL. by destruct (m !! _).
Qed.

#[local] Instance wiping_laws : HeapLaws.
Proof.
  split.
  - intros m live p n data Hp Hin. unfold mem_read. assert (Hl : length (settle m live) = length m) by apply length_imap. rewrite Hl.
    destruct (_ <? _); [done|]. intros <-. f_equal. rewrite Nat2Z.id. apply list_eq. intros i.
    destruct (decide (i < n)%nat) as [Hi|Hi]; [|by rewrite !lookup_take_ge by lia].
    rewrite !lookup_take_lt, !lookup_drop by lia. by eapply wiping_keeps.
  - intros m live n p m'. cbn [place wiping]. pose proof (top_nonneg live) as Ht.
    destruct (two32 <? Z.of_nat n) eqn:E; [done|]. apply Z.ltb_ge in E. intros [= <- <-].
    destruct (_ <=? _) eqn:E'; [apply Z.leb_le in E'|]; (split; [done|]); apply grow_length; lia.
  - intros m live n Hn. cbn [place wiping room] in *. pose proof (held_nonneg live).
    destruct (two32 <? Z.of_nat n) eqn:E; [apply Z.ltb_lt in E; unfold two32 in E; lia|done].
Qed.

Definition try_order : list (string * string) := reverse denied.
Definition try_limits : Limits := withDefaults (mkLimits 0 0 0).
Definition try_binding : GuardrailBinding :=
  mkBinding "credentials" "1" "" ExecutionInProcess "" (mkGuardBudget 0 FailClosed true []).
Definition try_asked (payload : string) : GuardrailInput :=
  mkGuardIn PhaseRequest (mkMeta "r" "m" EndpointChatCompletions false 0 AddrInvalid "" 0 0) DataClassInternal TrustExternal (text payload).
Definition never : unit -> option error * unit := fun x => (None, x).
Definition try_module : Module_ unit := mkModule try_limits tt "credentials" true.
Definition try_run (payload : string) :=
  Run (fun _ => Some (wasmguardrail.mkWasm try_module "credentials")) (ask_module try_order never None) [try_binding]
    (try_asked payload) (mkChain no_stats 0 []) tt.

Lemma try_compiles : @Compile _ _ _ (example_engine try_order never) (fun _ => true) try_limits "credentials" (text "wasm") = inr try_module.
Proof. vm_compute. reflexivity. Qed.
Lemma try_runs_key : exists c', try_run "my key is ghp_16C7e42F" = (inr (mkOutcome (text "my key is ghp_16C7e42F") true "credentials"), c', tt).
Proof. eexists. vm_compute. reflexivity. Qed.
Lemma try_fits : Z.of_nat (length (print (marshal_request (request_of (try_asked "my key is ghp_16C7e42F"))))) < 1000.
Proof. vm_compute. reflexivity. Qed.
Lemma try_permuted : try_order ≡ₚ denied.
Proof. apply reverse_Permutation. Qed.
Lemma never_stopped n : n < 1000 -> ~ stopped never n.
Proof. intros Hn [(x & e & He)|Hr]; [done|]. cbn in Hr. lia. Qed.

Lemma example_component_is_exact_witness :
  exists d before after, d ∈ denied /\ text "my key is ghp_16C7e42F" = before ++ text d.1 ++ after.
Proof.
  destruct try_runs_key as [c' Hrun].
  destruct (example_component_is_exact try_order never None (fun _ => true) try_limits "credentials" (text "wasm") try_module try_binding
    (try_asked "my key is ghp_16C7e42F") (mkChain no_stats 0 []) tt (mkOutcome (text "my key is ghp_16C7e42F") true "credentials") c' tt try_permuted try_compiles) as (_ & _ & H).
  - vm_compute. congruence.
  - eapply Z.lt_trans; [exact try_fits|reflexivity].
  - reflexivity.
  - exact Hrun.
  - destruct (proj1 (H (never_stopped _ try_fits)) eq_refl) as (d & Hd & before & after & E). exists d, before, after. exact (conj Hd E).
Defined.
