(* ===== verification/Nercheck.v ===== *)
(** * The check of the two sides of entity detection (cmd/nercheck)

    A command that asks a running detector about a payload whose byte and character offsets differ,
    and fails unless what comes back survives the client's verification and redacts.  The HTTP client
    is an argument, as it is in [Sidecars]; the environment is a function. *)
From S2P Require Import Prelude Errors Core Strconv Text Json JsonFacts Base64 Format Placeholder Restorer Regex Detect Transform Adapters Guardrails Sidecars Modules Example.
From Stdlib Require Import ZArith Lia Ascii.
From stdpp Require Import base gmap strings list sorting.
Open Scope Z_scope.
Open Scope gw_scope.

Definition payload : bytes :=
  text "{" ++ quoted (text "messages") ++ text ":[{" ++ quoted (text "content") ++ text ":"
  ++ quoted (text "🙂 please email Dr. Ada Lovelace at Contoso Ltd") ++ text "}]}".

(** How a run ends.  Slicing out of range panics. *)
Inductive ending :=
| Fails (err : error)
| Panics
| Passes (matches : list Match) (protected : bytes).

(** The loop over the matches after the transform: the first value still there. *)
Definition survivor (protected : bytes) (matches : list Match) : option Match :=
  List.find (fun m => Contains protected (m_Value m)) matches.

Section command.
Context {X : Type} (getenv : string -> string) (client : duration -> Client X) (hmac12 : bytes -> bytes -> bytes).

Definition judge (matches : list Match) : ending :=
  match matches with
  | [] => Fails (Foreign "no entity survived; the two sides disagree about offsets" None)
  | _ =>
      match TransformMatches hmac12 payload matches StrategyRedact [] with
      | None => Panics
      | Some result =>
          match survivor (t_Payload result) matches with
          | Some m => Fails (Foreign "survived the transform" None)
          | None => Passes matches (t_Payload result)
          end
      end
  end.

Definition run (x : X) : ending * X :=
  let socket := getenv "PII_NER_SOCKET" in
  if bool_decide (socket = "") then (Fails (Foreign "PII_NER_SOCKET is not set" None), x)
  else match nersidecar.New_ socket [nersidecar.WithTimeout (5 * Second)] with
       | inl err => (Fails err, x)
       | inr detector =>
           let c := client (nersidecar.d_timeout detector) in
           let '(err, x) := nersidecar.Ping c detector x in
           match err with
           | Some err => (Fails (Foreign "the sidecar is not healthy" (Some err)), x)
           | None =>
               let '(r, x) := nersidecar.Detect c detector payload x in
               match r with
               | inl err => (Fails err, x)
               | inr matches => (judge matches, x)
               end
           end
       end.

(** The status the process exits with; a panic exits with 2. *)
Definition status (e : ending) : Z := match e with Passes _ _ => 0 | Fails _ => 1 | Panics => 2 end.
End command.

(** ** Offsets in characters *)

(** The characters before a byte offset: bytes that do not continue one. *)
Definition continues (c : ascii) : bool := (128 <=? bz c) && (bz c <? 192).
Definition chars (n : nat) : nat := length (filter (fun c => continues c = false) (take n payload)).
(** The bytes [s] to [e] as a detector that counts characters reports them. *)
Definition by_characters (kind : Kind) (s e : nat) : detectedEntity :=
  mkEntity kind (Z.of_nat (chars s)) (Z.of_nat (chars e)) (slice payload s e).
Definition emoji_end : nat := 29.

(** ** Facts *)

Lemma transform_panicked hmac12 strategy ms : foldl (transform_step hmac12 payload strategy []) (inl tt) ms = inl tt.
Proof. by induction ms. Qed.

(** The transform goes through only over matches in order that do not overlap. *)
Lemma transform_ordered hmac12 ms st st' : Forall (fun m => m_Start m < m_End m) ms ->
  foldl (transform_step hmac12 payload StrategyRedact []) (inr st) ms = inr st' ->
  StronglySorted ends_before ms /\ Forall (fun m => ts_last st <= m_Start m) ms.
Proof.
  intros HF. revert st. induction HF as [|m ms Hm HF IH]; intros st; [by repeat constructor|]. cbn [foldl].
  destruct (transform_step _ _ _ _ _ _) as [[]|st1] eqn:E; [by rewrite transform_panicked|]. intros Hr.
  destruct (IH _ Hr) as [IS IF]. revert E. cbn. unfold slice_checked.
  destruct (_ && _) eqn:Eb; [|done]. intros [= <-]. cbn in IF.
  assert (Hle : ts_last st <= m_Start m) by (apply andb_true_iff in Eb as [Eb _]; apply andb_true_iff in Eb as [_ Eb]; by apply Z.leb_le).
  split; constructor; try done. eapply Forall_impl; [exact IF|]. cbn. lia.
Qed.

Lemma toMatches_sound entities m : m ∈ toMatches payload entities ->
  0 <= m_Start m < m_End m /\ m_End m <= Z.of_nat (length payload)
  /\ m_Value m = slice payload (Z.to_nat (m_Start m)) (Z.to_nat (m_End m)).
Proof.
  unfold toMatches. intros (e & _ & He)%list_elem_of_omap. revert He.
  destruct (_ || _) eqn:E; [done|]. apply orb_false_iff in E as [E E3]. apply orb_false_iff in E as [E1 E2].
  apply Z.ltb_ge in E1, E2. apply Z.leb_gt in E3. case_bool_decide as Hv; [|done]. intros [= <-]. cbn [m_Start m_End m_Value]. split_and!; by try lia.
Qed.

Lemma judge_passes hmac12 ms ms' protected :
  Forall (fun m => m_Start m < m_End m) ms -> judge hmac12 ms = Passes ms' protected ->
  ms' = ms /\ ms <> [] /\ StronglySorted ends_before ms
  /\ (exists r, TransformMatches hmac12 payload ms StrategyRedact [] = Some r /\ t_Payload r = protected)
  /\ forall m, m ∈ ms -> Contains protected (m_Value m) = false.
Proof.
  intros HF. unfold judge. destruct ms as [|m0 ms0] eqn:Ems; [done|]. rewrite <- Ems in *.
  destruct (TransformMatches _ _ _ _ _) as [r|] eqn:ET; [|done].
  destruct (survivor _ _) as [m|] eqn:ES; [done|]. intros [= <- <-]. split_and!; [done|by rewrite Ems| |by exists r|].
  - revert ET. unfold TransformMatches. cbn [orb]. rewrite Ems at 1. cbn -[foldl].
    destruct (foldl _ _ ms) as [|st] eqn:EF; [done|]. intros _. by apply transform_ordered in EF as [? _].
  - intros m Hm. apply list_elem_of_In in Hm. by apply (List.find_none _ _ ES).
Qed.

(** No value of two bytes or more after the emoji verifies in character offsets. *)
Definition spans : list (nat * nat) :=
  filter (fun se => (se.1 + 2 <= se.2)%nat) (s ← seq emoji_end 50; e ← seq emoji_end 50; [(s, e)]).
Lemma spans_dropped : Forall (fun se => slice payload (chars se.1) (chars se.2) <> slice payload se.1 se.2) spans.
Proof. apply (bool_decide_unpack _). vm_compute. exact I. Qed.

Lemma by_characters_dropped kind s e : (emoji_end <= s)%nat -> (s + 2 <= e <= length payload)%nat ->
  toMatches payload [by_characters kind s e] = [].
Proof.
  intros Hs He. assert (Hl : length payload = 78%nat) by (vm_compute; reflexivity). rewrite Hl in He. unfold emoji_end in Hs.
  assert (Hin : (s, e) ∈ spans).
  { apply list_elem_of_filter. split; [cbn; lia|]. apply list_elem_of_bind. exists s. split; [|apply elem_of_seq; unfold emoji_end; lia].
    apply list_elem_of_bind. exists e. split; [by apply list_elem_of_singleton|apply elem_of_seq; unfold emoji_end; lia]. }
  eapply list.Forall_forall in Hin; [|exact spans_dropped]. cbn [fst snd] in Hin.
  cbn [toMatches by_characters omap list_omap ent_Start ent_End ent_Value]. destruct (_ || _); [done|].
  rewrite !Nat2Z.id. by rewrite (bool_decide_false _ Hin).
Qed.

(** What the check establishes.  When the command passes, at least one entity came back, the
    entities are in order and do not overlap, each is exactly the bytes of the payload its offsets
    name, and after redaction none of their values is left anywhere in the payload.  A detector that
    counts characters instead of bytes does not pass it: whatever it reports after the emoji, if each
    entity is two bytes or more, the command fails. *)
Theorem nercheck_is_sound {X} getenv (client : duration -> Client X) hmac12 x e x' :
  run getenv client hmac12 x = (e, x') ->
  (forall matches protected, e = Passes matches protected ->
     matches <> [] /\ good_matches payload matches
     /\ forall m, m ∈ matches -> ~ exists before after, protected = before ++ m_Value m ++ after)
  /\ (forall entities,
        (forall d y, exists y', nersidecar.Detect (client (nersidecar.d_timeout d)) d payload y = (inr (toMatches payload entities), y')) ->
        Forall (fun en => exists kind s e, en = by_characters kind s e /\ (emoji_end <= s)%nat /\ (s + 2 <= e <= length payload)%nat) entities ->
        status e = 1).
Proof.
  unfold run. case_bool_decide as Hs; [intros [= <- _]; split; done|]. unfold nersidecar.New_.
  rewrite (bool_decide_false _ Hs). set (det := foldl _ _ _).
  destruct (nersidecar.Ping _ _ _) as [[err|] x1]; [intros [= <- _]; split; done|].
  destruct (nersidecar.Detect _ _ _ _) as [[err|ms] x2] eqn:ED.
  { intros [= <- _]. split; [done|]. intros entities Hd. destruct (Hd det x1) as [y' E]. congruence. }
  intros [= <- _]. assert (HM : exists entities, ms = toMatches payload entities).
  { revert ED. unfold nersidecar.Detect. destruct (badURL _ _); [done|]. destruct (Do _ _ _) as [[?|resp] ?]; [done|]. cbn.
    destruct (negb _); [done|]. destruct (DecodeValue _ _ _ _) as [decoded|]; [|done]. intros [= <- _]. by eexists. }
  split.
  - destruct HM as [entities ->]. intros matches protected Hp.
    assert (HF : Forall (fun m => m_Start m < m_End m) (toMatches payload entities))
      by (apply list.Forall_forall; intros m Hm; apply toMatches_sound in Hm; lia).
    apply judge_passes in Hp as (-> & Hne & HS & _ & HC); [|done]. split_and!; [done| |].
    + split; [done|]. apply list.Forall_forall. intros m Hm. apply toMatches_sound in Hm as (? & ? & ?). split_and!; [lia..|done].
    + intros m Hm HX. apply Contains_spec in HX. apply HC in Hm. congruence.
  - intros entities Hd HF. destruct (Hd det x1) as [y' E]. rewrite ED in E. injection E as -> _.
    assert (HN : toMatches payload entities = []); [|by rewrite HN]. clear -HF.
    induction HF as [|en l (kind & s & e & -> & Hs & He) _ IH]; [done|].
    change (toMatches payload (by_characters kind s e :: l)) with (toMatches payload ([by_characters kind s e] ++ l)).
    unfold toMatches in *. rewrite omap_app, IH, app_nil_r. by apply by_characters_dropped.
Qed.

(** *** Runs *)

Definition entity_json (s e : Z) (value : string) : bytes :=
  text "{" ++ quoted (text "kind") ++ text ":" ++ quoted (text "PERSON") ++ text "," ++ quoted (text "start") ++ text ":" ++ FormatInt s
  ++ text "," ++ quoted (text "end") ++ text ":" ++ FormatInt e ++ text "," ++ quoted (text "value") ++ text ":" ++ quoted (text value) ++ text "}".
Definition try_client (entities : bytes) (_ : duration) : Client unit :=
  mkClient unit (fun _ => None) (fun _ x =>
    (inr (mkHttpResponse 200 "200 OK" (text "{" ++ quoted (text "entities") ++ text ":[" ++ entities ++ text "]}") None), x)).
Definition try_env (_ : string) : string := "/run/ner.sock".
Definition no_hash (_ _ : bytes) : bytes := [].
Definition try_run (entities : bytes) : ending := (run try_env (try_client entities) no_hash tt).1.

(** The name in bytes passes; in characters it does not; a name inside a name panics in the
    transform, which is why the detector drops overlaps. *)
Lemma runs_of_the_check :
  status (try_run (entity_json 47 59 "Ada Lovelace")) = 0
  /\ status (try_run (entity_json 44 56 "Ada Lovelace")) = 1
  /\ try_run (entity_json 47 59 "Ada Lovelace" ++ text "," ++ entity_json 51 59 "Lovelace") = Panics.
Proof. vm_compute. split_and!; reflexivity. Qed.

Lemma try_passes : exists ms protected, run try_env (try_client (entity_json 47 59 "Ada Lovelace")) no_hash tt = (Passes ms protected, tt).
Proof. eexists _, _. vm_compute. reflexivity. Qed.
Lemma nercheck_is_sound_witness : exists ms, ms <> [] /\ good_matches payload ms.
Proof.
  destruct try_passes as (ms & protected & Hr).
  destruct (nercheck_is_sound try_env (try_client (entity_json 47 59 "Ada Lovelace")) no_hash tt _ _ Hr) as [Hp _].
  destruct (Hp ms protected eq_refl) as (Hne & Hg & _). exists ms. exact (conj Hne Hg).
Defined.
