(* ===== verification/Contracts.v ===== *)
(** * Contract suites (contracts/t.go, kvstore.go, guardrail.go, provider.go)

    A case is a computation that records failures and may be ended early, by [Fatal], by a panic or
    by a component that never answers; a [Recorder] runs cases one after the other and keeps every
    failure; the values printed in a message are left out.  The suites are written in it as the source has them.  Component state is [St]; a
    store's clock is part of it and moves only when the suite advances it. *)
From S2P Require Import Prelude Errors Core Strconv Text Kv Format Adapters.
From Stdlib Require Import ZArith Lia Ascii.
From stdpp Require Import base gmap strings list.
Open Scope Z_scope.
Open Scope gw_scope.

(** ** Recording (t.go) *)

Record Case := mkCase { c_Name : string; c_Failures : list message; c_Logs : list message }.
Definition Passed (c : Case) : bool := bool_decide (c_Failures c = []).

Definition Report := list Case.
(** A battery that ran nothing has not passed. *)
Definition Report_Passed (r : Report) : bool := negb (bool_decide (r = [])) && forallb Passed r.
Definition Summary (r : Report) : message :=
  let failed := Z.of_nat (length (filter (fun c => Passed c = false) r)) in
  Msg "%d/%d cases passed" [AInt (Z.of_nat (length r) - failed); AInt (Z.of_nat (length r))].

(** How a computation ends: with a value, by [runtime.Goexit], by a panic, never, or by a panic on a
    goroutine nothing recovers, which ends the process. *)
Inductive ending (A : Type) := Done (a : A) | Exit | Panics (v : string) | Hangs | Crashes.
Arguments Done {A} a.
Arguments Exit {A}.
Arguments Panics {A} v.
Arguments Hangs {A}.
Arguments Crashes {A}.

Section recorder.
Context {St : Type}.

(** A recorder: the shared report, the case it records for, and its cleanups, which may panic. *)
Record Recorder := mkRecorder {
  r_path : string;
  r_report : Report;
  r_current : option Case;
  r_cleanups : list (St -> option string * St) }.
Definition NewRecorder : Recorder := mkRecorder "" [] None [].

Definition T (A : Type) : Type := Recorder -> St -> ending A * Recorder * St.

Definition ret {A} (a : A) : T A := fun r s => (Done a, r, s).
Definition bind {A B} (m : T A) (k : A -> T B) : T B := fun r s =>
  match m r s with
  | (Done a, r, s) => k a r s
  | (Exit, r, s) => (Exit, r, s)
  | (Panics v, r, s) => (Panics v, r, s)
  | (Hangs, r, s) => (Hangs, r, s)
  | (Crashes, r, s) => (Crashes, r, s)
  end.

Definition fail (m : message) (r : Recorder) : Recorder :=
  match r_current r with
  | None => mkRecorder (r_path r) (r_report r ++ [mkCase "setup" [m] []]) None (r_cleanups r)
  | Some c => mkRecorder (r_path r) (r_report r) (Some (mkCase (c_Name c) (c_Failures c ++ [m]) (c_Logs c))) (r_cleanups r)
  end.

Definition Errorf (m : message) : T unit := fun r s => (Done tt, fail m r, s).
Definition Fatalf {A} (m : message) : T A := fun r s => (Exit, fail m r, s).
Definition Logf (m : message) : T unit := fun r s =>
  (Done tt, match r_current r with
            | None => r
            | Some c => mkRecorder (r_path r) (r_report r) (Some (mkCase (c_Name c) (c_Failures c) (c_Logs c ++ [m]))) (r_cleanups r)
            end, s).
Definition Cleanup (f : St -> option string * St) : T unit := fun r s =>
  (Done tt, mkRecorder (r_path r) (r_report r) (r_current r) (r_cleanups r ++ [f]), s).
(** A call of the component, which is outside the recorder. *)
Definition call {A} (f : St -> A * St) : T A := fun r s => let '(a, s) := f s in (Done a, r, s).

(** In reverse order; one that panics becomes a failure. *)
Definition runCleanups (r : Recorder) (s : St) : Recorder * St :=
  foldr (fun f '(r, s) =>
           let '(panicked, s) := f s in
           (match panicked with Some v => fail (Msg "cleanup panicked: %v" [AStr v]) r | None => r end, s))
        (mkRecorder (r_path r) (r_report r) (r_current r) [], s) (r_cleanups r).

(** [Recorder.Run]: one case, on a goroutine of its own. *)
Definition Run (name : string) (f : T unit) : T bool := fun r s =>
  let path := if bool_decide (r_path r = "") then name else r_path r +:+ "/" +:+ name in
  let '(e, sub, s) := f (mkRecorder path (r_report r) (Some (mkCase path [] [])) []) s in
  let close sub :=
    let '(sub, s) := runCleanups sub s in
    let entry := default (mkCase path [] []) (r_current sub) in
    (Done (Passed entry), mkRecorder (r_path r) (r_report sub ++ [entry]) (r_current r) (r_cleanups r), s) in
  match e with
  | Done _ | Exit => close sub
  | Panics v => close (fail (Msg "panicked: %v" [AStr v]) sub)
  | Hangs => (Hangs, r, s)
  | Crashes => (Crashes, r, s)
  end.

Definition Finish (r : Recorder) (s : St) : Recorder * St := runCleanups r s.
End recorder.
Arguments Recorder : clear implicits.
Arguments T : clear implicits.

Notation "x ⇐ m ;; k" := (bind m (fun x => k)) (at level 100, m at next level, right associativity) : gw_scope.
Notation "m ;;; k" := (bind m (fun _ => k)) (at level 100, k at level 100, right associativity) : gw_scope.
(** [if cond { t.Fatalf(m) }]. *)
Definition fatal_if {St} (b : bool) (m : message) : T St unit := if b then Fatalf m else ret tt.

(** ** The store suite (kvstore.go) *)
Section kvstore.
Context {S : Type} `{!KVStore S}.

(** The target's clock and the store. *)
Abbreviation KVState := (time * S)%type.

Definition Get (k : string) : T KVState (error + option bytes) :=
  call (fun '(now, s) => let '(r, s) := kv_Get now k s in (r, (now, s))).
Definition Set_ (k : string) (v : bytes) (ttl : duration) : T KVState (option error) :=
  call (fun '(now, s) => let '(r, s) := kv_Set now k v ttl s in (r, (now, s))).
Definition Incr (k : string) (d : Z) (ttl : duration) : T KVState (error + Z) :=
  call (fun '(now, s) => let '(r, s) := kv_Incr now k d ttl s in (r, (now, s))).
Definition Delete (k : string) : T KVState (option error) :=
  call (fun '(now, s) => let '(r, s) := kv_Delete now k s in (r, (now, s))).
Definition advance (d : duration) : T KVState unit := call (fun '(now, s) => (tt, (now + d, s))).

(** [if err != nil { t.Fatalf(...) }]. *)
Definition no_error (op : string) (err : option error) : T KVState unit :=
  fatal_if (bool_decide (err <> None)) (Msg (op +:+ ": %v") []).
Definition value_or_fatal {A} (op : string) (r : error + A) : T KVState A :=
  match r with inl _ => Fatalf (Msg (op +:+ ": %v") []) | inr a => ret a end.
(** [if err != nil || !found { t.Fatalf(...) }]. *)
Definition found_or_fatal (r : error + option bytes) : T KVState bytes :=
  match r with
  | inr (Some v) => ret v
  | _ => Fatalf (Msg "Get = (%q, %v, %v)" [])
  end.
Definition parsed_or_fatal (m : message) (raw : bytes) : T KVState Z :=
  match ParseInt raw with inl _ => Fatalf m | inr n => ret n end.

(** A factory answers the prefix that isolates a run. *)
Context (newStore : T KVState string).

Definition case_missing : T KVState unit :=
  prefix ⇐ newStore;;
  r ⇐ Get (prefix +:+ "missing");;
  v ⇐ value_or_fatal "Get" r;;
  fatal_if (bool_decide (v <> None)) (Msg "got (%q, %v), want absent" []).

Definition case_set_get : T KVState unit :=
  prefix ⇐ newStore;;
  let key := prefix +:+ "set" in
  err ⇐ Set_ key (text "value") Minute;;
  no_error "Set" err;;;
  r ⇐ Get key;;
  v ⇐ found_or_fatal r;;
  fatal_if (negb (bool_decide (v = text "value"))) (Msg "value = %q" []).

Fixpoint incr_loop (key : string) (n : nat) (i : Z) : T KVState unit :=
  match n with
  | O => ret tt
  | Datatypes.S n =>
      r ⇐ Incr key 5 Minute;;
      total ⇐ value_or_fatal "Incr" r;;
      fatal_if (negb (total =? i * 5)) (Msg "Incr returned %d, want the running total %d" []);;;
      incr_loop key n (i + 1)
  end.
Definition case_incr : T KVState unit := prefix ⇐ newStore;; incr_loop (prefix +:+ "incr") 3 1.

Definition case_text : T KVState unit :=
  prefix ⇐ newStore;;
  let key := prefix +:+ "text" in
  r ⇐ Incr key 42 Minute;;
  _ ⇐ value_or_fatal "Incr" r;;
  r ⇐ Get key;;
  raw ⇐ found_or_fatal r;;
  parsed ⇐ parsed_or_fatal (Msg "a counter must be readable as decimal text, got %q" []) raw;;
  fatal_if (negb (parsed =? 42)) (Msg "parsed %d, want 42" []).

Definition case_ttl : T KVState unit :=
  prefix ⇐ newStore;;
  let key := prefix +:+ "ttl" in
  let life := 2 * Second in
  r ⇐ Incr key 1 life;;
  _ ⇐ value_or_fatal "Incr" r;;
  r ⇐ Incr key 1 Hour;;
  _ ⇐ value_or_fatal "Incr" r;;
  advance (life + Second);;;
  r ⇐ Get key;;
  v ⇐ value_or_fatal "Get" r;;
  fatal_if (bool_decide (v <> None)) (Msg "the key outlived its original TTL, so a busy window would never roll" []).

Definition case_delete : T KVState unit :=
  prefix ⇐ newStore;;
  let key := prefix +:+ "delete" in
  err ⇐ Set_ key (text "v") Minute;;
  no_error "Set" err;;;
  err ⇐ Delete key;;
  no_error "Delete" err;;;
  r ⇐ Get key;;
  fatal_if (match r with inr (Some _) => true | _ => false end) (Msg "the key survived deletion" []);;;
  err ⇐ Delete key;;
  no_error "second Delete" err.

(** Sixteen goroutines of fifty increments each: the store makes each one step, and they are the
    same call, so every interleaving is this sequence.  A failure is recorded and the rest go on. *)
Fixpoint incr_many (key : string) (n : nat) : T KVState unit :=
  match n with
  | O => ret tt
  | Datatypes.S n =>
      r ⇐ Incr key 1 Minute;;
      match r with inl _ => Errorf (Msg "%v" []) | inr _ => ret tt end;;;
      incr_many key n
  end.
Definition goroutines : nat := 16.
Definition each : nat := 50.
Definition case_atomic : T KVState unit :=
  prefix ⇐ newStore;;
  let key := prefix +:+ "atomic" in
  incr_many key (goroutines * each);;;
  r ⇐ Get key;;
  raw ⇐ found_or_fatal r;;
  total ⇐ parsed_or_fatal (Msg "parsing the counter: %v" []) raw;;
  fatal_if (negb (total =? Z.of_nat (goroutines * each))) (Msg "counter = %d, want %d; increments were lost" []).

(** [Get] under a cancelled context, which the store may honour. *)
Context (cancelled_Get : time -> string -> S -> (error + option bytes) * S).
Definition Canceled_error (e : error) : bool := wraps Canceled e.
Definition case_cancelled : T KVState unit :=
  prefix ⇐ newStore;;
  r ⇐ call (fun '(now, s) => let '(r, s) := cancelled_Get now (prefix +:+ "cancelled") s in (r, (now, s)));;
  fatal_if (match r with
            | inl e => negb (Canceled_error e) && bool_decide (CodeOf (Some e) = "")
            | inr _ => false
            end) (Msg "Get returned an unclassified error: %v" []).

Definition RunKVStoreSuite : T KVState unit :=
  Run "a missing key is absent, not an error" case_missing;;;
  Run "set then get" case_set_get;;;
  Run "incr creates and accumulates" case_incr;;;
  Run "a counter reads back as its decimal text" case_text;;;
  Run "incr does not extend an existing expiry" case_ttl;;;
  Run "delete removes" case_delete;;;
  Run "incr is atomic under concurrency" case_atomic;;;
  Run "a cancelled context is honoured" case_cancelled;;;
  ret tt.
End kvstore.

(** ** The guardrail suite (guardrail.go) *)

(** The context a call is made under. *)
Inductive ctx := CtxRun | CtxCancelled | CtxDeadline.

(** What a call does: it answers, with the buffer it was given as it leaves it; or panics; or does
    not come back. *)
Inductive reply := Answers (r : error + option GuardrailResult) (buffer : bytes) | Panicked (v : string) | Silent.

Section guardrail.
Context {X : Type}.
(** [gp_Inspect] is also told whether the payload is nil rather than empty, which a component that
    is sent the input can tell apart. *)
Record GuardrailPort := mkPort { gp_Name : string; gp_Inspect : ctx -> bool -> GuardrailInput -> X -> reply * X }.
Record GuardrailTarget := mkTarget { gt_Guardrail : GuardrailPort; gt_Trigger : option bytes; gt_Benign : bytes }.

(** A factory, and what becomes of its benign fixture when a component has written through the slice
    it was given: a factory that hands out one slice sees it, one that copies does not. *)
Context (newGuardrail : T X GuardrailTarget) (store_benign : bytes -> X -> X).

Definition input (payload : bytes) : GuardrailInput :=
  mkGuardIn PhaseRequest (mkMeta "contract-1" "contract-model" "" false 0 AddrInvalid "" 0 0) DataClassInternal
    TrustExternal payload.

Definition ask (g : GuardrailPort) (c : ctx) (isnil : bool) (inp : GuardrailInput) : T X ((error + option GuardrailResult) * bytes) :=
  fun r s => match gp_Inspect g c isnil inp s with
             | (Answers a buffer, s) => (Done (a, buffer), r, s)
             | (Panicked v, s) => (Panics v, r, s)
             | (Silent, s) => (Hangs, r, s)
             end.

(** [inspect]: the result, and the buffer the input was in. *)
Definition inspect (g : GuardrailPort) (inp : GuardrailInput) : T X (GuardrailResult * bytes) :=
  a ⇐ ask g CtxRun false inp;;
  match a.1 with
  | inl _ => Fatalf (Msg "Inspect: %v" [])
  | inr None => Fatalf (Msg "returned no result and no error" [])
  | inr (Some res) => ret (res, a.2)
  end.

(** The same on the target's own benign slice. *)
Definition keep (buffer : bytes) : T X unit := call (fun x => (tt, store_benign buffer x)).
Definition inspect_benign (target : GuardrailTarget) : T X (GuardrailResult * bytes) :=
  a ⇐ ask (gt_Guardrail target) CtxRun false (input (gt_Benign target));;
  keep a.2;;;
  match a.1 with
  | inl _ => Fatalf (Msg "Inspect: %v" [])
  | inr None => Fatalf (Msg "returned no result and no error" [])
  | inr (Some res) => ret (res, a.2)
  end.

Definition case_name : T X unit :=
  first ⇐ newGuardrail;;
  second ⇐ newGuardrail;;
  fatal_if (bool_decide (gp_Name (gt_Guardrail first) = "")) (Msg "a guardrail with no name cannot be bound" []);;;
  fatal_if (negb (bool_decide (gp_Name (gt_Guardrail first) = gp_Name (gt_Guardrail second))))
    (Msg "name is not stable: %q then %q" []).

Definition case_benign : T X unit :=
  target ⇐ newGuardrail;;
  a ⇐ inspect_benign target;;
  fatal_if (negb (bool_decide (res_Verdict a.1 = VerdictAllow))) (Msg "verdict = %v on a benign payload (%q), want allow" []).

Definition case_no_payload : T X unit :=
  target ⇐ newGuardrail;;
  a ⇐ inspect_benign target;;
  fatal_if (bool_decide (res_Verdict a.1 = VerdictAllow) && bool_decide (res_Payload a.1 <> None))
    (Msg "allow returned a payload of %d bytes; only mutate may" []).

(** The second call is made on the input as the first left it. *)
Definition case_deterministic : T X unit :=
  target ⇐ newGuardrail;;
  first ⇐ inspect_benign target;;
  second ⇐ inspect_benign (mkTarget (gt_Guardrail target) (gt_Trigger target) first.2);;
  fatal_if (negb (bool_decide (res_Verdict first.1 = res_Verdict second.1))) (Msg "same input gave %v then %v" []).

(** On a copy. *)
Definition case_unmodified : T X unit :=
  target ⇐ newGuardrail;;
  a ⇐ inspect (gt_Guardrail target) (input (gt_Benign target));;
  fatal_if (negb (bool_decide (a.2 = gt_Benign target))) (Msg "the input buffer was modified in place: %q became %q" []).

Definition case_acts : T X unit :=
  target ⇐ newGuardrail;;
  match gt_Trigger target with
  | None => Logf (Msg "no trigger payload supplied; this guardrail claims only to allow" [])
  | Some trigger =>
      a ⇐ inspect (gt_Guardrail target) (input trigger);;
      match res_Verdict a.1 with
      | VerdictDeny => fatal_if (bool_decide (TrimSpace (text (res_Reason a.1)) = [])) (Msg "denied without a reason" [])
      | VerdictMutate =>
          match res_Payload a.1 with
          | None => Fatalf (Msg "mutate returned no payload, so the chain would forward the original" [])
          | Some p => fatal_if (bool_decide (p = a.2)) (Msg "mutate returned the input unchanged" [])
          end
      | VerdictAllow => Fatalf (Msg "allowed the payload it declared it acts on: %q" [])
      end
  end.

Definition case_cancel : T X unit :=
  target ⇐ newGuardrail;;
  a ⇐ ask (gt_Guardrail target) CtxCancelled false (input (gt_Benign target));;
  keep a.2;;;
  fatal_if (match a.1 with
            | inl e => negb (wraps Canceled e) && negb (bool_decide (CodeOf (Some e) = CodeUnavailable))
            | inr _ => false
            end) (Msg "err = %v (code %s), want a cancellation" []).

(** The call is on a goroutine of the case's own, which nothing recovers; a component that has not
    come back after five seconds fails the case. *)
Definition case_deadline : T X unit :=
  target ⇐ newGuardrail;;
  fun r s => match gp_Inspect (gt_Guardrail target) CtxDeadline false (input (gt_Benign target)) s with
             | (Answers _ buffer, s) => keep buffer r s
             | (Panicked _, s) => (Crashes, r, s)
             | (Silent, s) => Fatalf (Msg "did not return within 5s on a 2s deadline" []) r s
             end.

Definition case_empty : T X unit :=
  target ⇐ newGuardrail;;
  a ⇐ ask (gt_Guardrail target) CtxRun true (input []);;
  match a.1 with
  | inl _ => Fatalf (Msg "Inspect on an empty payload: %v" [])
  | inr None => Fatalf (Msg "returned no result and no error" [])
  | inr (Some _) => ret tt
  end.

Definition RunGuardrailSuite : T X unit :=
  Run "reports a stable non-empty name" case_name;;;
  Run "allows a benign payload unchanged" case_benign;;;
  Run "an allow verdict carries no payload" case_no_payload;;;
  Run "is deterministic on the same input" case_deterministic;;;
  Run "does not modify the payload it was given" case_unmodified;;;
  Run "acts on a payload it is meant to act on" case_acts;;;
  Run "respects a cancelled context" case_cancel;;;
  Run "returns within a short deadline" case_deadline;;;
  Run "handles an empty payload without failing" case_empty;;;
  ret tt.
End guardrail.
Arguments GuardrailPort : clear implicits.
Arguments GuardrailTarget : clear implicits.

(** ** The provider suite (provider.go) *)

#[export] Instance TokenUsage_eq_dec : EqDecision TokenUsage.
Proof. solve_decision. Defined.
#[export] Instance Chunk_eq_dec : EqDecision Chunk.
Proof. solve_decision. Defined.

(** A provider port.  A stream is a handle [Strm] to state kept in [X], so that its reader and the
    deferred [Close] share it; calls are made under a context. *)
Record ProviderPort (Strm X : Type) := mkProvider {
  pp_Name : string;
  pp_Endpoints : list Endpoint;
  pp_Probe : ctx -> ProviderCall -> X -> option (option error) * X;       (* [None]: no answer *)
  pp_Invoke : ctx -> ProviderCall -> X -> option (error + ProviderResponse) * X;
  pp_Stream : ProviderCall -> X -> (error + Strm) * X;
  pp_Next : Strm -> X -> (Chunk * option error) * X;
  pp_Close : Strm -> X -> option error * X }.
Arguments pp_Name {Strm X}.
Arguments pp_Endpoints {Strm X}.
Arguments pp_Probe {Strm X}.
Arguments pp_Invoke {Strm X}.
Arguments pp_Stream {Strm X}.
Arguments pp_Next {Strm X}.
Arguments pp_Close {Strm X}.

Section provider.
Context {Strm X : Type} (newPort : T X (ProviderPort Strm X)) (sample : T X ProviderCall).

Definition provider_name : T X unit :=
  port ⇐ newPort;;
  fatal_if (bool_decide (pp_Name port = "")) (Msg "Name must be non-empty: it is the key a snapshot binds the port by" []).

Definition provider_endpoints : T X unit :=
  port ⇐ newPort;;
  fatal_if (bool_decide (pp_Endpoints port = [])) (Msg "Endpoints must name at least one API surface" []);;;
  fatal_if (existsb (fun e => bool_decide (e = "")) (pp_Endpoints port)) (Msg "Endpoints contains an empty surface" []).

Definition provider_probe : T X unit :=
  port ⇐ newPort;;
  c ⇐ sample;;
  a ⇐ call (pp_Probe port CtxDeadline c);;
  fatal_if (bool_decide (a = None)) (Msg "Probe did not answer; a health check must be cheap" []).

(** A call that is waited for. *)
Definition answered {A} (a : option A) : T X A :=
  match a with Some a => ret a | None => fun r s => (Hangs, r, s) end.

Definition provider_invoke : T X unit :=
  port ⇐ newPort;;
  c ⇐ sample;;
  a ⇐ call (pp_Invoke port CtxRun c);;
  r ⇐ answered a;;
  match r with inl _ => Fatalf (Msg "Invoke: %v" []) | inr _ => ret tt end.

Definition maxChunks : nat := Z.to_nat 10000.
Definition is_EOF (e : error) : bool := wraps "EOF" e.

(** The bounded reading loop: whether a final chunk was seen. *)
Fixpoint read_stream (port : ProviderPort Strm X) (fuel : nat) (sawFinal : bool) (s : Strm) : T X bool :=
  match fuel with
  | O => Fatalf (Msg "stream produced %d chunks without reaching io.EOF" [])
  | Datatypes.S fuel =>
      a ⇐ call (pp_Next port s);;
      let '(chunk, err) := a in
      match err with
      | Some e =>
          if is_EOF e
          then fatal_if (negb (bool_decide (chunk = NoChunk)))
                 (Msg "Next returned a chunk together with io.EOF; the terminating chunk must come first, with a nil error" []);;;
               ret sawFinal
          else Fatalf (Msg "Next: %v" [])
      | None => read_stream port fuel (sawFinal || chunk_Final chunk) s
      end
  end.

(** The deferred [Close] is the last thing a case does, and its error is ignored. *)
Definition close_after {A} (port : ProviderPort Strm X) (s : Strm) (m : T X A) : T X A := fun r x =>
  let '(e, r, x) := m r x in
  (e, r, (pp_Close port s x).2).

Definition provider_stream : T X unit :=
  port ⇐ newPort;;
  c ⇐ sample;;
  a ⇐ call (pp_Stream port c);;
  match a with
  | inl _ => Fatalf (Msg "Stream: %v" [])
  | inr strm =>
      close_after port strm
        (sawFinal ⇐ read_stream port maxChunks false strm;;
         fatal_if (negb sawFinal) (Msg "no chunk was marked Final: the response leg cannot tell where usage is reported" []))
  end.

Definition provider_close : T X unit :=
  port ⇐ newPort;;
  c ⇐ sample;;
  a ⇐ call (pp_Stream port c);;
  match a with
  | inl _ => Fatalf (Msg "Stream: %v" [])
  | inr strm =>
      err ⇐ call (pp_Close port strm);;
      fatal_if (bool_decide (err <> None)) (Msg "first Close: %v" []);;;
      err ⇐ call (pp_Close port strm);;
      fatal_if (bool_decide (err <> None)) (Msg "second Close: %v" [])
  end.

Definition provider_cancelled : T X unit :=
  port ⇐ newPort;;
  c ⇐ sample;;
  a ⇐ call (pp_Invoke port CtxCancelled c);;
  r ⇐ answered a;;
  fatal_if (match r with inl e => negb (wraps Canceled e) | inr _ => true end)
    (Msg "Invoke with a cancelled context returned %v, want context.Canceled" []).

Definition provider_deadline : T X unit :=
  port ⇐ newPort;;
  c ⇐ sample;;
  a ⇐ call (pp_Invoke port CtxDeadline c);;
  fatal_if (bool_decide (a = None)) (Msg "Invoke outlived its context deadline" []).

Definition RunProviderSuite : T X unit :=
  Run "reports a stable non-empty name" provider_name;;;
  Run "declares at least one endpoint" provider_endpoints;;;
  Run "probe does not consume tokens" provider_probe;;;
  Run "invoke returns a response" provider_invoke;;;
  Run "stream terminates with io.EOF" provider_stream;;;
  Run "close is idempotent" provider_close;;;
  Run "respects a cancelled context" provider_cancelled;;;
  Run "does not exceed a short deadline" provider_deadline;;;
  ret tt.
End provider.
