(* ===== verification/Sandbox.v ===== *)
(** * The sandbox (sandbox/sandbox.go)

    A component being admitted runs in a container whose isolation is the list of arguments the
    runtime is started with.  [Args] is that list, [Start] runs it and waits for the component's
    socket, [Close] tears it down.  Running a command and what is seen while waiting are arguments;
    paths are joined and cleaned the way the standard library does. *)
From S2P Require Import Prelude Errors Core Strconv Text Format Detect.
From Stdlib Require Import ZArith Lia Ascii.
From stdpp Require Import base gmap strings list.
Open Scope Z_scope.
Open Scope gw_scope.

(** ** Paths (path/filepath on Unix) *)

(** One element of a path on a stack of those before it. *)
Definition clean_step (rooted : bool) (stack : list bytes) (part : bytes) : list bytes :=
  if bool_decide (part = [] \/ part = text ".") then stack
  else if bool_decide (part = text "..") then
    match stack with
    | top :: rest => if bool_decide (top = text "..") then part :: stack else rest
    | [] => if rooted then [] else [part]
    end
  else part :: stack.

Fixpoint join_with (sep : ascii) (parts : list bytes) : bytes :=
  match parts with
  | [] => []
  | [p] => p
  | p :: rest => p ++ sep :: join_with sep rest
  end.

Definition Clean (path : string) : string :=
  let p := text path in
  let rooted := bool_decide (head p = Some "/"%char) in
  let out := join_with "/" (rev (foldl (clean_step rooted) [] (split_on "/" p))) in
  if rooted then String.string_of_list_ascii ("/"%char :: out)
  else if bool_decide (out = []) then "." else String.string_of_list_ascii out.

Definition Join (dir name : string) : string :=
  if bool_decide (dir = "") then (if bool_decide (name = "") then "" else Clean name)
  else Clean (dir +:+ "/" +:+ name).

Definition Itoa (z : Z) : string := String.string_of_list_ascii (FormatInt z).

(** ** Limits and specifications *)

Definition DefaultMemoryMB : Z := 512.
Definition DefaultCPUs : string := "1.0".
Definition DefaultPidsLimit : Z := 64.
Definition DefaultTimeout : duration := 2 * Minute.
Definition DefaultRuntime : string := "docker".

Record Limits := mkLimits { MemoryMB : Z; CPUs : string; PidsLimit : Z; Timeout_ : duration }.
Definition withDefaults (l : Limits) : Limits :=
  mkLimits (if MemoryMB l <=? 0 then DefaultMemoryMB else MemoryMB l)
    (if bool_decide (CPUs l = "") then DefaultCPUs else CPUs l)
    (if PidsLimit l <=? 0 then DefaultPidsLimit else PidsLimit l)
    (if Timeout_ l <=? 0 then DefaultTimeout else Timeout_ l).

Record Spec := mkSpec { Image : string; SocketDir : string; SocketName : string; s_Limits : Limits }.

(** [^sha256:[0-9a-f]{64}$]. *)
Definition is_lower_hex (c : ascii) : bool := within 48 (bz c) 57 || within 97 (bz c) 102.
Definition digestRef (s : string) : bool :=
  match cut_prefix "sha256:" s with
  | Some hex => (Z.of_nat (String.length hex) =? 64) && forallb is_lower_hex (text hex)
  | None => false
  end.

Definition pinnedByDigest (image : string) : bool :=
  if digestRef image then true
  else match cut "@" image with
       | Some (name, digest) => negb (bool_decide (name = "")) && digestRef digest
       | None => false
       end.

Definition is_separator (c : ascii) : bool := bool_decide (c = "/"%char) || (bz c =? 92).

Definition validate (spec : Spec) : option error :=
  if bool_decide (Image spec = "") then Some (New CodeInvalidRequest "a sandbox needs an image")
  else if negb (pinnedByDigest (Image spec)) then
    Some (Newf CodeInvalidRequest "image %q is not pinned by digest; the sandbox would run whatever the tag points at now"
            [AStr (Image spec)])
  else if bool_decide (SocketDir spec = "") || bool_decide (SocketName spec = "") then
    Some (New CodeInvalidRequest "a sandbox needs a socket directory and name")
  else if existsb is_separator (text (SocketName spec)) then
    Some (Newf CodeInvalidRequest "socket name %q must be a file name, not a path" [AStr (SocketName spec)])
  else None.

(** ** The container runner *)

Definition NobodyUser : string := "65534:65534".
Definition containerSocketDir : string := "/run/component".

Record Container := mkContainer { c_runtime : string; c_user : string }.
Definition WithRuntime (command : string) (c : Container) : Container :=
  if bool_decide (command <> "") then mkContainer command (c_user c) else c.
Definition WithUser (user : string) (c : Container) : Container :=
  if bool_decide (user <> "") then mkContainer (c_runtime c) user else c.

(** The process's own user and group. *)
Definition componentUser (uid gid : Z) : string :=
  if uid =? 0 then NobodyUser else Itoa uid +:+ ":" +:+ Itoa gid.

Definition New_ (uid gid : Z) (opts : list (Container -> Container)) : Container :=
  foldl (fun c opt => opt c) (mkContainer DefaultRuntime (componentUser uid gid)) opts.

Definition Args (c : Container) (spec : Spec) (name : string) : error + list string :=
  match validate spec with
  | Some err => inl err
  | None =>
      let limits := withDefaults (s_Limits spec) in
      inr ["run"; "--rm"; "--name"; name;
           "--network=none";
           "--read-only";
           "--tmpfs"; "/tmp:rw,noexec,nosuid,size=16m";
           "--volume"; SocketDir spec +:+ ":" +:+ containerSocketDir +:+ ":rw";
           "--cap-drop=ALL";
           "--security-opt=no-new-privileges";
           "--user"; c_user c;
           "--memory"; Itoa (MemoryMB limits) +:+ "m";
           "--memory-swap"; Itoa (MemoryMB limits) +:+ "m";
           "--cpus"; CPUs limits;
           "--pids-limit"; Itoa (PidsLimit limits);
           "--env"; "COMPONENT_SOCKET=" +:+ Join containerSocketDir (SocketName spec);
           Image spec]
  end.

Definition truncate (s : bytes) : bytes :=
  let s := TrimSpace s in
  if Z.of_nat (length s) <=? 2000 then s else take (Z.to_nat 2000) s ++ text "...".

(** *** Waiting for the socket *)

(** What ends one wait: the component's exit, the deadline or the ticker. *)
Inductive wake := Exited (err : option error) | CtxDone (err : error) | Tick.

(** One look at the path per wait; [None] while nothing has been seen yet. *)
Fixpoint awaitSocket (seen : list (bool * wake)) : option (option error) :=
  match seen with
  | [] => None
  | (bound, w) :: rest =>
      if bound then Some None
      else match w with
           | Exited (Some err) => Some (Some (Foreign "the component exited during startup: %w" (Some err)))
           | Exited None => Some (Some (Foreign "the component exited during startup" None))
           | CtxDone err => Some (Some err)
           | Tick => awaitSocket rest
           end
  end.

(** A running sandbox: the runtime and name it is removed by, and whether it was. *)
Record Handle := mkHandle { SocketPath : string; h_runtime : string; h_name : string; h_stopped : bool }.

Section host.
(** Starting the run and running a command to its end; what awaiting sees, and what the component
    had printed by then; the outcome of waiting for the process when the sandbox is torn down. *)
Context {X : Type} (Command_Start : string -> list string -> X -> option error * X)
  (Command_Run : string -> list string -> X -> X) (observed : duration -> string -> X -> list (bool * wake) * X)
  (output : X -> bytes) (exit_status : X -> option (option error)).

(** [Close]: the stop is run once, the wait each time; [None] from the wait is its ten seconds. *)
Definition Close (h : Handle) (x : X) : option error * Handle * X :=
  let x := if h_stopped h then x else Command_Run (h_runtime h) ["rm"; "-f"; h_name h] x in
  (match exit_status x with
   | Some err => err
   | None => Some (New CodeUnavailable "the sandbox did not exit")
   end, mkHandle (SocketPath h) (h_runtime h) (h_name h) true, x).

(** [name] is the fresh name; [None] while the component is still being waited for. *)
Definition Start (c : Container) (name : string) (spec : Spec) (x : X) : option (error + Handle) * X :=
  match Args c spec name with
  | inl err => (Some (inl err), x)
  | inr args =>
      let limits := withDefaults (s_Limits spec) in
      let '(started, x) := Command_Start (c_runtime c) args x in
      match started with
      | Some err => (Some (inl (GwError CodeUnavailable (Msg "starting %s" [AStr (c_runtime c)]) false (Some err))), x)
      | None =>
          let handle := mkHandle (Join (SocketDir spec) (SocketName spec)) (c_runtime c) name false in
          let '(seen, x) := observed (Timeout_ limits) (SocketPath handle) x in
          match awaitSocket seen with
          | None => (None, x)
          | Some None => (Some (inr handle), x)
          | Some (Some err) =>
              let '(_, _, x) := Close handle x in
              (Some (inl (GwError CodeUnavailable (Msg "the component never bound %s (output: %s)"
                 [AStr (SocketName spec); AStr (String.string_of_list_ascii (truncate (output x)))]) false (Some err))), x)
          end
      end
  end.
End host.

(** ** Facts *)

(** *** Reading a command line *)

(** The options of [run] that take their value from the next argument. *)
Definition value_flags : list string :=
  ["--name"; "--tmpfs"; "--volume"; "--user"; "--memory"; "--memory-swap"; "--cpus"; "--pids-limit"; "--env"].

Definition is_flag (arg : string) : bool := bool_decide (head (text arg) = Some "-"%char).

Record reading := mkReading { rd_options : list (string * string); rd_image : string; rd_command : list string }.
Definition with_option (o : string * string) (r : reading) : reading :=
  mkReading (o :: rd_options r) (rd_image r) (rd_command r).

(** An argument line as options before an image before a command: the first argument that is neither
    an option nor the value of one is the image.  Nothing is run without one. *)
Fixpoint read (args : list string) : option reading :=
  match args with
  | [] => None
  | arg :: rest =>
      if is_flag arg then
        if bool_decide (arg ∈ value_flags) then
          match rest with [] => None | v :: rest => with_option (arg, v) <$> read rest end
        else match cut "=" arg with
             | Some (flag, v) => with_option (flag, v) <$> read rest
             | None => with_option (arg, "") <$> read rest
             end
      else Some (mkReading [] arg rest)
  end.

(** Every value an option is given. *)
Definition given (flag : string) (r : reading) : list string := (filter (fun o => o.1 = flag) (rd_options r)).*2.

Definition pinned (image : string) : Prop :=
  exists repository hex, image = repository +:+ "sha256:" +:+ hex /\ String.length hex = 64%nat
    /\ Forall (fun c => is_lower_hex c = true) (text hex)
    /\ (repository = "" \/ exists name, repository = name +:+ "@" /\ name <> "").

(** What the runtime is told to keep from the component. *)
Record isolated (c : Container) (spec : Spec) (r : reading) : Prop := {
  no_network : given "--network" r = ["none"];
  read_only_root : given "--read-only" r = [""];
  no_capabilities : given "--cap-drop" r = ["ALL"];
  no_new_privileges : given "--security-opt" r = ["no-new-privileges"];
  as_user : given "--user" r = [c_user c];
  only_mount : given "--volume" r = [SocketDir spec +:+ ":/run/component:rw"];
  bounded_memory : exists mb, 0 < mb /\ given "--memory" r = [Itoa mb +:+ "m"] /\ given "--memory-swap" r = [Itoa mb +:+ "m"];
  bounded_processes : exists n, 0 < n /\ given "--pids-limit" r = [Itoa n];
  nothing_else : Forall (fun o => o.1 ∈ ["--rm"; "--name"; "--network"; "--read-only"; "--tmpfs"; "--volume"; "--cap-drop";
      "--security-opt"; "--user"; "--memory"; "--memory-swap"; "--cpus"; "--pids-limit"; "--env"]) (rd_options r) }.

Lemma string_app_assoc a b c : (a +:+ b) +:+ c = a +:+ (b +:+ c).
Proof. induction a as [|x a IH]; [done|]. change (String x ((a +:+ b) +:+ c) = String x (a +:+ (b +:+ c))). by rewrite IH. Qed.

Lemma digestRef_spec s : digestRef s = true ->
  exists hex, s = "sha256:" +:+ hex /\ String.length hex = 64%nat /\ Forall (fun c => is_lower_hex c = true) (text hex).
Proof.
  unfold digestRef. destruct (cut_prefix "sha256:" s) as [hex|] eqn:E; [|done]. intros [Hl Hh]%andb_prop.
  exists hex. split; [by apply cut_prefix_Some|]. split; [lia|]. apply Forall_forall. intros c Hc.
  eapply forallb_forall in Hh; [exact Hh|by apply list_elem_of_In].
Qed.

Lemma pinnedByDigest_spec image : pinnedByDigest image = true -> pinned image.
Proof.
  unfold pinnedByDigest. destruct (digestRef image) eqn:E.
  { intros _. apply digestRef_spec in E as (hex & -> & Hl & Hh). exists "", hex. eauto. }
  destruct (cut "@" image) as [[name digest]|] eqn:Ec; [|done]. intros [Hn Hd]%andb_prop.
  apply digestRef_spec in Hd as (hex & -> & Hl & Hh). apply cut_Some in Ec as [-> _].
  exists (name +:+ "@"), hex. split_and!; [|done|done|right; exists name; split; [done|]].
  - by rewrite string_app_assoc.
  - intros ->. by rewrite bool_decide_true in Hn.
Qed.

(** The last argument alone: an image is run, and something that looks like an option is not. *)
Lemma read_image image : read [image] = if is_flag image then None else Some (mkReading [] image []).
Proof.
  unfold read. destruct (is_flag image); [|done]. case_bool_decide; [done|]. by destruct (cut "=" image) as [[]|].
Qed.

(** The line [Args] writes, read back, whatever the values in it are. *)
Lemma read_line name volume user memory swap cpus pids env image :
  read ["--rm"; "--name"; name; "--network=none"; "--read-only"; "--tmpfs"; "/tmp:rw,noexec,nosuid,size=16m";
        "--volume"; volume; "--cap-drop=ALL"; "--security-opt=no-new-privileges"; "--user"; user; "--memory"; memory;
        "--memory-swap"; swap; "--cpus"; cpus; "--pids-limit"; pids; "--env"; env; image]
  = if is_flag image then None
    else Some (mkReading [("--rm", ""); ("--name", name); ("--network", "none"); ("--read-only", "");
           ("--tmpfs", "/tmp:rw,noexec,nosuid,size=16m"); ("--volume", volume); ("--cap-drop", "ALL");
           ("--security-opt", "no-new-privileges"); ("--user", user); ("--memory", memory); ("--memory-swap", swap);
           ("--cpus", cpus); ("--pids-limit", pids); ("--env", env)] image []).
Proof.
  pose proof (read_image image) as H. revert H. generalize (is_flag image). intros b H.
  change (read ["--rm"; "--name"; name; "--network=none"; "--read-only"; "--tmpfs"; "/tmp:rw,noexec,nosuid,size=16m";
        "--volume"; volume; "--cap-drop=ALL"; "--security-opt=no-new-privileges"; "--user"; user; "--memory"; memory;
        "--memory-swap"; swap; "--cpus"; cpus; "--pids-limit"; pids; "--env"; env; image])
    with (with_option ("--rm", "") <$> (with_option ("--name", name) <$> (with_option ("--network", "none") <$>
      (with_option ("--read-only", "") <$> (with_option ("--tmpfs", "/tmp:rw,noexec,nosuid,size=16m") <$>
      (with_option ("--volume", volume) <$> (with_option ("--cap-drop", "ALL") <$>
      (with_option ("--security-opt", "no-new-privileges") <$> (with_option ("--user", user) <$>
      (with_option ("--memory", memory) <$> (with_option ("--memory-swap", swap) <$> (with_option ("--cpus", cpus) <$>
      (with_option ("--pids-limit", pids) <$> (with_option ("--env", env) <$> read [image])))))))))))))).
  rewrite H. by destruct b.
Qed.

(** C19. Whatever is submitted for admission runs isolated or not at all.  For any specification the
    sandbox accepts, the argument line, read as options before an image, either names no image, so
    that nothing runs, or names exactly the submitted one, pinned to content by a SHA-256 digest,
    with no command of its own and under every isolation the sandbox promises, each given once:
    no network, a read-only root, no capabilities, no new privileges, the chosen user, one mount,
    the same bound on memory with and without swap, a bound on processes, and no other option.  No
    value taken from the specification can be read as an option. *)
Theorem accepted_components_run_isolated c spec name args :
  Args c spec name = inr args ->
  exists line, args = "run" :: line
    /\ if is_flag (Image spec) then read line = None
       else exists r, read line = Some r /\ isolated c spec r /\ rd_image r = Image spec /\ pinned (Image spec) /\ rd_command r = [].
Proof.
  unfold Args. destruct (validate spec) eqn:Ev; [done|]. intros [= <-]. eexists. split; [reflexivity|].
  rewrite read_line. destruct (is_flag (Image spec)); [reflexivity|]. eexists. split; [reflexivity|].
  assert (Hl : 0 < MemoryMB (withDefaults (s_Limits spec)) /\ 0 < PidsLimit (withDefaults (s_Limits spec))).
  { cbn. unfold DefaultMemoryMB, DefaultPidsLimit. split; destruct (Z.leb_spec0 (MemoryMB (s_Limits spec)) 0),
      (Z.leb_spec0 (PidsLimit (s_Limits spec)) 0); lia. }
  split_and!; [|reflexivity| |reflexivity].
  - constructor; try reflexivity; [exists (MemoryMB (withDefaults (s_Limits spec)))|exists (PidsLimit (withDefaults (s_Limits spec)))|].
    + split_and!; [apply Hl|reflexivity..].
    + split; [apply Hl|reflexivity].
    + apply (bool_decide_unpack _). vm_compute. exact I.
  - apply pinnedByDigest_spec. unfold validate in Ev. case_bool_decide; [done|]. by destruct (pinnedByDigest (Image spec)).
Qed.

Definition demo_digest : string := "sha256:0123456789abcdef0123456789abcdef0123456789abcdef0123456789abcdef".
Definition demo_limits : Limits := mkLimits 0 "" 0 0.
Definition demo_spec (image name : string) : Spec := mkSpec image "/tmp/gwadm1" name demo_limits.
Definition demo_container : Container := New_ 1000 1000 [].

Lemma accepted_components_run_isolated_witness :
  exists r, isolated demo_container (demo_spec ("ghcr.io/acme/guard@" +:+ demo_digest) "component.sock") r
    /\ pinned ("ghcr.io/acme/guard@" +:+ demo_digest).
Proof.
  destruct (Args demo_container (demo_spec ("ghcr.io/acme/guard@" +:+ demo_digest) "component.sock") "gw-admission-1")
    as [err|args] eqn:E; [vm_compute in E; discriminate|].
  destruct (accepted_components_run_isolated demo_container (demo_spec ("ghcr.io/acme/guard@" +:+ demo_digest) "component.sock")
    "gw-admission-1" args E) as (line & _ & r & _ & H & _ & Hp & _).
  exists r. split; [exact H|exact Hp].
Defined.

(** Unless it is told otherwise, the sandbox never runs a component as the superuser. *)
Lemma default_user_is_not_root uid gid : 0 <= uid ->
  exists u g, c_user (New_ uid gid []) = Itoa u +:+ ":" +:+ Itoa g /\ u <> 0.
Proof.
  intros H. cbn. unfold componentUser. destruct (Z.eqb_spec uid 0); [exists 65534, 65534; by vm_compute|by exists uid, gid].
Qed.

(** A component that was started and never bound its socket is removed before the error is returned;
    a failure without a removal is one that started nothing. *)
Lemma failed_start_leaves_nothing {X} Command_Start (Command_Run : string -> list string -> X -> X) observed output exit_status
    c name spec x err x' :
  Start Command_Start Command_Run observed output exit_status c name spec x = (Some (inl err), x') ->
  (exists x1, x' = Command_Run (c_runtime c) ["rm"; "-f"; name] x1)
  \/ Args c spec name = inl err
  \/ exists args e, Args c spec name = inr args /\ Command_Start (c_runtime c) args x = (Some e, x').
Proof.
  unfold Start. destruct (Args c spec name) as [e|args]; [intros [= <- <-]; eauto|].
  destruct (Command_Start (c_runtime c) args x) as [[e|] x1] eqn:Es; [intros [= _ <-]; eauto 6|].
  destruct (observed _ _ x1) as [seen x2]. destruct (awaitSocket seen) as [[e|]|]; intros [= _ <-]; eauto.
Qed.

(** Closing twice removes the container once. *)
Lemma Close_stops_once {X} (Command_Run : string -> list string -> X -> X) exit_status h x e h' x' :
  Close Command_Run exit_status h x = (e, h', x') -> (Close Command_Run exit_status h' x').2 = x'.
Proof. intros [= _ <- <-]. done. Qed.

(** Waiting ends as soon as the socket is there, the component has exited or the deadline passed. *)
Lemma awaitSocket_returns seen :
  (exists o, o ∈ seen /\ (o.1 = true \/ o.2 <> Tick)) -> is_Some (awaitSocket seen).
Proof.
  intros (o & Ho & H). induction seen as [|[bound w] seen IH]; [by apply not_elem_of_nil in Ho|]. cbn.
  destruct bound; [done|]. destruct w as [[]| |]; try done. apply IH. apply elem_of_cons in Ho as [->|Ho]; [|done].
  by destruct H.
Qed.

(** A name that climbs out of the directory is not a path with a separator, so it is accepted; the
    component is then told to bind the directory above. *)
Lemma parent_directory_passes_as_a_file_name :
  validate (demo_spec demo_digest "..") = None /\ Join containerSocketDir ".." = "/run".
Proof. split; vm_compute; reflexivity. Qed.
