(* ===== verification/Admission.v ===== *)
(** * Admission (admission/admission.go, admission/report.go)

    A runner runs the guardrail suite against a component and reports a verdict.  A sidecar runs in
    a sandbox and is reached over its socket; an in-process component is loaded by its digest and
    called through the WebAssembly runtime.  The host's directories, the sandbox, the HTTP clients,
    the engine, SHA-256 and the file system are arguments, with what they do in the state [X].  The
    evidence of a verdict is kept as the cases it renders, without their durations. *)
From S2P Require Import Prelude Errors Core Strconv Text Json Base64 Format Codec Adapters Sidecars Modules Contracts ContractsFacts Sandbox.
From Stdlib Require Import ZArith Lia Ascii.
From stdpp Require Import base gmap strings list.
Open Scope Z_scope.
Open Scope gw_scope.

(** ** Data *)

Definition SuiteVersion : string := "1".
Definition ExecutionSidecar : string := "sidecar".
Definition callTimeout : duration := 10 * Second.
Definition readyTimeout : duration := 5 * Second.

Record Manifest := mkManifest {
  mf_Name : string; mf_Version : string; mf_Port : string; mf_Digest : string; mf_Image : string;
  mf_Module : string; mf_Execution : string; mf_LatencyBudgetMS : Z }.

Inductive evidence := Battery (cases : Report) | Note (m : message).

Record AdmissionVerdict := mkVerdict {
  v_Suite : string; v_SuiteVersion : string; v_ManifestDigest : string; v_Passed : bool; v_Runner : string;
  v_EvidenceRef : string; v_Report : evidence }.

Record Fixtures := mkFixtures { fx_Trigger : option bytes; fx_Benign : bytes }.

Section runner.
Context {X : Type}.

(** [sandbox.Runner] and the handle it returns; a nil one is [None]. *)
Record Box := mkBox { Box_Start : Spec -> X -> (error + string) * X; Box_Close : string -> X -> X }.

Record Runner := mkRunner {
  rn_sandbox : option Box; rn_modules : option string; rn_name : string; rn_limits : Sandbox.Limits }.

Definition WithLimits (l : Sandbox.Limits) (r : Runner) : Runner := mkRunner (rn_sandbox r) (rn_modules r) (rn_name r) l.
Definition WithModules (store : string) (r : Runner) : Runner := mkRunner (rn_sandbox r) (Some store) (rn_name r) (rn_limits r).
Definition WithSandbox (box : Box) (r : Runner) : Runner := mkRunner (Some box) (rn_modules r) (rn_name r) (rn_limits r).

Definition NewRunner (name : string) (opts : list (Runner -> Runner)) : error + Runner :=
  if bool_decide (name = "") then
    inl (New CodeInvalidRequest "a runner must be named, so an admission says what produced it")
  else
    let runner := foldl (fun r opt => opt r) (mkRunner None None name (Sandbox.mkLimits 0 "" 0 0)) opts in
    match rn_sandbox runner, rn_modules runner with
    | None, None => inl (New CodeInvalidRequest "a runner needs a sandbox, a module store, or both; with neither it can admit nothing")
    | _, _ => inr runner
    end.

Definition verdictFor (r : Runner) (m : Manifest) (passed : bool) (note : evidence) : AdmissionVerdict :=
  mkVerdict (mf_Port m) SuiteVersion (mf_Digest m) passed (rn_name r) "" note.
Definition verdictFrom (r : Runner) (m : Manifest) (report : Report) : AdmissionVerdict :=
  verdictFor r m (Report_Passed report) (Battery report).

(** *** The suite on a component *)

(** The factory answers the one target each time, fixtures and all; a component that is sent its
    input cannot write through their slices. *)
Definition battery (port : GuardrailPort X) (fixtures : Fixtures) (x : X) : ending unit * Recorder X * X :=
  RunGuardrailSuite (ret (mkTarget port (fx_Trigger fixtures) (fx_Benign fixtures))) (fun _ x => x) NewRecorder x.

(** How the runner ends: with a result, or, when a case's goroutine panics where nothing recovers, with
    the process. *)
Definition run_ending : Type := ending (error + AdmissionVerdict).

Definition judge (r : Runner) (m : Manifest) (port : GuardrailPort X) (fixtures : Fixtures) (x : X) : run_ending * X :=
  let '(e, recorder, x) := battery port fixtures x in
  match e with
  | Done _ =>
      let verdict := verdictFrom r m (r_report recorder) in
      (Done (inr verdict), (Finish recorder x).2)
  | Exit => (Exit, x)
  | Panics v => (Panics v, x)
  | Hangs => (Hangs, x)
  | Crashes => (Crashes, x)
  end.

(** What is deferred is done when the function ends, and not when the process does. *)
Definition deferring (cleanup : X -> X) (r : run_ending * X) : run_ending * X :=
  let '(e, x) := r in
  match e with Hangs | Crashes => (e, x) | _ => (e, cleanup x) end.

Definition nil_dereference : string := "runtime error: invalid memory address or nil pointer dereference".

Definition answers (isnil : bool) (inp : GuardrailInput) (r : (error + GuardrailResult) * X) : reply * X :=
  let '(r, x) := r in
  (Answers (match r with inl e => inl e | inr res => inr (Some res) end) (in_Payload inp), x).

(** A sidecar as the suite sees it; the client is the one dialling its socket, under a context. *)
Definition sidecar_port (client : ctx -> guardrailsidecar.Guardrail -> Client X) (g : guardrailsidecar.Guardrail) : GuardrailPort X :=
  mkPort (guardrailsidecar.g_name g)
    (fun c isnil inp x => answers isnil inp (guardrailsidecar.Inspect_with (client c g) (request_for isnil inp) x)).

(** *** An in-process component *)
Context {C I : Type} `{!Engine C I X} (isPrint : Z -> bool) (sha256 : bytes -> bytes) (fs : Files)
  (NewRuntime : X -> option error * X) (Runtime_Close : X -> X) (ctxErr : ctx -> X -> option error).

Definition module_port (g : wasmguardrail.Guardrail (Module_ C)) : GuardrailPort X :=
  mkPort (wasmguardrail.g_name g)
    (fun c isnil inp x =>
       match wasmguardrail.Inspect_with (fun m input x => Call (ctxErr c x) m input x) g (request_for isnil inp) x with
       | (Some r, x) => answers isnil inp (r, x)
       | (None, x) => (Panicked nil_dereference, x)
       end).

Definition runInProcess (r : Runner) (m : Manifest) (fixtures : Fixtures) (x : X)
    : run_ending * X :=
  match rn_modules r with
  | None => (Done (inl (New CodeInvalidRequest "this runner has no module store, so it cannot admit an in-process component")), x)
  | Some dir =>
      match Load sha256 fs dir (mf_Module m) with
      | inl err => (Done (inl err), x)
      | inr wasm =>
          let '(failed, x) := NewRuntime x in
          match failed with
          | Some err => (Done (inl err), x)
          | None =>
              deferring Runtime_Close
                match Compile isPrint (Modules.withDefaults (Modules.mkLimits 0 0 0)) (mf_Name m) wasm with
                | inl err =>
                    (Done (inr (verdictFor r m false (Note (Msg "the module does not compile or does not implement the ABI: %v"
                       [AStr (String.string_of_list_ascii (Error_Error isPrint err))])))), x)
                | inr module =>
                    match wasmguardrail.New_ (mf_Name m) (Some module) with
                    | inl err => (Done (inl err), x)
                    | inr g => judge r m (module_port g) fixtures x
                    end
                end
          end
      end
  end.

(** *** The whole run *)
Context (MkdirTemp : X -> (error + string) * X) (Chmod : string -> X -> option error * X) (RemoveAll : string -> X -> X)
  (client : ctx -> guardrailsidecar.Guardrail -> Client X) (ready : guardrailsidecar.Guardrail -> duration -> Client X).

(** What [Run] does once it has a sandbox and a directory to put the socket in. *)
Definition run_sandboxed (r : Runner) (box : Box) (m : Manifest) (fixtures : Fixtures) (socketDir : string) (x : X)
    : run_ending * X :=
  let '(chmodErr, x) := Chmod socketDir x in
  match chmodErr with
  | Some err => (Done (inl (GwError CodeInternal (Msg "preparing the socket directory" []) false (Some err))), x)
  | None =>
      let '(started, x) := Box_Start box (mkSpec (mf_Image m) socketDir "component.sock" (rn_limits r)) x in
      match started with
      | inl err => (Done (inl err), x)
      | inr socketPath =>
          deferring (Box_Close box socketPath)
            match guardrailsidecar.New_ (mf_Name m) socketPath [guardrailsidecar.WithTimeout callTimeout] with
            | inl err => (Done (inl err), x)
            | inr g =>
                let '(unreachable, x) := guardrailsidecar.Ping (ready g readyTimeout) x in
                match unreachable with
                | Some err => (Done (inl (GwError CodeUnavailable (Msg "the component bound %s but does not answer on it"
                                            [AStr socketPath]) false (Some err))), x)
                | None => judge r m (sidecar_port client g) fixtures x
                end
            end
      end
  end.

Definition Runner_Run (r : Runner) (m : Manifest) (fixtures : Fixtures) (x : X) : run_ending * X :=
  if bool_decide (mf_Digest m = "") then
    (Done (inl (New CodeInvalidRequest "a manifest digest is required; a verdict must say which bytes it examined")), x)
  else if negb (bool_decide (mf_Port m = "guardrail")) then
    (Done (inl (Newf CodeInvalidRequest "no sandboxed suite for the %s port yet" [AStr (mf_Port m)])), x)
  else if bool_decide (fx_Benign fixtures = []) then
    (Done (inl (New CodeInvalidRequest "a benign fixture is required; without it a guardrail that denies everything passes every assertion about denying")), x)
  else if bool_decide (mf_Execution m = ExecutionInProcess) then runInProcess r m fixtures x
  else if bool_decide (mf_Execution m = ExecutionSidecar) || bool_decide (mf_Execution m = "") then
    match rn_sandbox r with
    | None => (Done (inl (New CodeInvalidRequest "this runner has no sandbox, so it cannot admit a sidecar component")), x)
    | Some box =>
        let '(dir, x) := MkdirTemp x in
        match dir with
        | inl err => (Done (inl (GwError CodeInternal (Msg "creating the socket directory" []) false (Some err))), x)
        | inr socketDir =>
            deferring (RemoveAll socketDir) (run_sandboxed r box m fixtures socketDir x)
        end
    end
  else (Done (inl (Newf CodeInvalidRequest "this runner cannot execute a %s component" [AStr (mf_Execution m)])), x).
End runner.
Arguments Box : clear implicits.
Arguments Runner : clear implicits.

(** ** Talking to the control plane (report.go) *)

(** [url.PathEscape]: a segment's bytes that are not its own. *)
Definition upper_hex (n : Z) : ascii := zb (if n <? 10 then 48 + n else 55 + n).
Definition path_byte (c : ascii) : bool :=
  within 97 (bz c) 122 || within 65 (bz c) 90 || within 48 (bz c) 57
  || existsb (fun d => bool_decide (c = d)) ["-"; "_"; "."; "~"; "$"; "&"; "+"; "="; ":"; "@"]%char.
Definition PathEscape (s : string) : bytes :=
  text s ≫= (fun c => if path_byte c then [c] else ["%"%char; upper_hex (bz c / 16); upper_hex (bz c mod 16)]).

(** The control plane's address: what comes before the path, and the path, as they were parsed. *)
Record ControlPlane (X : Type) := mkControlPlane {
  cp_origin : string; cp_path : string; cp_token : string; cp_client : Client X }.
Arguments cp_origin {X}.
Arguments cp_path {X}.
Arguments cp_token {X}.
Arguments cp_client {X}.

Definition DefaultClientTimeout : duration := 30 * Second.

(** [parse] and [http] are the parser of addresses and the client a timeout is given to. *)
Definition NewClient {X} (parse : string -> error + (string * string)) (http : duration -> Client X)
    (baseURL token : string) (timeout : duration) : error + ControlPlane X :=
  if bool_decide (baseURL = "") then inl (New CodeInvalidRequest "a control-plane URL is required")
  else match parse baseURL with
       | inl err => inl (GwError CodeInvalidRequest (Msg "parsing the control-plane URL" []) false (Some err))
       | inr (origin, path) => inr (mkControlPlane X origin path token (http (if timeout <=? 0 then DefaultClientTimeout else timeout)))
       end.

Section client.
Context {X : Type} (c : ControlPlane X).

(** [JoinPath] joins and cleans the elements. *)
Definition path (segments : list string) : string :=
  cp_origin c +:+ Clean ("/" +:+ cp_path c +:+ "/" +:+ String.string_of_list_ascii (join_with "/" (PathEscape <$> segments))).

Definition codeFor (status : Z) : Code := if status <? 500 then CodeInvalidRequest else CodeUnavailable.

(** [do]: what was decoded, when something was to be. *)
Definition do_ {A} (method target : string) (body : option json) (out : option (decoder A * A)) (x : X)
    : (error + option A) * X :=
  match badURL (cp_client c) target with
  | Some err => (inl (GwError CodeInternal (Msg "building the request" []) false (Some err)), x)
  | None =>
      let header : gmap string (list ascii) :=
        (if bool_decide (cp_token c <> "") then <["Authorization" := text ("Bearer " +:+ cp_token c)]> else id)
          (match body with Some _ => {[ "Content-Type" := text "application/json" ]} | None => ∅ end) in
      let '(r, x) := Do (cp_client c) (mkHttpRequest method target header (from_option print [] body)) x in
      (match r with
       | inl err => inl (GwError CodeUnavailable (Msg "calling the control plane" []) false (Some err))
       | inr resp =>
           if 400 <=? hp_StatusCode resp
           then inl (Newf (codeFor (hp_StatusCode resp)) "the control plane reported %d: %s"
                       [AInt (hp_StatusCode resp);
                        AStr (String.string_of_list_ascii (TrimSpace (take (Z.to_nat 4096) (hp_Body resp))))])
           else match out with
                | None => inr None
                | Some (dec, zero) =>
                    let '(bytes, readErr) := limited (Z.to_nat (Z.shiftl 1 20)) (hp_Body resp)
                                               (bool_decide (hp_ReadError resp <> None)) in
                    match DecodeValue dec zero readErr bytes with
                    | None => inl (GwError CodeUnavailable (Msg "decoding the control-plane response" []) false
                                     (Some (Foreign "encoding/json" None)))
                    | Some a => inr (Some a)
                    end
                end
       end, x)
  end.

Definition no_manifest : Manifest := mkManifest "" "" "" "" "" "" "" 0.
(** A string field of a manifest. *)
Definition string_field (get : Manifest -> string) (set : string -> Manifest -> Manifest) : decoder Manifest :=
  at_field (fun m => text (get m)) (fun v => set (String.string_of_list_ascii v)) dec_string.
Definition dec_manifest : decoder Manifest :=
  dec_struct
    [(text "name", string_field mf_Name (fun v m => mkManifest v (mf_Version m) (mf_Port m) (mf_Digest m) (mf_Image m) (mf_Module m) (mf_Execution m) (mf_LatencyBudgetMS m)));
     (text "version", string_field mf_Version (fun v m => mkManifest (mf_Name m) v (mf_Port m) (mf_Digest m) (mf_Image m) (mf_Module m) (mf_Execution m) (mf_LatencyBudgetMS m)));
     (text "port", string_field mf_Port (fun v m => mkManifest (mf_Name m) (mf_Version m) v (mf_Digest m) (mf_Image m) (mf_Module m) (mf_Execution m) (mf_LatencyBudgetMS m)));
     (text "digest", string_field mf_Digest (fun v m => mkManifest (mf_Name m) (mf_Version m) (mf_Port m) v (mf_Image m) (mf_Module m) (mf_Execution m) (mf_LatencyBudgetMS m)));
     (text "image", string_field mf_Image (fun v m => mkManifest (mf_Name m) (mf_Version m) (mf_Port m) (mf_Digest m) v (mf_Module m) (mf_Execution m) (mf_LatencyBudgetMS m)));
     (text "module", string_field mf_Module (fun v m => mkManifest (mf_Name m) (mf_Version m) (mf_Port m) (mf_Digest m) (mf_Image m) v (mf_Execution m) (mf_LatencyBudgetMS m)));
     (text "execution", string_field mf_Execution (fun v m => mkManifest (mf_Name m) (mf_Version m) (mf_Port m) (mf_Digest m) (mf_Image m) (mf_Module m) v (mf_LatencyBudgetMS m)));
     (text "latency_budget_ms", at_field mf_LatencyBudgetMS (fun v m => mkManifest (mf_Name m) (mf_Version m) (mf_Port m) (mf_Digest m) (mf_Image m) (mf_Module m) (mf_Execution m) v) dec_int64)].

Definition marshal_verdict (v : AdmissionVerdict) : json :=
  JObj [(text "suite", MarshalString (text (v_Suite v))); (text "suite_version", MarshalString (text (v_SuiteVersion v)));
        (text "manifest_digest", MarshalString (text (v_ManifestDigest v))); (text "passed", JBool (v_Passed v));
        (text "runner", MarshalString (text (v_Runner v))); (text "evidence_ref", MarshalString (text (v_EvidenceRef v)))].

Definition Client_Manifest (name version : string) (x : X) : (error + Manifest) * X :=
  let '(r, x) := do_ "GET" (path ["v1"; "components"; name; version]) None (Some (dec_manifest, no_manifest)) x in
  (match r with inl err => inl err | inr m => inr (default no_manifest m) end, x).

Definition Client_Report (name version : string) (v : AdmissionVerdict) (x : X) : option error * X :=
  let '(r, x) := do_ (A := unit) "POST" (path ["v1"; "components"; name; version; "admissions"]) (Some (marshal_verdict v)) None x in
  (match r with inl err => Some err | inr _ => None end, x).
End client.

(** ** Facts *)

Section facts.
Context {X C I : Type} `{!Engine C I X} (isPrint : Z -> bool) (sha256 : bytes -> bytes) (fs : Files)
  (NewRuntime : X -> option error * X) (Runtime_Close : X -> X) (ctxErr : ctx -> X -> option error)
  (MkdirTemp : X -> (error + string) * X) (Chmod : string -> X -> option error * X) (RemoveAll : string -> X -> X)
  (client : ctx -> guardrailsidecar.Guardrail -> Client X) (ready : guardrailsidecar.Guardrail -> duration -> Client X).

#[local] Abbreviation run := (Runner_Run isPrint sha256 fs NewRuntime Runtime_Close ctxErr MkdirTemp Chmod RemoveAll client ready).

(** The component a suite was run against, from the state [x] the run began in, and the state the suite
    began in: the module compiled from the bytes the manifest's digest names, or what answers on the
    socket of a sandbox started with the manifest's image. *)
Definition compiled_from (r : Runner X) (m : Manifest) (module : Module_ C) : Prop :=
  mf_Execution m = ExecutionInProcess
  /\ exists dir wasm, rn_modules r = Some dir /\ Load sha256 fs dir (mf_Module m) = inr wasm
     /\ admitted sha256 (mf_Module m) wasm
     /\ Compile isPrint (Modules.withDefaults (Modules.mkLimits 0 0 0)) (mf_Name m) wasm = inr module.
Definition sandboxed_from (r : Runner X) (m : Manifest) (x : X) (g : guardrailsidecar.Guardrail) (x0 : X) : Prop :=
  (mf_Execution m = ExecutionSidecar \/ mf_Execution m = "")
  /\ exists box dir socket x1 x2 x3, rn_sandbox r = Some box /\ MkdirTemp x = (inr dir, x1) /\ Chmod dir x1 = (None, x2)
     /\ Box_Start box (mkSpec (mf_Image m) dir "component.sock" (rn_limits r)) x2 = (inr socket, x3)
     /\ guardrailsidecar.g_name g = mf_Name m /\ guardrailsidecar.g_socket g = socket
     /\ guardrailsidecar.Ping (ready g readyTimeout) x3 = (None, x0).
Definition examined (r : Runner X) (m : Manifest) (x : X) (port : GuardrailPort X) (x0 : X) : Prop :=
  (exists module, compiled_from r m module /\ NewRuntime x = (None, x0)
     /\ port = module_port ctxErr (wasmguardrail.mkWasm module (mf_Name m)))
  \/ (exists g, sandboxed_from r m x g x0 /\ port = sidecar_port client g).

(** What may be said of a verdict. *)
Definition vouches (r : Runner X) (m : Manifest) (fixtures : Fixtures) (x : X) (v : AdmissionVerdict) : Prop :=
  v_Suite v = mf_Port m /\ v_SuiteVersion v = SuiteVersion /\ v_ManifestDigest v = mf_Digest m /\ v_Runner v = rn_name r
  /\ (v_Passed v = true ->
      exists port x0 x1 report, examined r m x port x0
        /\ battery port fixtures x0 = (Done tt, mkRecorder "" report None [], x1)
        /\ v_Report v = Battery report /\ length report = 9%nat /\ Forall (fun c => c_Failures c = []) report).

(** An in-process component whose module has no memory where the host goes to it: called with the
    benign fixture under the deadline, it makes the host panic. *)
Definition crashed (r : Runner X) (m : Manifest) (fixtures : Fixtures) : Prop :=
  exists module x0 x1, compiled_from r m module
    /\ memoryless module (print (marshal_request (request_for false (input (fx_Benign fixtures))))) x0 x1.

(** A run that comes back, with an error or with a verdict that can be vouched for, or one the
    component has ended. *)
Definition settled r m fixtures x (o : run_ending) : Prop :=
  match o with
  | Done (inl _) => True
  | Done (inr v) => vouches r m fixtures x v
  | Crashes => crashed r m fixtures
  | _ => False
  end.

Lemma deferring_ending (cleanup : X -> X) o : (deferring cleanup o).1 = o.1.
Proof. destruct o as [[] x]; done. Qed.

Lemma module_port_returns g c n inp y : (gp_Inspect (module_port ctxErr g) c n inp y).1 <> Silent.
Proof. cbn. by destruct (wasmguardrail.Inspect_with _ _ _ _) as [[]]. Qed.

Lemma module_port_panics g c n inp y v :
  (gp_Inspect (module_port ctxErr g) c n inp y).1 = Panicked v ->
  exists y', memoryless (wasmguardrail.g_module g) (print (marshal_request (request_for n inp))) y y'.
Proof.
  cbn. unfold wasmguardrail.Inspect_with. destruct (Call _ _ _ y) as [[r|] y'] eqn:E; [done|]. intros _. exists y'.
  exact (call_ending _ _ _ _ _ _ E).
Qed.

Lemma judge_settled r m port fixtures x x0 :
  examined r m x port x0 -> (forall c n inp y, (gp_Inspect port c n inp y).1 <> Silent) ->
  (forall v y, (gp_Inspect port CtxDeadline false (input (fx_Benign fixtures)) y).1 = Panicked v -> crashed r m fixtures) ->
  settled r m fixtures x (judge r m port fixtures x0).1.
Proof.
  intros He Hr Hc. destruct (guardrail_suite_ends _ port (fx_Trigger fixtures) (fx_Benign fixtures) (fun _ y => y) Hr Hc x0)
    as (e & rec & x' & E & H). unfold judge, battery. rewrite E.
  destruct H as [(-> & report & -> & HL)|[-> H]]; [|exact H]. cbn. split_and!; [done..|]. cbn. intros HP.
  exists port, x0, x', report. split_and!; [done|done|done|done|].
  unfold Report_Passed in HP. apply andb_prop in HP as [_ HP]. apply Forall_forall. intros c Hin.
  eapply forallb_forall in HP; [|by apply list_elem_of_In]. by apply bool_decide_eq_true in HP.
Qed.

Lemma runInProcess_settled r m fixtures x : mf_Execution m = ExecutionInProcess ->
  settled r m fixtures x (runInProcess isPrint sha256 fs NewRuntime Runtime_Close ctxErr r m fixtures x).1.
Proof.
  intros Hm. unfold runInProcess. destruct (rn_modules r) as [dir|] eqn:ED; [|done].
  destruct (Load sha256 fs dir (mf_Module m)) as [e|wasm] eqn:EL; [done|].
  destruct (NewRuntime x) as [[e|] x1] eqn:ER; [done|]. rewrite deferring_ending.
  destruct (Compile isPrint _ (mf_Name m) wasm) as [e|module] eqn:EC; [by split_and!|].
  destruct (wasmguardrail.New_ (mf_Name m) (Some module)) as [e|g] eqn:EG; [done|]. apply New_inv in EG as ->.
  assert (Hfrom : compiled_from r m module).
  { split; [done|]. exists dir, wasm. split_and!; [done|done|by eapply Load_admitted|done]. }
  apply judge_settled.
  - left. by exists module.
  - intros. apply module_port_returns.
  - intros v y Hp. apply module_port_panics in Hp as [y' Hp]. by exists module, y, y'.
Qed.

Lemma sidecar_port_answers g c n inp y : exists a b y', gp_Inspect (sidecar_port client g) c n inp y = (Answers a b, y').
Proof. cbn. unfold answers. destruct (guardrailsidecar.Inspect_with _ _ _) as [res y']. by eexists _, _, _. Qed.

Lemma run_sandboxed_settled r box m fixtures dir x x1 :
  rn_sandbox r = Some box -> mf_Execution m = ExecutionSidecar \/ mf_Execution m = "" -> MkdirTemp x = (inr dir, x1) ->
  settled r m fixtures x (run_sandboxed Chmod client ready r box m fixtures dir x1).1.
Proof.
  intros Hb Hm Hd. unfold run_sandboxed. destruct (Chmod dir x1) as [[e|] x2] eqn:EC; [done|].
  destruct (Box_Start box _ x2) as [[e|socket] x3] eqn:ES; [done|]. rewrite deferring_ending.
  destruct (guardrailsidecar.New_ (mf_Name m) socket _) as [e|g] eqn:EG; [done|].
  destruct (guardrailsidecar.Ping (ready g readyTimeout) x3) as [[e|] x4] eqn:EP; [done|].
  apply judge_settled.
  - right. exists g. split; [|done]. split; [done|]. exists box, dir, socket, x1, x2, x3. revert EG. unfold guardrailsidecar.New_.
    case_bool_decide; [done|]. case_bool_decide; [done|]. cbn. intros [= <-]. split_and!; done.
  - intros c n inp y. by destruct (sidecar_port_answers g c n inp y) as (a & b & y' & ->).
  - intros v y. by destruct (sidecar_port_answers g CtxDeadline false (input (fx_Benign fixtures)) y) as (a & b & y' & ->).
Qed.

(** How a run ends. *)
Lemma Runner_Run_settles r m fixtures x :
  settled r m fixtures x (run r m fixtures x).1
  /\ match (run r m fixtures x).1 with
     | Done (inr v) => v_Suite v = "guardrail" /\ mf_Digest m <> "" /\ fx_Benign fixtures <> []
     | _ => True
     end.
Proof.
  unfold Runner_Run. case_bool_decide as Hd; [done|]. case_bool_decide as Hp; [|done]. cbn [negb].
  case_bool_decide as Hb; [done|].
  assert (Hok : forall o, settled r m fixtures x o -> settled r m fixtures x o /\ match o with
     | Done (inr v) => v_Suite v = "guardrail" /\ mf_Digest m <> "" /\ fx_Benign fixtures <> []
     | _ => True
     end).
  { intros o H. split; [done|]. destruct o as [[e|v]| | | |]; try done. destruct H as (-> & _). done. }
  case_bool_decide as He; [by apply Hok, runInProcess_settled|].
  destruct (bool_decide (mf_Execution m = ExecutionSidecar) || bool_decide (mf_Execution m = "")) eqn:Es; [|done].
  destruct (rn_sandbox r) as [box|] eqn:Ebox; [|done]. destruct (MkdirTemp x) as [[e|dir] x1] eqn:ED; [done|].
  rewrite deferring_ending. apply Hok, (run_sandboxed_settled r box); [done| |done].
  apply orb_prop in Es as [E|E]; apply bool_decide_eq_true in E; eauto.
Qed.

(** C18. An admission comes to an end and says only what was examined.  Whatever the component does,
    the runner returns an error or a verdict, with one exception: an in-process component whose
    module has no memory where the host goes to it makes the host panic, and under the deadline
    that panic ends the process, with no verdict.  A verdict names the guardrail suite, its version,
    the non-empty digest of the manifest it was asked about and the runner.  If it says passed, all
    nine cases of the suite were run with a benign payload that is not empty, none failed, and what
    they were run against is the component the manifest describes: for an in-process one the module
    compiled from the bytes the runner loaded, which hash to the manifest's module digest; for a
    sidecar the process that answered its ping on the socket of the sandbox this run started, with
    the manifest's image under the runner's limits.  A component that could not be examined never
    passes. *)
Theorem verdicts_vouch_for_what_was_examined r m fixtures x :
  match (run r m fixtures x).1 with
  | Done (inl _) => True
  | Done (inr v) => v_Suite v = "guardrail" /\ mf_Digest m <> "" /\ fx_Benign fixtures <> [] /\ vouches r m fixtures x v
  | Crashes => crashed r m fixtures
  | _ => False
  end.
Proof.
  destruct (Runner_Run_settles r m fixtures x) as [Hs H]. destruct (run r m fixtures x).1 as [[e|v]| | | |]; try done.
  destruct H as (? & ? & ?). by split_and!.
Qed.

(** Two modules a digest vouches for hash to the same. *)
Lemma admitted_same digest w w' : admitted sha256 digest w -> admitted sha256 digest w' -> sha256 w = sha256 w'.
Proof.
  intros (hex & Hp & Hh) (hex' & Hp' & Hh'). rewrite Hp in Hp'. injection Hp' as <-. apply hexEncode_inj. congruence.
Qed.

(** The same bytes compile to the same code, under whatever name and limits. *)
Lemma Compile_same limits limits' name name' wasm m m' :
  Compile isPrint limits name wasm = inr m -> Compile isPrint limits' name' wasm = inr m' ->
  m_compiled m = m_compiled m' /\ needsWASI m = needsWASI m'.
Proof.
  unfold Compile. repeat (case_bool_decide; [done|]). destruct (CompileModule wasm) as [e|c]; [done|].
  destruct (missing_exports _); [|done]. by intros [= <-] [= <-].
Qed.

(** C17. What runs is what passed.  If a runner passed an in-process component, and the snapshots a
    worker has applied bind a name to no other module than that manifest's, then whatever the
    worker's registry hands out under the name, however its updates overlapped, is compiled from
    bytes with the SHA-256 of the bytes the runner loaded, compiled and ran the suite on: they are
    the same bytes, and then the code that runs is the code that passed, unless two different
    modules have the same SHA-256.  The runner and the worker need not share a file system. *)
Theorem what_runs_is_what_passed r m fixtures x v x' limits fs' dir bound s name g :
  run r m fixtures x = (Done (inr v), x') -> v_Passed v = true -> mf_Execution m = ExecutionInProcess ->
  rreachable isPrint sha256 limits fs' dir bound s -> Guardrail (rs_registry s) name = Some g ->
  (forall b, bound b -> bind_Component b = name -> bind_Module b = mf_Module m) ->
  let running := p_module (wasmguardrail.g_module g) in
  exists store passed module x0 x1 report running_bytes other,
    rn_modules r = Some store /\ Load sha256 fs store (mf_Module m) = inr passed
    /\ Compile isPrint (Modules.withDefaults (Modules.mkLimits 0 0 0)) (mf_Name m) passed = inr module
    /\ NewRuntime x = (None, x0)
    /\ battery (module_port ctxErr (wasmguardrail.mkWasm module (mf_Name m))) fixtures x0 = (Done tt, mkRecorder "" report None [], x1)
    /\ length report = 9%nat /\ Forall (fun c => c_Failures c = []) report
    /\ Compile isPrint limits other running_bytes = inr running
    /\ sha256 running_bytes = sha256 passed
    /\ (running_bytes = passed -> m_compiled running = m_compiled module /\ needsWASI running = needsWASI module).
Proof.
  intros Hrun Hv He Hr Hg Hb running.
  destruct (Runner_Run_settles r m fixtures x) as [Hs _]. rewrite Hrun in Hs. cbn [fst settled] in Hs.
  destruct Hs as (_ & _ & _ & _ & Hp). destruct (Hp Hv) as (port & x0 & x1 & report & Hex & Hbat & _ & HL & HF).
  destruct Hex as [(module & (_ & store & wasm & Hst & Hload & Ha & Hc) & Hnew & ->)|(g' & ([H'|H'] & _) & _)]; [|by rewrite He in H'..].
  destruct (rreachable_ok _ _ _ _ _ _ _ Hr) as (_ & Hn & _). destruct (Hn _ _ Hg) as (_ & b & Hbound & Hcomp & _ & Had & other & Hm).
  exists store, wasm, module, x0, x1, report, (p_from (wasmguardrail.g_module g)), other.
  split_and!; [done..| |].
  - eapply admitted_same; [exact Had|]. by rewrite (Hb b Hbound Hcomp).
  - intros Heq. rewrite Heq in Hm. exact (Compile_same _ _ _ _ _ _ _ Hm Hc).
Qed.
End facts.

(** *** A component that passes *)

(** An engine whose modules answer with their own bytes: [alloc] answers a place past them, and
    [handle] points at the nineteen bytes they begin with. *)
Definition answering_engine : Engine bytes bytes unit := {|
  CompileModule wasm := inr wasm;
  ExportedFunctions _ := [AllocFunc; HandleFunc];
  Instantiate code _ x := (inr (code ++ repeat (ascii_of_nat 0) 400), x);
  Invoke f _ inst x := (inr [if bool_decide (f = HandleFunc) then 19 else 64], inst, x);
  memory inst := Some inst;
  set_memory m _ := m |}.
Definition allowing : bytes := text "{" ++ quoted (text "verdict") ++ text ":" ++ quoted (text "allow") ++ text "}".

Definition demo_manifest : Manifest :=
  mkManifest "policy" "1" "guardrail" "sha256:manifest" "" (Modules.demo_digest allowing) ExecutionInProcess 50.
Definition demo_fixtures : Fixtures := mkFixtures None (text "hello").
Definition demo_runner : Runner unit := mkRunner None (Some "/modules") "runner-1" (Sandbox.mkLimits 0 "" 0 0).
Definition demo_client : Client unit := mkClient unit (fun _ => None) (fun _ x => (inl (Foreign "refused" None), x)).
#[local] Abbreviation demo_run :=
  (Runner_Run (Engine0 := answering_engine) (fun _ => true) demo_sha (demo_files [allowing]) (fun x => (None, x)) id (fun _ _ => None)
    (fun x => (inl (Foreign "no directory" None), x)) (fun _ x => (None, x)) (fun _ x => x)
    (fun _ _ => demo_client) (fun _ _ => demo_client) demo_runner demo_manifest demo_fixtures tt).

Lemma demo_run_passes : exists v, demo_run = (Done (inr v), tt) /\ v_Passed v = true.
Proof. eexists. split; vm_compute; reflexivity. Qed.

Lemma demo_loaded store passed : Load demo_sha (demo_files [allowing]) store (mf_Module demo_manifest) = inr passed -> passed = allowing.
Proof. vm_compute. by intros [= <-]. Qed.

Definition demo_binding : GuardrailBinding :=
  mkBinding "policy" "1" "" ExecutionInProcess (Modules.demo_digest allowing) (mkGuardBudget 0 FailClosed true []).
Definition demo_guardrail : wasmguardrail.Guardrail (Ptr (C := bytes)) :=
  wasmguardrail.mkWasm (mkPtr 0 allowing (mkModule Modules.demo_limits allowing "policy" false)) "policy".
Definition demo_registry : Registry (C := bytes) := mkRegistry ∅ ∅ 0.
Definition demo_served : RState (C := bytes) := mkRState (commit demo_binding demo_guardrail (allocate demo_registry)) [].

Lemma demo_served_reachable :
  rreachable (Engine0 := answering_engine) (fun _ => true) demo_sha Modules.demo_limits (demo_files [allowing]) "/modules"
    (fun b => b = demo_binding) demo_served.
Proof.
  assert (Hp : prepare (Engine0 := answering_engine) (fun _ => true) demo_sha Modules.demo_limits (demo_files [allowing]) "/modules"
                 demo_registry demo_binding = Ready demo_guardrail) by (vm_compute; reflexivity).
  eapply rr_step; [eapply rr_step; [apply rr_init|]|].
  - exact (RPrepare _ _ _ _ _ (fun b => b = demo_binding) demo_registry [] _ _ eq_refl eq_refl Hp).
  - exact (RCommit _ _ _ _ _ (fun b => b = demo_binding) (allocate demo_registry) [] _ demo_guardrail []).
Qed.

Lemma demo_served_found : Guardrail (rs_registry demo_served) "policy" = Some demo_guardrail.
Proof. vm_compute. reflexivity. Qed.

Lemma what_runs_is_what_passed_witness : exists running_bytes : bytes,
  demo_sha running_bytes = demo_sha allowing
  /\ exists other, Compile (Engine0 := answering_engine) (fun _ => true) Modules.demo_limits other running_bytes
                  = inr (p_module (wasmguardrail.g_module demo_guardrail)).
Proof.
  destruct demo_run_passes as (v & Hrun & Hv).
  destruct (what_runs_is_what_passed (Engine0 := answering_engine) _ _ _ _ _ _ _ _ _ _ _ demo_runner demo_manifest demo_fixtures
    tt v tt Modules.demo_limits (demo_files [allowing]) "/modules" (fun b => b = demo_binding) demo_served "policy" demo_guardrail Hrun Hv eq_refl
    demo_served_reachable demo_served_found)
    as (store & passed & module & x0 & x1 & report & running_bytes & other & _ & Hload & _ & _ & _ & _ & _ & Hc & Hs & _).
  - intros b -> _. reflexivity.
  - exists running_bytes.
    assert (Hp : passed = allowing) by (apply (demo_loaded store); exact Hload).
    subst passed. split; [exact Hs|]. exists other. exact Hc.
Defined.

(** A module with no memory compiles, and its admission ends the process: no verdict, no report. *)
Lemma memoryless_module_ends_the_run :
  let m := mkManifest "policy" "1" "guardrail" "sha256:manifest" "" (Modules.demo_digest v1) ExecutionInProcess 50 in
  Runner_Run (Engine0 := memoryless_engine) (fun _ => true) demo_sha (demo_files [v1]) (fun x => (None, x)) id (fun _ _ => None)
    (fun x => (inl (Foreign "no directory" None), x)) (fun _ x => (None, x)) (fun _ x => x)
    (fun _ _ => demo_client) (fun _ _ => demo_client) demo_runner m demo_fixtures tt = (Crashes, tt).
Proof. vm_compute. reflexivity. Qed.

(** A name or version that is [".."] is not escaped, and joining resolves it: the verdict for a
    component of that name is posted outside the components. *)
Lemma dotted_names_leave_the_components :
  path (mkControlPlane unit "http://cp" "" "" (mkClient unit (fun _ => None) (fun _ x => (inl (Foreign "" None), x))))
    ["v1"; "components"; ".."; "keys"; "admissions"] = "http://cp/v1/keys/admissions".
Proof. vm_compute. reflexivity. Qed.
