(* ===== verification/Config.v ===== *)
(** * Settings (config/config.go)

    [Load] builds the worker's settings from an environment lookup and refuses those it cannot run
    with; [Config_String] is what a log may show of them.  Reading a number in floating point and
    printing one are arguments; durations are read and printed by [Format]. *)
From S2P Require Import Prelude Errors Core Strconv Text Float64 Format Detect.
From Stdlib Require Import ZArith Lia Ascii SpecFloat.
From stdpp Require Import base gmap strings list.
Open Scope Z_scope.
Open Scope gw_scope.

Definition DefaultListenAddr : string := ":8080".
Definition DefaultReadTimeout : duration := 30 * Second.
Definition DefaultWriteTimeout : duration := 5 * Minute.
Definition DefaultIdleTimeout : duration := 120 * Second.
Definition DefaultShutdownGrace : duration := 30 * Second.
Definition DefaultTraceSampleRatio : float64 := ratio 1 10.
Definition DefaultSnapshotInterval : duration := 15 * Second.
Definition minPepperBytes : Z := 32.

Record Config := mkConfig {
  ListenAddr : string; SnapshotFile : string; ControlPlaneURL : string; ControlPlaneToken : string;
  SnapshotInterval : duration; OTLPEndpoint : string; OTLPInsecure : bool; TraceSampleRatio : float64;
  Region : string; RedisURL : string; KeyPepper : bytes; NERSocket : string; WASMDir : string;
  CORSOrigins : list bytes; ReadTimeout : duration; WriteTimeout : duration; IdleTimeout : duration;
  ShutdownGrace : duration }.

Definition splitList (raw : string) : list bytes :=
  if bool_decide (raw = "") then []
  else filter (fun trimmed => trimmed <> []) (TrimSpace <$> split_on "," (text raw)).

Fixpoint firstNonEmpty (values : list string) : string :=
  match values with
  | [] => ""
  | v :: rest => if bool_decide (v <> "") then v else firstNonEmpty rest
  end.

Section load.
Context (ParseFloat : list ascii -> error + float64) (FormatFloat : float64 -> list ascii).

(** [GATEWAY_TRACE_SAMPLE_RATIO]. *)
Definition load_ratio (raw : string) : error + float64 :=
  if bool_decide (raw = "") then inr DefaultTraceSampleRatio
  else match ParseFloat (text raw) with
       | inl err => inl (GwError CodeInvalidRequest (Msg "GATEWAY_TRACE_SAMPLE_RATIO is not a number" []) false (Some err))
       | inr parsed =>
           if fle parsed (of_int 0) || fgt parsed (of_int 1)
           then inl (Newf CodeInvalidRequest "GATEWAY_TRACE_SAMPLE_RATIO must be in (0, 1], got %v"
                       [AStr (String.string_of_list_ascii (FormatFloat parsed))])
           else inr parsed
       end.

(** [GATEWAY_SNAPSHOT_INTERVAL]. *)
Definition load_interval (raw : string) : error + duration :=
  if bool_decide (raw = "") then inr DefaultSnapshotInterval
  else match ParseDuration (text raw) with
       | None => inl (GwError CodeInvalidRequest (Msg "GATEWAY_SNAPSHOT_INTERVAL is not a duration" []) false
                        (Some (Foreign "time: invalid duration" None)))
       | Some parsed =>
           if parsed <=? 0 then inl (New CodeInvalidRequest "GATEWAY_SNAPSHOT_INTERVAL must be positive")
           else inr parsed
       end.

Definition Load (getenv : string -> string) : error + Config :=
  let! sample := load_ratio (getenv "GATEWAY_TRACE_SAMPLE_RATIO") in
  let! interval := load_interval (getenv "GATEWAY_SNAPSHOT_INTERVAL") in
  let cfg := mkConfig
    (firstNonEmpty [getenv "GATEWAY_LISTEN_ADDR"; DefaultListenAddr]) (getenv "GATEWAY_SNAPSHOT_FILE")
    (getenv "GATEWAY_CONTROL_PLANE_URL") (getenv "GATEWAY_CONTROL_PLANE_TOKEN") interval
    (getenv "GATEWAY_OTLP_ENDPOINT") (bool_decide (getenv "GATEWAY_OTLP_INSECURE" = "true")) sample
    (getenv "GATEWAY_REGION") (getenv "GATEWAY_REDIS_URL") (text (getenv "GATEWAY_KEY_PEPPER"))
    (getenv "GATEWAY_NER_SOCKET") (getenv "GATEWAY_WASM_DIR") (splitList (getenv "GATEWAY_CORS_ORIGINS"))
    DefaultReadTimeout DefaultWriteTimeout DefaultIdleTimeout DefaultShutdownGrace in
  if bool_decide (SnapshotFile cfg = "") && bool_decide (ControlPlaneURL cfg = "")
  then inl (New CodeInvalidRequest "one of GATEWAY_SNAPSHOT_FILE or GATEWAY_CONTROL_PLANE_URL is required")
  else if Z.of_nat (length (KeyPepper cfg)) <? minPepperBytes
  then inl (Newf CodeInvalidRequest "GATEWAY_KEY_PEPPER must be at least %d bytes, got %d"
              [AInt minPepperBytes; AInt (Z.of_nat (length (KeyPepper cfg)))])
  else inr cfg.

Definition bool_text (b : bool) : string := if b then "true" else "false".

(** [Config.String]. *)
Definition Config_String (c : Config) : list ascii :=
  text "listen=" ++ text (ListenAddr c) ++ text " snapshot=" ++ text (SnapshotFile c)
  ++ text " control_plane=" ++ text (ControlPlaneURL c) ++ text " interval=" ++ Duration_String (SnapshotInterval c)
  ++ text " otlp=" ++ text (OTLPEndpoint c) ++ text " sample=" ++ FormatFloat (TraceSampleRatio c)
  ++ text " redis=" ++ text (bool_text (bool_decide (RedisURL c <> ""))) ++ text " ner_socket=" ++ text (NERSocket c)
  ++ text " wasm_dir=" ++ text (WASMDir c) ++ text " pepper=<" ++ FormatInt (Z.of_nat (length (KeyPepper c)))
  ++ text " bytes redacted> control_plane_token=<" ++ FormatInt (Z.of_nat (String.length (ControlPlaneToken c)))
  ++ text " chars redacted>".

(** ** Facts *)

Lemma firstNonEmpty_default v :
  firstNonEmpty [v; DefaultListenAddr] = if bool_decide (v = "") then DefaultListenAddr else v.
Proof. unfold firstNonEmpty. repeat case_bool_decide; congruence. Qed.

(** What a setting of its kind has to be. *)
Definition valid_ratio (raw : string) (f : float64) : Prop :=
  if bool_decide (raw = "") then f = DefaultTraceSampleRatio
  else ParseFloat (text raw) = inr f /\ fle f (of_int 0) = false /\ fgt f (of_int 1) = false.
Definition valid_interval (raw : string) (d : duration) : Prop :=
  if bool_decide (raw = "") then d = DefaultSnapshotInterval else ParseDuration (text raw) = Some d /\ 0 < d.

Lemma load_ratio_spec raw f : load_ratio raw = inr f <-> valid_ratio raw f.
Proof.
  unfold load_ratio, valid_ratio. case_bool_decide; [split; [by intros [= <-]|by intros ->]|].
  destruct (ParseFloat (text raw)) as [e|g]; [split; [done|by intros [? _]]|].
  destruct (fle g (of_int 0)) eqn:E0, (fgt g (of_int 1)) eqn:E1; cbn [orb];
    (split; [by intros [= <-]|intros ([= <-] & ? & ?); congruence]).
Qed.

Lemma load_interval_spec raw d : load_interval raw = inr d <-> valid_interval raw d.
Proof.
  unfold load_interval, valid_interval. case_bool_decide; [split; [by intros [= <-]|by intros ->]|].
  destruct (ParseDuration (text raw)) as [p|]; [|split; [done|by intros [? _]]].
  destruct (Z.leb_spec p 0); (split; [by intros [= <-]|intros [[= <-] ?]; first [done|lia]]).
Qed.

(** The listed origins: what is between the commas, trimmed, without the blanks. *)
Lemma splitList_spec raw o :
  o ∈ splitList raw <-> raw <> "" /\ o <> [] /\ exists part, part ∈ split_on "," (text raw) /\ o = TrimSpace part.
Proof.
  unfold splitList. case_bool_decide as H; [subst; rewrite elem_of_nil; naive_solver|].
  rewrite list_elem_of_filter, list_elem_of_fmap. naive_solver.
Qed.

(** A worker starts with settings it can run on or not at all.  Loading succeeds exactly when a
    snapshot file or a control plane is named, the pepper has at least 32 bytes, and the sampling
    ratio and the polling interval, where given, are readable and within bounds (an interval above
    zero; a ratio that is neither at most zero nor above one); the settings are then the
    environment's, with a listen address that is never empty and the defaults where nothing was
    given. *)
Theorem Load_exact getenv cfg :
  Load getenv = inr cfg <->
  (getenv "GATEWAY_SNAPSHOT_FILE" <> "" \/ getenv "GATEWAY_CONTROL_PLANE_URL" <> "")
  /\ 32 <= Z.of_nat (length (text (getenv "GATEWAY_KEY_PEPPER")))
  /\ valid_ratio (getenv "GATEWAY_TRACE_SAMPLE_RATIO") (TraceSampleRatio cfg)
  /\ valid_interval (getenv "GATEWAY_SNAPSHOT_INTERVAL") (SnapshotInterval cfg)
  /\ ListenAddr cfg = (if bool_decide (getenv "GATEWAY_LISTEN_ADDR" = "") then DefaultListenAddr else getenv "GATEWAY_LISTEN_ADDR")
  /\ (SnapshotFile cfg, ControlPlaneURL cfg, ControlPlaneToken cfg, KeyPepper cfg, CORSOrigins cfg)
     = (getenv "GATEWAY_SNAPSHOT_FILE", getenv "GATEWAY_CONTROL_PLANE_URL", getenv "GATEWAY_CONTROL_PLANE_TOKEN",
        text (getenv "GATEWAY_KEY_PEPPER"), splitList (getenv "GATEWAY_CORS_ORIGINS"))
  /\ (OTLPEndpoint cfg, OTLPInsecure cfg, Region cfg, RedisURL cfg, NERSocket cfg, WASMDir cfg)
     = (getenv "GATEWAY_OTLP_ENDPOINT", bool_decide (getenv "GATEWAY_OTLP_INSECURE" = "true"), getenv "GATEWAY_REGION",
        getenv "GATEWAY_REDIS_URL", getenv "GATEWAY_NER_SOCKET", getenv "GATEWAY_WASM_DIR")
  /\ (ReadTimeout cfg, WriteTimeout cfg, IdleTimeout cfg, ShutdownGrace cfg)
     = (DefaultReadTimeout, DefaultWriteTimeout, DefaultIdleTimeout, DefaultShutdownGrace).
Proof.
  unfold Load. rewrite <- (load_ratio_spec (getenv "GATEWAY_TRACE_SAMPLE_RATIO")),
    <- (load_interval_spec (getenv "GATEWAY_SNAPSHOT_INTERVAL")).
  destruct (load_ratio (getenv "GATEWAY_TRACE_SAMPLE_RATIO")) as [e|f]; [split; [done|by intros (_ & _ & ? & _)]|].
  destruct (load_interval (getenv "GATEWAY_SNAPSHOT_INTERVAL")) as [e|d]; [split; [done|by intros (_ & _ & _ & ? & _)]|].
  cbn [SnapshotFile ControlPlaneURL KeyPepper]. rewrite firstNonEmpty_default. unfold minPepperBytes.
  destruct (bool_decide (getenv "GATEWAY_SNAPSHOT_FILE" = "") && bool_decide (getenv "GATEWAY_CONTROL_PLANE_URL" = "")) eqn:Es.
  { apply andb_prop in Es as [E1%bool_decide_eq_true E2%bool_decide_eq_true]. rewrite E1, E2. split; [done|by intros ([|] & _)]. }
  apply andb_false_iff in Es. rewrite !bool_decide_eq_false in Es.
  destruct (Z.ltb_spec (Z.of_nat (length (text (getenv "GATEWAY_KEY_PEPPER")))) 32) as [Hp|Hp]; [split; [done|intros (_ & ? & _); lia]|].
  split; [by intros [= <-]|]. intros (_ & _ & [= ->] & [= ->] & H1 & H2 & H3 & H4). destruct cfg. cbn in *. by simplify_eq.
Qed.

(** The settings with other secrets in them. *)
Definition with_secrets (pepper : bytes) (token redis : string) (c : Config) : Config :=
  mkConfig (ListenAddr c) (SnapshotFile c) (ControlPlaneURL c) token (SnapshotInterval c) (OTLPEndpoint c) (OTLPInsecure c)
    (TraceSampleRatio c) (Region c) redis pepper (NERSocket c) (WASMDir c) (CORSOrigins c) (ReadTimeout c) (WriteTimeout c)
    (IdleTimeout c) (ShutdownGrace c).

(** A printed configuration says nothing of the pepper, the control plane's token and the address of
    the store but how long the first two are and whether there is a third: put any others of the
    same lengths in their place and the text is the same. *)
Lemma printed_settings_hide_secrets c pepper token redis :
  length pepper = length (KeyPepper c) -> String.length token = String.length (ControlPlaneToken c) ->
  (redis = "" <-> RedisURL c = "") ->
  Config_String (with_secrets pepper token redis c) = Config_String c.
Proof.
  intros Hp Ht Hr. unfold Config_String. cbn [with_secrets ListenAddr SnapshotFile ControlPlaneURL SnapshotInterval OTLPEndpoint
    TraceSampleRatio RedisURL NERSocket WASMDir KeyPepper ControlPlaneToken]. rewrite Hp, Ht.
  by rewrite (bool_decide_ext (redis <> "") (RedisURL c <> "")) by (by rewrite Hr).
Qed.

(** A ratio that is not a number is neither at most zero nor above one, so it passes. *)
Lemma nan_passes_as_a_ratio raw : raw <> "" -> ParseFloat (text raw) = inr S754_nan -> load_ratio raw = inr S754_nan.
Proof. intros Hr H. unfold load_ratio. by rewrite (bool_decide_false _ Hr), H. Qed.
End load.
