(* ===== verification/Redis.v ===== *)
(** * The shared store (adapters/rediskv/rediskv.go)

    The key-value port over a Redis server.  The server is an argument: its commands, and the laws
    Redis documents for them, in a clock of whole milliseconds.  [incrWithTTL] is the script the
    adapter has the server run in one step.  A command may also not reach the server, or its answer
    may be lost.  The two stores of the gateway are shown to agree. *)
From S2P Require Import Prelude Errors Core Strconv Wire Kv.
From Stdlib Require Import ZArith Lia Ascii.
From stdpp Require Import base gmap strings list.
Open Scope Z_scope.
Open Scope gw_scope.

(** ** The server *)

(** A value and the millisecond after which it is gone, if there is one. *)
Record slot := mkSlot { s_value : bytes; s_deadline : option Z }.

Class Server (S : Type) := {
  GET : Z -> string -> S -> (error + option bytes) * S;
  SET : Z -> string -> bytes -> duration -> S -> option error * S;  (* as the client sends it for a duration *)
  DEL : Z -> string -> S -> option error * S;
  INCRBY : Z -> string -> Z -> S -> (error + Z) * S;
  PTTL : Z -> string -> S -> Z;
  PEXPIRE : Z -> string -> Z -> S -> S }.

(** Whether a command was answered; whether the server executed it when it was not. *)
Inductive transport := Answered | NotSent (e : error) | AnswerLost (e : error).

(** ** The adapter *)
Module rediskv.

Definition DefaultTimeout : duration := 250 * Millisecond.

Record Store (S : Type) := mkStore { client : S; timeout : duration }.
Arguments mkStore {S}.
Arguments client {S}.
Arguments timeout {S}.

Definition WithTimeout {S} (d : duration) (s : Store S) : Store S := if 0 <? d then mkStore (client s) d else s.

Definition New_ {S} (client : option S) (opts : list (Store S -> Store S)) : error + Store S :=
  match client with
  | None => inl (New CodeInternal "a redis store needs a client")
  | Some c => inr (foldl (fun s opt => opt s) (mkStore c DefaultTimeout) opts)
  end.

Definition Open {S} (ParseURL : string -> error + S) (url : string) (opts : list (Store S -> Store S)) : error + Store S :=
  match ParseURL url with
  | inl err => inl (GwError CodeInvalidRequest (Msg "parsing the redis URL" []) false (Some err))
  | inr c => New_ (Some c) opts
  end.

Section commands.
Context {S : Type} `{!Server S}.

(** The script. *)
Definition incrWithTTL (t : Z) (key : string) (delta ms : Z) (s : S) : (error + Z) * S :=
  let '(r, s) := INCRBY t key delta s in
  match r with
  | inl err => (inl err, s)
  | inr total => (inr total, if PTTL t key s <? 0 then PEXPIRE t key ms s else s)
  end.

(** A command over the transport. *)
Definition exchange {A} (net : transport) (command : S -> (error + A) * S) (s : S) : (error + A) * S :=
  match net with
  | Answered => command s
  | NotSent e => (inl e, s)
  | AnswerLost e => (inl e, (command s).2)
  end.
Definition unavailable {A} (text : string) (r : error + A) : error + A :=
  match r with inl err => inl (GwError CodeUnavailable (Msg text []) false (Some err)) | inr a => inr a end.
(** A command that answers with an error or not. *)
Definition status (r : option error * S) : (error + unit) * S :=
  (match r.1 with Some err => inl err | None => inr tt end, r.2).
Definition err {A} (r : error + A) : option error := match r with inl e => Some e | inr _ => None end.

Definition Get (net : transport) (t : Z) (key : string) (s : S) : (error + option bytes) * S :=
  let '(r, s) := exchange net (GET t key) s in (unavailable "reading from redis" r, s).
Definition Set_ (net : transport) (t : Z) (key : string) (v : bytes) (ttl : duration) (s : S) : option error * S :=
  let '(r, s) := exchange net (fun s => status (SET t key v ttl s)) s in (err (unavailable "writing to redis" r), s).
Definition Incr (net : transport) (t : Z) (key : string) (delta : Z) (ttl : duration) (s : S) : (error + Z) * S :=
  let '(r, s) := exchange net (incrWithTTL t key delta (Milliseconds ttl)) s in (unavailable "incrementing in redis" r, s).
Definition Delete (net : transport) (t : Z) (key : string) (s : S) : option error * S :=
  let '(r, s) := exchange net (fun s => status (DEL t key s)) s in (err (unavailable "deleting from redis" r), s).
Definition Ping (net : transport) (s : S) : option error * S :=
  let '(r, s) := exchange net (fun s => (inr tt, s)) s in (err (unavailable "pinging redis" r), s).
End commands.
End rediskv.

(** ** What Redis documents *)

Definition slot_expired (t : Z) (sl : slot) : bool :=
  match s_deadline sl with Some d => d <? t | None => false end.

(** [look s t k]: what the server holds under a key at a time. *)
Class ServerLaws (S : Type) `{!Server S} (look : S -> Z -> string -> option slot) := {
  look_later s t t' k : t <= t' ->
    look s t' k = look s t k ≫= (fun sl => if slot_expired t' sl then None else Some sl);
  law_GET t k s : (GET t k s).1 = inr (s_value <$> look s t k) /\ look (GET t k s).2 t = look s t;
  law_SET t k v ms s : 0 < ms ->
    (SET t k v (ms * Millisecond) s).1 = None
    /\ forall k', look (SET t k v (ms * Millisecond) s).2 t k' = if bool_decide (k' = k) then Some (mkSlot v (Some (t + ms))) else look s t k';
  law_DEL t k s : (DEL t k s).1 = None /\ forall k', look (DEL t k s).2 t k' = if bool_decide (k' = k) then None else look s t k';
  law_INCRBY_new t k d s : look s t k = None -> in_int64 d ->
    (INCRBY t k d s).1 = inr d
    /\ forall k', look (INCRBY t k d s).2 t k' = if bool_decide (k' = k) then Some (mkSlot (FormatInt d) None) else look s t k';
  law_INCRBY t k d s c deadline : look s t k = Some (mkSlot (FormatInt c) deadline) -> in_int64 c -> in_int64 (c + d) ->
    (INCRBY t k d s).1 = inr (c + d)
    /\ forall k', look (INCRBY t k d s).2 t k' = if bool_decide (k' = k) then Some (mkSlot (FormatInt (c + d)) deadline) else look s t k';
  law_INCRBY_overflow t k d s c deadline : look s t k = Some (mkSlot (FormatInt c) deadline) -> in_int64 c -> ~ in_int64 (c + d) ->
    exists e, INCRBY t k d s = (inl e, s);
  law_INCRBY_text t k d s v deadline err : look s t k = Some (mkSlot v deadline) -> ParseInt v = inl err ->
    exists e, INCRBY t k d s = (inl e, s);
  law_PTTL t k s : PTTL t k s = match look s t k with
                                | None => -2
                                | Some sl => match s_deadline sl with None => -1 | Some d => d - t end
                                end;
  law_PEXPIRE t k ms s k' : look (PEXPIRE t k ms s) t k' =
    if bool_decide (k' = k) then (if ms <=? 0 then None else (fun sl => mkSlot (s_value sl) (Some (t + ms))) <$> look s t k)
    else look s t k' }.

(** ** Two stores, one behaviour *)

(** What a client does to a store, at a millisecond. *)
Inductive op := OGet (k : string) | OSet (k : string) (v : bytes) (ms : Z) | OIncr (k : string) (d ms : Z) | ODelete (k : string).
Inductive answer := AValue (v : option bytes) | ATotal (total : Z) | ADone | AFailed.

Definition answer_of {A} (f : A -> answer) (r : error + A) : answer := match r with inl _ => AFailed | inr a => f a end.
Definition status_of (r : option error) : answer := match r with Some _ => AFailed | None => ADone end.

Definition memkv_step (t : Z) (o : op) (m : memkv.Store) : answer * memkv.Store :=
  let now := t * Millisecond in
  match o with
  | OGet k => let '(r, m) := memkv.Get now k m in (answer_of AValue r, m)
  | OSet k v ms => let '(r, m) := memkv.Set_ now k v (ms * Millisecond) m in (status_of r, m)
  | OIncr k d ms => let '(r, m) := memkv.Incr now k d (ms * Millisecond) m in (answer_of ATotal r, m)
  | ODelete k => let '(r, m) := memkv.Delete now k m in (status_of r, m)
  end.

Section agreement.
Context {S : Type} `{!Server S}.

Definition redis_step (t : Z) (o : op) (s : S) : answer * S :=
  match o with
  | OGet k => let '(r, s) := rediskv.Get Answered t k s in (answer_of AValue r, s)
  | OSet k v ms => let '(r, s) := rediskv.Set_ Answered t k v (ms * Millisecond) s in (status_of r, s)
  | OIncr k d ms => let '(r, s) := rediskv.Incr Answered t k d (ms * Millisecond) s in (answer_of ATotal r, s)
  | ODelete k => let '(r, s) := rediskv.Delete Answered t k s in (status_of r, s)
  end.

(** The answers to a sequence of operations. *)
Fixpoint answers {St} (step : Z -> op -> St -> answer * St) (ops : list (Z * op)) (s : St) : list answer :=
  match ops with
  | [] => []
  | (t, o) :: rest => let '(a, s) := step t o s in a :: answers step rest s
  end.

(** An operation within what the gateway asks of a store: whole milliseconds to live, at least one,
    and an increment of a counter that stays within 64 bits.  What is incremented is absent, or an
    integer as the stores themselves write one, or no integer; text such as ["+5"] or ["007"], which
    only a client's [Set] can leave under a key, is not covered ([signed_text_parts_them]). *)
Definition fits (t : Z) (o : op) (m : memkv.Store) : Prop :=
  match o with
  | OGet _ | ODelete _ => True
  | OSet _ _ ms => 0 < ms
  | OIncr k d ms => 0 < ms /\ in_int64 d /\
      match live (t * Millisecond) (memkv.view m k) with
      | None => True
      | Some e => (exists c, value e = FormatInt c /\ in_int64 c /\ in_int64 (c + d)) \/ (exists err, ParseInt (value e) = inl err)
      end
  end.
Fixpoint fitting (now : Z) (ops : list (Z * op)) (m : memkv.Store) : Prop :=
  match ops with
  | [] => True
  | (t, o) :: rest => now <= t /\ fits t o m /\ fitting t rest (memkv_step t o m).2
  end.

Context {look : S -> Z -> string -> option slot} `{!ServerLaws S look}.

Definition entry_of (sl : slot) : entry :=
  mkEntry (s_value sl) (match s_deadline sl with Some d => d * Millisecond | None => 0 end).

(** At a time, both stores show the same, and nothing on the server is there for good. *)
Definition agree (t : Z) (s : S) (m : memkv.Store) : Prop :=
  (forall k, live (t * Millisecond) (memkv.view m k) = entry_of <$> look s t k)
  /\ forall k sl, look s t k = Some sl -> exists d, s_deadline sl = Some d /\ t <= d.

Lemma live_later_live now now' e : now <= now' -> live now' e = live now' (live now e).
Proof.
  intros H. destruct e as [e|]; [|done]. unfold live at 3. destruct (entry_expired now e) eqn:E; [|done].
  unfold live. unfold entry_expired, After in *. apply andb_prop in E as [-> E%Z.ltb_lt].
  by rewrite (proj2 (Z.ltb_lt _ _)) by lia.
Qed.

Lemma entry_expired_of t sl d : 0 < d -> s_deadline sl = Some d -> entry_expired (t * Millisecond) (entry_of sl) = slot_expired t sl.
Proof.
  intros Hd Hs. unfold entry_expired, slot_expired, entry_of, IsZero, After, Millisecond. rewrite Hs. cbn [expiresAt].
  rewrite (proj2 (Z.eqb_neq _ _)) by lia. cbn [negb andb]. destruct (Z.ltb_spec d t), (Z.ltb_spec (d * 1000000) (t * 1000000)); lia.
Qed.

Lemma agree_later t t' s m : 0 < t <= t' -> agree t s m -> agree t' s m.
Proof.
  intros Ht [Ha Hd]. split.
  - intros k. rewrite (live_later_live (t * Millisecond)) by (unfold Millisecond; lia). rewrite Ha, (look_later s t t') by lia.
    destruct (look s t k) as [sl|] eqn:E; [|done]. cbn. destruct (Hd k sl E) as (d & Hs & Hle).
    rewrite (entry_expired_of t' sl d) by (done || lia). by destruct (slot_expired t' sl).
  - intros k sl. rewrite (look_later s t t') by lia. destruct (look s t k) as [sl'|] eqn:E; [|done]. cbn.
    destruct (Hd k sl' E) as (d & Hs & Hle). destruct (slot_expired t' sl') eqn:Ex; [done|]. intros [= <-].
    exists d. split; [done|]. unfold slot_expired in Ex. rewrite Hs in Ex. lia.
Qed.

(** What an operation leaves under a key, on both sides. *)
Lemma agree_update t s m s' m' k (e : option slot) :
  agree t s m ->
  (forall k', look s' t k' = if bool_decide (k' = k) then e else look s t k') ->
  (forall k', memkv.view m' k' = if bool_decide (k' = k) then entry_of <$> e else memkv.view m k') ->
  (forall sl, e = Some sl -> exists d, s_deadline sl = Some d /\ 0 < t <= d) ->
  agree t s' m'.
Proof.
  intros [Ha Hd] Hs Hm He. split.
  - intros k'. rewrite Hs, Hm. case_bool_decide; [|apply Ha]. destruct e as [sl|]; [|done]. cbn.
    destruct (He sl eq_refl) as (d & Hdl & Hd0 & Hle). rewrite (entry_expired_of t sl d) by (done || lia).
    unfold slot_expired. rewrite Hdl. by rewrite (proj2 (Z.ltb_ge d t)) by lia.
  - intros k' sl. rewrite Hs. case_bool_decide; [|apply Hd]. intros ->.
    destruct (He sl eq_refl) as (d & Hdl & _ & Hle). eauto.
Qed.

Lemma view_insert k e m k' :
  memkv.view (memkv.mkStore (<[k := e]> (memkv.entries m))) k' = if bool_decide (k' = k) then Some e else memkv.view m k'.
Proof.
  unfold memkv.view. cbn. case_bool_decide as H; [subst; apply lookup_insert_eq|by apply lookup_insert_ne].
Qed.

Lemma fmap_Some_entry v t ms :
  entry_of <$> Some (mkSlot v (Some (t + ms))) = Some (mkEntry v (t * Millisecond + ms * Millisecond)).
Proof. unfold entry_of. cbn [fmap option_fmap option_map s_value s_deadline]. by rewrite Z.mul_add_distr_r. Qed.

(** The script leaves a new counter with the expiry it was given, and an old one with its own. *)
Lemma incrWithTTL_spec t k d ms s (old : option (Z * Z)) :
  0 < ms -> in_int64 d ->
  look s t k = (fun cd => mkSlot (FormatInt cd.1) (Some cd.2)) <$> old ->
  (forall cd, old = Some cd -> in_int64 cd.1 /\ in_int64 (cd.1 + d) /\ t <= cd.2) ->
  let total := match old with Some cd => cd.1 + d | None => d end in
  let deadline := from_option snd (t + ms) old in
  (rediskv.incrWithTTL t k d ms s).1 = inr total
  /\ forall k', look (rediskv.incrWithTTL t k d ms s).2 t k'
       = if bool_decide (k' = k) then Some (mkSlot (FormatInt total) (Some deadline)) else look s t k'.
Proof.
  intros Hms Hd Hl Hold. unfold rediskv.incrWithTTL. destruct old as [[c dl]|]; cbn in Hl |- *.
  - destruct (Hold _ eq_refl) as (Hc & Hcd & Hle). cbn in *.
    destruct (law_INCRBY t k d s c (Some dl) Hl Hc Hcd) as [Hr Hs]. destruct (INCRBY t k d s) as [r s1]. cbn in *. subst r.
    rewrite law_PTTL, Hs, bool_decide_true by done. cbn. rewrite (proj2 (Z.ltb_ge _ _)) by lia. done.
  - destruct (law_INCRBY_new t k d s Hl Hd) as [Hr Hs]. destruct (INCRBY t k d s) as [r s1]. cbn in *. subst r.
    rewrite law_PTTL, Hs, bool_decide_true by done. cbn. split; [done|]. intros k'. rewrite law_PEXPIRE, !Hs, (bool_decide_true (k = k)) by done.
    rewrite (proj2 (Z.leb_gt _ _)) by lia. by case_bool_decide.
Qed.

Lemma agree_counter t s m k e c : agree t s m -> live (t * Millisecond) (memkv.view m k) = Some e -> value e = FormatInt c ->
  exists dl, look s t k = Some (mkSlot (FormatInt c) (Some dl)) /\ e = mkEntry (FormatInt c) (dl * Millisecond) /\ t <= dl.
Proof.
  intros [Ha Hd] He Hv. rewrite Ha in He. destruct (look s t k) as [sl|] eqn:E; [|done]. injection He as <-.
  destruct (Hd k sl E) as (dl & Hdl & Hle). exists dl. destruct sl as [v dl']. unfold entry_of in *. cbn in *. subst. done.
Qed.

Lemma incr_agrees t s m k d ms : 0 < t -> agree t s m -> fits t (OIncr k d ms) m ->
  (redis_step t (OIncr k d ms) s).1 = (memkv_step t (OIncr k d ms) m).1
  /\ agree t (redis_step t (OIncr k d ms) s).2 (memkv_step t (OIncr k d ms) m).2.
Proof.
  intros Ht Ha (Hms & Hd & Hf). cbn. unfold rediskv.Incr. cbn [rediskv.exchange].
  replace (Milliseconds (ms * Millisecond)) with ms by (unfold Milliseconds, Millisecond; by rewrite Z.quot_mul).
  pose proof (memkv.Incr_slot (t * Millisecond) k d (ms * Millisecond) m) as Hm. unfold incr_slot in Hm.
  destruct (live (t * Millisecond) (memkv.view m k)) as [e|] eqn:El.
  - destruct Hf as [(c & Hv & Hc & Hcd)|[err Hv]].
    2: { rewrite Hv in Hm. destruct Hm as [err' ->].
         assert (exists sl, look s t k = Some sl /\ s_value sl = value e) as ([v dl] & Hl & Hsv).
         { destruct Ha as [Ha _]. rewrite Ha in El. destruct (look s t k) as [sl|]; [|done]. injection El as <-. by exists sl. }
         cbn in Hsv. subst v. destruct (law_INCRBY_text t k d s _ dl err Hl Hv) as [e' He'].
         unfold rediskv.incrWithTTL. rewrite He'. by split. }
    destruct (agree_counter _ _ _ _ _ _ Ha El Hv) as (dl & Hl & -> & Hle).
    cbn [value] in Hm. rewrite ParseInt_FormatInt in Hm by done. cbn in Hm. rewrite wrap64_id in Hm by done. rewrite Hm.
    destruct (incrWithTTL_spec t k d ms s (Some (c, dl)) Hms Hd Hl) as [Hr Hs]; [intros cd [= <-]; eauto|]. cbn in Hr, Hs.
    destruct (rediskv.incrWithTTL t k d ms s) as [r s1]. cbn in *. subst r. split; [done|].
    eapply agree_update; [exact Ha|exact Hs|intros k'; rewrite view_insert; by case_bool_decide|].
    intros sl [= <-]. eauto.
  - assert (Hl : look s t k = None) by (destruct Ha as [Ha _]; rewrite Ha in El; by destruct (look s t k)).
    rewrite Z.add_0_l, wrap64_id in Hm by done. rewrite Hm.
    destruct (incrWithTTL_spec t k d ms s None Hms Hd Hl) as [Hr Hs]; [done|]. cbn -[FormatInt] in Hr, Hs.
    destruct (rediskv.incrWithTTL t k d ms s) as [r s1]. cbn -[FormatInt] in *. subst r. split; [done|].
    eapply agree_update; [exact Ha|exact Hs| |intros sl [= <-]; exists (t + ms); split; [done|lia]].
    intros k'. rewrite view_insert. case_bool_decide; [|done]. by rewrite fmap_Some_entry.
Qed.

Lemma step_agrees t s m o : 0 < t -> agree t s m -> fits t o m ->
  (redis_step t o s).1 = (memkv_step t o m).1 /\ agree t (redis_step t o s).2 (memkv_step t o m).2.
Proof.
  intros Ht Ha Hf. destruct o as [k|k v ms|k d ms|k]; [..|by apply incr_agrees|]; cbn.
  - rewrite memkv.Get_live. destruct (law_GET t k s) as [Hr Hs]. unfold rediskv.Get. cbn [rediskv.exchange].
    destruct (GET t k s) as [r s1]. cbn in *. subst r. cbn. destruct Ha as [Ha Hd].
    split; [rewrite Ha; by destruct (look s t k)|]. split; [by rewrite Hs|by rewrite Hs].
  - unfold rediskv.Set_. cbn [rediskv.exchange]. destruct (law_SET t k v ms s Hf) as [Hr Hs].
    destruct (SET t k v (ms * Millisecond) s) as [r s1]. cbn in *. subst r. split; [done|].
    eapply agree_update; [exact Ha|exact Hs| |intros sl [= <-]; exists (t + ms); split; [done|lia]].
    intros k'. rewrite view_insert. case_bool_decide; [|done]. by rewrite fmap_Some_entry.
  - unfold rediskv.Delete. cbn [rediskv.exchange]. destruct (law_DEL t k s) as [Hr Hs].
    destruct (DEL t k s) as [r s1]. cbn in *. subst r. split; [done|].
    eapply agree_update; [exact Ha|exact Hs| |done]. intros k'. unfold memkv.view. cbn.
    case_bool_decide as H; [subst; apply lookup_delete_eq|by apply lookup_delete_ne].
Qed.

(** C23. The two stores are interchangeable.  Against any server that keeps what Redis documents,
    started empty, every sequence of reads, writes, deletions and increments at times that do not
    go back gets the same answers from the Redis store as from the in-process one, expiry included,
    as long as lifetimes are whole milliseconds, at least one, counters stay within 64 bits, and
    what is incremented is absent, an integer written as the stores write integers, or no integer at
    all (both then fail).  An integer a client stored in another spelling, with a plus sign or
    leading zeros, is not covered: the two stores differ there. *)
Theorem redis_and_memkv_agree now ops s :
  0 < now -> (forall k, look s now k = None) -> fitting now ops memkv.New ->
  answers redis_step ops s = answers memkv_step ops memkv.New.
Proof.
  intros Hn He Hf. assert (Ha : agree now s memkv.New).
  { split; [|intros k sl H; by rewrite He in H]. intros k. by rewrite He. }
  clear He. revert now s Hn Ha Hf. generalize memkv.New. induction ops as [|[t o] ops IH]; intros m now s Hn Ha Hf; [done|].
  destruct Hf as (Ht & Hf & Hrest). apply (agree_later now t) in Ha; [|lia].
  destruct (step_agrees t s m o ltac:(lia) Ha Hf) as [Hr Hs]. cbn [answers].
  destruct (redis_step t o s) as [a s1], (memkv_step t o m) as [b m1]. cbn in *. subst. f_equal. by apply (IH m1 t); [lia|..].
Qed.

(** *** Where they part *)

(** A counter that would leave 64 bits is refused by one and wrapped by the other. *)
Lemma overflow_is_refused_by_redis t k d ttl s c deadline :
  look s t k = Some (mkSlot (FormatInt c) deadline) -> in_int64 c -> ~ in_int64 (c + d) ->
  exists e, rediskv.Incr Answered t k d ttl s = (inl e, s) /\ CodeOf (Some e) = CodeUnavailable.
Proof.
  intros Hl Hc Ho. destruct (law_INCRBY_overflow t k d s c deadline Hl Hc Ho) as [e E].
  unfold rediskv.Incr, rediskv.incrWithTTL. cbn [rediskv.exchange]. rewrite E. by eexists.
Qed.

(** A lifetime below a millisecond is sent as zero, which deletes the counter that was just made:
    it is new every time. *)
Lemma short_window_never_counts t k d ttl s :
  0 <= ttl < Millisecond -> in_int64 d -> look s t k = None ->
  (rediskv.Incr Answered t k d ttl s).1 = inr d /\ look (rediskv.Incr Answered t k d ttl s).2 t k = None.
Proof.
  intros Ht Hd Hl. unfold rediskv.Incr, rediskv.incrWithTTL. cbn [rediskv.exchange].
  replace (Milliseconds ttl) with 0 by (unfold Milliseconds, Millisecond in *; by rewrite Z.quot_small).
  destruct (law_INCRBY_new t k d s Hl Hd) as [Hr Hs]. destruct (INCRBY t k d s) as [r s1]. cbn in *. subst r.
  rewrite law_PTTL, Hs, bool_decide_true by done. cbn. split; [done|]. by rewrite law_PEXPIRE, bool_decide_true by done.
Qed.
End agreement.

(** ** A server that keeps the laws *)

Abbreviation held := (gmap string slot).
Definition held_look (s : held) (t : Z) (k : string) : option slot :=
  s !! k ≫= (fun sl => if slot_expired t sl then None else Some sl).

#[export] Instance held_server : Server held := {|
  GET t k s := (inr (s_value <$> held_look s t k), s);
  SET t k v ttl s := (None, <[k := mkSlot v (Some (t + Milliseconds ttl))]> s);
  DEL t k s := (None, delete k s);
  INCRBY t k d s :=
    match held_look s t k with
    | None => (inr d, <[k := mkSlot (FormatInt d) None]> s)
    | Some sl =>
        match ParseInt (s_value sl) with
        | inl _ => (inl (Foreign "ERR value is not an integer or out of range" None), s)
        | inr c =>
            if negb (bool_decide (FormatInt c = s_value sl))      (* only the canonical spelling *)
            then (inl (Foreign "ERR value is not an integer or out of range" None), s)
            else if bool_decide (int64_min <= c + d <= int64_max)
            then (inr (c + d), <[k := mkSlot (FormatInt (c + d)) (s_deadline sl)]> s)
            else (inl (Foreign "ERR increment or decrement would overflow" None), s)
        end
    end;
  PTTL t k s := match held_look s t k with
                | None => -2
                | Some sl => match s_deadline sl with None => -1 | Some d => d - t end
                end;
  PEXPIRE t k ms s := if ms <=? 0 then delete k s
                      else match held_look s t k with
                           | None => delete k s
                           | Some sl => <[k := mkSlot (s_value sl) (Some (t + ms))]> s
                           end |}.

Lemma held_insert s k sl t k' : slot_expired t sl = false ->
  held_look (<[k := sl]> s) t k' = if bool_decide (k' = k) then Some sl else held_look s t k'.
Proof.
  intros H. unfold held_look. case_bool_decide as Hk; [subst; rewrite lookup_insert_eq; cbn; by rewrite H|].
  by rewrite lookup_insert_ne.
Qed.

Lemma held_delete s k t k' : held_look (delete k s) t k' = if bool_decide (k' = k) then None else held_look s t k'.
Proof.
  unfold held_look. case_bool_decide as Hk; [subst; by rewrite lookup_delete_eq|by rewrite lookup_delete_ne].
Qed.

Lemma held_look_live s t k sl : held_look s t k = Some sl -> slot_expired t sl = false.
Proof. unfold held_look. destruct (s !! k) as [sl'|]; [|done]. cbn. destruct (slot_expired t sl') eqn:E; [done|]. by intros [= <-]. Qed.

Lemma later_not_expired t ms v : 0 < ms -> slot_expired t (mkSlot v (Some (t + ms))) = false.
Proof. intros H. unfold slot_expired. cbn. apply Z.ltb_ge. lia. Qed.

#[export] Instance held_laws : ServerLaws held held_look.
Proof.
  split; cbn [GET SET DEL INCRBY PTTL PEXPIRE held_server fst snd].
  - intros s t t' k Ht. unfold held_look. destruct (s !! k) as [sl|]; [|done]. cbn. destruct (slot_expired t sl) eqn:E; [|done].
    unfold slot_expired in *. destruct (s_deadline sl) as [d|]; [|done]. cbn. by rewrite (proj2 (Z.ltb_lt d t')) by lia.
  - done.
  - intros t k v ms s Hms. split; [done|]. intros k'.
    replace (Milliseconds (ms * Millisecond)) with ms by (unfold Milliseconds, Millisecond; by rewrite Z.quot_mul).
    apply held_insert. by apply later_not_expired.
  - intros t k s. split; [done|]. intros k'. apply held_delete.
  - intros t k d s Hl Hd. rewrite Hl. split; [done|]. intros k'. by apply held_insert.
  - intros t k d s c dl Hl Hc Hcd. rewrite Hl. cbn [s_value s_deadline]. rewrite ParseInt_FormatInt by done.
    rewrite (bool_decide_true (FormatInt c = FormatInt c)) by done. cbn [negb]. rewrite bool_decide_true by exact Hcd. split; [done|]. intros k'. apply held_insert. by apply held_look_live in Hl.
  - intros t k d s c dl Hl Hc Ho. rewrite Hl. cbn [s_value s_deadline]. rewrite ParseInt_FormatInt by done.
    rewrite (bool_decide_true (FormatInt c = FormatInt c)) by done. cbn [negb]. rewrite bool_decide_false by exact Ho. by eexists.
  - intros t k d s v dl err Hl Hv. rewrite Hl. cbn [s_value]. rewrite Hv. by eexists.
  - done.
  - intros t k ms s k'. destruct (Z.leb_spec ms 0); [apply held_delete|].
    destruct (held_look s t k) as [sl|] eqn:E; [apply held_insert; by apply later_not_expired|].
    rewrite held_delete. by case_bool_decide.
Qed.

(** Two increments in a window, a read after it, and a new window. *)
Definition demo_ops : list (Z * op) :=
  [(1, OIncr "k" 1 2000); (500, OIncr "k" 1 3600000); (501, OGet "k"); (2002, OGet "k"); (2003, OIncr "k" 5 2000); (2004, ODelete "k")].

#[local] Instance entry_eq_dec : EqDecision entry.
Proof. solve_decision. Defined.

Lemma fits_new t k d ms m : (0 <? ms) && bool_decide (live (t * Millisecond) (memkv.view m k) = None) = true ->
  in_int64 d -> fits t (OIncr k d ms) m.
Proof. intros [Hm%Z.ltb_lt Hl%bool_decide_eq_true]%andb_prop Hd. unfold fits. rewrite Hl. eauto. Qed.

Lemma fits_old t k d ms m c exp :
  (0 <? ms) && bool_decide (live (t * Millisecond) (memkv.view m k) = Some (mkEntry (FormatInt c) exp)) = true ->
  in_int64 c -> in_int64 d -> in_int64 (c + d) -> fits t (OIncr k d ms) m.
Proof. intros [Hm%Z.ltb_lt Hl%bool_decide_eq_true]%andb_prop Hc Hd Hcd. unfold fits. rewrite Hl. eauto 10. Qed.

Lemma demo_ops_fit : fitting 1 demo_ops memkv.New.
Proof.
  unfold demo_ops, fitting.
  split; [lia|]. split; [apply fits_new; [vm_compute; reflexivity|done]|].
  split; [lia|]. split; [apply fits_old with (c := 1) (exp := 2001 * Millisecond); [vm_compute; reflexivity|done..]|].
  split; [lia|]. split; [exact I|]. split; [lia|]. split; [exact I|].
  split; [lia|]. split; [apply fits_new; [vm_compute; reflexivity|done]|]. split; [lia|]. split; exact I.
Qed.

Lemma redis_and_memkv_agree_witness :
  answers redis_step demo_ops (∅ : held) = [ATotal 1; ATotal 2; AValue (Some (FormatInt 2)); AValue None; ATotal 5; ADone].
Proof.
  assert (Hm : answers memkv_step demo_ops memkv.New
               = [ATotal 1; ATotal 2; AValue (Some (FormatInt 2)); AValue None; ATotal 5; ADone]) by (vm_compute; reflexivity).
  rewrite <- Hm. exact (redis_and_memkv_agree (look := held_look) 1 demo_ops ∅ eq_refl (fun k => eq_refl) demo_ops_fit).
Defined.

(** Text that [strconv.ParseInt] reads and the server does not: the in-process store counts on from
    ["+5"], a server that takes integers only as it writes them fails. *)
Lemma signed_text_parts_them :
  let ops := [(1, OSet "k" ["+"%char; "5"%char] 2000); (2, OIncr "k" 1 2000)] in
  answers memkv_step ops memkv.New = [ADone; ATotal 6] /\ answers redis_step ops (∅ : held) = [ADone; AFailed].
Proof. split; vm_compute; reflexivity. Qed.
