(* ===== verification/Sinks.v ===== *)
(** * Telemetry sinks (adapters/redisstream, telemetry/prometheus.go, telemetry/logsink.go)

    What is made of a batch of events: entries of two Redis streams, metrics, and log records.  The
    protobuf encoder, the pipeline's round trip and the text of an address are arguments.  A metric
    is the list of updates it receives; a batch's token counts are updates of different series, and
    their order does not matter. *)
From S2P Require Import Prelude Errors Core Strconv Float64 Wire.
From Stdlib Require Import ZArith Lia Ascii.
From stdpp Require Import base gmap strings list.
Open Scope Z_scope.
Open Scope gw_scope.

(** ** The usage schema (proto/gateway/v1/usage.proto) *)
Module usagepb.
Record TokenUsage := mkTokenUsage { tu_Input : Z; tu_CachedInput : Z; tu_CacheWrite : Z; tu_Output : Z }.
Record StageTiming := mkStageTiming { st_Name : string; st_DurationMs : Z; st_Outcome : string }.
Record UsageEvent := mkUsage {
  ue_RequestId : string; ue_TimestampUnixMs : Z; ue_Tenant : string; ue_KeyId : string; ue_Tier : string;
  ue_Deployment : string; ue_BaseModel : string; ue_AdapterId : string; ue_Provider : string; ue_Stream : bool;
  ue_Usage : TokenUsage; ue_CostMicroUsd : Z; ue_PriceMicroUsd : Z; ue_LatencyMs : Z; ue_TimeToFirstByteMs : Z;
  ue_Outcome : string; ue_SnapshotVersion : Z; ue_BudgetIds : list string; ue_Shadow : bool; ue_Stages : list StageTiming }.
Record AuditEvent := mkAudit {
  ae_EventId : string; ae_RequestId : string; ae_TimestampUnixMs : Z; ae_Tenant : string; ae_Actor : string;
  ae_Action : string; ae_Resource : string; ae_Outcome : string; ae_Reason : string; ae_SourceIp : string;
  ae_SnapshotVersion : Z }.
Inductive Message := MUsage (u : UsageEvent) | MAudit (a : AuditEvent).
End usagepb.

(** ** The stream sink *)
Module redisstream.

Definition DefaultStream : string := "gateway:usage".
Definition DefaultAuditStream : string := "gateway:audit".
Definition DefaultMaxLen : Z := 1000000.
Definition DefaultAuditMaxLen : Z := 1000000.
Definition PayloadField : string := "event".
Definition defaultTimeout : duration := 2 * Second.
Definition Name : string := "redis-stream".

Record Sink := mkSink { stream : string; auditStream : string; maxLen : Z; auditMaxLen : Z; timeout : duration }.

Definition WithStream (name : string) (s : Sink) : Sink :=
  if bool_decide (name <> "") then mkSink name (auditStream s) (maxLen s) (auditMaxLen s) (timeout s) else s.
Definition WithAuditStream (name : string) (s : Sink) : Sink :=
  if bool_decide (name <> "") then mkSink (stream s) name (maxLen s) (auditMaxLen s) (timeout s) else s.
Definition WithMaxLen (n : Z) (s : Sink) : Sink :=
  if 0 <? n then mkSink (stream s) (auditStream s) n (auditMaxLen s) (timeout s) else s.

(** [hasClient] is false for a nil client. *)
Definition New_ (hasClient : bool) (opts : list (Sink -> Sink)) : error + Sink :=
  if negb hasClient then inl (New CodeInternal "a usage stream needs a redis client")
  else inr (foldl (fun s opt => opt s)
              (mkSink DefaultStream DefaultAuditStream DefaultMaxLen DefaultAuditMaxLen defaultTimeout) opts).

Definition stage_ms (d : duration) : Z :=
  let ms := Milliseconds d in
  let ms := if ms <? 0 then 0 else ms in
  if MaxUint32 <? ms then MaxUint32 else ms.
Definition encodeStages (stages : list StageTiming) : list usagepb.StageTiming :=
  (fun s => usagepb.mkStageTiming (stage_Name s) (stage_ms (stage_Duration s)) (stage_Outcome s)) <$> stages.

Definition encode (e : UsageEvent) : usagepb.UsageEvent :=
  usagepb.mkUsage (ev_RequestID e) (Time_UnixMilli (ev_Timestamp e)) (ev_Tenant e) (ev_KeyID e) (ev_Tier e) (ev_Deployment e)
    (BaseModel (ev_Route e)) (AdapterID (ev_Route e)) (ev_Provider e) (ev_Stream e)
    (usagepb.mkTokenUsage (ev_InputTokens e) (ev_CachedInputTokens e) (ev_CacheWriteTokens e) (ev_OutputTokens e))
    (ev_CostMicroUSD e) (ev_PriceMicroUSD e) (ev_LatencyMs e) (Milliseconds (ev_TimeToFirstByte e)) (ev_Outcome e)
    (ev_SnapshotVersion e) (ev_Budgets e) (ev_Shadow e) (encodeStages (ev_Stages e)).

Section sink.
Context (addr_text : Addr -> string) (Marshal : usagepb.Message -> error + bytes).

Definition encodeAudit (e : AuditEvent) : usagepb.AuditEvent :=
  usagepb.mkAudit (au_EventID e) (au_RequestID e) (Time_UnixMilli (au_Timestamp e)) (au_Tenant e) (au_Actor e) (au_Action e)
    (au_Resource e) (au_Outcome e) (au_Reason e) (addr_text (au_SourceIP e)) (au_SnapshotVersion e).

Record XAddArgs := mkXAdd { x_Stream : string; x_MaxLen : Z; x_Approx : bool; x_Values : gmap string bytes }.

(** Where an event goes and as what. *)
Definition route (s : Sink) (e : Event) : string * Z * usagepb.Message :=
  match e with
  | EvUsage u => (stream s, maxLen s, usagepb.MUsage (encode u))
  | EvAudit a => (auditStream s, auditMaxLen s, usagepb.MAudit (encodeAudit a))
  end.

Definition queue_one (s : Sink) (queue : list XAddArgs) (e : Event) : error + list XAddArgs :=
  let '(stream, maxLen, message) := route s e in
  match Marshal message with
  | inl err => inl (GwError CodeInternal (Msg "encoding an event" []) false (Some err))
  | inr payload => inr (queue ++ [mkXAdd stream maxLen true {[ PayloadField := payload ]}])
  end.

Definition Write {X} (Exec : list XAddArgs -> X -> option error * X) (s : Sink) (events : list Event) (x : X) : option error * X :=
  match foldM (queue_one s) [] events with
  | inl err => (Some err, x)
  | inr [] => (None, x)
  | inr queue =>
      let '(failed, x) := Exec queue x in
      (match failed with
       | Some err => Some (GwError CodeUnavailable (Msg "publishing events" []) false (Some err))
       | None => None
       end, x)
  end.
End sink.
End redisstream.

(** ** The metrics sink *)
Module prometheus.

Inductive update := Add (metric : string) (labels : list string) (v : float64) | Observe (metric : string) (labels : list string) (v : float64).
Definition labels_of (u : update) : list string := match u with Add _ l _ | Observe _ l _ => l end.
Definition metric_of (u : update) : string := match u with Add m _ _ | Observe m _ _ => m end.

Definition Name : string := "prometheus".

(** The collectors and their labels; registering one may fail, and then nothing is returned. *)
Definition collectors : list (string * list string) :=
  [("gateway_requests_total", ["tier"; "outcome"; "provider"; "stream"]);
   ("gateway_tokens_total", ["tier"; "provider"; "direction"]);
   ("gateway_cost_micro_usd_total", ["tier"; "provider"]);
   ("gateway_price_micro_usd_total", ["tier"; "provider"]);
   ("gateway_request_duration_seconds", ["tier"; "outcome"; "provider"; "stream"]);
   ("gateway_time_to_first_byte_seconds", ["tier"; "provider"])].
Fixpoint register {X} (Register : string * list string -> X -> option error * X) (cs : list (string * list string)) (x : X)
    : option error * X :=
  match cs with
  | [] => (None, x)
  | c :: cs =>
      let '(failed, x) := Register c x in
      match failed with
      | Some err => (Some (GwError CodeInternal (Msg "registering a metric collector" []) false (Some err)), x)
      | None => register Register cs x
      end
  end.
Definition NewPrometheusSink {X} (Register : string * list string -> X -> option error * X) (x : X) : option error * X :=
  register Register collectors x.

Definition labelOr (value fallback : string) : string := if bool_decide (value = "") then fallback else value.

(** [if n > 0 { counter.Add(float64(n)) }]. *)
Definition add_positive (metric : string) (labels : list string) (n : Z) : list update :=
  if 0 <? n then [Add metric labels (of_int n)] else [].

Definition write_usage (usage : UsageEvent) : list update :=
  let tier := labelOr (ev_Tier usage) "unknown" in
  let outcome := labelOr (ev_Outcome usage) "ok" in
  let provider := labelOr (ev_Provider usage) "none" in
  let stream := if ev_Stream usage then "true" else "false" in
  [Add "gateway_requests_total" [tier; outcome; provider; stream] (of_int 1);
   Observe "gateway_request_duration_seconds" [tier; outcome; provider; stream] (fdiv (of_int (ev_LatencyMs usage)) (of_int 1000))]
  ++ add_positive "gateway_tokens_total" [tier; provider; "input"] (ev_InputTokens usage)
  ++ add_positive "gateway_tokens_total" [tier; provider; "cached_input"] (ev_CachedInputTokens usage)
  ++ add_positive "gateway_tokens_total" [tier; provider; "cache_write"] (ev_CacheWriteTokens usage)
  ++ add_positive "gateway_tokens_total" [tier; provider; "output"] (ev_OutputTokens usage)
  ++ add_positive "gateway_cost_micro_usd_total" [tier; provider] (ev_CostMicroUSD usage)
  ++ add_positive "gateway_price_micro_usd_total" [tier; provider] (ev_PriceMicroUSD usage)
  ++ (if 0 <? ev_TimeToFirstByte usage
      then [Observe "gateway_time_to_first_byte_seconds" [tier; provider] (Seconds (ev_TimeToFirstByte usage))] else []).

Definition Write (events : list Event) : list update :=
  events ≫= (fun e => match e with EvUsage u => write_usage u | EvAudit _ => [] end).
End prometheus.

(** ** The log sink *)
Module logsink.
Inductive value := VString (s : string) | VInt (z : Z) | VDuration (d : duration).
Definition record : Type := string * list (string * value).
Definition Name : string := "log".

Section sink.
Context (addr_text : Addr -> string).
Definition Write_one (event : Event) : record :=
  match event with
  | EvUsage e =>
      ("usage", [("request_id", VString (ev_RequestID e)); ("tenant", VString (ev_Tenant e)); ("tier", VString (ev_Tier e));
        ("key_id", VString (ev_KeyID e)); ("deployment", VString (ev_Deployment e));
        ("route", VString (RoutingKey_String (ev_Route e))); ("input_tokens", VInt (ev_InputTokens e));
        ("cached_input_tokens", VInt (ev_CachedInputTokens e)); ("cache_write_tokens", VInt (ev_CacheWriteTokens e));
        ("output_tokens", VInt (ev_OutputTokens e)); ("cost_micro_usd", VInt (ev_CostMicroUSD e));
        ("price_micro_usd", VInt (ev_PriceMicroUSD e)); ("latency_ms", VInt (ev_LatencyMs e));
        ("ttfb", VDuration (ev_TimeToFirstByte e)); ("outcome", VString (ev_Outcome e));
        ("snapshot_version", VInt (ev_SnapshotVersion e))])
  | EvAudit e =>
      ("audit", [("event_id", VString (au_EventID e)); ("request_id", VString (au_RequestID e)); ("tenant", VString (au_Tenant e));
        ("actor", VString (au_Actor e)); ("action", VString (au_Action e)); ("resource", VString (au_Resource e));
        ("outcome", VString (au_Outcome e)); ("reason", VString (au_Reason e)); ("source_ip", VString (addr_text (au_SourceIP e)));
        ("snapshot_version", VInt (au_SnapshotVersion e))])
  end.
Definition Write (events : list Event) : list record := Write_one <$> events.
End sink.
End logsink.

(** ** Facts *)

(** A stage's duration on the wire fits its 32 bits, and is exact whenever it can be. *)
Lemma stage_ms_fits d :
  in_uint32 (redisstream.stage_ms d) /\ (in_uint32 (Milliseconds d) -> redisstream.stage_ms d = Milliseconds d).
Proof.
  unfold redisstream.stage_ms, in_uint32, MaxUint32. destruct (Z.ltb_spec (Milliseconds d) 0);
    repeat match goal with |- context [?a <? ?b] => destruct (Z.ltb_spec a b) end; lia.
Qed.

Section streams.
Context (addr_text : Addr -> string) (Marshal : usagepb.Message -> error + bytes).
#[local] Abbreviation queue_one := (redisstream.queue_one addr_text Marshal).

(** What a stream receives of a pipeline. *)
Definition payloads (name : string) (queue : list redisstream.XAddArgs) : list bytes :=
  omap (fun a => if bool_decide (redisstream.x_Stream a = name) then redisstream.x_Values a !! redisstream.PayloadField else None) queue.

Definition usages (events : list Event) : list UsageEvent := omap (fun e => match e with EvUsage u => Some u | _ => None end) events.
Definition audits (events : list Event) : list AuditEvent := omap (fun e => match e with EvAudit a => Some a | _ => None end) events.

(** A pipeline that carries a batch: each event as the entry of its stream, in the batch's order. *)
Definition carries (s : redisstream.Sink) (events : list Event) (queue : list redisstream.XAddArgs) : Prop :=
  length queue = length events
  /\ Forall2 (fun u p => Marshal (usagepb.MUsage (redisstream.encode u)) = inr p) (usages events) (payloads (redisstream.stream s) queue)
  /\ Forall2 (fun a p => Marshal (usagepb.MAudit (redisstream.encodeAudit addr_text a)) = inr p) (audits events)
       (payloads (redisstream.auditStream s) queue).

Lemma payloads_snoc name queue a :
  payloads name (queue ++ [a]) = payloads name queue ++ payloads name [a].
Proof. unfold payloads. apply omap_app. Qed.

Lemma payloads_one name stream len p :
  payloads name [redisstream.mkXAdd stream len true {[ redisstream.PayloadField := p ]}] = if bool_decide (stream = name) then [p] else [].
Proof.
  unfold payloads. cbn [omap list_omap redisstream.x_Stream redisstream.x_Values].
  case_bool_decide; [by rewrite lookup_singleton_eq|done].
Qed.

Lemma queue_all_carries s done queue events queue' :
  redisstream.stream s <> redisstream.auditStream s -> carries s done queue ->
  foldM (queue_one s) queue events = inr queue' -> carries s (done ++ events) queue'.
Proof.
  intros Hs. revert done queue. induction events as [|e events IH]; intros done queue Hc.
  { intros [= <-]. by rewrite app_nil_r. }
  cbn [foldM]. unfold queue_one at 1. destruct (redisstream.route addr_text s e) as [[name len] msg] eqn:Er.
  destruct (Marshal msg) as [err|p] eqn:Em; [done|]. intros H.
  rewrite cons_middle, app_assoc. eapply IH; [|exact H]. destruct Hc as (HL & HU & HA).
  split; [rewrite !length_app, HL; reflexivity|]. rewrite !payloads_snoc, !payloads_one. unfold usages, audits. rewrite !omap_app.
  destruct e as [u|a]; injection Er as <- <- <-.
  - rewrite bool_decide_true, bool_decide_false by done. cbn. rewrite !app_nil_r. split; [|done].
    apply Forall2_app; [done|]. by repeat constructor.
  - rewrite bool_decide_false, bool_decide_true by done. cbn. rewrite !app_nil_r. split; [done|].
    apply Forall2_app; [done|]. by repeat constructor.
Qed.

(** A published batch is on its streams, whole and in order.  When the stream sink reports
    success, one pipeline was executed without an error (none for an empty batch) in which every
    usage event of the batch is an entry of the usage stream and every audit event one of the audit
    stream, each in the order they were emitted and encoded by the shared schema, and nothing
    else. *)
Theorem published_batch_is_whole {X} (Exec : list redisstream.XAddArgs -> X -> option error * X) s events x x' :
  redisstream.stream s <> redisstream.auditStream s ->
  redisstream.Write addr_text Marshal Exec s events x = (None, x') ->
  (events = [] /\ x' = x) \/ exists queue, carries s events queue /\ Exec queue x = (None, x').
Proof.
  intros Hs. unfold redisstream.Write. destruct (foldM (queue_one s) [] events) as [err|queue] eqn:E; [done|].
  apply (queue_all_carries s [] [] events) in E; [|done|by repeat constructor]. cbn in E.
  destruct queue as [|a queue].
  - intros [= <-]. left. split; [|done]. destruct E as (HL & _). by destruct events.
  - destruct (Exec (a :: queue) x) as [[err|] x1] eqn:Ex; [done|]. intros [= <-]. right. eauto.
Qed.
End streams.

Definition demo_usage : UsageEvent :=
  mkUsageEvent "r1" 0 "acme" "k1" "gold" "d1" (mkRoutingKey "m" "") "echo" false false [] 1 2 0 0 5 5 40 0 "" 7 ["b"].
Definition demo_marshal (m : usagepb.Message) : error + bytes := inr (String.list_ascii_of_string (match m with usagepb.MUsage _ => "u" | usagepb.MAudit _ => "a" end)).
Definition demo_sink : redisstream.Sink :=
  redisstream.mkSink redisstream.DefaultStream redisstream.DefaultAuditStream 10 10 redisstream.defaultTimeout.
Definition demo_exec (queue : list redisstream.XAddArgs) (log : list redisstream.XAddArgs) : option error * list redisstream.XAddArgs :=
  (None, log ++ queue).

Lemma published_batch_is_whole_witness :
  exists queue, carries (fun _ => "") demo_marshal demo_sink [EvUsage demo_usage] queue /\ length queue = 1%nat.
Proof.
  destruct (published_batch_is_whole (fun _ => "") demo_marshal demo_exec demo_sink [EvUsage demo_usage] []
    [redisstream.mkXAdd redisstream.DefaultStream 10 true {[ redisstream.PayloadField := String.list_ascii_of_string "u" ]}]) as [[? _]|(queue & Hc & _)].
  - apply (bool_decide_unpack _). vm_compute. exact I.
  - vm_compute. reflexivity.
  - discriminate.
  - exists queue. split; [exact Hc|]. exact (proj1 Hc).
Defined.

(** *** Metrics *)

(** The same event of another tenant, key, request, deployment, model, budget or configuration. *)
Definition reattribute (other u : UsageEvent) : UsageEvent :=
  mkUsageEvent (ev_RequestID other) (ev_Timestamp other) (ev_Tenant other) (ev_KeyID other) (ev_Tier u) (ev_Deployment other)
    (ev_Route other) (ev_Provider u) (ev_Stream u) (ev_Shadow other) (ev_Stages other) (ev_InputTokens u) (ev_OutputTokens u)
    (ev_CachedInputTokens u) (ev_CacheWriteTokens u) (ev_CostMicroUSD u) (ev_PriceMicroUSD u) (ev_LatencyMs u)
    (ev_TimeToFirstByte u) (ev_Outcome u) (ev_SnapshotVersion other) (ev_Budgets other).

(** Metrics do not grow with the tenants: no update depends on who an event is about, so the series
    a batch touches are named by tier, outcome, provider and direction alone; and no label is
    empty. *)
Lemma metrics_do_not_name_tenants u other : prometheus.write_usage (reattribute other u) = prometheus.write_usage u.
Proof. reflexivity. Qed.

Lemma labelOr_nonempty v d : d <> "" -> prometheus.labelOr v d <> "".
Proof. intros Hd. unfold prometheus.labelOr. by case_bool_decide. Qed.

Lemma metric_labels_are_never_empty events :
  Forall (fun u => Forall (fun l => l <> "") (prometheus.labels_of u)) (prometheus.Write events).
Proof.
  assert (Ht : forall v, prometheus.labelOr v "unknown" <> "") by (intros; by apply labelOr_nonempty).
  assert (Ho : forall v, prometheus.labelOr v "ok" <> "") by (intros; by apply labelOr_nonempty).
  assert (Hp : forall v, prometheus.labelOr v "none" <> "") by (intros; by apply labelOr_nonempty).
  apply Forall_bind, Forall_true. intros [u|a]; [|constructor]. unfold prometheus.write_usage.
  apply Forall_app. split; [destruct (ev_Stream u); repeat constructor; auto|].
  rewrite !list.Forall_app. split_and!; unfold prometheus.add_positive;
    (case_match; [repeat constructor; auto; discriminate|constructor]).
Qed.

(** Every update is of a registered collector, with as many label values as it has labels. *)
Definition of_a_collector (u : prometheus.update) : bool :=
  existsb (fun c => bool_decide (c.1 = prometheus.metric_of u) && (length c.2 =? length (prometheus.labels_of u))%nat) prometheus.collectors.

Lemma updates_match_their_collectors u : forallb of_a_collector (prometheus.write_usage u) = true.
Proof.
  unfold prometheus.write_usage, prometheus.add_positive. rewrite !forallb_app, !andb_true_iff.
  split_and!; case_match; reflexivity.
Qed.

(** A mirrored call is counted as a request served, like any other. *)
Lemma shadow_calls_count_as_requests u :
  exists labels rest, prometheus.Write [EvUsage (reattribute (mkUsageEvent "" 0 "" "" "" "" (mkRoutingKey "" "") "" false true [] 0 0 0 0 0 0 0 0 "" 0 []) u)]
    = prometheus.Add "gateway_requests_total" labels (of_int 1) :: rest.
Proof. by eexists _, _. Qed.
