(* ===== verification/Payloads.v ===== *)
(** * What detection does to a JSON payload

    The detectors read the bytes of the request body, which is JSON.  In it a line break of a prompt
    is a backslash and the letter n, and the detectors take that letter for part of a word. *)
From S2P Require Import Prelude Errors Core Text Json Kv Placeholder Detect Transform Format Adapters.
From Stdlib Require Import ZArith Lia Ascii.
From stdpp Require Import base gmap strings list.
Open Scope Z_scope.
Open Scope gw_scope.

(** A chat request whose prompt is the given bytes, as they stand in the body. *)
Definition prompt (content : bytes) : bytes :=
  str "{" ++ quoted (str "model") ++ str ":" ++ quoted (str "m") ++ str "," ++ quoted (str "content") ++ str ":"
  ++ [dquote] ++ content ++ [dquote] ++ str "}".

Definition line_break : bytes := [backslash; "n"%char].

Definition prepared (body : bytes) : option (error + bytes) :=
  openai.prepareBody
    (mkCall NoDeployment (mkMeta "r" "m" EndpointChatCompletions false 0 AddrInvalid "" 0 0) body NoCredential) false.

(** An address at the start of a line takes the n of the line break with it.  The placeholder then
    follows a lone backslash, the body is no longer JSON, and the adapter refuses it as a fault of
    the caller. *)
Lemma address_at_line_start_breaks_the_payload :
  let mail := str "bob@example.com" in
  let transformed body := t_Payload <$> Transform (fun _ _ => []) body StrategyTokenize [] in
  match transformed (prompt (str "to " ++ mail)), transformed (prompt (str "to" ++ line_break ++ mail)) with
  | Some good, Some bad =>
      (exists out, prepared good = Some (inr out))
      /\ bad = prompt (str "to" ++ [backslash] ++ str "[[EMAIL_1]]") /\ prepared bad = Some (inl notAnObject)
  | _, _ => False
  end.
Proof. vm_compute. split; [by eexists|by split]. Qed.

(** A card number at the start of a line is not at a word boundary, and is sent in the clear. *)
Lemma card_at_line_start_is_missed :
  let card := str "4111 1111 1111 1111" in
  (m_Kind <$> Detect (prompt (str "card " ++ card))) = [KindCard]
  /\ Detect (prompt (str "card" ++ line_break ++ card)) = [].
Proof. vm_compute. by split. Qed.
