(* ===== verification/HttpApi.v ===== *)
(** * HTTP transport (httpapi/errors.go, httpapi/server.go)

    A request becomes a [Pipeline.Request] under one lease of the snapshot, and the result, the
    error or the stream becomes a response.  [Writer] is what [http.ResponseWriter] keeps: headers
    are taken when the status is committed and later changes to them do not reach the caller.
    Reads of the body, the peer's address and the writes that fail are the environment's.  A panic
    is a value of the left side.  Logging and the recording of spans are left out; the trace
    identifier they provide is an argument. *)
From S2P Require Import Prelude Errors Core Snapshot SnapshotFacts Holder HolderFacts Policy Float64 Breaker Kv Strconv.
From Stdlib Require Import ZArith Lia Ascii.
From stdpp Require Import base gmap strings list.
From S2P Require Import Text Json JsonFacts Format HttpText Codec.
From S2P Require Import Placeholder Restorer Detect Transform Limits LimitsFacts Guardrails Router Shadow Telemetry Pipeline PipelineFacts Gateway.
Open Scope Z_scope.
Open Scope gw_scope.

(** ** http.ResponseWriter *)

Abbreviation Header := (gmap string (list (list ascii))) (only parsing).
Definition Get (h : Header) (k : string) : list ascii := default [] (h !! k ≫= head).

Record Writer := mkWriter {
  wr_header : Header;                    (* as the handler left it *)
  wr_sent : option (Z * Header);         (* the status and the headers committed with it *)
  wr_body : list ascii;
  wr_flushed : list nat }.               (* how much of the body each flush pushed to the caller *)
Definition fresh_writer : Writer := mkWriter ∅ None [] [].

Definition Set_ (k : string) (v : list ascii) (w : Writer) : Writer :=
  mkWriter (<[k := [v]]> (wr_header w)) (wr_sent w) (wr_body w) (wr_flushed w).
Definition Add_ (k : string) (v : list ascii) (w : Writer) : Writer :=
  mkWriter (<[k := default [] (wr_header w !! k) ++ [v]]> (wr_header w)) (wr_sent w) (wr_body w) (wr_flushed w).

(** The first [WriteHeader] counts. *)
Definition WriteHeader (status : Z) (w : Writer) : Writer :=
  match wr_sent w with
  | Some _ => w
  | None => mkWriter (wr_header w) (Some (status, wr_header w)) (wr_body w) (wr_flushed w)
  end.
(** A code that is not three digits panics. *)
Definition bad_status (status : Z) : bool := (status <? 100) || (999 <? status).

Definition Write (b : list ascii) (w : Writer) : Writer :=
  let w := WriteHeader 200 w in mkWriter (wr_header w) (wr_sent w) (wr_body w ++ b) (wr_flushed w).
Definition Flush_ (w : Writer) : Writer :=
  let w := WriteHeader 200 w in mkWriter (wr_header w) (wr_sent w) (wr_body w) (wr_flushed w ++ [length (wr_body w)]).

(** ** errors.go *)

Definition statusByCode : gmap Code Z := list_to_map
  [(CodeUnauthenticated, 401); (CodeForbidden, 403); (CodeTrustTierDenied, 403); (CodeInvalidRequest, 400);
   (CodeModelNotFound, 404); (CodeEndpointUnsupported, 404); (CodeNoCandidates, 503); (CodeRateLimited, 429);
   (CodeBudgetExhausted, 402); (CodeGuardrailDenied, 422); (CodeUpstreamError, 502);
   (CodeUpstreamTimeout, 504); (CodeUnavailable, 503); (CodeInternal, 500)].

Definition typeForStatus (status : Z) : list ascii :=
  text (if 500 <=? status then "server_error" else "invalid_request_error").

Definition member (k : string) (v : json) : list ascii * json := (text k, v).

(** [errorBody], encoded. *)
Definition errorBody (message typ code : list ascii) (requestID : list ascii) : json :=
  JObj [member "error" (JObj ([member "message" (MarshalString message); member "type" (MarshalString typ);
                               member "code" (MarshalString code)]
          ++ match requestID with [] => [] | _ => [member "request_id" (MarshalString requestID)] end))].

Definition newline : ascii := zb 10.

(** [strings.Cut]: what follows the first occurrence. *)
Fixpoint Cut_after (s sep : list ascii) : option (list ascii) :=
  match CutPrefix s sep with
  | Some rest => Some rest
  | None => match s with [] => None | _ :: s' => Cut_after s' sep end
  end.

(** ** Requests and streams *)

Record HRequest := mkHReq {
  hr_Method : string; hr_Path : string; hr_Header : Header; hr_RemoteAddr : list ascii;
  hr_Content : bytes;                  (* what arrives of the body *)
  hr_ReadError : option error;         (* and the error that cuts it short *)
  hr_Deadline : option time;
  hr_accepts : nat -> bool }.          (* whether the peer takes the n-th write of a stream *)

(** [core.ChunkStream]. *)
Class ChunkStream (Strm X : Type) := {
  Next : Strm -> X -> (Chunk * option error) * Strm * X;
  Close : Strm -> X -> X }.

Inductive panic := Panic (v : string) | ErrAbortHandler.

(** How a handler's call stands: [Streaming] is a relay that has not come to its end. *)
Inductive outcome := Returned | Panicked (v : panic) | Streaming.

Section server.
Context (isPrint : Z -> bool).

Definition retryAfterFrom (err : error) : duration :=
  match errors_As err with
  | None => 0
  | Some (_, msg, _) =>
      match Cut_after (Format.render isPrint msg) (text "retry in ") with
      | None => 0
      | Some after => default 0 (ParseDuration after)
      end
  end.

Definition error_status (err : error) : Z := default 500 (statusByCode !! CodeOf (Some err)).

(** The message the caller sees. *)
Definition error_message (err : error) : list ascii :=
  if 500 <=? error_status err then text "internal error"
  else match errors_As err with
       | Some (_, msg, _) =>
           match Format.render isPrint msg with [] => Error_Error isPrint err | m => m end
       | None => Error_Error isPrint err
       end.

Definition writeError (requestID : string) (err : error) (w : Writer) : Writer :=
  let code := CodeOf (Some err) in
  let status := error_status err in
  let w := if status =? 429
           then let after := retryAfterFrom err in
                if 0 <? after then Set_ "Retry-After" (FormatInt (trunc (Seconds after))) w else w
           else w in
  let w := Set_ "Content-Type" (text "application/json") w in
  let w := WriteHeader status w in
  Write (print (errorBody (error_message err) (typeForStatus status) (text code) (text requestID)) ++ [newline]) w.

(** ** server.go *)

Definition maxBodyBytes : Z := Z.shiftl 8 20.
Definition HeaderRequestID : string := "X-Request-Id".
Definition HeaderSnapshotVersion : string := "X-Gateway-Snapshot-Version".
Definition HeaderWarning : string := "Warning".
Definition deprecatedKeyWarning : list ascii :=
  text "299 - " ++ [dquote] ++ text "This API key is deprecated and will stop working after its rotation window" ++ [dquote].

(** [io.ReadAll(http.MaxBytesReader(w, r.Body, maxBodyBytes))], with the errors it is turned into. *)
Definition ReadBody (r : HRequest) (w : Writer) : (error + bytes) * Writer :=
  if maxBodyBytes <? Z.of_nat (length (hr_Content r))
  then (inl (Newf CodeInvalidRequest "request body exceeds the %d byte limit" [AInt maxBodyBytes]),
        Set_ "Connection" (text "close") w)
  else match hr_ReadError r with
       | Some e => (inl (GwError CodeInvalidRequest (Msg "reading the request body" []) false (Some e)), w)
       | None => (inr (hr_Content r), w)
       end.

Record completionRequest := mkCompletion { cr_Model : list ascii; cr_Stream : bool }.
Definition dec_completion : decoder completionRequest :=
  dec_struct [(text "model", at_field cr_Model (fun m c => mkCompletion m (cr_Stream c)) dec_string);
              (text "stream", at_field cr_Stream (fun b c => mkCompletion (cr_Model c) b) dec_bool)].

(** The model and the stream flag, or why the payload is refused. *)
Definition parseCompletion (body : bytes) : error + completionRequest :=
  match Json.Unmarshal dec_completion (mkCompletion [] false) body with
  | None => inl (GwError CodeInvalidRequest (Msg "parsing the request body" []) false
                   (Some (Foreign "encoding/json" None)))
  | Some parsed =>
      if bool_decide (cr_Model parsed = []) then inl (New CodeInvalidRequest "the request has no model")
      else if negb (validModelName (cr_Model parsed))
      then inl (New CodeInvalidRequest "the model name is malformed or too long")
      else inr parsed
  end.

(** [errors.Is(err, io.EOF)]. *)
Definition is_EOF (e : error) : bool := wraps "EOF" e.
Definition EOF : error := Foreign "EOF" None.

Definition sse (b : list ascii) : list ascii := text "data: " ++ b ++ [newline; newline].
Definition done_event : list ascii := sse (text "[DONE]").
Definition error_event (err : error) (requestID : string) : list ascii :=
  text "event: error" ++ [newline]
  ++ sse (text "{" ++ Quote isPrint (text "error") ++ text ":{" ++ Quote isPrint (text "code") ++ text ":"
          ++ Quote isPrint (text (CodeOf (Some err))) ++ text "," ++ Quote isPrint (text "request_id") ++ text ":"
          ++ Quote isPrint (text requestID) ++ text "}}").

Context {L C S P Strm X : Type} `{!RateLimiter L} `{!GuardrailChain C} `{!KVStore S} `{!ChunkStream Strm X}.
Context (p : Pipeline P Strm X).

(** What the handlers are built from. *)
Record Server := mkServer {
  newID : nat -> string;
  traceID : HRequest -> string;          (* [tracing.TraceIDFrom]; empty without tracing *)
  wall : nat -> time;                    (* [time.Now], a reading at a time *)
  ParseAddr : list ascii -> option Addr; (* [netip.ParseAddr] *)
  canFlush : bool;
  allowedOrigins : list (list ascii) }.
Context (srv : Server).

(** What the handlers share. *)
Record HS := mkHS { hs_holder : Holder; hs_st : St L C S X; hs_tick : nat }.
Definition set_st (st : St L C S X) (s : HS) : HS := mkHS (hs_holder s) st (hs_tick s).
Definition set_tick (n : nat) (s : HS) : HS := mkHS (hs_holder s) (hs_st s) n.
Definition set_holder (h : Holder) (s : HS) : HS := mkHS h (hs_st s) (hs_tick s).
Definition handler : Type := HRequest -> Writer -> HS -> outcome * Writer * HS.

(** ** Relaying a stream *)

Record Relay := mkRelay {
  rl_w : Writer; rl_chunks : Strm; rl_restorer : Restorer; rl_usage : TokenUsage; rl_ttfb : duration;
  rl_writes : nat; rl_ext : X; rl_tick : nat }.

Inductive ended := EndEOF | EndFailed (e : error) | EndGone.

Definition ending (err : option error) : option ended :=
  match err with
  | None => None
  | Some e => Some (if is_EOF e then EndEOF else EndFailed e)
  end.

(** One turn of the loop of [streamCompletion]. *)
Definition relay_step (accepts : nat -> bool) (started : time) (r : Relay) : option ended * Relay :=
  let '((chunk, err), chunks, x) := Next (rl_chunks r) (rl_ext r) in
  let usage := if negb (Input (chunk_Usage chunk) =? 0) || negb (Output (chunk_Usage chunk) =? 0)
               then chunk_Usage chunk else rl_usage r in
  let '(body, restorer) := Push (chunk_Body chunk) (rl_restorer r) in
  if bool_decide (body = [])
  then (ending err, mkRelay (rl_w r) chunks restorer usage (rl_ttfb r) (rl_writes r) x (rl_tick r))
  else
    let '(ttfb, tick) := if rl_ttfb r =? 0 then (Sub (wall srv (rl_tick r)) started, Datatypes.S (rl_tick r))
                         else (rl_ttfb r, rl_tick r) in
    if negb (accepts (rl_writes r))
    then (Some EndGone, mkRelay (rl_w r) chunks restorer usage ttfb (Datatypes.S (rl_writes r)) x tick)
    else (ending err, mkRelay (Flush_ (Write (sse body) (rl_w r))) chunks restorer usage ttfb
                        (Datatypes.S (rl_writes r)) x tick).

Fixpoint relay (fuel : nat) (accepts : nat -> bool) (started : time) (r : Relay) : option (ended * Relay) :=
  match fuel with
  | O => None
  | Datatypes.S n =>
      match relay_step accepts started r with
      | (Some how, r) => Some (how, r)
      | (None, r) => relay n accepts started r
      end
  end.

(** A write whose error is ignored. *)
Definition try_write (accepts : nat -> bool) (n : nat) (b : list ascii) (w : Writer) : Writer :=
  if accepts n then Write b w else w.

(** What is written once the loop is left. *)
Definition close_stream (accepts : nat -> bool) (requestID : string) (how : ended) (r : Relay) : Writer :=
  match how with
  | EndGone => rl_w r
  | EndFailed e => Flush_ (try_write accepts (rl_writes r) (error_event e requestID) (rl_w r))
  | EndEOF =>
      let tail := (Flush (rl_restorer r)).1 in
      let '(w, n) := if bool_decide (tail = []) then (rl_w r, rl_writes r)
                     else (try_write accepts (rl_writes r) (sse tail) (rl_w r), Datatypes.S (rl_writes r)) in
      Flush_ (try_write accepts n done_event w)
  end.

Definition write_error : error := Foreign "write: broken pipe" None.
Definition stream_error (how : ended) : option error :=
  match how with
  | EndEOF => None
  | EndFailed e => Some e
  | EndGone => Wrap CodeUpstreamError (Some write_error) "client disconnected"
  end.

Definition warn (principal : Principal) (w : Writer) : Writer :=
  if p_Deprecated principal then Set_ HeaderWarning deprecatedKeyWarning w else w.

Definition stream_headers (w : Writer) : Writer :=
  Flush_ (WriteHeader 200
    (Set_ "X-Accel-Buffering" (text "no") (Set_ "Cache-Control" (text "no-cache")
      (Set_ "Content-Type" (text "text/event-stream") w)))).

(** [streamCompletion]: the deferred calls are [Finish], then [Close]. *)
Definition streamCompletion (fuel : nat) (r : HRequest) (snap : Snapshot) (req : Request) (requestID : string)
    (w : Writer) (s : HS) : outcome * Writer * HS :=
  if negb (canFlush srv)
  then (Returned, writeError requestID (New CodeInternal "this server cannot stream") w, s)
  else
    let '((result, err), st) := HandleStream p snap req (hs_st s) in
    let w := warn (str_Principal result) w in
    match err with
    | Some e => (Returned, writeError requestID e w, set_st st s)
    | None =>
        match str_Chunks result, str_Restorer result with
        | Some chunks, Some restorer =>
            let started := wall srv (hs_tick s) in
            match relay fuel (hr_accepts r) started
                    (mkRelay (stream_headers w) chunks restorer NoUsage 0 0 (w_ext st.2) (Datatypes.S (hs_tick s))) with
            | None => (Streaming, stream_headers w, set_st st s)
            | Some (how, rl) =>
                let wd := (Finish p result (rl_usage rl) (rl_ttfb rl) (stream_error how)
                             (set_ext (rl_ext rl) st.2)).2 in
                let wd := set_ext (Close (rl_chunks rl) (w_ext wd)) wd in
                (Returned, close_stream (hr_accepts r) requestID how rl, mkHS (hs_holder s) (st.1, wd) (rl_tick rl))
            end
        | _, _ => (Panicked (Panic "nil pointer dereference"), w, set_st st s)
        end
    end.

(** ** Serving one request *)

(** The gateway request of a parsed payload. *)
Definition gatewayRequest (r : HRequest) (endpoint : Endpoint) (requestID : string) (body : bytes)
    (parsed : completionRequest) (received : time) : Request :=
  mkRequest
    (mkMeta requestID (String.string_of_list_ascii (cr_Model parsed)) endpoint (cr_Stream parsed)
       (Z.of_nat (length body)) (clientIP (ParseAddr srv) (hr_RemoteAddr r))
       (String.string_of_list_ascii (Get (hr_Header r) "Idempotency-Key")) received (default 0 (hr_Deadline r)))
    (String.string_of_list_ascii (bearerToken (Get (hr_Header r) "Authorization"))) body false.

(** From the leased snapshot on. *)
Definition serveLeased (fuel : nat) (endpoint : Endpoint) (r : HRequest) (snap : Snapshot) (requestID : string)
    (w : Writer) (s : HS) : outcome * Writer * HS :=
  let w := Set_ HeaderSnapshotVersion (LayerVersion_String isPrint (GlobalVersion snap)) w in
  let '(read, w) := ReadBody r w in
  match read with
  | inl err => (Returned, writeError requestID err w, s)
  | inr body =>
      match parseCompletion body with
      | inl err => (Returned, writeError requestID err w, s)
      | inr parsed =>
          let req := gatewayRequest r endpoint requestID body parsed (wall srv (hs_tick s)) in
          let s := set_tick (Datatypes.S (hs_tick s)) s in
          if cr_Stream parsed then streamCompletion fuel r snap req requestID w s
          else
            let '((result, err), st) := Handle p snap req (hs_st s) in
            let s := set_st st s in
            let w := warn (res_Principal result) w in
            match err with
            | Some e => (Returned, writeError requestID e w, s)
            | None =>
                let w := Set_ "Content-Type" (text "application/json") w in
                if bad_status (res_StatusCode result) then (Panicked (Panic "invalid WriteHeader code"), w, s)
                else (Returned, Write (res_Body result) (WriteHeader (res_StatusCode result) w), s)
            end
      end
  end.

(** [serveCompletion]: the lease is released however the request ends. *)
Definition serveCompletion (fuel : nat) (endpoint : Endpoint) : handler := fun r w s =>
  let '(requestID, s) := if bool_decide (traceID srv r = "")
                         then (newID srv (hs_tick s), set_tick (Datatypes.S (hs_tick s)) s)
                         else (traceID srv r, s) in
  let w := Set_ HeaderRequestID (text requestID) w in
  match Acquire (hs_holder s) with
  | None => (Streaming, w, s)
  | Some (lease, snap, h) =>
      let '(how, w, s) := serveLeased fuel endpoint r snap requestID w (set_holder h s) in
      (how, w, match how with Streaming => s | _ => set_holder (Holder.Release (hs_holder s) lease) s end)
  end.

(** ** The handler set *)

Definition cors_headers (origin : list ascii) (w : Writer) : Writer :=
  Set_ "Access-Control-Max-Age" (text "600")
    (Set_ "Access-Control-Expose-Headers" (text "X-Request-Id, X-Gateway-Snapshot-Version, Warning")
      (Set_ "Access-Control-Allow-Methods" (text "POST, GET, OPTIONS")
        (Set_ "Access-Control-Allow-Headers" (text "Authorization, Content-Type")
          (Add_ "Vary" (text "Origin") (Set_ "Access-Control-Allow-Origin" origin w))))).

Definition withCORS (next : handler) : handler := fun r w s =>
  if bool_decide (allowedOrigins srv = []) then next r w s
  else
    let origin := Get (hr_Header r) "Origin" in
    if bool_decide (origin = []) || negb (bool_decide (origin ∈ allowedOrigins srv)) then next r w s
    else
      let w := cors_headers origin w in
      if bool_decide (hr_Method r = "OPTIONS") then (Returned, WriteHeader 204 w, s) else next r w s.

Definition recoverPanics (next : handler) : handler := fun r w s =>
  match next r w s with
  | (Panicked (Panic v), w, s) =>
      (Returned, writeError (String.string_of_list_ascii (Get (wr_header w) HeaderRequestID))
                   (New CodeInternal "internal error") w, s)
  | res => res
  end.

(** *** Readiness *)
Definition num (z : Z) : json := JNum (FormatInt z).

Definition jstr (s : string) : json := MarshalString (text s).
(** A [map[string]any]: the encoder sorts the keys. *)
Definition jmap (l : list (list ascii * json)) : json := JObj (sort_keys l).

(** What the optional probes report. *)
Record Probes := mkProbes {
  pr_subscriber : option Subscriber;
  pr_router : option (list DeploymentHealth);
  pr_guardrails : option Guardrails.Stats;
  pr_telemetry : option EmitterStats;
  formatFloat : float64 -> list ascii }.

Definition subscriber_json (s : Subscriber) : json :=
  jmap [member "digest" (jstr (default "" (sub_digest s))); member "applied" (num (sub_applied s));
        member "unchanged" (num (sub_unchanged s)); member "failed" (num (sub_failed s));
        member "rejected" (num (sub_rejected s));
        member "last_error" (MarshalString (from_option (Error_Error isPrint) [] (sub_lastError s)))].
Definition deployment_json (fmt : float64 -> list ascii) (d : DeploymentHealth) : json :=
  jmap [member "deployment" (jstr (dh_Deployment d)); member "score" (JNum (fmt (dh_Score d)));
        member "observations" (num (dh_Observations d)); member "breaker_open" (JBool (dh_BreakerOpen d))].
Definition guardrails_json (g : Guardrails.Stats) : json :=
  jmap [member "evaluated" (num (Evaluated g)); member "denied" (num (Denied g)); member "mutated" (num (Mutated g));
        member "failed_open" (num (FailedOpen g)); member "failed_shut" (num (FailedShut g));
        member "skipped" (num (Skipped g))].
Definition telemetry_json (t : EmitterStats) : json :=
  jmap [member "received" (num (Received t)); member "dropped" (num (EvDropped t));
        member "failed" (num (EvFailed t)); member "queued" (num (Queued t))].

Definition optional {A} (k : string) (f : A -> json) (v : option A) : list (list ascii * json) :=
  match v with Some v => [member k (f v)] | None => [] end.

Definition ready_body (probes : Probes) (h : Holder) : json :=
  let stats := Holder_Stats h in
  jmap ([member "snapshot_version" (num (Number (st_Version stats)));
         member "snapshot_digest" (jstr (Digest (st_Version stats)));
         member "in_flight" (num (st_InFlight stats)); member "draining" (num (st_PreviousInFlight stats));
         member "previous_loaded" (JBool (st_PreviousLoaded stats));
         member "previous_version" (num (Number (st_PreviousVersion stats)))]
        ++ optional "subscriber" subscriber_json (pr_subscriber probes)
        ++ optional "router" (fun ds => JArr (map (deployment_json (formatFloat probes)) ds)) (pr_router probes)
        ++ optional "guardrails" guardrails_json (pr_guardrails probes)
        ++ optional "telemetry" telemetry_json (pr_telemetry probes)).

Definition handleReady (probes : HS -> Probes) : handler := fun r w s =>
  let w := WriteHeader 200 (Set_ "Content-Type" (text "application/json") w) in
  (Returned, Write (print (ready_body (probes s) (hs_holder s)) ++ [newline]) w, s).

Definition healthz : handler := fun r w s => (Returned, Write (text "ok" ++ [newline]) (WriteHeader 200 w), s).

(** A GET pattern also matches HEAD. *)
Definition is_get (m : string) : bool := bool_decide (m = "GET") || bool_decide (m = "HEAD").

(** The routes; [metrics] when it is configured, [other] is what the mux itself answers. *)
Definition mux (fuel : nat) (probes : HS -> Probes) (metrics : option handler) (other : handler) : handler :=
  fun r w s =>
  let post := bool_decide (hr_Method r = "POST") in
  let at_ path := bool_decide (hr_Path r = path) in
  if at_ "/healthz" && is_get (hr_Method r) then healthz r w s
  else if at_ "/readyz" && is_get (hr_Method r) then handleReady probes r w s
  else if at_ "/v1/chat/completions" && post then serveCompletion fuel EndpointChatCompletions r w s
  else if at_ "/v1/messages" && post then serveCompletion fuel EndpointMessages r w s
  else match metrics with
       | Some m => if at_ "/metrics" && is_get (hr_Method r) then m r w s else other r w s
       | None => other r w s
       end.

Definition Handler (fuel : nat) (probes : HS -> Probes) (metrics : option handler) (other : handler) : handler :=
  recoverPanics (withCORS (mux fuel probes metrics other)).
End server.

Arguments HS : clear implicits.
Arguments mkHS {L C S X}.

(** ** NewServer *)

Record Options := mkOptions { o_NewID : option (nat -> string); o_AllowedOrigins : list (list ascii) }.

(** [randomID]: sixteen random bytes. *)
Definition randomID (read : nat -> bytes) (n : nat) : string :=
  hexEncode (firstn 16%nat (read n)).

Definition NewServer {A B} (holder : option A) (pipeline : option B) (opts : Options)
    (read : nat -> bytes) (traceID : HRequest -> string) (wall : nat -> time)
    (ParseAddr : list ascii -> option Addr) (canFlush : bool) : error + Server :=
  match holder, pipeline with
  | Some _, Some _ =>
      inr (mkServer (default (randomID read) (o_NewID opts)) traceID wall ParseAddr canFlush (o_AllowedOrigins opts))
  | _, _ => inl (New CodeInternal "the server needs a snapshot holder and a pipeline")
  end.
