(* ===== verification/HttpApiFacts.v ===== *)
(** * What the transport promises

    What a caller learns from an error, when it may come back, who is granted cross-origin access,
    that every request is answered under its own lease, and that a relayed stream is the provider's
    with every placeholder restored. *)
From S2P Require Import Prelude Errors Core Snapshot SnapshotFacts Holder HolderFacts Policy Float64 Breaker Kv Strconv.
From Stdlib Require Import ZArith Lia Ascii.
From stdpp Require Import base gmap strings list.
From S2P Require Import Text Json JsonFacts Format HttpText Codec.
From S2P Require Import Placeholder Restorer Detect Transform Limits LimitsFacts Guardrails Router RouterFacts Shadow Telemetry Pipeline PipelineFacts Gateway HttpApi.
Open Scope Z_scope.
Open Scope gw_scope.

(** ** The writer *)

Lemma sent_WriteHeader st w : wr_sent (WriteHeader st w) = Some (default (st, wr_header w) (wr_sent w)).
Proof. unfold WriteHeader. by destruct (wr_sent w) eqn:E. Qed.
Lemma header_WriteHeader st w : wr_header (WriteHeader st w) = wr_header w.
Proof. unfold WriteHeader. by destruct (wr_sent w). Qed.
Lemma body_WriteHeader st w : wr_body (WriteHeader st w) = wr_body w.
Proof. unfold WriteHeader. by destruct (wr_sent w). Qed.

Lemma sent_Write b w : wr_sent (Write b w) = Some (default (200, wr_header w) (wr_sent w)).
Proof. apply sent_WriteHeader. Qed.
Lemma header_Write b w : wr_header (Write b w) = wr_header w.
Proof. apply header_WriteHeader. Qed.
Lemma body_Write b w : wr_body (Write b w) = wr_body w ++ b.
Proof. unfold Write. simpl. by rewrite body_WriteHeader. Qed.

Lemma sent_Flush w : wr_sent (Flush_ w) = Some (default (200, wr_header w) (wr_sent w)).
Proof. apply sent_WriteHeader. Qed.
Lemma header_Flush w : wr_header (Flush_ w) = wr_header w.
Proof. apply header_WriteHeader. Qed.
Lemma body_Flush w : wr_body (Flush_ w) = wr_body w.
Proof. apply body_WriteHeader. Qed.
Lemma flushed_WriteHeader status w : wr_flushed (WriteHeader status w) = wr_flushed w.
Proof. unfold WriteHeader. by destruct (wr_sent w). Qed.
Lemma flushed_Write b w : wr_flushed (Write b w) = wr_flushed w.
Proof. apply flushed_WriteHeader. Qed.
Lemma flushed_Flush w : wr_flushed (Flush_ w) = wr_flushed w ++ [length (wr_body w)].
Proof. unfold Flush_. cbn. by rewrite flushed_WriteHeader, body_WriteHeader. Qed.
Create Rewrite HintDb writer.
#[local] Hint Rewrite sent_WriteHeader header_WriteHeader body_WriteHeader sent_Write header_Write body_Write
  sent_Flush header_Flush body_Flush flushed_WriteHeader flushed_Write flushed_Flush : writer.

(** [w'] came from [w] by operations that left the header [k] alone. *)
Definition keeps (k : string) (w w' : Writer) : Prop :=
  wr_header w' !! k = wr_header w !! k
  /\ match wr_sent w with
     | Some v => wr_sent w' = Some v
     | None => forall st h, wr_sent w' = Some (st, h) -> h !! k = wr_header w !! k
     end.

#[local] Instance keeps_preorder k : PreOrder (keeps k).
Proof.
  split.
  - intros w. split; [done|]. destruct (wr_sent w); [done|]. done.
  - intros w1 w2 w3 [H1 H2] [H3 H4]. split; [by rewrite H3|]. destruct (wr_sent w1) as [v|].
    + by rewrite H2 in H4.
    + destruct (wr_sent w2) as [[st h]|]; [|by rewrite <- H1].
      intros st' h'. rewrite H4. intros [= <- <-]. by apply (H2 st).
Qed.

Lemma keeps_Set k k' v w : k <> k' -> keeps k w (Set_ k' v w).
Proof. intros Hk. split; cbn; [by rewrite lookup_insert_ne|]. by destruct (wr_sent w). Qed.
Lemma keeps_Add k k' v w : k <> k' -> keeps k w (Add_ k' v w).
Proof. intros Hk. split; cbn; [by rewrite lookup_insert_ne|]. by destruct (wr_sent w). Qed.
Lemma keeps_WriteHeader k st w : keeps k w (WriteHeader st w).
Proof. split; [by autorewrite with writer|]. rewrite sent_WriteHeader. destruct (wr_sent w); [done|]. by intros ? ? [= <- <-]. Qed.
Lemma keeps_Write k b w : keeps k w (Write b w).
Proof. split; [by autorewrite with writer|]. rewrite sent_Write. destruct (wr_sent w); [done|]. by intros ? ? [= <- <-]. Qed.
Lemma keeps_Flush k w : keeps k w (Flush_ w).
Proof. split; [by autorewrite with writer|]. rewrite sent_Flush. destruct (wr_sent w); [done|]. by intros ? ? [= <- <-]. Qed.

(** Follow a chain of operations back to the writer it started from. *)
Ltac keep := repeat first
  [ reflexivity
  | match goal with
    | |- keeps _ _ (Set_ _ _ ?w) => transitivity w; [|apply keeps_Set; try done]
    | |- keeps _ _ (Add_ _ _ ?w) => transitivity w; [|apply keeps_Add; try done]
    | |- keeps _ _ (WriteHeader _ ?w) => transitivity w; [|apply keeps_WriteHeader]
    | |- keeps _ _ (Write _ ?w) => transitivity w; [|apply keeps_Write]
    | |- keeps _ _ (Flush_ ?w) => transitivity w; [|apply keeps_Flush]
    | |- keeps _ _ (if ?b then _ else _) => destruct b
    end ].

(** ** Errors *)

Lemma statusByCode_range code s : statusByCode !! code = Some s -> 400 <= s <= 599.
Proof.
  unfold statusByCode. intros H%elem_of_list_to_map_2.
  repeat (apply elem_of_cons in H as [H|H]; [injection H as -> ->; lia|]). by apply not_elem_of_nil in H.
Qed.

Lemma error_status_range err : 400 <= error_status err <= 599.
Proof.
  unfold error_status. destruct (statusByCode !! _) as [s|] eqn:E; [by apply statusByCode_range in E|].
  simpl. lia.
Qed.

Section errors.
Context (isPrint : Z -> bool).

(** An error of another package is reported as internal. *)
Lemma foreign_internal err : errors_As err = None -> error_status err = 500.
Proof. intros H. unfold error_status. simpl. by rewrite H. Qed.

Lemma error_message_hides err err' :
  errors_As err = errors_As err' ->
  (forall code m r, errors_As err = Some (code, m, r) -> Format.render isPrint m <> []) ->
  error_message isPrint err = error_message isPrint err'.
Proof.
  intros Ha Hm. unfold error_message. assert (error_status err = error_status err') as <-.
  { unfold error_status, CodeOf. by rewrite Ha. }
  destruct (500 <=? error_status err) eqn:E; [done|]. rewrite <- Ha.
  destruct (errors_As err) as [[[code m] r]|] eqn:H.
  - specialize (Hm _ _ _ eq_refl). by destruct (Format.render isPrint m).
  - rewrite foreign_internal in E by done. done.
Qed.

(** Callers never see why.  Two errors that carry the same code and the same message of the
    gateway's own produce the same response, byte for byte, whatever they wrap: no upstream
    address, credential reference or driver text from a cause reaches the caller.  A server error
    says nothing but its code, and every error answers with a status between 400 and 599. *)
Theorem callers_see_no_causes id err err' w :
  errors_As err = errors_As err' ->
  (forall code m r, errors_As err = Some (code, m, r) -> Format.render isPrint m <> []) ->
  writeError isPrint id err w = writeError isPrint id err' w
  /\ (500 <= error_status err -> error_message isPrint err = text "internal error")
  /\ 400 <= error_status err <= 599.
Proof.
  intros Ha Hm. split_and!; [|intros H; unfold error_message; by rewrite (proj2 (Z.leb_le _ _))|
                              apply error_status_range..].
  unfold writeError. rewrite (error_message_hides err err') by done.
  unfold error_status, retryAfterFrom, CodeOf. by rewrite Ha.
Qed.

(** ** When to come back *)

Lemma Round_seconds ra :
  Second <= ra <= Minute ->
  exists k, 1 <= k <= 60 /\ Round ra Second = k * Second /\ Z.abs (k * Second - ra) <= Second / 2.
Proof.
  intros Hr. unfold Round, Minute, Second in *. cbn [Z.leb].
  rewrite (proj2 (Z.ltb_ge _ _)) by lia. pose proof (Z.quot_rem' ra 1000000000).
  pose proof (Z.rem_bound_pos ra 1000000000). set (q := Z.quot ra 1000000000) in *.
  set (r := Z.rem ra 1000000000) in *. clearbody q r.
  change (1000000000 / 2) with 500000000.
  change (1000000000 <=? 0) with false. cbv iota.
  destruct (r + r <? 1000000000) eqn:E; zify_bools.
  - exists q. lia.
  - rewrite (wrap64_id (ra + 1000000000)) by (unfold in_int64, int64_min, int64_max; lia).
    rewrite wrap64_id by (unfold in_int64, int64_min, int64_max; lia).
    rewrite (proj2 (Z.ltb_lt _ _)) by lia. exists (q + 1). lia.
Qed.

(** The error of a request over its limit. *)
Definition rate_limit_error (ra : duration) : error :=
  Newf CodeRateLimited "rate limit exceeded; retry in %s" [ADur (Round ra Second)].

Lemma retryAfter_rendered d : retryAfterFrom isPrint (Newf CodeRateLimited "rate limit exceeded; retry in %s" [ADur d])
  = default 0 (ParseDuration (Duration_String d)).
Proof.
  unfold retryAfterFrom. cbn [errors_As Newf]. unfold Format.render. cbn [msg_args msg_format].
  change (Sprintf isPrint (text "rate limit exceeded; retry in %s") [ADur d])
    with (text "rate limit exceeded; retry in " ++ Duration_String d ++ []).
  by rewrite app_nil_r.
Qed.

(** A request over its limit is told when to come back: whenever the limiter's answer lies
    between a second and its window of a minute, the response is a 429 whose Retry-After is a whole
    number of seconds from 1 to 60, within half a second of that answer.  The duration travels
    there through the rendered message. *)
Theorem rate_limited_tells_when id ra w :
  Second <= ra <= Minute -> wr_sent w = None ->
  exists k headers, 1 <= k <= 60 /\ Z.abs (k * Second - ra) <= Second / 2
    /\ wr_sent (writeError isPrint id (rate_limit_error ra) w) = Some (429, headers)
    /\ headers !! "Retry-After" = Some [FormatInt k].
Proof.
  intros Hr Hw. destruct (Round_seconds ra Hr) as (k & Hk & Hround & Habs).
  destruct (seconds_read_back k) as [Hp Ht]; [lia|].
  unfold writeError, rate_limit_error. rewrite retryAfter_rendered, Hround, Hp.
  unfold default, from_option, Datatypes.id. change (error_status _) with 429. cbn [Z.eqb Pos.eqb].
  rewrite (proj2 (Z.ltb_lt 0 (k * Second))) by (unfold Second; lia). rewrite Ht.
  autorewrite with writer. cbn [Set_ wr_sent wr_header]. rewrite Hw. simpl.
  eexists k, _. split_and!; [lia..|done|reflexivity|].
  rewrite lookup_insert_ne by done. apply lookup_insert_eq.
Qed.
End errors.

(** ** Relaying *)

(** The events of a run of pushes: what is not empty. *)
Fixpoint events_of (bodies : list bytes) (r : Restorer) : list (list ascii) * Restorer :=
  match bodies with
  | [] => ([], r)
  | b :: rest =>
      let '(out, r) := Push b r in
      let '(evs, r) := events_of rest r in
      (if bool_decide (out = []) then evs else out :: evs, r)
  end.

Lemma events_push_all bodies r :
  concat (events_of bodies r).1 = (push_all bodies r).1 /\ (events_of bodies r).2 = (push_all bodies r).2
  /\ Forall (fun e => e <> []) (events_of bodies r).1.
Proof.
  revert r. induction bodies as [|b rest IH]; intros r; [done|]. cbn [events_of push_all].
  destruct (Push b r) as [out r1]. specialize (IH r1).
  destruct (events_of rest r1) as [evs r2], (push_all rest r1) as [outs r3]. cbn in IH.
  destruct IH as (<- & <- & H). case_bool_decide as E; cbn; [by subst|]. split_and!; [done..|by constructor].
Qed.

(** How much has been written after each of some events, from [n] bytes on. *)
Fixpoint marks (n : nat) (events : list (list ascii)) : list nat :=
  match events with
  | [] => []
  | ev :: rest => let n := (n + length (sse ev))%nat in n :: marks n rest
  end.
Lemma marks_app n a b : marks n (a ++ b) = marks n a ++ marks (n + length (concat (map sse a))) b.
Proof.
  revert n. induction a as [|ev a IH]; intros n; cbn -[sse]; [by rewrite Nat.add_0_r|].
  by rewrite IH, length_app, Nat.add_assoc.
Qed.

(** The usage reported last by a chunk that counts input or output. *)
Definition usage_after (u : TokenUsage) (c : Chunk) : TokenUsage :=
  if negb (Input (chunk_Usage c) =? 0) || negb (Output (chunk_Usage c) =? 0) then chunk_Usage c else u.
Definition last_usage (cs : list Chunk) : TokenUsage := foldl usage_after NoUsage cs.

Section relaying.
Context {Strm X : Type} `{!ChunkStream Strm X}.
Context (srv : Server).

(** A stream that gives the chunks [cs], then [last] with the error that ends it. *)
Inductive yields : Strm -> X -> list Chunk -> Chunk -> error -> Strm -> X -> Prop :=
| yields_end s x c e s' x' : Next s x = ((c, Some e), s', x') -> yields s x [] c e s' x'
| yields_more s x c s1 x1 cs last e s' x' :
    Next s x = ((c, None), s1, x1) -> yields s1 x1 cs last e s' x' -> yields s x (c :: cs) last e s' x'.

Definition how_ended (e : error) : ended := if is_EOF e then EndEOF else EndFailed e.

(** One turn that the peer takes. *)
Lemma relay_step_taken accepts started r c err s x :
  (forall n, accepts n = true) -> Next (rl_chunks r) (rl_ext r) = ((c, err), s, x) ->
  exists r', relay_step srv accepts started r = (ending err, r')
    /\ rl_chunks r' = s /\ rl_ext r' = x /\ rl_restorer r' = (Push (chunk_Body c) (rl_restorer r)).2
    /\ rl_usage r' = usage_after (rl_usage r) c
    /\ wr_body (rl_w r') = wr_body (rl_w r) ++ concat (map sse (events_of [chunk_Body c] (rl_restorer r)).1)
    /\ (is_Some (wr_sent (rl_w r)) -> wr_sent (rl_w r') = wr_sent (rl_w r))
    /\ wr_flushed (rl_w r') = wr_flushed (rl_w r) ++ marks (length (wr_body (rl_w r))) (events_of [chunk_Body c] (rl_restorer r)).1.
Proof.
  intros Ha Hn. unfold relay_step. rewrite Hn. cbn [events_of].
  destruct (Push (chunk_Body c) (rl_restorer r)) as [out restorer]. cbn [fst snd]. fold (usage_after (rl_usage r) c).
  case_bool_decide as E; [eexists; split; [done|]; cbn; by rewrite !app_nil_r|].
  destruct (if rl_ttfb r =? 0 then _ else _) as [ttfb tick]. rewrite Ha. cbn [negb].
  eexists. split; [done|]. cbn [rl_chunks rl_ext rl_restorer rl_usage rl_w].
  split_and!; [done..| | |].
  - autorewrite with writer. cbn. by rewrite app_nil_r.
  - intros [v Hv]. autorewrite with writer. by rewrite Hv.
  - autorewrite with writer. cbn [marks]. by rewrite length_app.
Qed.

Lemma events_cons b rest r :
  (events_of (b :: rest) r).1 = (events_of [b] r).1 ++ (events_of rest (Push b r).2).1
  /\ (events_of (b :: rest) r).2 = (events_of rest (Push b r).2).2.
Proof.
  cbn [events_of]. destruct (Push b r) as [out r1]. cbn. destruct (events_of rest r1) as [evs r2].
  by case_bool_decide.
Qed.

(** The loop, against a peer that takes everything: it ends with the stream. *)
Lemma relay_yields accepts started s x cs last e s' x' r :
  (forall n, accepts n = true) -> yields s x cs last e s' x' -> rl_chunks r = s -> rl_ext r = x ->
  let bodies := chunk_Body <$> (cs ++ [last]) in
  exists r', relay srv (Datatypes.S (length cs)) accepts started r = Some (how_ended e, r')
    /\ rl_chunks r' = s' /\ rl_ext r' = x' /\ rl_restorer r' = (events_of bodies (rl_restorer r)).2
    /\ rl_usage r' = foldl usage_after (rl_usage r) (cs ++ [last])
    /\ wr_body (rl_w r') = wr_body (rl_w r) ++ concat (map sse (events_of bodies (rl_restorer r)).1)
    /\ (is_Some (wr_sent (rl_w r)) -> wr_sent (rl_w r') = wr_sent (rl_w r))
    /\ wr_flushed (rl_w r') = wr_flushed (rl_w r) ++ marks (length (wr_body (rl_w r))) (events_of bodies (rl_restorer r)).1.
Proof.
  intros Ha Hy. revert r. induction Hy as [s x c e s' x' Hn|s x c s1 x1 cs last e s' x' Hn _ IH];
    intros r Hs Hx; cbn [relay length app fmap list_fmap foldl].
  - rewrite <- Hs, <- Hx in Hn. destruct (relay_step_taken accepts started r c (Some e) s' x' Ha Hn)
      as (r' & -> & H1 & H2 & H3 & H4 & H5 & H6 & H7). exists r'. split_and!; try done.
    + rewrite H3. cbn. by destruct (Push _ _).
  - rewrite <- Hs, <- Hx in Hn. destruct (relay_step_taken accepts started r c None s1 x1 Ha Hn)
      as (r1 & -> & H1 & H2 & H3 & H4 & H5 & H6 & H7). cbn [ending].
    destruct (IH r1 H1 H2) as (r' & Hr & K1 & K2 & K3 & K4 & K5 & K6 & K7). cbv zeta in *.
    destruct (events_cons (chunk_Body c) (chunk_Body <$> (cs ++ [last])) (rl_restorer r)) as [E1 E2].
    exists r'. cbn [relay] in Hr. split_and!; [done..| | | | |].
    + by rewrite K3, H3, <- E2.
    + by rewrite K4, H4.
    + rewrite K5, H5, H3, E1, (List.map_app sse), concat_app. by rewrite app_assoc.
    + intros Hv. rewrite K6, H6; [done|done|]. by rewrite H6.
    + rewrite K7, H7, H5, H3, E1, marks_app, length_app. by rewrite <- app_assoc.
Qed.
End relaying.

Section serving.
Context (isPrint : Z -> bool).
Context {L C S P Strm X : Type} `{!RateLimiter L} `{!GuardrailChain C} `{!KVStore S} `{!ChunkStream Strm X}.
Context (p : Pipeline P Strm X) (srv : Server).
Implicit Types (s : HS L C S X) (st : St L C S X).

Lemma stream_fail_inv snap req started r stages err st result st' :
  stream_fail p snap req started r stages err st = ((result, None), st') -> False.
Proof. unfold stream_fail. by destruct (lift _ st). Qed.

(** A streaming attempt that does not fail has opened a stream. *)
Lemma attempt_streams principal req t provider d st :
  let out := attempt p principal req true t provider d st in out.1.2 = None -> is_Some out.1.1.2.
Proof.
  unfold attempt. destruct (resolve p _ _) as [[err|cred] x]; [done|].
  destruct (protect _ _ _ _ _) as [[[err|[body repl]]|] w]; [done| |done].
  destruct (stream p _ _ _ _) as [[err|chunks] x2]; [done|]. intros _. by eexists.
Qed.

(** A stream that starts is open, and restores what its attempt replaced. *)
Definition started_stream (result : StreamResult (Strm:=Strm)) st' : Prop :=
  is_Some (str_Chunks result) /\ str_Restorer result = Some (NewRestorer (w_out st'.2)).

Lemma stream_candidates_started snap req principal started r cands stages st result st' :
  stream_candidates p snap req principal started r cands stages st = ((result, None), st') -> started_stream result st'.
Proof.
  unfold stream_candidates. destruct (lift _ st) as [t1 st1]. unfold adapt, Execute.
  pose proof (walk_answer (Exp2 p) (clk p) (router p) (attempt_env p principal req true) (observed p) (ctxDeadline p)
    (Deadline (req_Meta req)) (fun _ strm => is_Some strm) 0 cands [] None (on_world (set_out ∅) st1)
    ltac:(intros; by apply attempt_streams)) as Hw.
  destruct (walk _ _ _ _ _ _ _ _ _ _ _ _) as [[executed err] st2]. destruct (lift _ st2) as [t2 st3].
  destruct err as [err|]; [by intros ?%stream_fail_inv|].
  intros H. injection H as <- <-. split; [by apply Hw|done].
Qed.

Lemma HandleStream_started snap req st result st' :
  HandleStream p snap req st = ((result, None), st') -> started_stream result st'.
Proof.
  unfold HandleStream, serve_stream. destruct (lift _ st) as [started st0].
  destruct (runStage p [] _ _ st0) as [[[err|principal] stages1] st1]; [by intros ?%stream_fail_inv|].
  destruct (runStage p stages1 _ _ st1) as [[[err|[pr rq]] stages2] st2]; [by intros ?%stream_fail_inv|].
  destruct (runStage p stages2 _ _ st2) as [[[err|body] stages3] st3]; [by intros ?%stream_fail_inv|].
  destruct (runStage p stages3 _ _ st3) as [[[err|cands] stages4] st4]; [by intros ?%stream_fail_inv|].
  apply stream_candidates_started.
Qed.

(** What the caller is left with once the loop is over. *)
Definition closing_bytes (e : error) (tail : list ascii) (id : string) : list ascii :=
  if is_EOF e then (if bool_decide (tail = []) then [] else sse tail) ++ done_event else error_event isPrint e id.

Lemma close_stream_taken accepts id e (rl : Relay (Strm:=Strm) (X:=X)) :
  (forall n, accepts n = true) ->
  let w := close_stream isPrint accepts id (how_ended e) rl in
  wr_body w = wr_body (rl_w rl) ++ closing_bytes e (Flush (rl_restorer rl)).1 id
  /\ (is_Some (wr_sent (rl_w rl)) -> wr_sent w = wr_sent (rl_w rl)) /\ wr_flushed w = wr_flushed (rl_w rl) ++ [length (wr_body w)].
Proof.
  intros Ha. unfold how_ended, closing_bytes, close_stream, try_write. destruct (is_EOF e).
  - case_bool_decide; rewrite !Ha; split_and!; try done; try (intros [v Hv]); autorewrite with writer;
      rewrite ?Hv; rewrite <- ?app_assoc; done.
  - rewrite Ha. split_and!; [by autorewrite with writer|intros [v Hv]; autorewrite with writer; by rewrite Hv|by autorewrite with writer].
Qed.

(** The events of a whole stream: one for each chunk that released something, and what the restorer
    still held when the stream ended. *)
Lemma events_end m bodies e id :
  fits m ->
  let '(evs, r) := events_of bodies (NewRestorer m) in
  exists tail, (tail = [] \/ is_EOF e = true /\ exists ev, tail = [ev] /\ ev <> [])
    /\ Forall (fun ev => ev <> []) evs
    /\ concat (map sse evs) ++ closing_bytes e (Flush r).1 id
       = concat (map sse (evs ++ tail)) ++ (if is_EOF e then done_event else error_event isPrint e id)
    /\ if is_EOF e then concat (evs ++ tail) = Restore (concat bodies) m
       else concat (evs ++ tail) `prefix_of` Restore (concat bodies) m.
Proof.
  intros Hf. destruct (events_push_all bodies (NewRestorer m)) as (H1 & H2 & H3).
  pose proof (restore_stream_Restore bodies m Hf) as Hr. unfold restore_stream in Hr.
  destruct (events_of bodies (NewRestorer m)) as [evs r], (push_all bodies (NewRestorer m)) as [out r']. cbn in *. subst.
  unfold closing_bytes. destruct (is_EOF e).
  - case_bool_decide as E.
    + exists []. rewrite E, app_nil_r in Hr. rewrite !app_nil_r. split_and!; try done. by left.
    + exists [(Flush r').1]. rewrite map_app, !concat_app, <- !app_assoc. cbn. rewrite !app_nil_r.
      split_and!; try done. right. by eauto.
  - exists []. rewrite !app_nil_r. split_and!; try done; [by left|]. rewrite <- Hr. by apply prefix_app_r.
Qed.


(** ** The transport adds nothing to the pipeline's account *)

(** Finishing a stream does not depend on the outside world. *)
Lemma forget_set_ext principal req m x (w : World L C S X) :
  forget p principal req m (set_ext x w) = set_ext x (forget p principal req m w).
Proof. unfold forget. destruct (vault p); [|done]. by case_bool_decide. Qed.

Lemma finish_set_ext f r usage ttfb err x (w : World L C S X) :
  Pipeline.finish p f r usage ttfb err (set_ext x w) = set_ext x (Pipeline.finish p f r usage ttfb err w).
Proof.
  unfold Pipeline.finish, emitAudit. cbn [now RecordTokens set_limiter set_ext w_tick emitUsage Emit].
  match goal with |- context [auditable ?a ?b ?c ?d] => destruct (auditable a b c d) as [action reason] end.
  by case_bool_decide.
Qed.

Lemma Finish_set_ext r usage ttfb err x (w : World L C S X) :
  (Finish p r usage ttfb err (set_ext x w)).2 = set_ext x (Finish p r usage ttfb err w).2.
Proof.
  unfold Finish. destruct (str_finished r); [done|].
  destruct (str_forget r) as [[[who what] m]|]; rewrite ?forget_set_ext; destruct (str_releaseLimit r), (str_finish r);
    cbn [fst snd]; rewrite <- ?finish_set_ext; done.
Qed.

(** A stream that does not start has nothing to finish but its slot. *)
Definition unstarted (r : StreamResult (Strm:=Strm)) : Prop := str_finish r = None /\ str_finished r = false.

Lemma stream_fail_result snap req started r stages err st : (stream_fail p snap req started r stages err st).1.1 = r.
Proof. unfold stream_fail. by destruct (lift _ st). Qed.

Lemma fail_unstarted snap req started r stages err st result e st' :
  unstarted r -> stream_fail p snap req started r stages err st = ((result, e), st') -> unstarted result.
Proof. intros Hr H. pose proof (stream_fail_result snap req started r stages err st) as E. rewrite H in E. cbn in E. by subst. Qed.

Lemma HandleStream_unstarted snap req st result e st' :
  HandleStream p snap req st = ((result, Some e), st') -> unstarted result.
Proof.
  unfold HandleStream, serve_stream, stream_candidates. destruct (lift _ st) as [started st0].
  destruct (runStage p [] _ _ st0) as [[[err|principal] stages1] st1]; [by apply fail_unstarted|].
  destruct (runStage p stages1 _ _ st1) as [[[err|[pr rq]] stages2] st2]; [by apply fail_unstarted|].
  destruct (runStage p stages2 _ _ st2) as [[[err|body] stages3] st3]; [by apply fail_unstarted|].
  destruct (runStage p stages3 _ _ st3) as [[[err|cands] stages4] st4]; [by apply fail_unstarted|].
  destruct (lift _ st4) as [t1 st5]. destruct (adapt _ _ _ _ _ st5) as [[executed err] st6].
  destruct (lift _ st6) as [t2 st7]. destruct err as [err|]; [|intros H; discriminate H].
  apply fail_unstarted. by destruct (last _).
Qed.

(** What one request of the pipeline leaves behind: one record of it, and calls it was entitled to. *)
Definition accounted (snap : Snapshot) (req : Request) st st' : Prop :=
  exists reported recs new err,
    (reported = NoPrincipal \/ authentic p st.2 snap req reported)
    /\ w_events st'.2 = w_events st.2 ++ recs /\ recorded req reported err recs
    /\ w_sent st'.2 = w_sent st.2 ++ new /\ Forall (entitled p st.2 snap req) new.

Lemma effect_accounted snap req st err st1 st2 :
  effect p snap req st err st1 -> w_events st2.2 = w_events st1.2 -> w_sent st2.2 = w_sent st1.2 ->
  accounted snap req st st2.
Proof.
  intros (reported & recs & new & H1 & H2 & H3 & H4 & H5 & _) He Hs.
  exists reported, recs, new, err. rewrite He, Hs. by split_and!.
Qed.

Lemma streamCompletion_accounted fuel r snap req id w s how w' s' :
  streamCompletion isPrint p srv fuel r snap req id w s = (how, w', s') -> how <> Streaming ->
  hs_holder s' = hs_holder s /\ (hs_st s' = hs_st s \/ accounted snap req (hs_st s) (hs_st s')).
Proof.
  unfold streamCompletion. destruct (canFlush srv); cbn [negb]; [|by intros [= <- <- <-] _; split; [|left]].
  destruct (HandleStream p snap req (hs_st s)) as [[result err] st] eqn:Hh.
  pose proof (fun u t e => stream_effect p snap req u t e (hs_st s)) as Heff. unfold stream_session in Heff.
  rewrite Hh in Heff. cbn [fst snd] in Heff.
  destruct err as [e|].
  - intros [= <- <- <-] _. split; [done|right].
    destruct (HandleStream_unstarted _ _ _ _ _ _ Hh) as [Hf1 Hf2].
    destruct (Finish_spec p result NoUsage 0 None st.2 Hf2) as [K1 K2]. rewrite Hf1 in K2. destruct K2 as [K2 _].
    by eapply (effect_accounted _ _ _ _ _ _ (Heff NoUsage 0 None)).
  - destruct (HandleStream_started _ _ _ _ _ Hh) as [[strm ->] ->].
    destruct (relay _ _ _ _ _) as [[fin rl]|]; [|by intros [= <- <- <-]].
    intros [= <- <- <-] _. split; [done|right].
    eapply (effect_accounted _ _ _ _ _ _ (Heff (rl_usage rl) (rl_ttfb rl) (stream_error fin)));
      cbn [hs_st snd on_world]; by rewrite Finish_set_ext.
Qed.

(** A request of the pipeline came from a well-formed payload, under the snapshot current then. *)
Definition well_formed (r : HRequest) (endpoint : Endpoint) s (snap : Snapshot) (req : Request) : Prop :=
  current_snap (hs_holder s) = Some snap
  /\ Z.of_nat (length (hr_Content r)) <= maxBodyBytes /\ hr_ReadError r = None
  /\ exists parsed id received, parseCompletion (hr_Content r) = inr parsed
       /\ validModelName (cr_Model parsed) = true
       /\ req = gatewayRequest srv r endpoint id (hr_Content r) parsed received.

Lemma parseCompletion_valid body parsed : parseCompletion body = inr parsed -> validModelName (cr_Model parsed) = true.
Proof.
  unfold parseCompletion. destruct (Json.Unmarshal _ _ _) as [c|]; [|done].
  case_bool_decide; [done|]. destruct (validModelName (cr_Model c)) eqn:E; [|done]. by intros [= <-].
Qed.

Lemma ReadBody_spec r w :
  match (ReadBody r w).1 with
  | inr body => body = hr_Content r /\ Z.of_nat (length body) <= maxBodyBytes /\ hr_ReadError r = None
  | inl err => CodeOf (Some err) = CodeInvalidRequest
  end.
Proof.
  unfold ReadBody. destruct (maxBodyBytes <? _) eqn:E; [done|]. zify_bools. by destruct (hr_ReadError r).
Qed.

Lemma serveLeased_accounted fuel endpoint r snap id w s how w' s' :
  serveLeased isPrint p srv fuel endpoint r snap id w s = (how, w', s') -> how <> Streaming ->
  hs_holder s' = hs_holder s
  /\ (hs_st s' = hs_st s
      \/ exists parsed received,
           Z.of_nat (length (hr_Content r)) <= maxBodyBytes /\ hr_ReadError r = None
           /\ parseCompletion (hr_Content r) = inr parsed
           /\ accounted snap (gatewayRequest srv r endpoint id (hr_Content r) parsed received) (hs_st s) (hs_st s')).
Proof.
  unfold serveLeased. set (w0 := Set_ HeaderSnapshotVersion _ w). pose proof (ReadBody_spec r w0) as Hb.
  destruct (ReadBody r w0) as [[err|body] w1]; cbn [fst] in Hb; [by intros [= <- <- <-] _; split; [|left]|].
  destruct Hb as (-> & Hlen & Hread). destruct (parseCompletion (hr_Content r)) as [err|parsed] eqn:Hp;
    [by intros [= <- <- <-] _; split; [|left]|].
  set (req := gatewayRequest _ _ _ _ _ _ _). set (s1 := set_tick _ s).
  destruct (cr_Stream parsed).
  - intros H Hh. destruct (streamCompletion_accounted _ _ _ _ _ _ _ _ _ _ H Hh) as [H1 [H2|H2]]; (split; [exact H1|]).
    + by left.
    + right. exists parsed, (wall srv (hs_tick s)). by split_and!.
  - destruct (Handle p snap req (hs_st s1)) as [[result err] st] eqn:Hh.
    pose proof (Handle_effect p snap req (hs_st s1)) as Heff. rewrite Hh in Heff. cbn [fst snd] in Heff.
    assert (Hacc : accounted snap req (hs_st s) st) by (by eapply effect_accounted).
    intros H _. destruct err as [e|]; [|destruct (bad_status _)]; simplify_eq; (split; [done|right]);
      exists parsed, (wall srv (hs_tick s)); by split_and!.
Qed.

(** C7. The transport adds nothing and loses nothing.  Whatever arrives over HTTP, the pipeline is
    either not run at all and its state untouched, or run once, on a request whose body was read to
    its end within the size limit, whose payload is JSON naming a well-formed model, under the
    snapshot that was current when the request was leased.  Run once means: exactly one record of
    the request, and only provider calls that request was entitled to by the clock, the policy cache
    and the guardrails it found.  The lease is given back however the request ends, a panic included. *)
Theorem transport_runs_the_pipeline_once fuel endpoint r w s how w' s' :
  serveCompletion isPrint p srv fuel endpoint r w s = (how, w', s') -> how <> Streaming ->
  (hs_st s' = hs_st s
   \/ exists snap req, well_formed r endpoint s snap req /\ accounted snap req (hs_st s) (hs_st s'))
  /\ gens (hs_holder s') = gens (hs_holder s) /\ current (hs_holder s') = current (hs_holder s)
  /\ forall g, HolderFacts.live (leases (hs_holder s')) g = HolderFacts.live (leases (hs_holder s)) g.
Proof.
  unfold serveCompletion. destruct (if bool_decide _ then _ else _) as [id s1] eqn:Hid.
  assert (hs_holder s1 = hs_holder s /\ hs_st s1 = hs_st s) as [Hh Hst] by (case_bool_decide; by simplify_eq).
  destruct (Acquire (hs_holder s1)) as [[[lease snap] h]|] eqn:Ha; [|by intros [= <- <- <-]].
  set (w0 := Set_ _ _ w). set (s2 := set_holder h s1).
  destruct (serveLeased isPrint p srv fuel endpoint r snap id w0 s2) as [[how' w1] s3] eqn:Hs.
  intros [= -> -> Heq] Hn. destruct (serveLeased_accounted _ _ _ _ _ _ _ _ _ _ Hs Hn) as [H1 H2].
  assert (s' = set_holder (Holder.Release (hs_holder s3) lease) s3) as -> by (by destruct how).
  destruct (Acquire_Release _ _ _ _ Ha) as (R1 & R2 & R3 & R4). cbn [hs_holder set_holder hs_st].
  change (hs_holder s2) with h in H1. rewrite H1, <- Hh. split_and!; try done.
  destruct H2 as [H2|(parsed & received & K1 & K2 & K3 & K4)]; [left; by rewrite H2|right].
  exists snap, (gatewayRequest srv r endpoint id (hr_Content r) parsed received). rewrite <- Hst. split; [|done].
  split_and!; [|done..|exists parsed, id, received; split_and!; [done|by eapply parseCompletion_valid|done]].
  revert Ha. unfold Acquire, current_snap. rewrite <- Hh. destruct (gens _ !! _) as [x|]; [|done].
  destruct (tryRef_refuses _); [done|]. by intros [= <- <- <-].
Qed.

(** ** Every request is answered *)

(** The headers that identify the request and grant cross-origin access are set once, outside. *)
Definition foreign_header (k : string) : Prop :=
  k = HeaderRequestID \/ k = "Access-Control-Allow-Origin".

Section headers.
Context (k : string) (Hk : foreign_header k).

#[local] Ltac other_key := unfold foreign_header in Hk; destruct Hk as [-> | ->]; done.

Lemma keeps_writeError id err w : keeps k w (writeError isPrint id err w).
Proof. unfold writeError. keep; other_key. Qed.

Lemma sent_writeError id err w : is_Some (wr_sent (writeError isPrint id err w)).
Proof. unfold writeError. rewrite sent_Write. by eexists. Qed.

Lemma keeps_ReadBody r w : keeps k w (ReadBody r w).2.
Proof. unfold ReadBody. destruct (_ <? _); [cbn; keep; other_key|by destruct (hr_ReadError r)]. Qed.

Lemma keeps_warn principal w : keeps k w (warn principal w).
Proof. unfold warn. keep; other_key. Qed.

Lemma keeps_stream_headers w : keeps k w (stream_headers w).
Proof. unfold stream_headers. keep; other_key. Qed.

Lemma relay_step_keeps accepts started (rl : Relay (Strm:=Strm) (X:=X)) :
  is_Some (wr_sent (rl_w rl)) -> keeps k (rl_w rl) (rl_w (relay_step srv accepts started rl).2)
  /\ is_Some (wr_sent (rl_w (relay_step srv accepts started rl).2)).
Proof.
  intros Hs. unfold relay_step. destruct (Next _ _) as [[[c err] ch] x]. destruct (Push _ _) as [body r'].
  case_bool_decide; [done|]. destruct (if rl_ttfb rl =? 0 then _ else _). destruct (accepts _); cbn [negb snd rl_w]; [|done].
  split; [keep|]. rewrite sent_Flush. by eexists.
Qed.

Lemma relay_keeps fuel accepts started rl how (rl' : Relay (Strm:=Strm) (X:=X)) :
  is_Some (wr_sent (rl_w rl)) -> relay srv fuel accepts started rl = Some (how, rl') ->
  keeps k (rl_w rl) (rl_w rl') /\ is_Some (wr_sent (rl_w rl')).
Proof.
  revert rl. induction fuel as [|n IH]; intros rl Hs; cbn [relay]; [done|].
  destruct (relay_step_keeps accepts started rl Hs) as [H1 H2].
  destruct (relay_step srv accepts started rl) as [[how'|] rl1]; cbn [snd] in *; [by intros [= <- <-]|].
  intros H. destruct (IH _ H2 H) as [H3 H4]. split; [by etrans|done].
Qed.

Lemma close_stream_keeps accepts id how (rl : Relay (Strm:=Strm) (X:=X)) :
  is_Some (wr_sent (rl_w rl)) -> keeps k (rl_w rl) (close_stream isPrint accepts id how rl)
  /\ is_Some (wr_sent (close_stream isPrint accepts id how rl)).
Proof.
  intros Hs. unfold close_stream, try_write. destruct how.
  - case_bool_decide; (split; [keep|rewrite sent_Flush; by eexists]).
  - split; [keep|rewrite sent_Flush; by eexists].
  - done.
Qed.

(** Whoever returns has committed a status; whoever panics has not. *)
Definition answered (w w' : Writer) (how : outcome) : Prop :=
  keeps k w w' /\ match how with Returned => is_Some (wr_sent w') | Panicked (Panic _) => True | _ => how = Streaming end.

Lemma answered_error id err w w1 : keeps k w w1 -> answered w (writeError isPrint id err w1) Returned.
Proof. intros H. split; [etrans; [exact H|apply keeps_writeError]|apply sent_writeError]. Qed.

Lemma streamCompletion_answered fuel r snap req id w w1 s :
  keeps k w w1 ->
  let out := streamCompletion isPrint p srv fuel r snap req id w1 s in answered w out.1.2 out.1.1.
Proof.
  intros Hw. unfold streamCompletion. destruct (canFlush srv); cbn [negb]; [|by apply answered_error].
  destruct (HandleStream p snap req (hs_st s)) as [[result err] st].
  assert (keeps k w (warn (str_Principal result) w1)) as Hw1 by (etrans; [exact Hw|apply keeps_warn]).
  destruct err as [e|]; [by apply answered_error|].
  destruct (str_Chunks result) as [strm|]; [|by split]. destruct (str_Restorer result) as [rr|]; [|by split].
  assert (keeps k w (stream_headers (warn (str_Principal result) w1))) as Hw2 by (etrans; [exact Hw1|apply keeps_stream_headers]).
  destruct (relay _ _ _ _ _) as [[how rl]|] eqn:Hr; [|by split]. cbn [fst snd].
  apply relay_keeps in Hr as [H1 H2]; [|cbn [rl_w]; unfold stream_headers; rewrite sent_Flush; by eexists].
  destruct (close_stream_keeps (hr_accepts r) id how rl H2) as [H3 H4].
  split; [|done]. etrans; [exact Hw2|]. by etrans.
Qed.

Lemma serveLeased_answered fuel endpoint r snap id w s :
  let out := serveLeased isPrint p srv fuel endpoint r snap id w s in answered w out.1.2 out.1.1.
Proof.
  unfold serveLeased. set (w0 := Set_ HeaderSnapshotVersion _ w).
  assert (keeps k w (ReadBody r w0).2) as H0 by (etrans; [|apply keeps_ReadBody]; apply keeps_Set; other_key).
  destruct (ReadBody r w0) as [[err|body] w1]; cbn [snd] in H0; [by apply answered_error|].
  destruct (parseCompletion body) as [err|parsed]; [by apply answered_error|].
  destruct (cr_Stream parsed); [by apply streamCompletion_answered|].
  destruct (Handle p snap _ _) as [[result err] st].
  assert (keeps k w (warn (res_Principal result) w1)) as H1 by (etrans; [exact H0|apply keeps_warn]).
  destruct err as [e|]; [by apply answered_error|].
  assert (keeps k w (Set_ "Content-Type" (text "application/json") (warn (res_Principal result) w1))) as H2
    by (etrans; [exact H1|apply keeps_Set; other_key]).
  destruct (bad_status _); [by split|]. cbn [fst snd]. split; [|rewrite sent_Write; by eexists].
  etrans; [exact H2|]. keep.
Qed.
End headers.

(** A stream that comes to an end, one way or another. *)
Definition ends (strm : Strm) (x : X) : Prop := exists cs last e strm' x', yields strm x cs last e strm' x'.

Lemma relay_step_continues accepts started rl c err (strm : Strm) (x : X) rl1 :
  Next (rl_chunks rl) (rl_ext rl) = ((c, err), strm, x) -> relay_step srv accepts started rl = (None, rl1) ->
  rl_chunks rl1 = strm /\ rl_ext rl1 = x /\ err = None.
Proof.
  intros Hn. unfold relay_step. rewrite Hn. destruct (Push _ _) as [body r']. destruct err as [e|]; cbn [ending].
  - case_bool_decide; [done|]. destruct (if rl_ttfb rl =? 0 then _ else _). by destruct (negb _).
  - case_bool_decide; [by intros [= <-]|]. destruct (if rl_ttfb rl =? 0 then _ else _).
    destruct (negb _); [done|]. by intros [= <-].
Qed.

Lemma relay_ends accepts started rl :
  ends (rl_chunks rl) (rl_ext rl) -> exists fuel, is_Some (relay srv fuel accepts started rl).
Proof.
  intros (cs & last & e & strm' & x' & Hy). remember (rl_chunks rl) as strm. remember (rl_ext rl) as x.
  revert rl Heqstrm Heqx. induction Hy as [strm x c e strm' x' Hn|strm x c s1 x1 cs last e strm' x' Hn _ IH]; intros rl -> ->.
  - exists 1%nat. cbn [relay]. destruct (relay_step srv accepts started rl) as [[how|] rl1] eqn:Hst; [by eexists|].
    by destruct (relay_step_continues _ _ _ _ _ _ _ _ Hn Hst) as (_ & _ & ?).
  - destruct (relay_step srv accepts started rl) as [[how|] rl1] eqn:Hst; [exists 1%nat; cbn [relay]; rewrite Hst; by eexists|].
    destruct (relay_step_continues _ _ _ _ _ _ _ _ Hn Hst) as (H1 & H2 & _).
    destruct (IH rl1) as [fuel Hf]; [done..|]. exists (Datatypes.S fuel). cbn [relay]. by rewrite Hst.
Qed.

Lemma serveLeased_ends endpoint r snap id w s :
  (forall strm x, ends strm x) ->
  exists fuel, (serveLeased isPrint p srv fuel endpoint r snap id w s).1.1 <> Streaming.
Proof.
  intros He. unfold serveLeased. destruct (ReadBody _ _) as [[err|body] w1]; [by exists 0%nat|].
  destruct (parseCompletion body) as [err|parsed]; [by exists 0%nat|].
  destruct (cr_Stream parsed); [|exists 0%nat; destruct (Handle _ _ _ _) as [[result [e|]] st]; [done|];
    by destruct (bad_status _)].
  unfold streamCompletion. destruct (canFlush srv); cbn [negb]; [|by exists 0%nat].
  destruct (HandleStream _ _ _ _) as [[result [e|]] st]; [by exists 0%nat|].
  destruct (str_Chunks result) as [strm|]; [|by exists 0%nat].
  destruct (str_Restorer result) as [rr|]; [|by exists 0%nat].
  match goal with |- context [relay srv _ ?a ?b ?c] => destruct (relay_ends a b c) as [fuel [[how rl] Hf]] end; [apply He|].
  exists fuel. by rewrite Hf.
Qed.

(** C35. Every completion request is answered.  From any state the holder can reach, and when streams
    come to an end, the handler returns, a panic on the way included, with a status committed and
    the request's identifier among the headers sent with it: the trace identifier if the request is
    traced, else the one generated for it. *)
Theorem every_completion_is_answered endpoint r s :
  reachable (hs_holder s) -> (forall strm x, ends strm x) ->
  let id := if bool_decide (traceID srv r = "") then newID srv (hs_tick s) else traceID srv r in
  exists fuel w' s' status headers,
    recoverPanics isPrint (serveCompletion isPrint p srv fuel endpoint) r fresh_writer s = (Returned, w', s')
    /\ wr_sent w' = Some (status, headers) /\ headers !! HeaderRequestID = Some [text id].
Proof.
  intros Hr He id. unfold recoverPanics, serveCompletion.
  assert (Hid : exists s1, (if bool_decide (traceID srv r = "")
            then (newID srv (hs_tick s), set_tick (Datatypes.S (hs_tick s)) s) else (traceID srv r, s)) = (id, s1)
            /\ hs_holder s1 = hs_holder s) by (unfold id; case_bool_decide; by eexists).
  destruct Hid as (s1 & -> & Hh). rewrite Hh.
  destruct (Acquire_steps _ Hr) as (lease & snap & h & -> & _). set (w0 := Set_ HeaderRequestID (text id) fresh_writer).
  destruct (serveLeased_ends endpoint r snap id w0 (set_holder h s1) He) as [fuel Hf]. exists fuel.
  destruct (serveLeased_answered HeaderRequestID (or_introl eq_refl) fuel endpoint r snap id w0 (set_holder h s1)) as [Hk Ho].
  destruct (serveLeased _ _ _ _ _ _ _ _ _ _) as [[how w1] s2]. cbn [fst snd] in *.
  assert (Hdone : forall w', keeps HeaderRequestID w0 w' -> is_Some (wr_sent w') ->
    exists status headers, wr_sent w' = Some (status, headers) /\ headers !! HeaderRequestID = Some [text id]).
  { intros w' [_ Hk'] [[status headers] Hsent]. exists status, headers. split; [done|].
    cbn in Hk'. rewrite (Hk' _ _ Hsent). apply lookup_insert_eq. }
  destruct how as [|[v|]|]; [| |done|done].
  - destruct (Hdone w1 Hk Ho) as (status & headers & H1 & H2). by eexists _, _, status, headers.
  - edestruct (Hdone (writeError isPrint (String.string_of_list_ascii (Get (wr_header w1) HeaderRequestID))
      (New CodeInternal "internal error") w1)) as (status & headers & H1 & H2);
      [etrans; [exact Hk|apply keeps_writeError; by left]|apply sent_writeError|].
    by eexists _, _, status, headers.
Qed.

(** ** Cross-origin access *)

Definition allow_origin : string := "Access-Control-Allow-Origin".
Definition grants_nothing (h : handler (L:=L) (C:=C) (S:=S) (X:=X)) : Prop :=
  forall r w s, keeps allow_origin w (h r w s).1.2.

Lemma serveCompletion_grants_nothing fuel endpoint : grants_nothing (serveCompletion isPrint p srv fuel endpoint).
Proof.
  intros r w s. unfold serveCompletion. destruct (if bool_decide _ then _ else _) as [id s1].
  destruct (Acquire _) as [[[lease snap] h]|]; [|by apply keeps_Set].
  pose proof (proj1 (serveLeased_answered allow_origin (or_intror eq_refl) fuel endpoint r snap id
    (Set_ HeaderRequestID (text id) w) (set_holder h s1))) as H.
  destruct (serveLeased _ _ _ _ _ _ _ _ _ _) as [[how w1] s2]. cbn [fst snd] in *.
  etrans; [|exact H]. by apply keeps_Set.
Qed.

Lemma mux_grants_nothing fuel probes metrics other :
  (forall m, metrics = Some m -> grants_nothing m) -> grants_nothing other ->
  grants_nothing (mux isPrint p srv fuel probes metrics other).
Proof.
  intros Hm Ho r w s. unfold mux.
  destruct (_ && _); [unfold healthz; cbn; keep|]. destruct (_ && _); [unfold handleReady; cbn; keep|].
  destruct (_ && _); [apply serveCompletion_grants_nothing|].
  destruct (_ && _); [apply serveCompletion_grants_nothing|].
  destruct metrics as [m|]; [|apply Ho]. destruct (_ && _); [by apply Hm|apply Ho].
Qed.

Lemma withCORS_cases (next : handler (L:=L) (C:=C) (S:=S) (X:=X)) r w s :
  let origin := Get (hr_Header r) "Origin" in
  exists w0, (w0 = w \/ w0 = cors_headers origin w /\ origin ∈ allowedOrigins srv)
    /\ (withCORS srv next r w s = next r w0 s \/ withCORS srv next r w s = (Returned, WriteHeader 204 w0, s)).
Proof.
  intros origin. unfold withCORS. fold origin. case_bool_decide; [exists w; by split; left|].
  destruct (bool_decide (origin = []) || _) eqn:E; [exists w; by split; left|]. apply orb_false_iff in E as [_ E].
  zify_bools. exists (cors_headers origin w). split; [by right|]. case_bool_decide; [by right|by left].
Qed.

Lemma recoverPanics_keeps (next : handler (L:=L) (C:=C) (S:=S) (X:=X)) r w s :
  keeps allow_origin (next r w s).1.2 (recoverPanics isPrint next r w s).1.2.
Proof.
  unfold recoverPanics. destruct (next r w s) as [[[|[v|]|] w1] s1]; cbn; try reflexivity.
  apply keeps_writeError. by right.
Qed.

(** Cross-origin access is granted to listed origins only: whatever the route and the request,
    if a response allows an origin, it allows exactly one, the one the request named, and that one
    is in the configured list.  No wildcard is ever sent unless the list itself contains it. *)
Theorem only_listed_origins_are_granted fuel probes metrics other r s how w' s' status headers v :
  (forall m, metrics = Some m -> grants_nothing m) -> grants_nothing other ->
  Handler isPrint p srv fuel probes metrics other r fresh_writer s = (how, w', s') ->
  wr_sent w' = Some (status, headers) -> headers !! allow_origin = Some v ->
  v = [Get (hr_Header r) "Origin"] /\ Get (hr_Header r) "Origin" ∈ allowedOrigins srv.
Proof.
  intros Hm Ho H Hsent Hv. pose proof (mux_grants_nothing fuel probes metrics other Hm Ho) as Hx.
  set (origin := Get (hr_Header r) "Origin").
  destruct (withCORS_cases (mux isPrint p srv fuel probes metrics other) r fresh_writer s) as (w0 & H0 & Hn).
  fold origin in H0. assert (Hk : keeps allow_origin w0 w').
  { replace w' with (how, w', s').1.2 by done. rewrite <- H. unfold Handler.
    etrans; [|apply recoverPanics_keeps]. destruct Hn as [-> | ->]; [apply Hx|apply keeps_WriteHeader]. }
  destruct Hk as [_ Hk]. destruct H0 as [-> |[-> Hin]]; cbn [wr_sent fresh_writer cors_headers Set_ Add_] in Hk.
  - specialize (Hk _ _ Hsent). rewrite Hv in Hk. done.
  - specialize (Hk _ _ Hsent). rewrite Hv in Hk. unfold cors_headers in Hk. cbn [wr_header Set_ Add_] in Hk.
    rewrite !lookup_insert_ne in Hk by done. rewrite lookup_insert_eq in Hk. by simplify_eq.
Qed.
End serving.

(** ** A transport to run *)

(** A stream that follows a script, then ends. *)
Definition script : Type := list (Chunk * option error).
Definition script_next (s : script) (x : unit) : (Chunk * option error) * script * unit :=
  match s with
  | [] => ((mkChunk [] NoUsage true, Some EOF), [], x)
  | step :: rest => (step, rest, x)
  end.
#[local] Instance scripted : ChunkStream script unit := {| Next := script_next; Close _ x := x |}.

Lemma script_ends (s : script) (x : unit) : ends s x.
Proof.
  induction s as [|[c [e|]] s IH].
  - eexists [], _, _, _, _. constructor. reflexivity.
  - eexists [], _, _, _, _. constructor. reflexivity.
  - destruct IH as (cs & l & e & s' & x' & Hy). exists (c :: cs), l, e, s', x'. by eapply yields_more.
Qed.

(** A key of confidential data: its values are replaced by placeholders and restored. *)
Definition sealed_principal : Principal :=
  mkPrincipal "k1" "acme" "" "" "" "" [] (mkAllowlist true []) [] DataClassConfidential TrustUnset
    (mkRateLimit 10 0 2) false 0.
Definition sealed_tenant : TenantLayer :=
  match NewTenantLayer (mkTenantSpec "acme" (mkVersion 1 "t1") 0 "free" [sealed_principal]
          {[ demo_lookup := "k1" ]} [] [] [] [] [] TrustExternal) with
  | inr t => t
  | inl _ => demo_tenant "acme"
  end.
Definition sealed_snapshot : Snapshot := mkSnapshot demo_global {[ "acme" := sealed_tenant ]}.

Definition scripted_pipeline (answer : error + script) : Pipeline unit script unit :=
  mkPipeline (fun name => if bool_decide (name = "echo") then Some tt else None)
    (fun _ => [EndpointChatCompletions])
    (fun _ _ _ x => (inr (mkResponse 200 (str "ok") NoUsage), x)) (fun _ _ _ x => (answer, x))
    (fun ref x => (NoCredentials_Resolve ref, x)) None (fun _ x => (true, x))
    (NewRouter []) false None false "" []
    (fun _ _ => demo_lookup) (fun _ _ => []) demo_unmarshal demo_ParsePrefix (fun f => f)
    (fun _ => of_int 0) (fun _ => Hour) None.

Definition demo_server : Server :=
  mkServer (fun _ => "r1") (fun _ => "") (fun _ => Hour) (fun _ => None) true [text "https://app.example"].

Definition demo_holder : Holder := mkHolder {[0%nat := newGeneration sealed_snapshot]} 0 None ∅ ∅ None [].
Definition demo_hs : HS (Limits.World memkv.Store) unit memkv.Store unit := mkHS demo_holder demo_state 0.

Definition quoted_ (s : string) : list ascii := [dquote] ++ text s ++ [dquote].
(** A payload that asks for a stream, or does not. *)
Definition demo_payload_ (stream : bool) (content : string) : bytes :=
  text "{" ++ quoted_ "model" ++ text ":" ++ quoted_ "m" ++ text "," ++ quoted_ "stream" ++ text ":"
  ++ text (if stream then "true" else "false") ++ text "," ++ quoted_ "content" ++ text ":" ++ quoted_ content ++ text "}".
Definition demo_post (stream : bool) (content : string) : HRequest :=
  mkHReq "POST" "/v1/chat/completions" {[ "Authorization" := [text "Bearer gw_demo_s3cret"] ]} (text "10.0.0.1:1")
    (demo_payload_ stream content) None None (fun _ => true).

#[local] Instance http_limiter : RateLimiter (Limits.World memkv.Store) := limits_limiter (fun _ => Hour).

Definition demo_chunk (s : string) (u : TokenUsage) : Chunk * option error := (mkChunk (text s) u false, None).
Definition demo_serve (answer : error + script) (r : HRequest) (hs : HS (Limits.World memkv.Store) unit memkv.Store unit) :=
  serveCompletion (fun _ => true) (scripted_pipeline answer) demo_server 10 EndpointChatCompletions r fresh_writer hs.

Example demo_run :
  let out := demo_serve (inr [demo_chunk "to [[EMA" NoUsage; demo_chunk "IL_1]]!" (mkUsage 3 0 0 4)]) (demo_post true "a@b.co") demo_hs in
  out.1.1 = Returned /\ wr_body out.1.2 = sse (text "to ") ++ sse (text "a@b.co!") ++ done_event.
Proof. vm_compute. split; reflexivity. Qed.

(** The provider refuses two streams of a key that may have two requests in flight.  Both are
    answered, nothing is in flight any more, and the key is refused from then on: the slot of a
    stream that did not start is released by [Finish], which the handler does not call then. *)
Lemma failed_streams_lock_the_key_out :
  let refuse := inl (New CodeInvalidRequest "bad request") in
  let first := demo_serve refuse (demo_post true "hi") demo_hs in
  let second := demo_serve refuse (demo_post true "hi") first.2 in
  let third := demo_serve (inr []) (demo_post false "hi") second.2 in
  (fst <$> wr_sent first.1.2) = Some 400 /\ (fst <$> wr_sent second.1.2) = Some 400
  /\ (fst <$> wr_sent third.1.2) = Some 429
  /\ slots_of "k1" (w_lim (w_limiter (hs_st third.2).2)) = 2.
Proof. vm_compute. split_and!; reflexivity. Qed.

(** Chunks are whole JSON events, and the restorer works on their bytes.  A placeholder the model
    emits in two pieces has the end of one event and the start of the next in between, so it reaches
    the caller as it is; and what is held back moves into the next event, so neither event is the
    JSON document the provider sent. *)
Definition delta (s : string) : list ascii := text "{" ++ quoted_ "content" ++ text ":" ++ quoted_ s ++ text "}".
Definition delta_chunk (s : string) : Chunk * option error := (mkChunk (delta s) NoUsage false, None).
Lemma placeholder_split_across_events :
  let out := demo_serve (inr [delta_chunk "to [[EMA"; delta_chunk "IL_1]]"]) (demo_post true "a@b.co") demo_hs in
  let first := text "{" ++ quoted_ "content" ++ text ":" ++ [dquote] ++ text "to " in
  let second := text "[[EMA" ++ [dquote] ++ text "}" ++ delta "IL_1]]" in
  wr_body out.1.2 = sse first ++ sse second ++ done_event
  /\ is_Some (parse (delta "to [[EMA")) /\ is_Some (parse (delta "IL_1]]"))
  /\ parse first = None /\ parse second = None.
Proof. vm_compute. split_and!; [done|by eexists|by eexists|done|done]. Qed.

(** A chunk that reports cached input only is taken for one that reports nothing. *)
Lemma cached_only_usage_is_dropped : usage_after NoUsage (mkChunk [] (mkUsage 0 900 0 0) true) = NoUsage.
Proof. reflexivity. Qed.

(** ** Witnesses *)

Lemma callers_see_no_causes_witness :
  writeError (fun _ => true) "r1" (GwError CodeInvalidRequest (Msg "no" []) false (Some (Foreign "dial 10.1.2.3" None))) fresh_writer
  = writeError (fun _ => true) "r1" (GwError CodeInvalidRequest (Msg "no" []) false None) fresh_writer.
Proof.
  apply (callers_see_no_causes (fun _ => true) "r1"
           (GwError CodeInvalidRequest (Msg "no" []) false (Some (Foreign "dial 10.1.2.3" None)))
           (GwError CodeInvalidRequest (Msg "no" []) false None) fresh_writer); [reflexivity|].
  intros code m r [= <- <- <-]. done.
Defined.

Lemma rate_limited_tells_when_witness :
  exists k headers, 1 <= k <= 60 /\ Z.abs (k * Second - 1700000000) <= Second / 2
    /\ wr_sent (writeError (fun _ => true) "r1" (rate_limit_error 1700000000) fresh_writer) = Some (429, headers)
    /\ headers !! "Retry-After" = Some [FormatInt k].
Proof. apply (rate_limited_tells_when (fun _ => true) "r1" 1700000000 fresh_writer); [vm_compute; split; discriminate|reflexivity]. Defined.

Definition demo_script : script := [demo_chunk "to [[EMA" NoUsage; demo_chunk "IL_1]]!" (mkUsage 3 0 0 4)].
Definition demo_stream_request : Request :=
  gatewayRequest demo_server (demo_post true "a@b.co") EndpointChatCompletions "r1" (demo_payload_ true "a@b.co")
    (mkCompletion (text "m") true) Hour.
Definition demo_started := HandleStream (scripted_pipeline (inr demo_script)) sealed_snapshot demo_stream_request (hs_st demo_hs).

Lemma sealed_out : w_out demo_started.2.2 = {[ str "[[EMAIL_1]]" := str "a@b.co" ]}.
Proof. apply (bool_decide_unpack _). vm_compute. exact I. Qed.

Lemma demo_started_eq : demo_started = ((demo_started.1.1, None), demo_started.2).
Proof.
  assert (demo_started.1.2 = None) as <- by (vm_compute; reflexivity). by destruct demo_started as [[r e] st].
Qed.


Lemma transport_runs_the_pipeline_once_witness :
  let out := demo_serve (inr demo_script) (demo_post true "a@b.co") demo_hs in
  gens (hs_holder out.2) = gens demo_holder.
Proof.
  destruct (transport_runs_the_pipeline_once (fun _ => true) (scripted_pipeline (inr demo_script)) demo_server 10
    EndpointChatCompletions (demo_post true "a@b.co") fresh_writer demo_hs Returned
    (demo_serve (inr demo_script) (demo_post true "a@b.co") demo_hs).1.2
    (demo_serve (inr demo_script) (demo_post true "a@b.co") demo_hs).2) as (_ & H & _).
  - vm_compute. reflexivity.
  - discriminate.
  - exact H.
Defined.

Lemma demo_holder_reachable : reachable demo_holder.
Proof. exists sealed_snapshot, demo_holder. split; [reflexivity|apply rtc_refl]. Qed.

Lemma every_completion_is_answered_witness :
  exists fuel w' s' status headers,
    recoverPanics (fun _ => true) (serveCompletion (fun _ => true) (scripted_pipeline (inr demo_script)) demo_server fuel
      EndpointChatCompletions) (demo_post true "a@b.co") fresh_writer demo_hs = (Returned, w', s')
    /\ wr_sent w' = Some (status, headers) /\ headers !! HeaderRequestID = Some [text "r1"].
Proof.
  apply (every_completion_is_answered (fun _ => true) (scripted_pipeline (inr demo_script)) demo_server
           EndpointChatCompletions (demo_post true "a@b.co") demo_hs); [exact demo_holder_reachable|exact script_ends].
Defined.

Definition preflight : HRequest :=
  mkHReq "OPTIONS" "/v1/messages" {[ "Origin" := [text "https://app.example"] ]} [] [] None None (fun _ => true).
Definition not_found : handler (L:=Limits.World memkv.Store) (C:=unit) (S:=memkv.Store) (X:=unit) :=
  fun r w s => (Returned, WriteHeader 404 w, s).
Definition no_probes (s : HS (Limits.World memkv.Store) unit memkv.Store unit) : Probes :=
  mkProbes None None None None (fun _ => []).

Lemma only_listed_origins_are_granted_witness :
  [text "https://app.example"] = [Get (hr_Header preflight) "Origin"]
  /\ Get (hr_Header preflight) "Origin" ∈ allowedOrigins demo_server.
Proof.
  set (out := Handler (fun _ => true) (scripted_pipeline (inr [])) demo_server 1 no_probes None not_found preflight fresh_writer demo_hs).
  apply (only_listed_origins_are_granted (fun _ => true) (scripted_pipeline (inr [])) demo_server 1 no_probes None not_found
    preflight demo_hs out.1.1 out.1.2 out.2 204 (wr_header (cors_headers (text "https://app.example") fresh_writer))).
  - discriminate.
  - intros r w s. apply keeps_WriteHeader.
  - rewrite <- !surjective_pairing. reflexivity.
  - reflexivity.
  - apply (bool_decide_unpack _). vm_compute. exact I.
Defined.
