(* ===== verification/Streams.v ===== *)
(** * Adapter streams under the transport

    The adapters' streams as the [ChunkStream]s the transport relays: they always end, they end
    cleanly only with their terminator, which is also the only place usage is reported, and what
    the transport writes is what an OpenAI-compatible reader reads. *)
From S2P Require Import Prelude Errors Core Strconv Text Json JsonFacts Format HttpText Adapters AdaptersFacts.
From Stdlib Require Import ZArith Lia Ascii.
From stdpp Require Import base gmap strings list.
From S2P Require Import HttpApi HttpApiFacts.
Open Scope Z_scope.
Open Scope gw_scope.

(** ** Any adapter's stream *)

Section adapter.
Context (react : list ascii -> TokenUsage -> reaction) (truncated : error).

(** What both adapters' loops do: usage leaves with the terminator, and only there. *)
Definition reports_at_the_end : Prop :=
  forall line u, match react line u with
  | Give c u' fin => chunk_Final c = fin /\ chunk_Usage c = (if fin then u' else NoUsage)
  | Refuse e => is_EOF e = false
  | Skip => True
  end.

(** A context that is not cancelled while the stream is read. *)
Definition adapter_stream {X} : ChunkStream stream X := {|
  HttpApi.Next s x := let '(r, s') := Next_with react truncated None s in (r, s', x);
  HttpApi.Close _ x := x |}.
#[local] Existing Instance adapter_stream.

(** Reading past the loop's end. *)
Lemma finished_EOF {X} (s : stream) (x : X) :
  sm_finished s = true -> HttpApi.Next s x = ((NoChunk, Some io_EOF), s, x).
Proof. intros H. unfold HttpApi.Next, adapter_stream, Next_with. by rewrite H, orb_true_r. Qed.

Definition at_risk (e : option error) : Prop := forall err, e = Some err -> wraps "EOF" err = false.

Lemma next_line_cases scanErr lines u :
  reports_at_the_end -> is_EOF truncated = false -> at_risk scanErr ->
  let '((c, err), s') := next_line react truncated scanErr false lines u in
  sm_scanErr s' = scanErr /\ sm_closed s' = false
  /\ match err with
     | Some e => is_EOF e = false /\ c = NoChunk /\ sm_finished s' = false
     | None => chunk_Final c = sm_finished s' /\ chunk_Usage c = (if sm_finished s' then sm_usage s' else NoUsage)
               /\ (length (sm_lines s') < length lines)%nat
     end.
Proof.
  intros Hr Ht Hs. induction lines as [|line rest IH]; cbn [next_line].
  - destruct scanErr as [e|] eqn:E; cbn; [|done]. split_and!; [done..| |done|done].
    unfold is_EOF. cbn. by apply Hs.
  - specialize (Hr (TrimSpace line) u). destruct (react (TrimSpace line) u) as [|c u' fin|e].
    + destruct (next_line _ _ _ _ rest u) as [[c err] s']. destruct IH as (H1 & H2 & H3). split_and!; [done..|].
      destruct err; [done|]. destruct H3 as (? & ? & ?). cbn. split_and!; [done..|lia].
    + destruct Hr as [H1 H2]. cbn. split_and!; [done..|lia].
    + cbn. by split_and!.
Qed.

Definition plain_chunk (c : Chunk) : Prop := chunk_Final c = false /\ chunk_Usage c = NoUsage.

(** The chunks of a stream and how it ended. *)
Definition well_ended (cs : list Chunk) (e : error) : Prop :=
  if is_EOF e then exists init fin, cs = init ++ [fin] /\ chunk_Final fin = true /\ Forall plain_chunk init
  else Forall plain_chunk cs.

Lemma stream_shape {X} (resp : HttpResponse) (x : X) :
  reports_at_the_end -> is_EOF truncated = false -> at_risk (hp_ReadError resp) ->
  exists cs e s', yields (newStream resp) x cs NoChunk e s' x /\ well_ended cs e.
Proof.
  intros Hr Ht Hrisk. assert (Hs : at_risk (sm_scanErr (newStream resp)) /\ sm_closed (newStream resp) = false
    /\ sm_finished (newStream resp) = false).
  { unfold newStream. destruct (scan_lines [] (hp_Body resp)) as [ls long]. split_and!; [|done..].
    cbn. destruct long; [|done]. by intros ? [= <-]. }
  destruct Hs as (Hs & Hc & Hf). generalize dependent (newStream resp). intros s.
  remember (length (sm_lines s)) as n eqn:Hn. revert s Hn.
  induction n as [n IH] using lt_wf_ind. intros s -> Hs Hc Hf.
  pose proof (next_line_cases (sm_scanErr s) (sm_lines s) (sm_usage s) Hr Ht Hs) as Hcase.
  assert (Hnext : HttpApi.Next s x = let '(r, s') := next_line react truncated (sm_scanErr s) false (sm_lines s) (sm_usage s) in (r, s', x)).
  { unfold HttpApi.Next, adapter_stream, Next_with. by rewrite Hc, Hf. }
  destruct (next_line _ _ _ _ _ _) as [[c err] s1]. destruct Hcase as (H1 & H2 & H3). destruct err as [e|].
  - destruct H3 as (He & -> & _). exists [], e, s1. split; [by constructor|]. unfold well_ended. rewrite He. constructor.
  - destruct H3 as (K1 & K2 & K3). destruct (sm_finished s1) eqn:Hfin.
    + exists [c], io_EOF, s1. split; [eapply yields_more; [exact Hnext|]; constructor; by apply finished_EOF|].
      exists [], c. split_and!; [done..|constructor].
    + destruct (IH _ K3 s1 eq_refl) as (cs & e & s' & Hy & Hres); [by rewrite H1|done|done|].
      exists (c :: cs), e, s'. split; [by eapply yields_more|].
      unfold well_ended in *. destruct (is_EOF e); [|by constructor]. destruct Hres as (init & fin & -> & Hfi & Hall).
      exists (c :: init), fin. split_and!; [done..|by constructor].
Qed.
Lemma yields_unique {X} (s : stream) (x : X) cs1 l1 e1 s1 x1 cs2 l2 e2 s2 x2 :
  yields s x cs1 l1 e1 s1 x1 -> yields s x cs2 l2 e2 s2 x2 -> cs1 = cs2 /\ l1 = l2 /\ e1 = e2.
Proof.
  intros H1. revert cs2. induction H1 as [s x c e s' x' Hn|s x c s3 x3 cs last e s' x' Hn _ IH];
    intros cs2 H2; inversion H2 as [? ? ? ? ? ? Hn'|? ? ? ? ? ? ? ? ? ? Hn' H2']; subst; rewrite Hn in Hn'; simplify_eq; [done|].
  by destruct (IH _ H2') as (-> & -> & ->).
Qed.

Lemma plain_usage cs : Forall plain_chunk cs -> last_usage cs = NoUsage.
Proof.
  intros H. unfold last_usage. generalize NoUsage at 1 2. induction H as [|c cs [_ Hc] _ IH]; intros u; [done|].
  cbn. unfold usage_after at 2. rewrite Hc. cbn. apply IH.
Qed.

Lemma interrupted_usage cs e k :
  well_ended cs e -> (is_EOF e = true -> (k < length cs)%nat) -> last_usage (take k cs) = NoUsage.
Proof.
  unfold well_ended. intros Hw Hk. apply plain_usage. destruct (is_EOF e); [|by apply Forall_take].
  destruct Hw as (init & fin & -> & _ & Hi). rewrite length_app in Hk. cbn in Hk.
  rewrite take_app_le by (specialize (Hk eq_refl); lia). by apply Forall_take.
Qed.
End adapter.

Lemma openai_reports_at_the_end : reports_at_the_end openai.react.
Proof.
  intros line u. unfold openai.react. destruct (_ || _); [done|]. destruct (CutPrefix _ _) as [payload|]; [|done].
  by case_bool_decide.
Qed.

Lemma anthropic_reports_at_the_end : reports_at_the_end anthropic.react.
Proof.
  intros line u. unfold anthropic.react. destruct (_ || _ || _); [done|]. destruct (CutPrefix _ _) as [payload|]; [|done].
  destruct (Json.Unmarshal _ _ _) as [e|]; [|done]. case_bool_decide; [done|]. by case_bool_decide.
Qed.

(** The two adapters. *)
Inductive adapter : (list ascii -> TokenUsage -> reaction) -> error -> Prop :=
| is_openai : adapter openai.react openai.truncated
| is_anthropic : adapter anthropic.react anthropic.truncated.

Lemma adapter_ok react truncated : adapter react truncated -> reports_at_the_end react /\ is_EOF truncated = false.
Proof. intros []; (split; [|reflexivity]); [apply openai_reports_at_the_end|apply anthropic_reports_at_the_end]. Qed.

(** *** What is in a body *)

(** What a payload says, in a provider's dialect. *)
Inductive said := Content | Terminator | Failure (e : error).

Record dialect := mkDialect {
  says : list ascii -> said;
  final_data : list ascii -> list ascii;                         (* what is relayed of the terminator *)
  reported : list ascii -> TokenUsage -> TokenUsage }.           (* the usage after a payload *)

Definition openai_dialect : dialect :=
  mkDialect (fun p => if bool_decide (p = text "[DONE]") then Terminator else Content)
    (fun _ => [])
    (fun p u => let new := openai.usageFrom p in if bool_decide (Input new = 0 /\ Output new = 0) then u else new).
Definition event_of (p : list ascii) : option anthropic.streamEvent :=
  Json.Unmarshal anthropic.dec_event (anthropic.mkEvent [] None None None) p.
Definition anthropic_dialect : dialect :=
  mkDialect (fun p => match event_of p with
                      | None => Content
                      | Some e => if bool_decide (anthropic.ev_Type e = text "error") then Failure (anthropic.stream_event_error e)
                                  else if bool_decide (anthropic.ev_Type e = text "message_stop") then Terminator else Content
                      end)
    (fun p => p)
    (fun p u => from_option (fun e => anthropic.event_usage e u) u (event_of p)).

(** The payloads of the data lines, in order; other lines carry nothing. *)
Definition payload_of (line : list ascii) : option (list ascii) := CutPrefix (TrimSpace line) (text "data: ").
Definition payloads (resp : HttpResponse) : list (list ascii) := omap payload_of (scan_lines [] (hp_Body resp)).1.
(** Why there are no more lines, when it is not the end of the body. *)
Definition broken_off (resp : HttpResponse) : option error :=
  if (scan_lines [] (hp_Body resp)).2 then Some ErrTooLong else hp_ReadError resp.

Definition content (p : list ascii) : Chunk := mkChunk p NoUsage false.
Definition usage_of (d : dialect) (ps : list (list ascii)) (u : TokenUsage) : TokenUsage := foldl (fun u p => reported d p u) u ps.

(** How the stream of a body whose payloads are [ps] ends, starting from a usage. *)
Inductive told (d : dialect) (truncated : error) (broken : option error) (u : TokenUsage) (ps : list (list ascii))
    : list Chunk -> error -> Prop :=
| told_complete pre p rest :
    ps = pre ++ p :: rest -> Forall (fun q => says d q = Content) pre -> says d p = Terminator ->
    told d truncated broken u ps ((content <$> pre) ++ [mkChunk (final_data d p) (usage_of d pre u) true]) io_EOF
| told_failed pre p rest e :
    ps = pre ++ p :: rest -> Forall (fun q => says d q = Content) pre -> says d p = Failure e ->
    told d truncated broken u ps (content <$> pre) e
| told_cut :
    Forall (fun q => says d q = Content) ps ->
    told d truncated broken u ps (content <$> ps)
      (match broken with
       | Some e => GwError CodeUpstreamError (Msg "reading the provider stream" []) false (Some e)
       | None => truncated
       end).

Lemma told_after d truncated broken u p ps cs e :
  says d p = Content -> told d truncated broken (reported d p u) ps cs e ->
  told d truncated broken u (p :: ps) (content p :: cs) e.
Proof.
  intros Hp [pre q rest -> Hpre Hq|pre q rest e' -> Hpre Hq|Hall].
  - apply (told_complete _ _ _ _ _ (p :: pre) q rest); [done|by constructor|done].
  - apply (told_failed _ _ _ _ _ (p :: pre) q rest); [done|by constructor|done].
  - apply (told_cut _ _ _ _ (p :: ps)). by constructor.
Qed.

(** The first payload that is not content is one payload. *)
Lemma first_unlike d pre p rest pre' p' rest' :
  pre ++ p :: rest = pre' ++ p' :: rest' ->
  Forall (fun q => says d q = Content) pre -> Forall (fun q => says d q = Content) pre' ->
  says d p <> Content -> says d p' <> Content -> says d p <> says d p' -> False.
Proof.
  revert pre'. induction pre as [|q pre IH]; intros [|q' pre'] E Hpre Hpre' Hp Hp' Hne; cbn in E; simplify_eq; try done.
  - by apply list.Forall_cons in Hpre' as [? _].
  - by apply list.Forall_cons in Hpre as [? _].
  - apply list.Forall_cons in Hpre as [_ Hpre], Hpre' as [_ Hpre']. by eapply IH.
Qed.

(** The loop's body is the dialect's. *)
Definition speaks (d : dialect) (react : list ascii -> TokenUsage -> reaction) : Prop := forall line u,
  react line u = match CutPrefix line (text "data: ") with
                 | None => Skip
                 | Some p => match says d p with
                             | Content => Give (content p) (reported d p u) false
                             | Terminator => Give (mkChunk (final_data d p) u true) u true
                             | Failure e => Refuse e
                             end
                 end.

Lemma not_data line : line = [] \/ HasPrefix line (text ":") = true \/ HasPrefix line (text "event:") = true ->
  CutPrefix line (text "data: ") = None.
Proof.
  destruct line as [|c line]; [done|]. unfold HasPrefix. cbn.
  destruct (Ascii.eqb_spec c ":") as [->|]; [done|]. destruct (Ascii.eqb_spec c "e") as [->|]; [done|].
  by intros [|[|]].
Qed.

Lemma openai_speaks : speaks openai_dialect openai.react.
Proof.
  intros line u. unfold openai.react. destruct (bool_decide (line = []) || HasPrefix line (text ":")) eqn:E.
  - rewrite not_data; [done|]. apply orb_prop in E as [E%bool_decide_eq_true|E]; eauto.
  - change openai.ssePrefix with (text "data: "). destruct (CutPrefix line (text "data: ")) as [p|]; [|done].
    cbn [says openai_dialect final_data reported]. change openai.sseDone with (text "[DONE]").
    destruct (bool_decide (p = text "[DONE]")); [done|]. cbv zeta. f_equal.
    destruct (Z.eqb_spec (Input (openai.usageFrom p)) 0), (Z.eqb_spec (Output (openai.usageFrom p)) 0); cbn [negb orb];
      ((rewrite bool_decide_true by done) || (rewrite bool_decide_false by tauto)); done.
Qed.

Lemma anthropic_speaks : speaks anthropic_dialect anthropic.react.
Proof.
  intros line u. unfold anthropic.react.
  destruct (bool_decide (line = []) || HasPrefix line (text ":") || HasPrefix line (text "event:")) eqn:E.
  - rewrite not_data; [done|]. apply orb_prop in E as [[E%bool_decide_eq_true|E]%orb_prop|E]; eauto.
  - destruct (CutPrefix line (text "data: ")) as [p|]; [|done]. cbn [says anthropic_dialect final_data reported].
    fold (event_of p). destruct (event_of p) as [e|]; [|done]. cbn [from_option].
    destruct (bool_decide (anthropic.ev_Type e = text "error")); [done|].
    by destruct (bool_decide (anthropic.ev_Type e = text "message_stop")).
Qed.

(** The two adapters, with their dialects. *)
Inductive speaking : dialect -> (list ascii -> TokenUsage -> reaction) -> error -> Prop :=
| openai_speaking : speaking openai_dialect openai.react openai.truncated
| anthropic_speaking : speaking anthropic_dialect anthropic.react anthropic.truncated.

Lemma speaking_speaks d react truncated : speaking d react truncated -> speaks d react /\ is_EOF truncated = false.
Proof. intros []; (split; [|reflexivity]); [apply openai_speaks|apply anthropic_speaks]. Qed.

Lemma failure_is_no_end d react truncated p e : speaking d react truncated -> says d p = Failure e -> is_EOF e = false.
Proof.
  intros []; cbn; [by case_bool_decide|]. destruct (event_of p) as [ev|]; [|done].
  case_bool_decide; [by intros [= <-]|]. by case_bool_decide.
Qed.

(** A stream in the middle of its body. *)
Lemma stream_told {X} d react truncated lines broken u (x : X) : speaks d react ->
  exists cs e s', yields (ChunkStream0 := adapter_stream react truncated) (mkStream lines broken false false u) x cs NoChunk e s' x
    /\ told d truncated broken u (omap payload_of lines) cs e.
Proof.
  intros Hd. revert u. induction lines as [|line lines IH]; intros u.
  { eexists [], _, _. split; [constructor; reflexivity|]. apply (told_cut _ _ _ _ []). constructor. }
  assert (Hnext : HttpApi.Next (ChunkStream := adapter_stream react truncated) (mkStream (line :: lines) broken false false u) x
    = let '(r, s') := next_line react truncated broken false (line :: lines) u in (r, s', x)) by done.
  cbn [next_line] in Hnext. rewrite Hd in Hnext. cbn [omap list_omap]. fold (payload_of line) in Hnext.
  destruct (payload_of line) as [p|].
  2: { destruct (IH u) as (cs & e & s' & Hy & Ht). exists cs, e, s'. split; [|done].
       inversion Hy as [? ? ? ? ? ? Hn|? ? ? ? ? ? ? ? ? ? Hn Hy']; subst.
       - constructor. etransitivity; [exact Hnext|exact Hn].
       - eapply yields_more; [|exact Hy']. etransitivity; [exact Hnext|exact Hn]. }
  destruct (says d p) as [| |e] eqn:Hp.
  - destruct (IH (reported d p u)) as (cs & e & s' & Hy & Ht). exists (content p :: cs), e, s'.
    split; [by eapply yields_more|by apply told_after].
  - eexists [_], io_EOF, _. split; [eapply yields_more; [exact Hnext|]; constructor; by apply finished_EOF|].
    apply (told_complete _ _ _ _ _ [] p (omap payload_of lines)); [done|constructor|done].
  - exists [], e. eexists. split; [constructor; exact Hnext|].
    apply (told_failed _ _ _ _ _ [] p (omap payload_of lines)); [done|constructor|done].
Qed.

(** C37. A stream ends, and is complete only if its body is.  Whatever an upstream sends, a stream of
    either adapter, read under a context that is not cancelled, gives finitely many chunks and then
    an error, and both are told by the payloads of the body's data lines.  If the body has the
    terminator (the payload ["[DONE]"] for the one, an event of type [message_stop] for the other)
    and no error event before it, the chunks are the payloads up to it, as they are and without
    usage, then one final chunk, which alone carries the usage reported so far, and the stream ends
    cleanly.  If an error event comes first, they are the payloads before it, and the error is the
    event's.  If the body has neither, they are all of its payloads, and the error says that the
    stream was truncated, or why it could not be read on.  So a truncated completion is never taken
    for a complete one, unless the error of a failed read itself wraps [io.EOF]. *)
Theorem stream_ends_with_its_terminator {X} d react truncated (resp : HttpResponse) (x : X) :
  speaking d react truncated ->
  exists cs e s', yields (ChunkStream0 := adapter_stream react truncated) (newStream resp) x cs NoChunk e s' x
    /\ told d truncated (broken_off resp) NoUsage (payloads resp) cs e
    /\ (at_risk (hp_ReadError resp) ->
         is_EOF e = true <-> exists pre p rest, payloads resp = pre ++ p :: rest
                               /\ Forall (fun q => says d q = Content) pre /\ says d p = Terminator).
Proof.
  intros Hs. destruct (speaking_speaks _ _ _ Hs) as [Hd Ht].
  assert (Hnew : newStream resp = mkStream (scan_lines [] (hp_Body resp)).1 (broken_off resp) false false NoUsage).
  { unfold newStream, broken_off. by destruct (scan_lines [] (hp_Body resp)) as [ls long]. }
  destruct (stream_told d react truncated (scan_lines [] (hp_Body resp)).1 (broken_off resp) NoUsage x Hd) as (cs & e & s' & Hy & Htold).
  exists cs, e, s'. rewrite Hnew. split_and!; [exact Hy|exact Htold|]. intros Hrisk. fold (payloads resp) in Htold.
  destruct Htold as [pre p rest E Hpre Hp|pre p rest e E Hpre Hp|Hall].
  - split; [intros _; by exists pre, p, rest|done].
  - rewrite (failure_is_no_end _ _ _ _ _ Hs Hp). split; [done|]. intros (pre' & p' & rest' & E' & Hpre' & Hp').
    exfalso. by eapply (first_unlike d pre p rest pre' p' rest'); [congruence|..]; congruence || done.
  - assert (He : is_EOF (match broken_off resp with
       | Some e => GwError CodeUpstreamError (Msg "reading the provider stream" []) false (Some e)
       | None => truncated end) = false).
    { unfold broken_off. destruct (scan_lines [] (hp_Body resp)).2; [done|]. destruct (hp_ReadError resp) as [e|]; [|done].
      unfold is_EOF. cbn. by apply Hrisk. }
    rewrite He. split; [done|]. intros (pre & p & rest & E & _ & Hp). rewrite E in Hall.
    apply list.Forall_app in Hall as [_ Hall]. apply list.Forall_cons in Hall as [Hc _]. congruence.
Qed.

(** A stream that is cut is accounted as free.  If the caller hangs up before the last chunk, or
    the provider's stream fails, the usage the transport hands to accounting is zero, whatever the
    provider had reported by then: the adapters keep what they saw until the terminator. *)
Theorem interrupted_stream_reports_no_usage {X} react truncated (resp : HttpResponse) (x : X) cs e s' k :
  adapter react truncated -> at_risk (hp_ReadError resp) ->
  yields (ChunkStream0 := adapter_stream react truncated) (newStream resp) x cs NoChunk e s' x ->
  (is_EOF e = true -> (k < length cs)%nat) -> last_usage (take k cs) = NoUsage.
Proof.
  intros [Hr Ht]%adapter_ok Hs Hy Hk. destruct (stream_shape react truncated resp x Hr Ht Hs) as (cs2 & e2 & s2 & Hy2 & Hw).
  destruct (yields_unique react truncated _ _ _ _ _ _ _ _ _ _ _ _ Hy Hy2) as (<- & _ & <-).
  by eapply interrupted_usage.
Qed.

(** ** Reading what the transport writes *)

(** A payload that is one line of an event stream. *)
Definition framed (p : list ascii) : Prop :=
  Forall (fun c => bz c <> 10) p /\ (exists q c, p = q ++ [c] /\ 33 <= bz c <= 126)
  /\ p <> openai.sseDone /\ Z.of_nat (length p) + 6 < maxSSELineBytes.

Definition data_line (p : list ascii) : list ascii := text "data: " ++ p.

Lemma scan_one acc l rest :
  Forall (fun c => bz c <> 10) l -> Z.of_nat (length acc + length l) < maxSSELineBytes ->
  scan_lines acc (l ++ newline :: rest)
  = let '(ls, long) := scan_lines [] rest in (dropCR (rev acc ++ l) :: ls, long).
Proof.
  intros Hl. revert acc. induction Hl as [|c l Hc Hl IH]; intros acc Hlen; cbn [app length] in *.
  - cbn [scan_lines]. rewrite (proj2 (Z.leb_gt _ _)) by lia. rewrite app_nil_r. done.
  - cbn [scan_lines]. rewrite (proj2 (Z.leb_gt _ _)) by lia. rewrite (proj2 (Z.eqb_neq _ _)) by done.
    rewrite IH by (cbn; lia). cbn. by rewrite <- app_assoc.
Qed.

Lemma dropCR_plain l c : bz c <> 13 -> dropCR (l ++ [c]) = l ++ [c].
Proof. intros Hc. unfold dropCR. rewrite rev_app_distr. cbn. by rewrite (proj2 (Z.eqb_neq _ _)). Qed.

Lemma scan_event p rest :
  Forall (fun c => bz c <> 10) p -> (exists q c, p = q ++ [c] /\ 33 <= bz c <= 126) ->
  Z.of_nat (length p) + 6 < maxSSELineBytes ->
  scan_lines [] (sse p ++ rest) = let '(ls, long) := scan_lines [] rest in (data_line p :: [] :: ls, long).
Proof.
  intros Hp (q & c & -> & Hc) Hlen. unfold sse.
  replace ((text "data: " ++ (q ++ [c]) ++ [newline; newline]) ++ rest)
    with ((text "data: " ++ q ++ [c]) ++ newline :: [] ++ newline :: rest) by (by rewrite <- !app_assoc).
  rewrite scan_one; [|apply list.Forall_app_2; [by repeat constructor|done]|rewrite !length_app in *; cbn in *; lia].
  rewrite scan_one by (by constructor || (cbn; unfold maxSSELineBytes; lia)).
  destruct (scan_lines [] rest) as [ls long]. cbn [rev app]. unfold data_line.
  do 2 f_equal. rewrite !app_assoc. apply dropCR_plain. lia.
Qed.

Lemma trimLeft_id c s : bz c < 128 -> IsSpace (bz c) = false -> trimLeft_from 0 (c :: s) = c :: s.
Proof. intros Hc Hs. cbn [trimLeft_from]. unfold DecodeRune. by rewrite (proj2 (Z.ltb_lt _ _)), Hs by lia. Qed.

Lemma trim_data p : (exists q c, p = q ++ [c] /\ 33 <= bz c <= 126) -> TrimSpace (data_line p) = data_line p.
Proof.
  intros (q & c & -> & Hc). unfold TrimSpace, data_line. change (text "data: ") with ("d"%char :: text "ata: ").
  cbn [app]. rewrite trimLeft_id by done.
  replace ("d"%char :: text "ata: " ++ q ++ [c]) with ((text "data: " ++ q) ++ [c]) by (by rewrite <- app_assoc).
  rewrite rev_app_distr. cbn [rev app trimRight_rev DecodeLastRune_rev].
  rewrite (proj2 (Z.ltb_lt _ _)) by lia. cbn [Nat.pred]. assert (IsSpace (bz c) = false) as ->.
  { unfold IsSpace. repeat (apply orb_false_iff; split); try (apply Z.eqb_neq; lia); apply within_false; lia. }
  change (rev ([c] ++ rev (text "data: " ++ q)) = (text "data: " ++ q) ++ [c]).
  by rewrite rev_app_distr, rev_involutive.
Qed.

(** The usage the payloads report, the last one counting. *)
Definition seen (u : TokenUsage) (p : list ascii) : TokenUsage :=
  let v := openai.usageFrom p in if negb (Input v =? 0) || negb (Output v =? 0) then v else u.

Lemma react_data p u : framed p ->
  openai.react (TrimSpace (data_line p)) u = Give (mkChunk p NoUsage false) (seen u p) false.
Proof.
  intros (_ & Hlast & Hd & _). rewrite trim_data by done. unfold openai.react, data_line.
  change (HasPrefix _ (text ":")) with false. rewrite bool_decide_false by done. cbn [orb].
  rewrite (proj2 (CutPrefix_Some _ openai.ssePrefix p)) by done. by rewrite bool_decide_false.
Qed.

Lemma scan_all_events ps :
  Forall framed ps ->
  scan_lines [] (concat (map sse ps) ++ done_event) = (concat (map (fun p => [data_line p; []]) ps) ++ [data_line openai.sseDone; []], false).
Proof.
  induction 1 as [|p ps (H1 & H2 & _ & H4) _ IH]; [vm_compute; reflexivity|].
  cbn [map concat]. rewrite <- app_assoc, scan_event by done. by rewrite IH.
Qed.

Lemma reads_events {X} (x : X) ps u blank :
  Forall framed ps -> (blank = [] \/ blank = [[]]) ->
  exists s', yields (ChunkStream0 := adapter_stream openai.react openai.truncated)
    (mkStream (blank ++ concat (map (fun p => [data_line p; []]) ps) ++ [data_line openai.sseDone; []]) None false false u) x
    (map (fun p => mkChunk p NoUsage false) ps ++ [mkChunk [] (foldl seen u ps) true]) NoChunk io_EOF s' x.
Proof.
  intros Hps. revert u blank. induction Hps as [|p ps Hp _ IH]; intros u blank Hb.
  - eexists. eapply yields_more; [destruct Hb as [-> | ->]; reflexivity|]. constructor. reflexivity.
  - destruct (IH (seen u p) [[]] (or_intror eq_refl)) as (s' & Hy). exists s'. cbn [map app foldl].
    eapply yields_more; [|exact Hy]. cbn [map concat app].
    assert (Hn : forall rest, next_line openai.react openai.truncated None false (blank ++ data_line p :: rest) u
      = ((mkChunk p NoUsage false, None), mkStream rest None false false (seen u p))).
    { intros rest. destruct Hb as [-> | ->]; cbn [app next_line]; [|change (openai.react (TrimSpace []) u) with Skip; cbv iota];
        by rewrite react_data. }
    unfold HttpApi.Next, adapter_stream, Next_with. cbn [sm_closed sm_finished orb sm_scanErr sm_lines sm_usage].
    by rewrite Hn.
Qed.

(** What the transport writes is what an OpenAI-compatible reader reads.  Events the transport
    writes, one line each, followed by its terminator, are read by the gateway's own adapter as
    exactly those payloads in that order, then a final chunk with the last usage they report, then
    the end: a gateway can stand behind a gateway. *)
Theorem transport_output_reads_back {X} (resp : HttpResponse) (x : X) ps :
  Forall framed ps -> hp_Body resp = concat (map sse ps) ++ done_event -> hp_ReadError resp = None ->
  exists s', yields (ChunkStream0 := adapter_stream openai.react openai.truncated) (newStream resp) x
    (map (fun p => mkChunk p NoUsage false) ps ++ [mkChunk [] (foldl seen NoUsage ps) true]) NoChunk io_EOF s' x.
Proof.
  intros Hps Hb He. unfold newStream. rewrite Hb, He, scan_all_events by done.
  apply (reads_events x ps NoUsage []); [done|by left].
Qed.

(** ** The echo adapter *)

Definition echo_stream {X} : ChunkStream echo.stream X := {|
  HttpApi.Next s x := let '(r, s') := echo.Next None s in (r, s', x);
  HttpApi.Close _ x := x |}.

(** The body comes back whole, sixteen bytes at a time, usage with its last piece. *)
Lemma echo_from {X} (x : X) body u offset :
  (offset <= length body)%nat ->
  exists cs s', yields (ChunkStream0 := echo_stream) (echo.mkEcho body offset u false) x cs NoChunk io_EOF s' x
    /\ concat (chunk_Body <$> cs) = drop offset body
    /\ Forall (fun c => (length (chunk_Body c) <= echo.ChunkSize)%nat) cs
    /\ ((offset < length body)%nat -> exists init fin, cs = init ++ [fin] /\ chunk_Final fin = true /\ chunk_Usage fin = u
         /\ Forall plain_chunk init).
Proof.
  remember (length body - offset)%nat as n eqn:Hn. revert offset Hn.
  induction n as [n IH] using lt_wf_ind. intros offset -> Ho.
  destruct (decide (offset < length body)%nat) as [Hlt|Hge].
  2:{ exists [], (echo.mkEcho body offset u false). split_and!; [|by rewrite drop_ge by lia|constructor|lia].
      constructor. unfold HttpApi.Next, echo_stream, echo.Next. cbn [echo.e_closed echo.e_body echo.e_offset].
      by rewrite (proj2 (Nat.leb_le _ _)) by lia. }
  set (stop := Nat.min (offset + echo.ChunkSize) (length body)).
  set (c := mkChunk (take (stop - offset) (drop offset body)) (if (length body <=? stop)%nat then u else NoUsage) (length body <=? stop)%nat).
  assert (Hnext : HttpApi.Next (ChunkStream := echo_stream) (echo.mkEcho body offset u false) x
                  = ((c, None), echo.mkEcho body stop u false, x)).
  { unfold HttpApi.Next, echo_stream, echo.Next. cbn [echo.e_closed echo.e_body echo.e_offset echo.e_usage].
    by rewrite (proj2 (Nat.leb_gt _ _)) by lia. }
  assert (Hc : (length (chunk_Body c) <= echo.ChunkSize)%nat) by (cbn; rewrite length_take; unfold stop; lia).
  assert (Hstop : (offset < stop <= length body)%nat) by (unfold stop, echo.ChunkSize; lia).
  destruct (IH (length body - stop)%nat ltac:(lia) stop eq_refl ltac:(lia)) as (cs & s' & Hy & Hb & Hl & Hf).
  exists (c :: cs), s'. split_and!; [by eapply yields_more| |by constructor|intros _].
  - cbn [fmap list_fmap concat]. rewrite Hb. cbn [chunk_Body c].
    rewrite <- (take_drop (stop - offset) (drop offset body)) at 2. rewrite drop_drop. do 2 f_equal. lia.
  - destruct (decide (stop < length body)%nat) as [Hs|Hs].
    + destruct (Hf Hs) as (init & fin & -> & F1 & F2 & F3). exists (c :: init), fin. split_and!; [done..|].
      constructor; [|done]. unfold plain_chunk. cbn. by rewrite (proj2 (Nat.leb_gt _ _)) by lia.
    + assert (cs = []) as ->.
      { destruct cs as [|c1 cs]; [done|]. inversion Hy as [|? ? ? ? ? ? ? ? ? ? Hn]; subst.
        unfold HttpApi.Next, echo_stream, echo.Next in Hn. cbn [echo.e_closed echo.e_body echo.e_offset] in Hn.
        rewrite (proj2 (Nat.leb_le _ _)) in Hn by lia. discriminate. }
      exists [], c. cbn. rewrite (proj2 (Nat.leb_le _ _)) by lia. split_and!; [done..|constructor].
Qed.

(** ** Witnesses *)

Definition usage_event : list ascii :=
  text "{" ++ quoted (text "usage") ++ text ":{" ++ quoted (text "prompt_tokens") ++ text ":7,"
  ++ quoted (text "completion_tokens") ++ text ":5}}".

Definition demo_response (body : bytes) : HttpResponse := mkHttpResponse 200 "200 OK" body None.

Lemma no_read_error : at_risk None.
Proof. done. Qed.

Lemma stream_ends_with_its_terminator_witness :
  exists e s', yields (ChunkStream0 := adapter_stream openai.react openai.truncated)
    (newStream (demo_response (sse usage_event ++ sse openai.sseDone))) tt
    [mkChunk usage_event NoUsage false; mkChunk [] (mkUsage 7 0 0 5) true] NoChunk e s' tt /\ is_EOF e = true.
Proof.
  destruct (stream_ends_with_its_terminator openai_dialect openai.react openai.truncated
    (demo_response (sse usage_event ++ sse openai.sseDone)) tt openai_speaking) as (cs & e & s' & Hy & _ & He).
  assert (Hc : yields (ChunkStream0 := adapter_stream openai.react openai.truncated)
    (newStream (demo_response (sse usage_event ++ sse openai.sseDone))) tt
    [mkChunk usage_event NoUsage false; mkChunk [] (mkUsage 7 0 0 5) true] NoChunk io_EOF
    (mkStream [[]] None false true (mkUsage 7 0 0 5)) tt).
  { eapply yields_more; [vm_compute; reflexivity|]. eapply yields_more; [vm_compute; reflexivity|]. constructor. vm_compute. reflexivity. }
  destruct (yields_unique _ _ _ _ _ _ _ _ _ _ _ _ _ _ Hy Hc) as (-> & _ & _). exists e, s'. split; [exact Hy|].
  apply (He no_read_error). exists [usage_event], openai.sseDone, []. split; [vm_compute; reflexivity|].
  split; [constructor; [vm_compute; reflexivity|constructor]|vm_compute; reflexivity].
Defined.

(** The provider had reported twelve tokens when it went away. *)
Lemma interrupted_stream_reports_no_usage_witness :
  openai.usageFrom usage_event = mkUsage 7 0 0 5 /\ last_usage (take 1 [mkChunk usage_event NoUsage false]) = NoUsage.
Proof.
  split; [vm_compute; reflexivity|].
  apply (interrupted_stream_reports_no_usage openai.react openai.truncated (demo_response (sse usage_event)) tt
    [mkChunk usage_event NoUsage false] openai.truncated (mkStream [] None false false (mkUsage 7 0 0 5)) 1 is_openai).
  - exact no_read_error.
  - eapply yields_more; [vm_compute; reflexivity|]. constructor. vm_compute. reflexivity.
  - discriminate.
Defined.

Lemma transport_output_reads_back_witness :
  exists s', yields (ChunkStream0 := adapter_stream openai.react openai.truncated)
    (newStream (demo_response (concat (map sse [text "{}"; usage_event]) ++ done_event))) tt
    [mkChunk (text "{}") NoUsage false; mkChunk usage_event NoUsage false; mkChunk [] (mkUsage 7 0 0 5) true] NoChunk io_EOF s' tt.
Proof.
  destruct (transport_output_reads_back (demo_response (concat (map sse [text "{}"; usage_event]) ++ done_event)) tt
    [text "{}"; usage_event]) as (s' & H).
  - constructor; [|constructor; [|constructor]]; (split; [repeat (constructor; [vm_compute; discriminate|]); constructor|]);
      (split; [|split; [discriminate|vm_compute; reflexivity]]).
    + exists (text "{"), "}"%char. split; [reflexivity|vm_compute; split; discriminate].
    + eexists (removelast usage_event), "}"%char. split; [reflexivity|vm_compute; split; discriminate].
  - reflexivity.
  - reflexivity.
  - exists s'. exact H.
Defined.

(** A Messages stream: input from the first event, output from the last delta. *)
Definition typed (t : string) (rest : list ascii) : list ascii :=
  text "{" ++ quoted (text "type") ++ text ":" ++ quoted (text t) ++ rest ++ text "}".
Definition messages_stream : bytes :=
  text "event: message_start" ++ [newline]
  ++ sse (typed "message_start" (text "," ++ quoted (text "message") ++ text ":{" ++ quoted (text "usage") ++ text ":{"
            ++ quoted (text "input_tokens") ++ text ":9," ++ quoted (text "output_tokens") ++ text ":1}}"))
  ++ sse (typed "ping" [])
  ++ sse (typed "message_delta" (text "," ++ quoted (text "usage") ++ text ":{" ++ quoted (text "output_tokens") ++ text ":4}"))
  ++ sse (typed "message_stop" []).
Lemma messages_usage_is_merged :
  exists init s', yields (ChunkStream0 := adapter_stream anthropic.react anthropic.truncated)
    (newStream (demo_response messages_stream)) tt
    (init ++ [mkChunk (typed "message_stop" []) (mkUsage 9 0 0 4) true]) NoChunk io_EOF s' tt /\ length init = 3%nat.
Proof.
  eexists [_; _; _], _. split; [|reflexivity].
  do 4 (eapply yields_more; [vm_compute; reflexivity|]). constructor. vm_compute. reflexivity.
Qed.
