(* ===== verification/Snapshotgen.v ===== *)
(** * The demonstration snapshot (cmd/snapshotgen/main.go)

    The tool that writes a snapshot to try the gateway with.  Writing the file, the clock, the hash of
    layers and protobuf are arguments; the lookup of the key is the one of [Sha256].  The theorem composes it with
    the worker: what it writes is encoded by [Wire] and sealed by [Codec], read by the file source of
    [Source], and its key is presented to the authentication stage of [Pipeline]. *)
From S2P Require Import Prelude Errors Core Snapshot SnapshotFacts Strconv Policy Wire Codec Format Sha256 Holder HolderFacts Source Kv Limits Float64 Router Guardrails Pipeline.
From Stdlib Require Import ZArith Lia Ascii.
From stdpp Require Import base gmap strings list.
Open Scope Z_scope.
Open Scope gw_scope.

Definition CapabilityStreaming : Capability := "streaming".

Record demoConfig := mkDemo {
  out : string; demo_pepper : string; secret : string;
  endpoint : string; model : string; credential : string; inputCost : Z; outputCost : Z;
  anthropicEndpoint : string; anthropicModel : string; anthropicCredential : string }.

(** The catalog, with the two upstreams that are opted into. *)
Definition echo_deployment : Deployment :=
  mkDeployment "echo-1" (mkRoutingKey "echo-model" "") "echo" "in-process" "local" TrustInternal "" 100 0 NoCost
    [CapabilityStreaming].
Definition openai_deployment (cfg : demoConfig) : Deployment :=
  mkDeployment "upstream-1" (mkRoutingKey (model cfg) "") "openai-compatible" (endpoint cfg) "cloud" TrustExternal
    (credential cfg) 100 0 (mkCost (inputCost cfg) (outputCost cfg) 0 0) [CapabilityStreaming].
Definition anthropic_deployment (cfg : demoConfig) : Deployment :=
  mkDeployment "anthropic-1" (mkRoutingKey (anthropicModel cfg) "") "anthropic" (anthropicEndpoint cfg) "cloud" TrustExternal
    (anthropicCredential cfg) 100 0 (mkCost 3000 15000 0 0) [CapabilityStreaming].

Definition catalog (cfg : demoConfig) : list (Deployment * ModelAlias) :=
  [(echo_deployment, mkAlias "fast" [mkRoutingKey "echo-model" ""])]
  ++ (if bool_decide (endpoint cfg <> "")
      then [(openai_deployment cfg, mkAlias "real" [mkRoutingKey (model cfg) ""])] else [])
  ++ (if bool_decide (anthropicEndpoint cfg <> "")
      then [(anthropic_deployment cfg, mkAlias "reasoning" [mkRoutingKey (anthropicModel cfg) ""])] else []).

Definition modelNames (aliases : list ModelAlias) (deployments : list Deployment) : list string :=
  (alias_Name <$> aliases) ++ ((fun d => BaseModel (dep_Key d)) <$> deployments).

Definition demo_monthly : BudgetState := mkBudget "demo-monthly" BudgetScopeOrg 10000000 0 true 500.
Definition demo_key : Principal :=
  mkPrincipal "demo-key" "demo" "demo-org" "" "" "" [] (mkAllowlist true []) [mkBudgetRef "demo-monthly" BudgetScopeOrg]
    DataClassInternal TrustUnset NoLimits false 0.

Definition global_spec (now : time) (cfg : demoConfig) : GlobalSpec :=
  mkGlobalSpec (mkVersion 1 "") now (catalog cfg).*1 (catalog cfg).*2 {[ "demo" := "demo" ]} [] "demo" [] [].
Definition tenant_spec (now : time) (lookup : KeyLookup) : TenantSpec :=
  mkTenantSpec "demo" (mkVersion 1 "") now "demo" [demo_key] {[ lookup := "demo-key" ]} [] [demo_monthly] [] [] [] TrustExternal.

(** The key and the names the tool prints. *)
Definition printed_key (cfg : demoConfig) : string := "gw_demo_" +:+ secret cfg.
Definition printed_models (cfg : demoConfig) : list string := modelNames (catalog cfg).*2 (catalog cfg).*1.

Section run.
Context (sha256 : bytes -> bytes)
  `{ProtoMessage PbBundle} `{ProtoMessage pb.GlobalLayer} `{ProtoMessage pb.TenantLayer} `{ProtoMessage pb.Snapshot}
  {X : Type} (WriteFile : string -> bytes -> X -> option error * X).

(** What is printed, or the error the process exits with. *)
Definition run (now : time) (cfg : demoConfig) (x : X) : (error + bytes) * X :=
  if bool_decide (demo_pepper cfg = "") then (inl (Foreign "-pepper is required and must match GATEWAY_KEY_PEPPER" None), x)
  else
    let made :=
      let! global := SealGlobal sha256 (EncodeGlobal (global_spec now cfg)) in
      let! tenant := SealTenant sha256 (EncodeTenant (tenant_spec now (Sha256.ComputeKeyLookup (text (demo_pepper cfg)) (secret cfg)))) in
      Marshal (pb.mkSnapshot (Some global) [tenant]) in
    match made with
    | inl err => (inl err, x)
    | inr b =>
        let '(failed, x) := WriteFile (out cfg) b x in
        match failed with
        | Some err => (inl err, x)
        | None =>
            (inr (text "wrote " ++ text (out cfg) ++ text " (" ++ FormatInt (Z.of_nat (length b)) ++ text " bytes)" ++ ["010"%char]
                  ++ text "api key: " ++ text (printed_key cfg) ++ ["010"%char]
                  ++ text "models:  " ++ text (String.concat ", " (printed_models cfg)) ++ ["010"%char]), x)
        end
    end.
End run.

(** ** Facts *)

(** A build time as it comes back from the wire: in whole milliseconds. *)
Definition wire_time (t : time) : time := fromUnixMillis (toUnixMillis t).

(** The upstreams that were opted into have a model to serve. *)
Definition models_named (cfg : demoConfig) : Prop :=
  (endpoint cfg <> "" -> model cfg <> "") /\ (anthropicEndpoint cfg <> "" -> anthropicModel cfg <> "").

Section facts.
Context `{ProtoMessage PbBundle}.

Lemma catalog_carried cfg : Forall (carried deployment_codec) (catalog cfg).*1.
Proof.
  assert (H1 : carried tier_codec TrustInternal) by (by apply tier_dec_enc).
  assert (H2 : carried tier_codec TrustExternal) by (by apply tier_dec_enc).
  unfold catalog. repeat case_bool_decide; repeat (apply list.Forall_cons_2; [assumption|]); apply list.Forall_nil_2.
Qed.

Lemma sealed_global_decodes now cfg d :
  DecodeGlobal (SetVersion (Some (pb.mkLayerVersion 1 d)) (EncodeGlobal (global_spec now cfg)))
  = mkGlobalSpec (mkVersion 1 d) (wire_time now) (catalog cfg).*1 (catalog cfg).*2 {[ "demo" := "demo" ]} [] "demo" [] [].
Proof.
  unfold DecodeGlobal, EncodeGlobal, global_spec. cbn -[fmap]. rewrite aliases_roundtrip, !copyMap_id. f_equal.
  apply (list_dec_enc deployment_codec), catalog_carried.
Qed.

Lemma sealed_tenant_decodes now lookup d :
  length lookup = KeyLookup_size ->
  DecodeTenant (SetVersion (Some (pb.mkLayerVersion 1 d)) (EncodeTenant (tenant_spec now lookup)))
  = mkTenantSpec "demo" (mkVersion 1 d) (wire_time now) "demo" [demo_key] {[ lookup := "demo-key" ]} [] [demo_monthly] [] [] []
      TrustExternal.
Proof.
  intros Hl. unfold DecodeTenant, EncodeTenant, tenant_spec. cbn -[fmap foldl map_to_list]. f_equal.
  apply keys_roundtrip. by apply map_Forall_singleton.
Qed.

(** What every line of the catalog has. *)
Lemma catalog_entries cfg : Forall (fun e : Deployment * ModelAlias =>
    dep_ID e.1 <> "" /\ Valid (dep_TrustTier e.1) = true /\ dep_Weight e.1 = 100 /\ dep_ShadowPercent e.1 = 0
    /\ TrustExternal <= dep_TrustTier e.1 /\ alias_Name e.2 <> "" /\ alias_Targets e.2 = [dep_Key e.1]
    /\ dep_Key e.1 = mkRoutingKey (BaseModel (dep_Key e.1)) "") (catalog cfg).
Proof. unfold catalog. repeat case_bool_decide; repeat apply list.Forall_cons_2; try apply list.Forall_nil_2; by split_and!. Qed.

Lemma catalog_named cfg : Forall (fun e : Deployment * ModelAlias => BaseModel (dep_Key e.1) <> "") (catalog cfg) <-> models_named cfg.
Proof.
  unfold catalog, models_named. repeat case_bool_decide; cbn [app]; rewrite !Forall_cons, Forall_nil; cbn; naive_solver.
Qed.

Lemma catalog_ids cfg : NoDup (dep_ID <$> (catalog cfg).*1) /\ NoDup (alias_Name <$> (catalog cfg).*2).
Proof. unfold catalog. repeat case_bool_decide; split; cbn; apply (bool_decide_eq_true (@NoDup string _)); reflexivity. Qed.

Lemma catalog_ok cfg now d : global_spec_ok (mkGlobalSpec (mkVersion 1 d) now (catalog cfg).*1 (catalog cfg).*2
    {[ "demo" := "demo" ]} [] "demo" [] []) <-> models_named cfg.
Proof.
  rewrite <- catalog_named. pose proof (catalog_entries cfg) as He. pose proof (catalog_ids cfg) as [Hi _].
  rewrite list.Forall_forall in He. unfold global_spec_ok. cbn [gs_Version Number gs_Deployments gs_Aliases gs_DefaultPlugins].
  rewrite !Forall_fmap, !list.Forall_forall. unfold deployment_ok, alias_ok, compose. split.
  - intros (_ & Hd & _) e Hin. by destruct (Hd e Hin) as (_ & ? & _).
  - intros Hb. split_and!; [done| |done| |constructor].
    + intros e Hin. destruct (He e Hin) as (? & ? & -> & -> & _). split_and!; try done. by apply Hb.
    + intros e Hin. destruct (He e Hin) as (_ & _ & _ & _ & _ & ? & -> & _). split_and!; [done|done|].
      intros t ->%list_elem_of_singleton. exists e.1. split; [|done]. apply list_elem_of_fmap. by exists e.
Qed.

Lemma demo_tenant_ok now lookup d : tenant_spec_ok (mkTenantSpec "demo" (mkVersion 1 d) now "demo" [demo_key]
    {[ lookup := "demo-key" ]} [] [demo_monthly] [] [] [] TrustExternal).
Proof.
  unfold tenant_spec_ok. cbn. split_and!; try done.
  - apply list.Forall_singleton. by split.
  - apply list.Forall_singleton. split_and!; [done|done|]. intros ref ->%list_elem_of_singleton. exists demo_monthly.
    split; [by apply list_elem_of_singleton|done].
  - intros l k [_ <-]%lookup_singleton_Some. exists demo_key. split; [by apply list_elem_of_singleton|done].
  - constructor.
Qed.

(** The snapshot a worker composes from the two layers. *)
Definition demo_global_layer (now : time) (cfg : demoConfig) (d : string) : GlobalLayer :=
  mkGlobalLayer (mkVersion 1 d) (wire_time now) (ix_deployments (indexAll (catalog cfg).*1)) (ix_shadows (indexAll (catalog cfg).*1))
    (ix_byRoute (indexAll (catalog cfg).*1)) (foldl (fun m a => <[alias_Name a := a]> m) ∅ (catalog cfg).*2) {[ "demo" := "demo" ]} ∅
    [] [] "demo".
Definition demo_tenant_layer (now : time) (lookup : KeyLookup) (d : string) : TenantLayer :=
  mkTenantLayer "demo" (mkVersion 1 d) (wire_time now) "demo" {[ "demo-key" := demo_key ]} {[ lookup := "demo-key" ]} ∅
    {[ "demo-monthly" := demo_monthly ]} ∅ [] [] TrustExternal.
Definition demo_served (now : time) (cfg : demoConfig) (lookup : KeyLookup) (dg dt : string) : Snapshot :=
  mkSnapshot (demo_global_layer now cfg dg) {[ "demo" := demo_tenant_layer now lookup dt ]}.

Definition demo_message (now : time) (cfg : demoConfig) (lookup : KeyLookup) (dg dt : string) : pb.Snapshot :=
  pb.mkSnapshot (Some (SetVersion (Some (pb.mkLayerVersion 1 dg)) (EncodeGlobal (global_spec now cfg))))
    [SetVersion (Some (pb.mkLayerVersion 1 dt)) (EncodeTenant (tenant_spec now lookup))].

Lemma demo_tenant_built now lookup d : length lookup = KeyLookup_size ->
  NewTenantLayer (DecodeTenant (SetVersion (Some (pb.mkLayerVersion 1 d)) (EncodeTenant (tenant_spec now lookup))))
  = inr (demo_tenant_layer now lookup d).
Proof. intros Hl. rewrite sealed_tenant_decodes by done. apply NewTenantLayer_inv. split; [apply demo_tenant_ok|reflexivity]. Qed.

Lemma demo_global_built now cfg d :
  let built := NewGlobalLayer (DecodeGlobal (SetVersion (Some (pb.mkLayerVersion 1 d)) (EncodeGlobal (global_spec now cfg)))) in
  (built = inr (demo_global_layer now cfg d) /\ models_named cfg) \/ ((exists e, built = inl e) /\ ~ models_named cfg).
Proof.
  cbn zeta. rewrite sealed_global_decodes. rewrite <- (catalog_ok cfg (wire_time now) d).
  destruct (NewGlobalLayer _) as [e|g] eqn:E.
  - right. split; [by exists e|]. intros Hok. pose proof (proj2 (NewGlobalLayer_inv _ _) (conj Hok eq_refl)). congruence.
  - left. apply NewGlobalLayer_inv in E as [Hok ->]. by split.
Qed.

Lemma demo_decodes now cfg lookup dg dt s :
  length lookup = KeyLookup_size ->
  DecodeSnapshot (Some (demo_message now cfg lookup dg dt)) = inr s <-> models_named cfg /\ s = demo_served now cfg lookup dg dt.
Proof.
  intros Hl. unfold DecodeSnapshot. cbn [mbind option_bind pb.s_GlobalLayer from_option pb.s_Tenants demo_message foldM].
  destruct (demo_global_built now cfg dg) as [[-> Hn]|[[e ->] Hn]].
  - unfold decodeTenantLayer. rewrite (demo_tenant_built _ _ _ Hl). cbn. rewrite lookup_empty. cbn.
    change (<["demo" := ?t]> ∅) with ({[ "demo" := t ]} : gmap TenantID TenantLayer). rewrite map_to_list_singleton. cbn.
    unfold checkRouted. rewrite bool_decide_true; [split; [by intros [= <-]|by intros [_ ->]]|].
    unfold routed. cbn [demo_global_layer g_tenantByPrefix]. rewrite map_to_list_singleton. cbn. set_solver.
  - split; [done|by intros [? _]].
Qed.

(** A name the tool prints leads to one deployment that takes traffic. *)
Lemma printed_resolves now cfg lookup dg dt name :
  name ∈ printed_models cfg ->
  exists d, ResolveAlias (demo_served now cfg lookup dg dt) "demo" name = [dep_Key d]
    /\ d ∈ Deployments (demo_served now cfg lookup dg dt) (dep_Key d) /\ Serving d = true
    /\ AtLeast (dep_TrustTier d) (MinTrustTier (demo_served now cfg lookup dg dt) "demo") = true.
Proof.
  intros Hn. pose proof (catalog_entries cfg) as He. rewrite list.Forall_forall in He.
  assert (Hone : forall e, e ∈ catalog cfg -> exists d, dep_Key d = dep_Key e.1
    /\ d ∈ Deployments (demo_served now cfg lookup dg dt) (dep_Key d) /\ Serving d = true
    /\ AtLeast (dep_TrustTier d) (MinTrustTier (demo_served now cfg lookup dg dt) "demo") = true).
  { intros e Hin. destruct (He e Hin) as (_ & _ & Hw & _ & Ht & _). exists e.1. split_and!; [done| |by unfold Serving; rewrite Hw|].
    - unfold Deployments. cbn [demo_served s_global demo_global_layer g_byRoute]. rewrite indexAll_byRoute. apply list_elem_of_filter.
      split; [done|]. apply list_elem_of_fmap. by exists e.
    - apply AtLeast_spec. unfold MinTrustTier. cbn [demo_served s_tenants]. by rewrite lookup_singleton_eq. }
  enough (exists e, e ∈ catalog cfg /\ ResolveAlias (demo_served now cfg lookup dg dt) "demo" name = [dep_Key e.1]) as (e & Hin & Hr).
  { destruct (Hone e Hin) as (d & Hd & ?). exists d. split; [by rewrite Hr, Hd|done]. }
  unfold ResolveAlias. cbn [demo_served s_tenants s_global]. rewrite lookup_singleton_eq. cbn [mbind option_bind demo_tenant_layer t_aliases].
  rewrite lookup_empty. cbn [demo_global_layer g_aliases].
  destruct (_ !! name) as [a|] eqn:E.
  - apply foldl_insert_lookup in E as [[Ha Hk]|E]; [|by rewrite lookup_empty in E].
    apply list_elem_of_fmap in Ha as (e & -> & Hin). exists e. split; [done|]. by destruct (He e Hin) as (_ & _ & _ & _ & _ & _ & -> & _).
  - apply elem_of_app in Hn as [Hn|Hn]; apply list_elem_of_fmap in Hn as (y & -> & Hy).
    + exfalso. apply eq_None_not_Some in E. apply E, foldl_insert_some. by exists y.
    + apply list_elem_of_fmap in Hy as (e & -> & Hin). exists e. split; [done|].
      destruct (He e Hin) as (_ & _ & _ & _ & _ & _ & _ & Hk). by rewrite <- Hk.
Qed.

Lemma printed_key_parses cfg : secret cfg <> "" -> ParseAPIKey (printed_key cfg) = inr ("demo", secret cfg).
Proof.
  intros Hs. unfold ParseAPIKey, printed_key.
  change ("gw_demo_" +:+ secret cfg) with ("gw_" +:+ ("demo_" +:+ secret cfg)).
  rewrite (proj2 (cut_prefix_Some "gw_" _ ("demo_" +:+ secret cfg)) eq_refl), (proj2 (cut_Some "_" _ "demo" (secret cfg))).
  - by rewrite (bool_decide_false (secret cfg = "")).
  - split; [done|]. cbn. naive_solver.
Qed.
End facts.

(** ** The demonstration works *)
Section works.
Context (sha256 : bytes -> bytes)
  `{ProtoMessage PbBundle} `{ProtoLaws pb.GlobalLayer} `{ProtoLaws pb.TenantLayer} `{ProtoLaws pb.Snapshot}
  {X : Type} (WriteFile : string -> bytes -> X -> option error * X) (ReadFile : X -> string -> error + bytes).

(** A file that was written reads back. *)
Context (reads_back : forall path b x x', WriteFile path b x = (None, x') -> ReadFile x' path = inr b).

#[local] Abbreviation ran := (run sha256 WriteFile).

(** What is in the file when the tool has succeeded, and what the source makes of it. *)
Lemma run_inv now cfg x printed x' :
  ran now cfg x = (inr printed, x') ->
  demo_pepper cfg <> "" /\ exists b dg dt, ReadFile x' (out cfg) = inr b
    /\ forall s digest, decodeAndVerify sha256 b = inr (s, digest)
       <-> (models_named cfg /\ s = demo_served now cfg (Sha256.ComputeKeyLookup (text (demo_pepper cfg)) (secret cfg)) dg dt /\ digest = dg).
Proof.
  unfold run. case_bool_decide as Hp; [done|].
  pose proof (Sha256.ComputeKeyLookup_length (text (demo_pepper cfg)) (secret cfg)) as Hl.
  set (lookup := Sha256.ComputeKeyLookup _ _) in *. clearbody lookup.
  destruct (SealGlobal sha256 _) as [e|g] eqn:Eg; [done|]. destruct (SealTenant sha256 _) as [e|t] eqn:Et; [done|].
  destruct (Marshal _) as [e|b] eqn:Em; [done|]. destruct (WriteFile (out cfg) b x) as [[e|] x1] eqn:Ew; [done|].
  intros [= _ <-]. split; [done|].
  assert (Hv : GetVersion (EncodeGlobal (global_spec now cfg)) <> None) by done.
  pose proof (seal_verifies sha256 "" [] _ g Hv Eg) as [Vg _].
  assert (Hw : GetVersion (EncodeTenant (tenant_spec now lookup)) <> None) by done.
  pose proof (seal_verifies sha256 "" [] _ t Hw Et) as [Vt _].
  exists b, (Codec.stamp g), (Codec.stamp t). split; [by eapply reads_back|].
  assert (Hg : g = SetVersion (Some (pb.mkLayerVersion 1 (Codec.stamp g))) (EncodeGlobal (global_spec now cfg))).
  { revert Eg. unfold SealGlobal, SealLayer. destruct (DigestLayer _ _); [done|]. by intros [= <-]. }
  assert (Ht : t = SetVersion (Some (pb.mkLayerVersion 1 (Codec.stamp t))) (EncodeTenant (tenant_spec now lookup))).
  { revert Et. unfold SealTenant, SealLayer. destruct (DigestLayer _ _); [done|]. by intros [= <-]. }
  assert (Hu : proto_Unmarshal b = inr (pb.mkSnapshot (Some g) [t])).
  { revert Em. unfold Marshal. destruct (proto_Marshal _) eqn:E; [done|]. intros [= <-]. by apply proto_roundtrip. }
  apply verify_inv in Vg. apply verify_inv in Vt. intros s digest. rewrite decodeAndVerify_inv.
  rewrite (assoc (∧) (models_named cfg)).
  rewrite <- (demo_decodes now cfg lookup (Codec.stamp g) (Codec.stamp t) s) by exact Hl.
  unfold demo_message. rewrite <- Hg, <- Ht. split.
  - intros (msg & g' & Hu' & Hg' & _ & _ & Hd & ->). rewrite Hu in Hu'. injection Hu' as <-. injection Hg' as <-. done.
  - intros [Hd ->]. exists (pb.mkSnapshot (Some g) [t]), g. split_and!; try done. by apply list.Forall_singleton.
Qed.

(** C29. The demonstration works.  When the tool has succeeded, a worker's file source accepts what it wrote
    exactly when each upstream that was opted into was given a model, whatever else the flags say.
    The worker's snapshot then admits the printed key, if it has a secret and the pepper is the
    worker's, as the one demonstration principal, whose budget does not deny; and every model name
    that was printed is permitted and resolves to a deployment that takes traffic and is as trusted
    as the tenant demands.  Writing a file makes it readable: all else is computed, the keyed hash of
    the secret included. *)
Theorem demo_snapshot_is_served {L C S P Strm Y} (p : Pipeline P Strm Y) now cfg x printed x' :
  ran now cfg x = (inr printed, x') -> pepper p = text (demo_pepper cfg) -> Pipeline.ComputeKeyLookup p = Sha256.ComputeKeyLookup ->
  let fetched := File_Fetch sha256 (ReadFile x') (out cfg) "" in
  ((exists f, fetched = inr f) <-> models_named cfg)
  /\ forall f, fetched = inr f -> exists s, f_Snapshot f = Some s
     /\ (secret cfg <> "" -> forall req (w : World L C S Y), req_APIKey req = printed_key cfg ->
           (authenticate p s req w).1 = inr demo_key)
     /\ DeniedBudget s demo_key = None
     /\ forall name, name ∈ printed_models cfg -> Permits (p_Models demo_key) name = true
        /\ exists d, ResolveAlias s "demo" name = [dep_Key d] /\ d ∈ Deployments s (dep_Key d) /\ Serving d = true
           /\ AtLeast (dep_TrustTier d) (MinTrustTier s "demo") = true.
Proof.
  intros Hrun Hp Hc fetched. destruct (run_inv _ _ _ _ _ Hrun) as (_ & b & dg & dt & Hb & Hd).
  assert (Hl : Pipeline.ComputeKeyLookup p (pepper p) (secret cfg) = Sha256.ComputeKeyLookup (text (demo_pepper cfg)) (secret cfg))
    by (rewrite Hp, Hc; exact eq_refl).
  subst fetched. unfold File_Fetch. rewrite Hb.
  set (lookup := Sha256.ComputeKeyLookup _ _) in *. clearbody lookup. clear Hc Hrun.
  destruct (decodeAndVerify sha256 b) as [e|[s digest]].
  { split; [|done]. split; [by intros [? ?]|]. intros Hn. pose proof (proj2 (Hd _ dg) (conj Hn (conj eq_refl eq_refl))) as E. discriminate E. }
  destruct (proj1 (Hd _ _) eq_refl) as (Hn & -> & ->). set (s := demo_served _ _ _ _ _).
  assert (Hf : (if negb (bool_decide (dg = "")) && bool_decide (dg = "") then inr (mkFetched None dg true) else inr (mkFetched (Some s) dg false))
    = (inr (mkFetched (Some s) dg false) : error + Fetched)) by (by case_bool_decide).
  cbn. rewrite Hf. split; [split; [done|by eexists]|]. intros f [= <-]. exists s. split_and!; [done| | |].
  - intros Hs req w Hk. unfold authenticate. rewrite Hk, (printed_key_parses _ Hs), Hl.
    unfold TenantForPrefix, lookupPrincipal. cbn. by rewrite !lookup_singleton_eq; cbn; rewrite !lookup_singleton_eq.
  - reflexivity.
  - intros name Hin. split; [done|]. by apply printed_resolves.
Qed.
End works.

(** ** A concrete run *)

#[local] Instance rule_eq_dec : EqDecision PbRule.
Proof. assert (EqDecision PbEffect) by solve_decision. assert (EqDecision PbTier) by solve_decision. solve_decision. Defined.
#[local] Instance bundle_eq_dec : EqDecision PbBundle.
Proof. assert (EqDecision PbEffect) by solve_decision. solve_decision. Defined.
#[local] Instance version_eq_dec : EqDecision pb.LayerVersion.
Proof. solve_decision. Defined.
#[local] Instance key_eq_dec : EqDecision pb.RoutingKey.
Proof. solve_decision. Defined.
#[local] Instance cost_eq_dec : EqDecision pb.Cost.
Proof. solve_decision. Defined.
#[local] Instance deployment_eq_dec : EqDecision pb.Deployment.
Proof. solve_decision. Defined.
#[local] Instance alias_eq_dec : EqDecision pb.ModelAlias.
Proof. solve_decision. Defined.
#[local] Instance plugin_eq_dec : EqDecision pb.PluginBinding.
Proof. solve_decision. Defined.
#[local] Instance guardrail_eq_dec : EqDecision pb.GuardrailBinding.
Proof. solve_decision. Defined.
#[local] Instance budget_eq_dec : EqDecision pb.BudgetState.
Proof. solve_decision. Defined.
#[local] Instance budgetref_eq_dec : EqDecision pb.BudgetRef.
Proof. solve_decision. Defined.
#[local] Instance ratelimit_eq_dec : EqDecision pb.RateLimit.
Proof. solve_decision. Defined.
#[local] Instance principal_eq_dec : EqDecision pb.Principal.
Proof. solve_decision. Defined.
#[local] Instance keyentry_eq_dec : EqDecision pb.KeyEntry.
Proof. solve_decision. Defined.
#[local] Instance global_eq_dec : EqDecision pb.GlobalLayer.
Proof. solve_decision. Defined.
#[local] Instance tenant_eq_dec : EqDecision pb.TenantLayer.
Proof. solve_decision. Defined.
#[local] Instance snapshot_eq_dec : EqDecision pb.Snapshot.
Proof. solve_decision. Defined.

(** A protobuf that carries one message of a type. *)
Definition one_proto {M} `{EqDecision M} (m : M) : ProtoMessage M := {|
  proto_Marshal m' := if decide (m' = m) then inr [] else inl (Foreign "unsupported" None);
  proto_Unmarshal _ := inr m |}.
Lemma one_laws {M} `{EqDecision M} (m : M) : @ProtoLaws M (one_proto m).
Proof. intros m' b. cbn. case_decide as E; [|done]. by rewrite E. Qed.

Definition try_config : demoConfig :=
  mkDemo "snapshot.pb" "a pepper of thirty-two bytes, yes" "s3cret" "https://api.example/v1" "small" "env:KEY" 150 600 "" "" "".
Definition try_lookup : KeyLookup := Sha256.ComputeKeyLookup (text (demo_pepper try_config)) (secret try_config).
Definition try_hash (_ : bytes) : bytes := [].

#[local] Instance try_bundle_proto : ProtoMessage PbBundle := one_proto (mkPbBundle "" 0 [] POLICY_EFFECT_OTHER).
#[local] Instance try_global_proto : ProtoMessage pb.GlobalLayer := one_proto (EncodeGlobal (global_spec Hour try_config)).
#[local] Instance try_tenant_proto : ProtoMessage pb.TenantLayer := one_proto (EncodeTenant (tenant_spec Hour try_lookup)).
#[local] Instance try_snapshot_proto : ProtoMessage pb.Snapshot :=
  one_proto (demo_message Hour try_config try_lookup DigestPrefix DigestPrefix).
#[local] Instance try_global_laws : ProtoLaws pb.GlobalLayer := one_laws _.
#[local] Instance try_tenant_laws : ProtoLaws pb.TenantLayer := one_laws _.
#[local] Instance try_snapshot_laws : ProtoLaws pb.Snapshot := one_laws _.

(** A disk of one file. *)
Definition disk : Type := option (string * bytes).
Definition write_disk (path : string) (b : bytes) (_ : disk) : option error * disk := (None, Some (path, b)).
Definition read_disk (d : disk) (path : string) : error + bytes :=
  match d with
  | Some (path', b) => if bool_decide (path = path') then inr b else inl (Foreign "no such file" None)
  | None => inl (Foreign "no such file" None)
  end.
Definition try_pipeline : Pipeline unit unit unit :=
  mkPipeline (fun _ => None) (fun _ => []) (fun _ _ _ x => (inl (Foreign "" None), x)) (fun _ _ _ x => (inr tt, x))
    (fun ref x => (NoCredentials_Resolve ref, x)) None (fun _ x => (true, x)) (NewRouter []) false None false ""
    (text (demo_pepper try_config)) Sha256.ComputeKeyLookup Sha256.short_hash (fun _ => inl (Foreign "" None)) (fun _ => inl (Foreign "" None))
    (fun f => f) (fun _ => of_int 0) (fun _ => Hour) None.

Lemma disk_reads_back path b x x' : write_disk path b x = (None, x') -> read_disk x' path = inr b.
Proof. intros [= <-]. cbn. by rewrite bool_decide_true. Qed.
Lemma try_named : models_named try_config.
Proof. by split. Qed.
Lemma try_secret : secret try_config <> "".
Proof. done. Qed.
Lemma try_prints : "real" ∈ printed_models try_config.
Proof. apply (bool_decide_unpack _). vm_compute. exact I. Qed.
Lemma try_runs : exists printed, run try_hash write_disk Hour try_config None = (inr printed, Some ("snapshot.pb", [])).
Proof. eexists. vm_compute. reflexivity. Qed.

Lemma demo_snapshot_is_served_witness :
  exists f s, File_Fetch try_hash (read_disk (Some ("snapshot.pb", []))) "snapshot.pb" "" = inr f /\ f_Snapshot f = Some s
  /\ (forall req (w : World unit unit unit unit), req_APIKey req = "gw_demo_s3cret" -> (authenticate try_pipeline s req w).1 = inr demo_key)
  /\ DeniedBudget s demo_key = None
  /\ exists d, ResolveAlias s "demo" "real" = [dep_Key d] /\ d ∈ Deployments s (dep_Key d).
Proof.
  destruct try_runs as [printed Hrun].
  destruct (demo_snapshot_is_served (L := unit) (C := unit) (S := unit) try_hash write_disk read_disk disk_reads_back
    try_pipeline Hour try_config None printed _ Hrun eq_refl eq_refl) as [[_ Hok] Hall].
  destruct (Hok try_named) as [f Hf]. destruct (Hall f Hf) as (s & Hs & Ha & Hb & Hm).
  exists f, s. split_and!; [exact Hf|exact Hs|exact (Ha try_secret)|exact Hb|].
  destruct (Hm "real" try_prints) as (_ & d & H1 & H2 & _). exact (ex_intro _ d (conj H1 H2)).
Defined.
