(* ===== verification/AdmissionRunner.v ===== *)
(** * The admission runner (cmd/admissionrunner/main.go)

    The command that asks the control plane for a manifest, has [Admission] run the suite, writes the
    evidence and reports the verdict.  The process's environment, the file system, the host's
    commands, the HTTP clients and the engine are arguments.  A report's text is kept as the header
    and the evidence it is made of. *)
From S2P Require Import Prelude Errors Core Strconv Text Json JsonFacts Base64 Format Codec Adapters Sidecars Modules Contracts ContractsFacts Sandbox Admission Config.
From Stdlib Require Import ZArith Lia Ascii.
From stdpp Require Import base gmap strings list.
Open Scope Z_scope.
Open Scope gw_scope.

Definition exitCouldNotRun : Z := 1.
Definition exitFailedSuite : Z := 2.

Record options := mkOptions {
  o_controlPlane : string; o_token : string; o_component : string; o_version : string; o_fixtures : string;
  o_evidence : string; o_reportDir : string; o_runtime : string; o_moduleDir : string; o_runnerName : string;
  o_timeout : duration; o_dryRun : bool }.

Definition defaultRunnerName (hostname : error + string) : string :=
  "admissionrunner@" +:+ match hostname with
                         | inl _ => "unknown"
                         | inr host => if bool_decide (host = "") then "unknown" else host
                         end.

(** The options before any flag is given. *)
Definition defaultOptions (getenv : string -> string) (hostname : error + string) : options :=
  mkOptions (getenv "GATEWAY_CONTROL_PLANE_URL") (getenv "GATEWAY_CONTROL_PLANE_TOKEN") "" "" "" "" "." DefaultRuntime
    (getenv "GATEWAY_WASM_DIR") (defaultRunnerName hostname) Sandbox.DefaultTimeout false.

Definition passExit (passed : bool) : Z := if passed then 0 else exitFailedSuite.

(** The two payloads, each nil or not. *)
Definition dec_fixtures : decoder (option bytes * option bytes) :=
  dec_struct [(text "trigger", at_field fst (fun v f => (v, f.2)) dec_bytes);
              (text "benign", at_field snd (fun v f => (f.1, v)) dec_bytes)].

Definition loadFixtures (ReadFile : string -> error + bytes) (path : string) : error + Fixtures :=
  if bool_decide (path = "") then
    inl (Foreign "-fixtures is required: the suite needs a payload the component allows, and only the publisher knows what that is" None)
  else match ReadFile path with
       | inl err => inl (Foreign "reading fixtures" (Some err))
       | inr raw =>
           match Json.Unmarshal dec_fixtures (None, None) raw with
           | None => inl (Foreign "parsing fixtures" (Some (Foreign "encoding/json" None)))
           | Some (trigger, benign) => inr (mkFixtures trigger (default [] benign))
           end
       end.

Definition with_evidence (ref : string) (v : AdmissionVerdict) : AdmissionVerdict :=
  mkVerdict (v_Suite v) (v_SuiteVersion v) (v_ManifestDigest v) (v_Passed v) (v_Runner v) ref (v_Report v).

Definition newline : bytes := ["010"%char].

Section run.
Context {X C I : Type} `{!Engine C I X} (isPrint : Z -> bool) (sha256 : bytes -> bytes) (fs : Files)
  (NewRuntime : X -> option error * X) (Runtime_Close : X -> X) (ctxErr : ctx -> X -> option error)
  (MkdirTemp : X -> (error + string) * X) (Chmod : string -> X -> option error * X) (RemoveAll : string -> X -> X)
  (client : ctx -> guardrailsidecar.Guardrail -> Client X) (ready : guardrailsidecar.Guardrail -> duration -> Client X).

(** A container as [Sandbox] runs it, the process's user and group, the address parser, the HTTP
    client, and writing a report: its path, its header, its evidence. *)
Context (sandboxed : Container -> Box X) (uid gid : Z) (parse : string -> error + (string * string)) (http : duration -> Client X)
  (WriteFile : string -> bytes -> evidence -> X -> option error * X).

#[local] Abbreviation examine := (Runner_Run isPrint sha256 fs NewRuntime Runtime_Close ctxErr MkdirTemp Chmod RemoveAll client ready).

Definition report_header (m : Manifest) (v : AdmissionVerdict) : bytes :=
  text "component: " ++ text (mf_Name m) ++ text "@" ++ text (mf_Version m) ++ newline
  ++ text "port: " ++ text (mf_Port m) ++ newline ++ text "digest: " ++ text (mf_Digest m) ++ newline
  ++ text "suite version: " ++ text (v_SuiteVersion v) ++ newline ++ text "runner: " ++ text (v_Runner v) ++ newline
  ++ text "passed: " ++ text (bool_text (v_Passed v)) ++ newline ++ newline.
Definition report_path (opts : options) (m : Manifest) : string :=
  Sandbox.Join (o_reportDir opts) (mf_Name m +:+ "-" +:+ mf_Version m +:+ ".txt").

Definition writeReport (opts : options) (m : Manifest) (v : AdmissionVerdict) (x : X) : (error + string) * X :=
  let '(failed, x) := WriteFile (report_path opts m) (report_header m v) (v_Report v) x in
  (match failed with Some err => inl (Foreign "writing the report" (Some err)) | None => inr (report_path opts m) end, x).

(** The runner the options describe. *)
Definition runnerFor (opts : options) : error + Runner X :=
  let! modules :=
    if bool_decide (o_moduleDir opts = "") then inr []
    else let! store := NewModuleStore (o_moduleDir opts) in inr [WithModules store] in
  NewRunner (o_runnerName opts)
    ([WithSandbox (sandboxed (Sandbox.New_ uid gid [WithRuntime (o_runtime opts)])); WithLimits (Sandbox.mkLimits 0 "" 0 (o_timeout opts))]
     ++ modules).

(** The exit code and the error that is logged, when it comes to that. *)
Definition run (opts : options) (x : X) : ending (Z * option error) * X :=
  let could_not (err : error) (x : X) := (Done (exitCouldNotRun, Some err), x) in
  if bool_decide (o_component opts = "") || bool_decide (o_version opts = "")
  then could_not (Foreign "-component and -version are required" None) x
  else match loadFixtures (ReadFile fs) (o_fixtures opts) with
  | inl err => could_not err x
  | inr fixtures =>
  match NewClient parse http (o_controlPlane opts) (o_token opts) (30 * Second) with
  | inl err => could_not err x
  | inr cp =>
  let '(manifest, x) := Client_Manifest cp (o_component opts) (o_version opts) x in
  match manifest with
  | inl err => could_not err x
  | inr manifest =>
  match runnerFor opts with
  | inl err => could_not err x
  | inr runner =>
  let '(verdict, x) := examine runner manifest fixtures x in
  match verdict with
  | Exit => (Exit, x)
  | Panics v => (Panics v, x)
  | Hangs => (Hangs, x)
  | Crashes => (Crashes, x)
  | Done (inl err) => could_not err x
  | Done (inr verdict) =>
  let verdict := with_evidence (o_evidence opts) verdict in
  let '(written, x) := writeReport opts manifest verdict x in
  match written with
  | inl err => could_not err x
  | inr reportPath =>
  if o_dryRun opts then (Done (passExit (v_Passed verdict), None), x)
  else let '(failed, x) := Client_Report cp (o_component opts) (o_version opts) verdict x in
       match failed with
       | Some err => could_not err x
       | None => (Done (passExit (v_Passed verdict), None), x)
       end
  end end end end end end.

(** What [flag.Parse] makes of a command line; the default flag set exits the process itself when
    help is asked for and when it does not understand. *)
Inductive command_line := Parsed (opts : options) | HelpAsked | NotUnderstood.

(** The status a Go program ends with when a panic is not recovered. *)
Definition panic_status : Z := 2.

(** The process's exit status; [None]: it does not end. *)
Definition main (line : command_line) (x : X) : option Z * X :=
  match line with
  | HelpAsked => (Some 0, x)
  | NotUnderstood => (Some 2, x)
  | Parsed opts =>
      let '(r, x) := run opts x in
      (match r with
       | Done (code, _) => Some code
       | Panics _ | Crashes | Exit => Some panic_status
       | Hangs => None
       end, x)
  end.

(** ** Facts *)

(** What an exit code other than 1 stands for: a component was examined, its evidence written and,
    unless this was a rehearsal, its verdict accepted by the control plane. *)
Definition concluded (opts : options) (x x' : X) (passed : bool) : Prop :=
  exists cp fixtures m r v x1 x2 x3,
    NewClient parse http (o_controlPlane opts) (o_token opts) (30 * Second) = inr cp
    /\ loadFixtures (ReadFile fs) (o_fixtures opts) = inr fixtures
    /\ Client_Manifest cp (o_component opts) (o_version opts) x = (inr m, x1)
    /\ r = mkRunner (Some (sandboxed (Sandbox.New_ uid gid [WithRuntime (o_runtime opts)])))
             (if bool_decide (o_moduleDir opts = "") then None else Some (o_moduleDir opts)) (o_runnerName opts)
             (Sandbox.mkLimits 0 "" 0 (o_timeout opts))
    /\ examine r m fixtures x1 = (Done (inr v), x2) /\ v_Passed v = passed
    /\ vouches isPrint sha256 fs NewRuntime ctxErr MkdirTemp Chmod client ready r m fixtures x1 v
    /\ WriteFile (report_path opts m) (report_header m v) (v_Report v) x2 = (None, x3)
    /\ (if o_dryRun opts then x' = x3
        else Client_Report cp (o_component opts) (o_version opts) (with_evidence (o_evidence opts) v) x3 = (None, x')).

(** The component the control plane described has no memory where the host goes to it; nothing has
    been written or sent since the manifest was fetched. *)
Definition ended_by_component (opts : options) (x x' : X) : Prop :=
  exists cp fixtures m r x1,
    NewClient parse http (o_controlPlane opts) (o_token opts) (30 * Second) = inr cp
    /\ loadFixtures (ReadFile fs) (o_fixtures opts) = inr fixtures
    /\ Client_Manifest cp (o_component opts) (o_version opts) x = (inr m, x1)
    /\ runnerFor opts = inr r /\ examine r m fixtures x1 = (Crashes, x') /\ crashed isPrint sha256 fs r m fixtures.

Definition accounted (opts : options) (x : X) (o : ending (Z * option error) * X) : Prop :=
  match o.1 with
  | Done (code, err) =>
      (code = exitCouldNotRun /\ err <> None)
      \/ (exists passed, code = passExit passed /\ err = None /\ concluded opts x o.2 passed)
  | Crashes => ended_by_component opts x o.2
  | _ => False
  end.

Lemma runnerFor_inv opts r : runnerFor opts = inr r ->
  r = mkRunner (Some (sandboxed (Sandbox.New_ uid gid [WithRuntime (o_runtime opts)])))
        (if bool_decide (o_moduleDir opts = "") then None else Some (o_moduleDir opts)) (o_runnerName opts)
        (Sandbox.mkLimits 0 "" 0 (o_timeout opts)).
Proof.
  unfold runnerFor, NewModuleStore, NewRunner. destruct (bool_decide (o_moduleDir opts = "")); cbn; case_bool_decide; by intros [= <-].
Qed.

Lemma accounted_error opts x e x' : accounted opts x (Done (exitCouldNotRun, Some e), x').
Proof. by left. Qed.

Lemma run_accounted opts x : accounted opts x (run opts x).
Proof.
  unfold run. destruct (_ || _); [apply accounted_error|].
  destruct (loadFixtures _ _) as [e|fixtures] eqn:Ef; [apply accounted_error|].
  destruct (NewClient _ _ _ _ _) as [e|cp] eqn:Ec; [apply accounted_error|].
  destruct (Client_Manifest _ _ _ _) as [[e|m] x1] eqn:Em; [apply accounted_error|].
  destruct (runnerFor opts) as [e|r] eqn:Er; [apply accounted_error|]. pose proof (runnerFor_inv _ _ Er) as Hr.
  destruct (Runner_Run_settles isPrint sha256 fs NewRuntime Runtime_Close ctxErr MkdirTemp Chmod RemoveAll client ready r m fixtures x1)
    as [Hv _].
  destruct (examine r m fixtures x1) as [[[e|v]| |p| |] x2] eqn:Ex; cbn [fst settled] in Hv; try done; [apply accounted_error| |].
  2: { exists cp, fixtures, m, r, x1. by split_and!. }
  unfold writeReport. destruct (WriteFile _ _ _ x2) as [[e|] x3] eqn:Ew; [apply accounted_error|].
  destruct (o_dryRun opts) eqn:Ed.
  - right. exists (v_Passed v). split_and!; [done|done|].
    exists cp, fixtures, m, r, v, x1, x2, x3. rewrite Ed. by split_and!.
  - destruct (Client_Report _ _ _ _ x3) as [[e|] x4] eqn:Ep; [apply accounted_error|].
    right. exists (v_Passed v). split_and!; [done|done|].
    exists cp, fixtures, m, r, v, x1, x2, x3. rewrite Ed. by split_and!.
Qed.

(** C30. The exit code says what happened, but for one component.  Whatever the component, the
    control plane and the host do, the process ends with status 0, 1 or 2.  When the runner comes
    back, an error is logged exactly with code 1; with code 0 or 2 the manifest was fetched and the
    component it describes was examined, by a runner of the name that was given and within its
    sandbox and time limit; the evidence was written before anything was reported; the control
    plane accepted that verdict, unless this was a rehearsal, which sends it nothing; and the code
    is 0 exactly when the verdict is a pass.  It does not come back only when the component is an
    in-process one whose module has no memory where the host goes to it: the process then ends in a
    panic, with the status 2 of a failed suite, no evidence and no report. *)
Theorem exit_code_says_what_happened opts x :
  (exists status, (main (Parsed opts) x).1 = Some status /\ (status = 0 \/ status = 1 \/ status = 2))
  /\ match run opts x with
     | (Done (code, err), x') =>
         (main (Parsed opts) x).1 = Some code /\ (code = 1 <-> err <> None)
         /\ (code <> 1 -> exists passed, concluded opts x x' passed /\ (code = 0 <-> passed = true))
     | (Crashes, x') => (main (Parsed opts) x).1 = Some exitFailedSuite /\ ended_by_component opts x x'
     | _ => False
     end.
Proof.
  pose proof (run_accounted opts x) as H. unfold accounted in H. cbn [main].
  destruct (run opts x) as [[[code err]| | | |] x']; cbn [fst snd] in *; try done.
  - unfold exitCouldNotRun in H. destruct H as [[-> He]|([] & -> & -> & Hc)]; cbn; split_and!; eauto; try done.
    + intros _. exists true. by split.
    + intros _. exists false. by split.
  - split_and!; eauto.
Qed.

(** A command line that is not understood ends like a component that failed, and asking for help ends
    like one that passed: the flag set exits on its own, with codes that are taken. *)
Theorem unread_command_lines_look_like_verdicts x :
  (main NotUnderstood x).1 = Some (passExit false) /\ (main HelpAsked x).1 = Some (passExit true).
Proof. done. Qed.
End run.
