(* ===== verification/Startup.v ===== *)
(** * The worker's life (cmd/gateway/main.go, tracing/tracing.go)

    How the worker is put together, serves and goes away.  [run] is the wiring: each step that can
    fail is followed by the rest of the function, and a part whose closing is deferred encloses it,
    so that an early return closes what was opened, last first.  What happens is a trace of events.
    The environment, the network, the clock of the exporter, the listener and the signal are
    arguments; the constructors are those of the other files.  Constructors that refuse only a nil
    argument and are given none have no step of their own. *)
From S2P Require Import Prelude Errors Core Strconv Snapshot SnapshotFacts Policy Wire Codec Text Format Holder HolderFacts Source Float64 Kv Limits Router Transform Guardrails Scanners Telemetry Secrets Pipeline Adapters Sidecars Modules Config Redis Sinks.
From Stdlib Require Import ZArith Lia Ascii.
From stdpp Require Import base gmap strings list.
Open Scope Z_scope.
Open Scope gw_scope.

(** ** Tracing *)
Module tracing.

Definition ServiceName : string := "model-gateway".
Definition DefaultSampleRatio : float64 := ratio 1 10.

Record Config := mkTracing { Endpoint : string; Insecure : bool; SampleRatio : float64; Version : string }.

(** What is installed: nothing that records, or an exporter behind a parent-based sampler. *)
Inductive Provider (E R : Type) := Noop | Batching (exporter : E) (resource : R) (sample : float64).
Arguments Noop {E R}.
Arguments Batching {E R}.

(** [exporter] and [resource] are the libraries' constructors. *)
Definition Setup {E R} (exporter : string -> bool -> error + E) (resource : string -> string -> error + R) (cfg : Config)
    : error + Provider E R :=
  if bool_decide (Endpoint cfg = "") then inr Noop
  else match exporter (Endpoint cfg) (Insecure cfg) with
       | inl err => inl (GwError CodeUnavailable (Msg "creating the OTLP exporter" []) false (Some err))
       | inr e =>
           match resource ServiceName (Version cfg) with
           | inl err => inl (GwError CodeInternal (Msg "building the trace resource" []) false (Some err))
           | inr res =>
               let sample := SampleRatio cfg in
               inr (Batching e res (if fle sample (of_int 0) || fgt sample (of_int 1) then DefaultSampleRatio else sample))
           end
       end.

(** The trace id of a context's span, empty without one. *)
Definition TraceIDFrom (traceID : option bytes) : string := from_option hexEncode "" traceID.
End tracing.

(** ** What happens *)

(** The parts whose closing is deferred, in the order [run] opens them. *)
Inductive part :=
| Signals | Tracer | Runtime_ | InProcess_ | Subscriber_ | RedisClient | Emitter_ | Chain_ | Prober_ | Mirror_.
Definition all_parts : list part :=
  [Signals; Tracer; Runtime_; InProcess_; Subscriber_; RedisClient; Emitter_; Chain_; Prober_; Mirror_].

(** A guardrail a worker can run. *)
Inductive guard (P : Type) := Builtin (name : string) | Published (g : wasmguardrail.Guardrail P).
Arguments Builtin {P}.
Arguments Published {P}.

(** What the worker is made of when it starts to listen. *)
Record Wiring (P : Type) := mkWiring {
  w_cfg : Config; w_initial : Snapshot; w_subscribed : bool; w_shared : bool; w_sinks : list string;
  w_vault : option Vault; w_ner : option nersidecar.Detector; w_guardrails : CompositeRegistry (guard P);
  w_providers : gmap string unit }.
Arguments mkWiring {P}.
Arguments w_cfg {P}.
Arguments w_initial {P}.
Arguments w_subscribed {P}.
Arguments w_shared {P}.
Arguments w_sinks {P}.
Arguments w_vault {P}.
Arguments w_ner {P}.
Arguments w_guardrails {P}.
Arguments w_providers {P}.

Inductive event (P : Type) :=
| Opens (p : part)
| Closes (p : part)
| Says (line : string)
| Syncs (bindings : list GuardrailBinding)
| Listens (w : Wiring P)
| Drains (grace : duration).
Arguments Opens {P}.
Arguments Closes {P}.
Arguments Says {P}.
Arguments Syncs {P}.
Arguments Listens {P}.
Arguments Drains {P}.

Inductive outcome := Returned (err : option error) | Panicked.
Definition act (P : Type) : Type := outcome * list (event P).

Section acts.
Context {P : Type}.
Definition fails (err : error) : act P := (Returned (Some err), []).
Definition note (e : event P) (k : act P) : act P := (k.1, e :: k.2).
(** [open; defer close; ...] *)
Definition holding (p : part) (k : act P) : act P := (k.1, Opens p :: k.2 ++ [Closes p]).
Definition try {A} (r : error + A) (k : A -> act P) : act P := match r with inl err => fails err | inr a => k a end.
End acts.

(** ** The wiring *)
Section run.
Context (ParseFloat : list ascii -> error + float64) (FormatFloat : float64 -> list ascii) (getenv : string -> string) (version : string).
(** Tracing's libraries; the WebAssembly runtime, its engine and the modules' directory. *)
Context {E R : Type} (exporter : string -> bool -> error + E) (resource : string -> string -> error + R).
Context {C I X : Type} `{!Engine C I X} (isPrint : Z -> bool) (sha256 : bytes -> bytes) (fs : Files) (newRuntime : option error).
(** Where snapshots come from. *)
Context `{ProtoMessage PbBundle} `{ProtoMessage pb.GlobalLayer} `{ProtoMessage pb.TenantLayer} `{ProtoMessage pb.Snapshot}
  (snapshotRequest : string -> option error) (askControlPlane : SnapshotRequest -> error + SnapshotResponse).
(** Redis, the metrics registry, the NER sidecar. *)
Context {S : Type} `{!Server S} (ParseURL : string -> error + S) (net : transport)
  (Register : string * list string -> unit -> option error * unit)
  {Y : Type} (nerClient : Client Y) (y : Y).
(** What ends serving: the listener fails, or a signal comes and shutting down has an outcome. *)
Context (listening : option error) (Shutdown : duration -> option error).

#[local] Abbreviation ptr := (Ptr (C := C)).
#[local] Abbreviation act := (act ptr).
#[local] Abbreviation registry := (Registry (C := C)).

Definition with_tracing (cfg : Config) (k : act) : act :=
  try (tracing.Setup exporter resource (tracing.mkTracing (OTLPEndpoint cfg) (OTLPInsecure cfg) (TraceSampleRatio cfg) version))
    (fun _ => holding Tracer (if bool_decide (OTLPEndpoint cfg <> "") then note (Says "tracing enabled") k else k)).

(** [None] is a nil registry. *)
Definition with_modules (cfg : Config) (k : option registry -> act) : act :=
  if bool_decide (WASMDir cfg = "") then k None
  else match newRuntime with
       | Some err => fails err
       | None =>
           holding Runtime_
             (try (NewModuleStore (WASMDir cfg)) (fun store =>
              try (NewRegistry true true) (fun r =>
              holding InProcess_ (note (Says "in-process components enabled") (k (Some r))))))
       end.

(** The bindings of a snapshot, loaded; a nil registry loads none. *)
Definition sync (cfg : Config) (s : Snapshot) (r : registry) : registry :=
  Sync isPrint sha256 (Modules.withDefaults (Modules.mkLimits 0 0 0)) fs (WASMDir cfg) (AllGuardrails s) r.
Definition with_sync (cfg : Config) (initial : Snapshot) (r : option registry) (k : option registry -> act) : act :=
  match r with
  | None => k None
  | Some r => note (Syncs (AllGuardrails initial)) (k (Some (sync cfg initial r)))
  end.

(** [bootstrapSource] and its [Fetch] with no digest known. *)
Inductive source := FileSource (path : string) | HttpSource (s : HTTPSource).
Definition bootstrapSource (cfg : Config) : error + source :=
  if bool_decide (SnapshotFile cfg <> "") then inr (FileSource (SnapshotFile cfg))
  else let! s := NewHTTPSource (ControlPlaneURL cfg) (ControlPlaneToken cfg) in inr (HttpSource s).
Definition fetch_first (s : source) : error + Fetched :=
  match s with
  | FileSource path => File_Fetch sha256 (ReadFile fs) path ""
  | HttpSource s => HTTP_Fetch sha256 snapshotRequest askControlPlane s ""
  end.
(** Logging the version reads through the snapshot, which a source that has nothing new leaves nil. *)
Definition bootstrap (cfg : Config) (k : Snapshot -> act) : act :=
  try (bootstrapSource cfg) (fun source =>
  try (fetch_first source) (fun fetched =>
  match f_Snapshot fetched with
  | None => (Panicked, [])
  | Some s => note (Says "bootstrapped") (k s)
  end)).

(** The loop's own failures are [Source]'s. *)
Definition with_subscriber (cfg : Config) (k : bool -> act) : act :=
  if bool_decide (ControlPlaneURL cfg = "") then k false
  else try (NewHTTPSource (ControlPlaneURL cfg) (ControlPlaneToken cfg)) (fun _ => holding Subscriber_ (k true)).

Definition openLimitStore (cfg : Config) (k : bool -> act) : act :=
  if bool_decide (RedisURL cfg = "") then note (Says "rate limits are enforced per worker") (k false)
  else match ParseURL (RedisURL cfg) with
       | inl err => fails (GwError CodeInvalidRequest (Msg "parsing GATEWAY_REDIS_URL" []) false (Some err))
       | inr client =>
           holding RedisClient
             (try (rediskv.New_ (Some client) []) (fun _ =>
              match (rediskv.Ping net client).1 with
              | Some err => fails err
              | None => note (Says "rate limits are enforced fleet-wide") (k true)
              end))
       end.

(** The sinks, by name: the usage stream only with Redis. *)
Definition with_telemetry (shared : bool) (k : list string -> act) : act :=
  try (if shared then let! s := redisstream.New_ true [] in inr [redisstream.Name] else inr []) (fun stream =>
  match (prometheus.NewPrometheusSink Register tt).1 with
  | Some err => fails err
  | None =>
      let sinks := [prometheus.Name; logsink.Name] ++ stream in
      note (Says (if shared then "usage events are published for accounting" else "usage events are not published"))
        (try (NewEmitter (length sinks) []) (fun _ => holding Emitter_ (k sinks)))
  end).

(** [wasmRegistryOrNil]: a nil registry is no registry of the composite. *)
Definition wasmRegistryOrNil (r : option registry) : option (string -> option (guard ptr)) :=
  (fun r name => Published <$> Guardrail r name) <$> r.
Definition with_guardrails (r : option registry) (k : CompositeRegistry (guard ptr) -> act) : act :=
  try (NewStaticRegistry [(secretscan.Name, Builtin secretscan.Name); (injectionheuristics.Name, Builtin injectionheuristics.Name)])
    (fun builtins =>
     try (NewCompositeRegistry [Some (fun name => builtins !! name); wasmRegistryOrNil r]) (fun composite =>
     holding Chain_ (k composite))).

(** The vault on the shared store, when there is one. *)
Definition with_vault (shared : bool) (k : option Vault -> act) : act :=
  if shared then try (NewVault (Some tt) (5 * Minute)) (fun v => note (Says "token vault enabled") (k (Some v)))
  else note (Says "no token vault") (k None).

Definition with_ner (cfg : Config) (k : option nersidecar.Detector -> act) : act :=
  if bool_decide (NERSocket cfg = "") then note (Says "deep inspection is not available") (k None)
  else try (nersidecar.New_ (NERSocket cfg) []) (fun sidecar =>
       match (nersidecar.Ping nerClient sidecar y).1 with
       | Some err => fails (GwError CodeInternal (Msg "the NER sidecar at %s is not answering" [AStr (NERSocket cfg)]) false (Some err))
       | None => note (Says "deep inspection enabled") (k (Some sidecar))
       end).

(** [gateway.New]. *)
Definition NewPipeline (pepper : bytes) : error + unit :=
  if bool_decide (pepper = []) then inl (New CodeInternal "the pipeline needs a non-empty key pepper") else inr tt.

Definition serve (w : Wiring ptr) : act :=
  note (Listens w)
    match listening with
    | Some err => fails err
    | None => (Returned (Shutdown (ShutdownGrace (w_cfg w))), [Says "shutting down"; Drains (ShutdownGrace (w_cfg w))])
    end.

Definition run : act :=
  try (Config.Load ParseFloat FormatFloat getenv) (fun cfg =>
  note (Says "starting") (holding Signals (
  with_tracing cfg (
  with_modules cfg (fun modules =>
  bootstrap cfg (fun initial =>
  with_sync cfg initial modules (fun modules =>
  try (NewHolder (Some initial)) (fun _ =>
  with_subscriber cfg (fun subscribed =>
  try (NewStaticProviders [(echo.Name, tt); (Adapters.openai.Name, tt); (Adapters.anthropic.Name, tt)]) (fun providers =>
  try (NewResolver []) (fun _ =>
  openLimitStore cfg (fun shared =>
  with_telemetry shared (fun sinks =>
  with_guardrails modules (fun composite =>
  with_vault shared (fun vault =>
  with_ner cfg (fun ner =>
  holding Prober_ (holding Mirror_ (
  try (NewPipeline (KeyPepper cfg)) (fun _ =>
  serve (mkWiring cfg initial subscribed shared sinks vault ner composite providers)))))))))))))))))))).

(** ** Facts *)

(** Events that neither open nor close nor serve. *)
Definition plain (e : event ptr) : Prop := match e with Says _ | Syncs _ => True | _ => False end.

(** A life in order, over parts that may be opened in the order they are listed: the worker stops
    before it listens, with an error; or it listens and its listener fails; or it listens and drains
    when told to.  Whatever was opened encloses the rest. *)
Inductive orderly : list part -> act -> option (Wiring ptr) -> Prop :=
| ord_stop ps o : o <> Returned None -> orderly ps (o, []) None
| ord_broken ps w err : orderly ps (Returned (Some err), [Listens w]) (Some w)
| ord_served ps w err line :
    orderly ps (Returned err, [Listens w; Says line; Drains (ShutdownGrace (w_cfg w))]) (Some w)
| ord_note ps e a w : plain e -> orderly ps a w -> orderly ps (note e a) w
| ord_hold p ps a w : orderly ps a w -> orderly (p :: ps) (holding p a) w
| ord_skip p ps a w : orderly ps a w -> orderly (p :: ps) a w.

Definition good (ps : list part) (Q : Wiring ptr -> Prop) (a : act) : Prop :=
  exists w, orderly ps a w /\ forall x, w = Some x -> Q x.

Lemma good_fails ps Q err : good ps Q (fails err).
Proof. exists None. split; [by apply ord_stop|done]. Qed.
Lemma good_try {A} ps Q (r : error + A) k : (forall a, r = inr a -> good ps Q (k a)) -> good ps Q (try r k).
Proof. intros H3. destruct r as [e|a]; [apply good_fails|by apply H3]. Qed.
Lemma good_note ps Q e a : plain e -> good ps Q a -> good ps Q (note e a).
Proof. intros He (w & Ho & Hq). exists w. split; [by apply ord_note|done]. Qed.
Lemma good_hold p ps Q a : good ps Q a -> good (p :: ps) Q (holding p a).
Proof. intros (w & Ho & Hq). exists w. split; [by apply ord_hold|done]. Qed.
Lemma good_skip p ps Q a : good ps Q a -> good (p :: ps) Q a.
Proof. intros (w & Ho & Hq). exists w. split; [by apply ord_skip|done]. Qed.

(** *** What the wiring means *)

(** The first snapshot, from the file when one is named and from the control plane otherwise. *)
Definition bootstrapped (cfg : Config) (s : Snapshot) : Prop :=
  exists f, f_Snapshot f = Some s
    /\ (if bool_decide (SnapshotFile cfg <> "") then File_Fetch sha256 (ReadFile fs) (SnapshotFile cfg) "" = inr f
        else exists src, NewHTTPSource (ControlPlaneURL cfg) (ControlPlaneToken cfg) = inr src
             /\ HTTP_Fetch sha256 snapshotRequest askControlPlane src "" = inr f).

(** The built-in guardrails answer to their names, and every other name is the modules'. *)
Definition builtins_first (cfg : Config) (s : Snapshot) (c : CompositeRegistry (guard ptr)) : Prop :=
  forall name, Composite_Guardrail c name =
    if bool_decide (name = secretscan.Name) || bool_decide (name = injectionheuristics.Name) then Some (Builtin name)
    else if bool_decide (WASMDir cfg = "") then None else Published <$> Guardrail (sync cfg s (mkRegistry ∅ ∅ 0)) name.

Definition wired (w : Wiring ptr) : Prop :=
  let cfg := w_cfg w in
  Config.Load ParseFloat FormatFloat getenv = inr cfg
  /\ bootstrapped cfg (w_initial w)
  /\ w_subscribed w = bool_decide (ControlPlaneURL cfg <> "")
  /\ w_shared w = bool_decide (RedisURL cfg <> "")
  /\ w_sinks w = [prometheus.Name; logsink.Name] ++ (if w_shared w then [redisstream.Name] else [])
  /\ w_vault w = (if w_shared w then Some (mkVault (5 * Minute)) else None)
  /\ (nersidecar.d_socket <$> w_ner w) = (if bool_decide (NERSocket cfg = "") then None else Some (NERSocket cfg))
  /\ builtins_first cfg (w_initial w) (w_guardrails w)
  /\ dom (w_providers w) = {[ echo.Name; Adapters.openai.Name; Adapters.anthropic.Name ]}.

(** *** Each step, given what comes after it *)

Lemma good_tracing ps Q cfg k : good ps Q k -> good (Tracer :: ps) Q (with_tracing cfg k).
Proof. intros Hk. apply good_try. intros pr _. apply good_hold. case_bool_decide; [by apply good_note|done]. Qed.

Lemma good_modules ps Q cfg k :
  good ps Q (k (if bool_decide (WASMDir cfg = "") then None else Some (mkRegistry ∅ ∅ 0))) ->
  good (Runtime_ :: InProcess_ :: ps) Q (with_modules cfg k).
Proof.
  intros Hk. unfold with_modules. case_bool_decide; [by apply good_skip, good_skip|].
  destruct newRuntime; [apply good_fails|]. apply good_hold, good_try. intros store _. apply good_try. intros r [= <-].
  by apply good_hold, good_note.
Qed.

Lemma good_bootstrap ps Q cfg k : (forall s, bootstrapped cfg s -> good ps Q (k s)) -> good ps Q (bootstrap cfg k).
Proof.
  intros Hk. apply good_try. intros src Hs. apply good_try. intros f Hf.
  destruct (f_Snapshot f) as [s|] eqn:Es; [|exists None; split; [by apply ord_stop|done]].
  apply good_note; [done|]. apply Hk. exists f. split; [done|]. revert Hs. unfold bootstrapSource.
  case_bool_decide; [intros [= <-]; exact Hf|]. destruct (NewHTTPSource _ _) as [e|h]; [done|]. intros [= <-]. by exists h.
Qed.

Lemma good_sync ps Q cfg s r k : good ps Q (k (sync cfg s <$> r)) -> good ps Q (with_sync cfg s r k).
Proof. destruct r as [r|]; intros Hk; [by apply good_note|done]. Qed.

Lemma good_subscriber ps Q cfg k :
  good ps Q (k (bool_decide (ControlPlaneURL cfg <> ""))) -> good (Subscriber_ :: ps) Q (with_subscriber cfg k).
Proof.
  unfold with_subscriber. repeat case_bool_decide; try done; intros Hk; [|by apply good_skip].
  apply good_try. intros src _. by apply good_hold.
Qed.

Lemma good_store ps Q cfg k :
  good ps Q (k (bool_decide (RedisURL cfg <> ""))) -> good (RedisClient :: ps) Q (openLimitStore cfg k).
Proof.
  unfold openLimitStore. repeat case_bool_decide; try done; intros Hk; [|by apply good_note, good_skip].
  destruct (ParseURL _) as [e|c]; [apply good_fails|]. apply good_hold, good_try. intros st _.
  destruct (rediskv.Ping net c).1; [apply good_fails|by apply good_note].
Qed.

Lemma good_telemetry ps Q (shared : bool) k :
  good ps Q (k ([prometheus.Name; logsink.Name] ++ (if shared then [redisstream.Name] else []))) ->
  good (Emitter_ :: ps) Q (with_telemetry shared k).
Proof.
  intros Hk. apply good_try. intros stream Hs. destruct (prometheus.NewPrometheusSink Register tt).1; [apply good_fails|].
  apply good_note; [done|]. apply good_try. intros e _. apply good_hold. destruct shared; cbn in Hs; by injection Hs as <-.
Qed.

Lemma composite_lookup cfg s c :
  NewCompositeRegistry [Some (fun name => (<[injectionheuristics.Name := Builtin injectionheuristics.Name]>
      (<[secretscan.Name := Builtin secretscan.Name]> ∅) : gmap string (guard ptr)) !! name);
    wasmRegistryOrNil (sync cfg s <$> (if bool_decide (WASMDir cfg = "") then None else Some (mkRegistry ∅ ∅ 0)))] = inr c ->
  builtins_first cfg s c.
Proof.
  intros Hc name. unfold NewCompositeRegistry, wasmRegistryOrNil in Hc.
  case_bool_decide; cbn in Hc; injection Hc as <-; cbn -[sync];
    rewrite !lookup_insert, lookup_empty; repeat case_decide; repeat case_bool_decide; subst; try done; try congruence;
    by destruct (Guardrail _ name).
Qed.

Lemma good_guardrails ps Q cfg s k :
  (forall c, builtins_first cfg s c -> good ps Q (k c)) ->
  good (Chain_ :: ps) Q (with_guardrails (sync cfg s <$> (if bool_decide (WASMDir cfg = "") then None else Some (mkRegistry ∅ ∅ 0))) k).
Proof.
  intros Hk. apply good_try. intros builtins Hb. apply good_try. intros c Hc. apply good_hold, Hk.
  apply composite_lookup. injection Hb as <-. exact Hc.
Qed.

Lemma good_vault ps Q (shared : bool) k : good ps Q (k (if shared then Some (mkVault (5 * Minute)) else None)) -> good ps Q (with_vault shared k).
Proof. intros Hk. unfold with_vault. destruct shared; [apply good_try; intros v [= <-]|]; by apply good_note. Qed.

Lemma good_ner ps Q cfg k :
  (forall d, (nersidecar.d_socket <$> d) = (if bool_decide (NERSocket cfg = "") then None else Some (NERSocket cfg)) -> good ps Q (k d)) ->
  good ps Q (with_ner cfg k).
Proof.
  intros Hk. unfold with_ner. case_bool_decide as Hn; [by apply good_note, Hk|]. apply good_try. intros d Hd.
  destruct (nersidecar.Ping nerClient d y).1; [apply good_fails|]. apply good_note; [done|]. apply Hk.
  revert Hd. unfold nersidecar.New_. case_bool_decide; [done|]. by intros [= <-].
Qed.

Lemma good_serve ps (Q : Wiring ptr -> Prop) w : Q w -> good ps Q (serve w).
Proof.
  intros Hq. exists (Some w). split; [|by intros x [= <-]]. unfold serve. destruct listening; [apply ord_broken|apply ord_served].
Qed.

Lemma providers_dom (m : gmap string unit) :
  NewStaticProviders [(echo.Name, tt); (Adapters.openai.Name, tt); (Adapters.anthropic.Name, tt)] = inr m ->
  dom m = {[ echo.Name; Adapters.openai.Name; Adapters.anthropic.Name ]}.
Proof.
  unfold NewStaticProviders. cbn [foldM]. unfold addProvider. cbn [fst snd]. rewrite !(bool_decide_false (_ = "")) by done.
  rewrite lookup_empty, lookup_insert_ne, lookup_empty by done. rewrite !lookup_insert_ne, lookup_empty by done.
  intros [= <-]. rewrite !dom_insert_L, dom_empty_L. set_solver.
Qed.

Lemma run_good : good all_parts wired run.
Proof.
  unfold run. apply good_try. intros cfg Hcfg. apply good_note; [done|]. apply good_hold, good_tracing, good_modules.
  apply good_bootstrap. intros s Hs. apply good_sync, good_try. intros h _. apply good_subscriber, good_try.
  intros providers Hp. apply good_try. intros r _. apply good_store, good_telemetry, (good_guardrails _ _ _ s).
  intros c Hc. apply good_vault, good_ner. intros d Hd. apply good_hold, good_hold, good_try. intros u _.
  apply good_serve. unfold wired. cbn [w_cfg w_initial w_subscribed w_shared w_sinks w_vault w_ner w_guardrails w_providers].
  split_and!; try done. by apply providers_dom.
Qed.

(** *** What an orderly life looks like *)

Definition opened (tr : list (event ptr)) : list part := omap (fun e => match e with Opens p => Some p | _ => None end) tr.
Definition closed (tr : list (event ptr)) : list part := omap (fun e => match e with Closes p => Some p | _ => None end) tr.

Lemma orderly_parts ps a w : orderly ps a w -> opened a.2 `sublist_of` ps /\ closed a.2 = rev (opened a.2).
Proof.
  induction 1 as [ps o Ho|ps w err|ps w err line|ps e a w He Ha [IH1 IH2]|p ps a w Ha [IH1 IH2]|p ps a w Ha [IH1 IH2]];
    try (split; [apply sublist_nil_l|done]).
  - unfold opened, closed in *. by destruct e.
  - unfold opened, closed in *. cbn [holding snd]. cbn [omap list_omap]. rewrite !omap_app. cbn [omap list_omap app rev].
    rewrite app_nil_r, IH2. split; [by apply sublist_skip|done].
  - split; [by apply sublist_cons|done].
Qed.

(** Where it listens. *)
Definition listens_at (a : act) (w : Wiring ptr) : Prop :=
  exists before after, a.2 = before ++ Listens w :: after /\ closed before = [] /\ opened after = []
    /\ (a.1 = Returned None -> exists line rest, after = Says line :: Drains (ShutdownGrace (w_cfg w)) :: rest).

Lemma orderly_listens ps a w x : orderly ps a w -> Listens x ∈ a.2 -> w = Some x /\ listens_at a x.
Proof.
  intros H3. revert x. induction H3 as [ps o Ho|ps w err|ps w err line|ps e a w He Ha IH|p ps a w Ha IH|p ps a w Ha IH]; intros x Hx.
  - by apply elem_of_nil in Hx.
  - apply list_elem_of_singleton in Hx as [= ->]. split; [done|]. by exists [], [].
  - assert (x = w) as -> by (cbn in Hx; set_solver). split; [done|]. exists [], [Says line; Drains (ShutdownGrace (w_cfg w))].
    split_and!; [done..|]. intros _. by exists line, [].
  - apply elem_of_cons in Hx as [<-|Hx]; [done|]. destruct (IH x Hx) as (-> & before & after & Etr & Hc & Ho & Hd). split; [done|].
    exists (e :: before), after. split_and!; [cbn; by rewrite Etr| |done|done]. unfold closed in *. by destruct e.
  - assert (Listens x ∈ a.2) as Hx' by (cbn in Hx; set_solver).
    destruct (IH x Hx') as (-> & before & after & Etr & Hc & Ho & Hd). split; [done|]. exists (Opens p :: before), (after ++ [Closes p]).
    split_and!; [cbn; by rewrite Etr, <- app_assoc|done|unfold opened in *; by rewrite omap_app, Ho|].
    intros Hr. destruct (Hd Hr) as (line & rest & ->). by exists line, (rest ++ [Closes p]).
  - by apply IH.
Qed.

Lemma orderly_clean_exit ps a w : orderly ps a w -> a.1 = Returned None -> exists x, Listens x ∈ a.2.
Proof.
  induction 1 as [ps o Ho|ps w err|ps w err line|ps e a w He Ha IH|p ps a w Ha IH|p ps a w Ha IH]; cbn; intros Hr; try done.
  - exists w. set_solver.
  - destruct (IH Hr) as [x Hx]. exists x. set_solver.
  - destruct (IH Hr) as [x Hx]. exists x. set_solver.
  - by apply IH.
Qed.

Lemma bootstrapped_verified cfg s : bootstrapped cfg s -> exists b digest, verified_from sha256 b s digest.
Proof.
  intros (f & Hf & Hs). apply delivered_verified. case_bool_decide; [by eapply delivered_file|].
  destruct Hs as (src & _ & Hs). by eapply delivered_http.
Qed.

(** C28. A worker starts and stops in order.  Whatever the environment holds and whichever step fails, the
    parts it opened are closed, each once, in the opposite order; they are always opened in the same
    order, so that what uses a part is closed before it: the mirror and the guardrail chain before
    the emitter they report to, the emitter before the Redis client it publishes through, the
    subscriber before the modules it loads into, the tracer last but the signals.  When it listens
    everything it will open is open and nothing is closed; its first snapshot has verified digests
    and comes from the file when one is named; limits, vault and accounting are shared exactly when
    Redis is configured; and no published component answers to the name of a built-in guardrail.  It
    exits without an error only after it has listened and drained the requests in flight, before
    closing anything. *)
Theorem worker_lives_in_order :
  let '(o, tr) := run in
  closed tr = rev (opened tr) /\ opened tr `sublist_of` all_parts
  /\ (forall w, Listens w ∈ tr -> wired w /\ (exists b digest, verified_from sha256 b (w_initial w) digest) /\ listens_at (o, tr) w)
  /\ (o = Returned None -> exists w, Listens w ∈ tr).
Proof.
  destruct run_good as (w & Ho & Hq). destruct run as [o tr]. destruct (orderly_parts _ _ _ Ho) as [Hs Hc]. split_and!; [done|done| |].
  - intros x Hx. destruct (orderly_listens _ _ _ x Ho Hx) as [-> Hl]. pose proof (Hq x eq_refl) as Hw.
    split_and!; [done| |done]. destruct Hw as (_ & Hb & _). by eapply bootstrapped_verified.
  - by apply (orderly_clean_exit _ _ _ Ho).
Qed.

(** A control plane that answers "not modified" to a worker that asked for no version leaves the worker
    with a nil snapshot, and reading its version for the log brings the process down. *)
Theorem unsolicited_304_crashes_startup cfg k resp src :
  SnapshotFile cfg = "" -> NewHTTPSource (ControlPlaneURL cfg) (ControlPlaneToken cfg) = inr src ->
  snapshotRequest (hs_url src) = None -> (forall req, askControlPlane req = inr resp) -> sr_Status resp = StatusNotModified ->
  bootstrap cfg k = (Panicked, []).
Proof.
  intros Hf Hs Hr Ha Hst. unfold bootstrap, bootstrapSource. rewrite Hf, Hs, bool_decide_false by naive_solver. cbn [try fetch_first]. unfold HTTP_Fetch.
  by rewrite Hr, Ha, Hst.
Qed.

(** The rate of sampling is the one that was configured: what loading accepts, tracing keeps. *)
Theorem sampling_is_as_configured cfg e r sample :
  Config.Load ParseFloat FormatFloat getenv = inr cfg ->
  tracing.Setup exporter resource (tracing.mkTracing (OTLPEndpoint cfg) (OTLPInsecure cfg) (TraceSampleRatio cfg) version)
    = inr (tracing.Batching e r sample) -> sample = TraceSampleRatio cfg.
Proof.
  intros Hl. unfold tracing.Setup. cbn [tracing.Endpoint tracing.Insecure tracing.Version tracing.SampleRatio].
  case_bool_decide; [done|]. destruct (exporter _ _); [done|]. destruct (resource _ _); [done|].
  assert (fle (TraceSampleRatio cfg) (of_int 0) = false /\ fgt (TraceSampleRatio cfg) (of_int 1) = false) as [-> ->];
    [|by intros [= _ _ <-]].
  assert (Hv : valid_ratio ParseFloat (getenv "GATEWAY_TRACE_SAMPLE_RATIO") (TraceSampleRatio cfg)).
  { apply (load_ratio_spec ParseFloat FormatFloat). revert Hl. unfold Config.Load. destruct (load_ratio _ _ _) as [|f]; [done|].
    destruct (load_interval _); [done|]. cbn -[length]. destruct (_ && _); [done|]. destruct (_ <? _); [done|]. by intros [= <-]. }
  revert Hv. unfold valid_ratio. case_bool_decide; [intros ->; by vm_compute|by intros (_ & ? & ?)].
Qed.
End run.

(** ** A worker that starts from a file and is told to stop *)

#[local] Existing Instance id_proto.
#[local] Instance life_snapshot_proto : ProtoMessage pb.Snapshot := {|
  proto_Marshal _ := inl (Foreign "unsupported" None); proto_Unmarshal _ := inr (src_message [pb.mkKeyEntry wire_lookup "k1"]) |}.
#[local] Instance life_global_proto : ProtoMessage pb.GlobalLayer := {|
  proto_Marshal _ := inr []; proto_Unmarshal _ := inl (Foreign "unsupported" None) |}.
#[local] Instance life_tenant_proto : ProtoMessage pb.TenantLayer := {|
  proto_Marshal _ := inr []; proto_Unmarshal _ := inl (Foreign "unsupported" None) |}.
Definition life_engine : Engine unit unit unit := {|
  CompileModule _ := inl (Foreign "unsupported" None);
  ExportedFunctions _ := [];
  Instantiate _ _ x := (inl (Foreign "unsupported" None), x);
  Invoke _ _ inst x := (inl (Foreign "unsupported" None), inst, x);
  memory _ := Some [];
  set_memory _ inst := inst |}.

Definition life_env (name : string) : string :=
  if bool_decide (name = "GATEWAY_SNAPSHOT_FILE") then "snapshot.pb"
  else if bool_decide (name = "GATEWAY_KEY_PEPPER") then "a pepper of thirty-two bytes, yes"
  else if bool_decide (name = "GATEWAY_WASM_DIR") then "/modules" else "".

#[local] Abbreviation life :=
  (run (Engine0 := life_engine) (S := Redis.held) (fun _ => inl (Foreign "not a number" None)) (fun _ => []) life_env "dev" (fun _ _ => inr tt) (fun _ _ => inr tt)
    (fun _ => true) no_hash (mkFiles (fun dir name => dir +:+ "/" +:+ name) (fun _ => inr [])) None (fun _ => None)
    (fun _ => inl (Foreign "no network" None)) (fun _ => inl (Foreign "no redis" None)) Answered (fun _ x => (None, x))
    (mkClient unit (fun _ => None) (fun _ x => (inl (Foreign "refused" None), x))) tt None (fun _ => None)).

Lemma life_is_full :
  life.1 = Returned None
  /\ opened life.2 = [Signals; Tracer; Runtime_; InProcess_; Emitter_; Chain_; Prober_; Mirror_]
  /\ closed life.2 = [Mirror_; Prober_; Chain_; Emitter_; InProcess_; Runtime_; Tracer; Signals].
Proof. split_and!; vm_compute; reflexivity. Qed.
